(* ===== verification/_CoqProject ===== *)
-Q . S2P
Prelude.v
Float4.v
PgArray.v
Bytes.v
StringInfo.v
ArrayAgg.v
ExtendedOps.v
Virtual.v
Support.v
Nudf.v
Im2col.v
Sgemm.v
CString.v
HashFn.v
Dynahash.v
HashTable.v
LruCache.v
ModelBuffer.v
MatrixOps.v
Conv.v
Pool.v
TextCnn.v
LoadModel.v
DbTensor.v
DbOp.v
DbModel.v
Kahn.v
DbGraph.v
DbEdges.v
DbLoad.v
DbExport.v
DbSubst.v
DbRewrite.v
DbMatch.v
DbRules.v
DbSearch.v
DbOptimize.v
