(* ===== verification/Prelude.v ===== *)
(** * A verification of the AQUA extension of PEPS

    PEPS runs neural networks inside PostgreSQL.  Its extension AQUA
    ([aqua_extension/]) adds SQL functions that compute the layers of a network on
    arrays of [float4], a pool that keeps the weights of the layers in the memory of
    a backend, an aggregate that assembles tensors from rows, and inference
    functions (nUDFs), which are stored in a catalog of the modified server
    ([pg-src/]) and expanded into sub-queries.  The text of such a sub-query is written
    by a converter in Python ([aqua_extension/src/dbocg/]) from a network in the ONNX
    format.  This library models that code and the parts of the server it is built on,
    and proves what it computes.

    ** How the parts interact

    A model is a set of tables.  [load_model] ([aqua.c]) selects a weight and a bias
    from each and puts them into the weight pool ([model_buffer.c]), a hash table
    ([dynahash.c], [hashfn.c]) with an LRU cache in front of it.  The layers
    ([conv.c], [matrix_op.c], [pool.c], [textcnn.c]) take a tensor, fetch their
    weights from the pool by name, unfold the tensor into patches, call
    [cblas_sgemm] and build a new array ([arrayfuncs.c]).  [array_2d_agg]
    ([extended_op.c]) stacks the tensors of a group; in a parallel query its
    transition states travel between processes as messages ([stringinfo.c],
    [pqformat.c]).  [virtual_in] ([virtual.c]) turns an image into the first tensor.
    The support functions ([support.c]) tell the planner what a layer costs.  A query
    that calls an inference function is rewritten before it is parsed ([aqua.c]).
    The converter reads the nodes of a network in the order of their dependencies
    ([load_onnx], [nudf.py]), builds an operator for each ([model.py], [op.py],
    [tensor.py]) and joins them to a graph ([graph.py]); [export] ([nudf.py]) lists the
    operators of the graph and writes one table expression for each, which calls the
    layers above.  Its optimiser ([optimize], [graph.py]) takes the cheapest graph it has,
    looks for the parts that match a rule ([run], [substitution.py]), replaces them and
    keeps what comes out on a heap.

    ** Files

    - [Prelude] (this file): C integers ([i32], [u32], [u64]), the result type [res]
      with errors ([Ereport], an [ereport(ERROR)]) and undefined behaviour ([Stuck]),
      buffers, [palloc], [memcpy] ([lcopy]), counted loops ([cfor]), OpenMP loops.
    - [Float4]: [float4] and [double] as the Standard Library's [spec_float].
    - [PgArray]: [ArrayType], [ArrayGetNItems] ([arrayutils.c]), [construct_md_array]
      and relatives ([arrayfuncs.c], [matrix_op.c]).
    - [Bytes]: byte memory, byte orders, [array_bitmap_copy], [pg_nextpower2_32].
    - [StringInfo]: [stringinfo.c]; [pq_sendint] to [pq_getmsgend] of [pqformat].
    - [ArrayAgg]: [array_2d_agg_transfn], [_combine], [_finalfn],
      [array_agg_array_serialize], [_deserialize] ([extended_op.c]),
      [accumArrayResultArr] ([arrayfuncs.c]), and the steps of the executor
      ([nodeAgg.c], [execExprInterp.c]) that run them in a parallel plan.
    - [ExtendedOps]: [concat_array], [split_array], [split_vertical_array],
      [batchnorm] ([extended_op.c]).
    - [Virtual]: [virtual_in].  [Support]: [support.c], [add_function_cost].
    - [Nudf]: [NUDFCreate], [CreateNUDF], [create_inference_function],
      [aqua_parser] and the functions it calls.
    - [Im2col]: [im2col_core], [_W], [_H] ([conv.c]), [im2col] ([matrix_op.c]),
      [im2col_test] ([im2col.c]).
    - [Sgemm]: the interface of [cblas_sgemm] and the loop that adds the bias.
    - [CString], [HashFn], [Dynahash]: [strlcpy], [hash_bytes], [string_hash], and
      the hash table with its directory, segments, buckets and free list.
    - [HashTable]: what the pool needs of a hash table, as a class with laws, and the
      instance by [Dynahash].
    - [LruCache], [ModelBuffer]: [model_buffer.c].
    - [MatrixOps]: [relu], [kfm], [kfm_nt], [mvm], [mat_mul], [madd].
    - [Conv]: [kfm_im2col], [kfm_im2col_ns], [group_kfm_im2col].
    - [Pool]: [maxpool], [avgpool], [avgpool_conv].  [TextCnn]: [conv_text].
    - [LoadModel]: [load_model], and its composition with [kfm_nt].
    - [DbTensor]: [tensor.py], [const.py]: tensors, and splits as shared objects.
    - [DbOp]: [op.py], the constructors of operators.
    - [DbModel]: [model.py], the cache of operators and its keys.
    - [Kahn]: the loop by which [has_loop], [get_operator_list], [preprocess_weights] and
      [load_onnx] visit a graph, for any type of nodes.
    - [DbGraph]: [graph.py].  [DbLoad]: [load_onnx] and [utils.py].
    - [DbExport]: [export], with the functions of [graph.py] it calls.
    - [DbEdges]: what adding and removing edges does, and [preprocess_weights].
    - [DbSubst]: the rules of [substitution.py], how they are read, matched and applied.
    - [DbRewrite]: what a graph computes, and that a substitution keeps it.
    - [DbMatch]: what [can_match], [match] and [create_new_operator] establish.
    - [DbRules]: what reading a rule establishes.
    - [DbSearch]: [run] ([substitution.py]), [optimize], [hash], [total_cost] ([graph.py]),
      the heap of [heapq].  [DbOptimize]: that [optimize] keeps what a graph computes.

    ** State and operations

    Every C function is one definition of the same name; a long one is split at its
    loops and branches.  State is passed explicitly: a hash table, a pool, a cache,
    a string buffer and a transition state are records; a function that changes an
    argument in place returns the argument too.  A function returns [Ok v],
    [Ereport msg] where the code raises an error, or [Stuck u] where it reads or
    writes outside an object, follows a null or unset pointer, reads memory it has
    not written, divides by zero or never ends.  That a function returns
    [Ok] therefore includes its memory safety.  The kernel's buffers are lists of
    optional values, [None] where nothing was written; byte memory has arbitrary
    contents when it is new (class [Memory]).  An OpenMP loop runs its iterations in
    any order the class [Omp] chooses; the theorems hold for all.

    In the model of the converter an exception is [Ereport] with the name of its class.
    Python's objects that are shared and changed (the splits of tensors, the operators)
    are addresses in a store; sorted dictionaries and sets are finite maps and sets that
    are visited in the order of their keys.

    ** Theorems

    - Layers: each SQL function is total on arguments of matching shape and every
      cell of its result is the convolution, product, maximum or mean it stands for,
      with the order of a sum left open where the code leaves it to OpenBLAS.  Where a
      function is only right on some shapes (strides that divide, square outputs) the
      hypotheses say so.
    - Storage: [dynahash] refines a finite map from keys to values under any sequence
      of searches by a caller who assigns the entries it enters; a bucket split keeps its contents, a scan visits every entry once; the cache
      refines a list in order of use; the pool returns what was inserted and accounts
      for its memory.
    - Loading: the pool after [load_model], and a product computed with it.
    - Aggregation: the aggregate stacks matrices and their null bitmaps; a parallel
      plan equals the sequential one, if every worker has rows and no share without nulls
      follows one with; messages are read back as they were sent.
    - Inference functions: which text the parser hook replaces, and when it leaves a query
      as it is; the keys of the catalog.
    - Converter: the constructors follow the typing rules of the operators; the loop of
      [Kahn] visits every node of an acyclic graph once and in order, so that [load_onnx]
      reads every node, [has_loop] is right and the graph of every loaded model can be
      listed; the query refers only to tables that are defined, if its operators read only
      what [export] gives a table; the padding it passes to [im2col] gives the sizes the
      graph has computed.
    - Optimiser: [preprocess_weights] removes the unused weights and nothing else; a
      substitution by a valid rule leaves the values of all other operators as they are;
      every graph that [run] finds is such a substitution, and [run] undoes its matches;
      therefore the operators that a loaded model and the result of [optimize] have in common
      have the same values in both.  What an operator means is left open: a rule is valid for
      a meaning if its two patterns compute the same outputs.  The rules must read every
      tensor from outside once: for others [unmatch] fails ([unmatch_shared_input]).
    - Faults: the inputs on which the code reads or writes where it should not are
      theorems too; faults that one example shows are lemmas ([parallel_plan_loses_items],
      [export_not_scoped], [export_weights_lost]).

    ** Bounds and fuel

    Sizes are bounded by the server's own limits: [MaxArraySize] (134217727 elements)
    and [MaxAllocSize] (1 GB - 1); below them no [int] computation of the modelled
    functions wraps.  Loops counted by an [int] are [cfor], whose fuel is the number
    of iterations.  The other loops carry fuel and are [Stuck NoProgress] without it;
    the theorems show that they finish.  The doublings of a size have fuel 32 or 64,
    one per bit ([newlen_loop], [choose_loop]); [appendStringInfo] has 3, because the
    second try has the room the first one asked for; a walk through a list has one
    more than the list can hold (the nodes of the cache, the buckets and the entries
    of a hash table, the rows of [split_array]).  [kahn] has one per node, or two where
    names may be visited twice ([reorder]); [remove_dead] one more than there are nodes;
    [siftdown] and [siftup] one per item of the heap.  [run] counts the operators of the
    pattern that are left, [optimize_loop] the rounds of its budget.

    ** Parameters

    [cblas_sgemm] (class [Cblas]), the OpenMP schedule ([Omp]), the contents of fresh
    memory ([Memory]), libjpeg ([Jpeg]), the result of a query ([Database]), the type
    catalog ([Catalog]), and the parser, the search path and the oid counter
    ([NudfEnv]).  For the converter: the values of a constant of an ONNX file
    ([array_values]) and the address of the weights made for a pooling ([pool_data]); the
    file itself is given parsed, as the [onnx] package returns it, and so is the file of
    rules; [id] and the [hash] of an object are the class [PyObjects].  The compiler flag
    [-ffast-math] is not modelled: sums in C code are taken in the order of the source.

    ** Not modelled

    - [core.c], [aqua_set_rel_pathlist]: copies of the planner's path search, and a hook that
      is not installed; they only pass planner structures on to the server.
    - [test_flops] ([virtual.c]): a data race on one variable, without defined value.
    - [print_all_keys]: prints.
    - [dynahash]: shared, partitioned and fixed-size tables, statistics, and the list
      of active scans, which the pool does not use.
    - Detoasting: array arguments are taken as plain values.
    - Of the converter: the generated parser of [rules_pb2.py]; [print_rule] and
      [subst_history], which only record what was done; the upload of weights
      ([db_executor.py]), which is input and output; the contents of weights.
    - The notebooks under [exp/], and the rest of PostgreSQL. *)

From Stdlib Require Export ZArith Lia.
From stdpp Require Export base list numbers strings sets gmap.

Open Scope Z_scope.
Coercion Z.of_nat : nat >-> Z.

(** ** Machine integers

    The extension is compiled with the flags PostgreSQL's [configure] records,
    [-fwrapv] among them, so signed arithmetic on [int] wraps around. *)

Definition int_min : Z := -2147483648.
Definition int_max : Z := 2147483647.

(** Conversion to [int] (32 bits, two's complement). *)
Definition i32 (z : Z) : Z := (z + 2147483648) mod 4294967296 - 2147483648.
(** Conversion to [uint32]. *)
Definition u32 (z : Z) : Z := z mod 4294967296.

(** [Size], 64 bits, wraps around. *)
Definition u64 (z : Z) : Z := z mod 18446744073709551616.

Definition is_int (z : Z) : Prop := int_min <= z <= int_max.

Lemma i32_id z : is_int z → i32 z = z.
Proof.
  unfold is_int, int_min, int_max, i32. intros.
  rewrite Z.mod_small; lia.
Qed.

Lemma i32_range z : is_int (i32 z).
Proof.
  unfold is_int, int_min, int_max, i32.
  pose proof (Z.mod_pos_bound (z + 2147483648) 4294967296). lia.
Qed.

Lemma u32_id z : 0 <= z < 4294967296 → u32 z = z.
Proof. intros. unfold u32. by apply Z.mod_small. Qed.

Lemma u32_range z : 0 <= u32 z < 4294967296.
Proof. unfold u32. by apply Z.mod_pos_bound. Qed.

(** Converting an [int] to [uint32] and back is the identity. *)
Lemma i32_u32 z : i32 (u32 z) = i32 z.
Proof.
  unfold i32, u32. rewrite <-(Zplus_mod_idemp_l z). reflexivity.
Qed.

(** Wrapping is a ring homomorphism: only the outermost conversion matters. *)
Lemma i32_eqm a b : a mod 4294967296 = b mod 4294967296 → i32 a = i32 b.
Proof.
  intros H. unfold i32. rewrite Zplus_mod, H, <-Zplus_mod. done.
Qed.

Lemma i32_mod z : i32 z mod 4294967296 = z mod 4294967296.
Proof. unfold i32. rewrite Zminus_mod_idemp_l. f_equal. ring. Qed.

Lemma i32_add_l a b : i32 (i32 a + b) = i32 (a + b).
Proof. apply i32_eqm. rewrite Zplus_mod, i32_mod, <-Zplus_mod. done. Qed.
Lemma i32_add_r a b : i32 (a + i32 b) = i32 (a + b).
Proof. rewrite Z.add_comm, i32_add_l. f_equal. ring. Qed.
Lemma i32_mul_l a b : i32 (i32 a * b) = i32 (a * b).
Proof. apply i32_eqm. rewrite Zmult_mod, i32_mod, <-Zmult_mod. done. Qed.
Lemma i32_mul_r a b : i32 (a * i32 b) = i32 (a * b).
Proof. rewrite Z.mul_comm, i32_mul_l. f_equal. ring. Qed.

Create Rewrite HintDb i32.
#[export] Hint Rewrite i32_add_l i32_add_r i32_mul_l i32_mul_r : i32.

(** Integers that are equal once converted to [int]. *)
Definition congr (a b : Z) : Prop := i32 a = i32 b.

#[export] Instance congr_equivalence : Equivalence congr.
Proof. split; unfold congr; [by intros ?|by intros ??|by intros ??? -> ]. Qed.
#[export] Instance congr_add : Proper (congr ==> congr ==> congr) Z.add.
Proof.
  unfold congr. intros a a' Ha b b' Hb.
  by rewrite <-i32_add_l, Ha, i32_add_l, <-i32_add_r, Hb, i32_add_r.
Qed.
#[export] Instance congr_mul : Proper (congr ==> congr ==> congr) Z.mul.
Proof.
  unfold congr. intros a a' Ha b b' Hb.
  by rewrite <-i32_mul_l, Ha, i32_mul_l, <-i32_mul_r, Hb, i32_mul_r.
Qed.
#[export] Instance congr_opp : Proper (congr ==> congr) Z.opp.
Proof.
  intros a a' Ha. rewrite <-(Z.mul_1_l a), <-(Z.mul_1_l a'), <-!Z.mul_opp_l.
  by apply congr_mul.
Qed.
#[export] Instance congr_sub : Proper (congr ==> congr ==> congr) Z.sub.
Proof. intros a a' Ha b b' Hb. unfold Z.sub. by rewrite Ha, Hb. Qed.

Lemma congr_i32 z : congr (i32 z) z.
Proof. apply i32_id, i32_range. Qed.

(** Proves [i32 a = i32 b] when [a] and [b] are equal as polynomials once the
    conversions inside them are dropped. *)
Ltac i32_ring :=
  match goal with |- i32 ?a = i32 ?b => change (congr a b) end;
  repeat setoid_rewrite congr_i32;
  match goal with |- congr ?a ?b => change (i32 a = i32 b) end;
  f_equal; ring.

(** Closes a goal that is a hypothesis or holds by evaluation; hypotheses about runs
    of the program, which [done] would evaluate, are left aside. *)
Ltac by_eval := first [eassumption | clear; done].

(** Discharges [is_int] goals, and [i32_id] side conditions, by arithmetic. *)
Ltac int_solve := unfold is_int, int_min, int_max in *; lia.
Ltac int_nsolve := unfold is_int, int_min, int_max in *; nia.

(** ** Results

    A C function returns a value, leaves through [ereport(ERROR)] (or
    [elog(ERROR)]), or runs into behaviour the language does not define.  The
    last case is a value of the model too, so that a theorem which says that a
    call returns [Ok] also says that every access it makes is in bounds. *)

Inductive ub : Set :=
  | OutOfBounds     (* access outside an object *)
  | Uninitialised   (* read of memory [palloc] has not cleared *)
  | ArithTrap       (* division by zero, or INT_MIN / -1 *)
  | BadShift        (* shift by the width of the operand or more *)
  | NoProgress      (* a loop whose counter never reaches its bound *)
  | UseAfterFree    (* access to, or second release of, freed memory *)
  | NullDeref       (* dereference of NULL or of a pointer never assigned *).

Inductive res (A : Type) : Type :=
  | Ok (a : A)
  | Ereport (msg : string)
  | Stuck (u : ub).
Arguments Ok {A} a.
Arguments Ereport {A} msg.
Arguments Stuck {A} u.

#[export] Instance ub_eq_dec : EqDecision ub.
Proof. solve_decision. Defined.
#[export] Instance res_eq_dec {A} `{EqDecision A} : EqDecision (res A).
Proof. solve_decision. Defined.

#[export] Instance res_ret : MRet res := λ A a, Ok a.
#[export] Instance res_bind : MBind res := λ A B f m,
  match m with
  | Ok a => f a
  | Ereport msg => Ereport msg
  | Stuck u => Stuck u
  end.

Lemma res_bind_Ok {A B} (m : res A) (f : A → res B) b :
  (m ≫= f) = Ok b ↔ ∃ a, m = Ok a ∧ f a = Ok b.
Proof. destruct m; simpl; naive_solver. Qed.

(** [require c u m] runs [m] when [c] holds and is undefined otherwise. *)
Definition require {A} (c : bool) (u : ub) (m : res A) : res A :=
  if c then m else Stuck u.
(** [check c msg m] is [if (!c) elog(ERROR, msg)] followed by [m]. *)
Definition check {A} (c : bool) (msg : string) (m : res A) : res A :=
  if c then m else Ereport msg.

Lemma require_true {A} c u (m : res A) : c = true → require c u m = m.
Proof. by intros ->. Qed.
Lemma check_true {A} c msg (m : res A) : c = true → check c msg m = m.
Proof. by intros ->. Qed.

(** Integer division of C: truncation, with the two trapping cases. *)
Definition idiv (a b : Z) : res Z :=
  require (negb (b =? 0) && negb ((a =? int_min) && (b =? -1)))
          ArithTrap (Ok (Z.quot a b)).
Definition imod (a b : Z) : res Z :=
  require (negb (b =? 0) && negb ((a =? int_min) && (b =? -1)))
          ArithTrap (Ok (Z.rem a b)).

Lemma idiv_pos a b : 0 <= a → 0 < b → idiv a b = Ok (a / b).
Proof.
  intros. unfold idiv. rewrite require_true by (unfold int_min; lia).
  by rewrite Z.quot_div_nonneg.
Qed.
Lemma imod_pos a b : 0 <= a → 0 < b → imod a b = Ok (a mod b).
Proof.
  intros. unfold imod. rewrite require_true by (unfold int_min; lia).
  by rewrite Z.rem_mod_nonneg.
Qed.

(** ** Loops

    [cfor lo hi step body s] is [for (int i = lo; i < hi; i += step) s = body(i)].
    The counter is an [int] and wraps.  The fuel is one more than the number of
    iterations of a loop whose counter does not wrap; a loop that needs more,
    because its step is not positive, never reaches its bound. *)

Definition trips (lo hi step : Z) : Z :=
  if 0 <? step then Z.max 0 ((hi - lo + step - 1) / step) else 0.

Section loops.
  Context {S : Type}.
  Implicit Types (s : S) (body : Z → S → res S).

Fixpoint for_loop (fuel : nat) (i hi step : Z) body s : res S :=
  match fuel with
  | O => Stuck NoProgress
  | Datatypes.S fuel =>
      if i <? hi
      then s' ← body i s; for_loop fuel (i32 (i + step)) hi step body s'
      else Ok s
  end.

Definition cfor (lo hi step : Z) body s : res S :=
  for_loop (Datatypes.S (Z.to_nat (trips lo hi step))) lo hi step body s.

(** Total correctness of a counted loop by an invariant on the number of
    iterations done. *)
Lemma for_loop_total (I : Z → S → Prop) lo hi step body :
  0 < step → is_int lo → hi + step <= int_max + 1 →
  (∀ n s, 0 <= n → lo + n * step < hi → I n s →
     ∃ s', body (lo + n * step) s = Ok s' ∧ I (n + 1) s') →
  ∀ fuel n s, 0 <= n → trips lo hi step - n < Z.of_nat fuel → n <= trips lo hi step →
    I n s →
    ∃ s', for_loop fuel (lo + n * step) hi step body s = Ok s' ∧ I (trips lo hi step) s'.
Proof.
  intros Hstep Hlo Hhi Hbody. induction fuel as [|fuel IH]; intros n s Hn Hf Hle HI.
  { lia. }
  simpl. unfold trips in *. rewrite (proj2 (Z.ltb_lt 0 step)) in * by lia.
  pose proof (Z.div_mod (hi - lo + step - 1) step ltac:(lia)) as Hdm.
  pose proof (Z.mod_pos_bound (hi - lo + step - 1) step ltac:(lia)) as Hmod.
  set (q := (hi - lo + step - 1) / step) in *.
  destruct (Z.ltb_spec (lo + n * step) hi) as [Hlt|Hge].
  - destruct (Hbody n s Hn Hlt HI) as (s' & Hs' & HI').
    rewrite Hs'. simpl.
    assert (n < q) by nia.
    rewrite i32_id by (unfold is_int, int_min, int_max in *; nia).
    replace (lo + n * step + step) with (lo + (n + 1) * step) by ring.
    apply IH; [lia..|done].
  - exists s. split; [done|].
    assert (Z.max 0 q = n) as -> by nia. done.
Qed.

Lemma cfor_total (I : Z → S → Prop) lo hi step body s :
  0 < step → is_int lo → hi + step <= int_max + 1 → I 0 s →
  (∀ n s, 0 <= n < trips lo hi step → I n s →
     ∃ s', body (lo + n * step) s = Ok s' ∧ I (n + 1) s') →
  ∃ s', cfor lo hi step body s = Ok s' ∧ I (trips lo hi step) s'.
Proof.
  intros Hstep Hlo Hhi H0 Hbody. unfold cfor.
  assert (0 <= trips lo hi step) by (unfold trips; case_match; lia).
  epose proof (for_loop_total I lo hi step body Hstep Hlo Hhi _ _ 0 s) as Hloop.
  rewrite Z.mul_0_l, Z.add_0_r in Hloop. apply Hloop; [lia..|done].
  Unshelve. intros n s' Hn Hlt HI. apply Hbody; [|done]. split; [done|].
  unfold trips. rewrite (proj2 (Z.ltb_lt 0 step)) by lia.
  pose proof (Z.div_mod (hi - lo + step - 1) step ltac:(lia)).
  pose proof (Z.mod_pos_bound (hi - lo + step - 1) step ltac:(lia)). nia.
Qed.

(** Partial correctness: what a loop that returned has established. *)
Lemma for_loop_partial (I : Z → S → Prop) lo hi step body :
  0 < step → is_int lo → hi + step <= int_max + 1 →
  (∀ n s s', 0 <= n → lo + n * step < hi → I n s → body (lo + n * step) s = Ok s' →
     I (n + 1) s') →
  ∀ fuel n s s', 0 <= n → n <= trips lo hi step → I n s →
    for_loop fuel (lo + n * step) hi step body s = Ok s' → I (trips lo hi step) s'.
Proof.
  intros Hstep Hlo Hhi Hbody. induction fuel as [|fuel IH]; intros n s s' Hn Hle HI Hrun.
  { done. }
  simpl in Hrun. unfold trips in *. rewrite (proj2 (Z.ltb_lt 0 step)) in * by lia.
  pose proof (Z.div_mod (hi - lo + step - 1) step ltac:(lia)) as Hdm.
  pose proof (Z.mod_pos_bound (hi - lo + step - 1) step ltac:(lia)) as Hmod.
  set (q := (hi - lo + step - 1) / step) in *.
  destruct (Z.ltb_spec (lo + n * step) hi) as [Hlt|Hge].
  - apply res_bind_Ok in Hrun as (s1 & Hb & Hrun).
    assert (n < q) by nia.
    rewrite i32_id in Hrun by (unfold is_int, int_min, int_max in *; nia).
    replace (lo + n * step + step) with (lo + (n + 1) * step) in Hrun by ring.
    eapply IH; [| |by eapply Hbody|done]; lia.
  - injection Hrun as <-. assert (Z.max 0 q = n) as -> by nia. done.
Qed.

Lemma cfor_partial (I : Z → S → Prop) lo hi step body s s' :
  0 < step → is_int lo → hi + step <= int_max + 1 → I 0 s →
  (∀ n s s', 0 <= n → lo + n * step < hi → I n s → body (lo + n * step) s = Ok s' →
     I (n + 1) s') →
  cfor lo hi step body s = Ok s' → I (trips lo hi step) s'.
Proof.
  intros ??? H0 Hbody Hrun.
  assert (0 <= trips lo hi step) by (unfold trips; case_match; lia).
  eapply for_loop_partial with (n := 0); [done..|lia|done|exact H0|].
  rewrite Z.mul_0_l, Z.add_0_r. exact Hrun.
Qed.

(** The same rule for a loop whose state after [n] iterations is [st n]. *)
Lemma cfor_states (st : Z → S) lo hi step body :
  0 < step → is_int lo → hi + step <= int_max + 1 →
  (∀ n, 0 <= n < trips lo hi step → body (lo + n * step) (st n) = Ok (st (n + 1))) →
  cfor lo hi step body (st 0) = Ok (st (trips lo hi step)).
Proof.
  intros ??? Hbody.
  destruct (cfor_total (λ n s, s = st n) lo hi step body (st 0)) as (s' & Hs & ->); auto.
  intros n s Hn ->. eauto.
Qed.

Lemma cfor_skip lo hi step body s : hi <= lo → cfor lo hi step body s = Ok s.
Proof. intros. unfold cfor. simpl. by rewrite (proj2 (Z.ltb_ge lo hi)) by lia. Qed.

End loops.

Lemma trips_nonneg lo hi step : 0 <= trips lo hi step.
Proof. unfold trips. case_match; lia. Qed.

Lemma trips_unit lo hi : lo <= hi → trips lo hi 1 = hi - lo.
Proof. intros. unfold trips. simpl. rewrite Z.div_1_r. lia. Qed.

(** The first iteration. *)
Lemma cfor_first {S} lo hi (body : Z → S → res S) s :
  lo < hi → is_int (lo + 1) → cfor lo hi 1 body s = (s ← body lo s; cfor (lo + 1) hi 1 body s).
Proof.
  intros Hlt Hint. unfold cfor. rewrite !trips_unit by lia.
  replace (Z.to_nat (hi - lo)) with (Datatypes.S (Z.to_nat (hi - (lo + 1)))) by lia.
  cbn [for_loop]. rewrite (proj2 (Z.ltb_lt lo hi)), i32_id by done. done.
Qed.

(** A loop that only tests. *)
Lemma cfor_unit lo hi (body : Z → unit → res unit) :
  is_int lo → lo <= hi → hi < int_max → (∀ i, lo <= i < hi → body i tt = Ok tt) → cfor lo hi 1 body tt = Ok tt.
Proof.
  intros Hlo Hle Hhi Hbody.
  destruct (cfor_total (λ _ _, True) lo hi 1 body tt) as ([] & Hrun & _); [done|done|lia|done| |done].
  intros n [] Hn _. rewrite trips_unit in Hn by lia. exists tt. split; [|done]. apply Hbody. lia.
Qed.

(** ** Arrays and buffers

    An object of [n] elements is a list of length [n]; an access outside it is
    [Stuck OutOfBounds].  Memory obtained from [palloc] holds cells that may not
    have been written yet: a [buf] is a list of optional elements. *)

Definition zlen {A} (l : list A) : Z := Z.of_nat (length l).

Definition lget {A} (l : list A) (i : Z) : res A :=
  if 0 <=? i
  then match l !! Z.to_nat i with Some x => Ok x | None => Stuck OutOfBounds end
  else Stuck OutOfBounds.

Definition lset {A} (l : list A) (i : Z) (x : A) : res (list A) :=
  if (0 <=? i) && (i <? zlen l) then Ok (<[Z.to_nat i := x]> l) else Stuck OutOfBounds.

Abbreviation buf E := (list (option E)).

Definition bget {E} (b : buf E) (i : Z) : res E :=
  c ← lget b i; match c with Some v => Ok v | None => Stuck Uninitialised end.
Definition bset {E} (b : buf E) (i : Z) (v : E) : res (buf E) := lset b i (Some v).

(** [memcpy(dst + doff, src + soff, n)], counted in elements. *)
Definition lcopy {A} (dst : list A) (doff : Z) (src : list A) (soff n : Z) : res (list A) :=
  require ((0 <=? n) && (0 <=? doff) && (doff + n <=? zlen dst)
           && (0 <=? soff) && (soff + n <=? zlen src)) OutOfBounds
    (Ok (take (Z.to_nat doff) dst
         ++ take (Z.to_nat n) (drop (Z.to_nat soff) src)
         ++ drop (Z.to_nat (doff + n)) dst)).

Lemma zlen_nonneg {A} (l : list A) : 0 <= zlen l.
Proof. unfold zlen. lia. Qed.

Lemma lget_lookup {A} (l : list A) (i : Z) x :
  0 <= i → l !! Z.to_nat i = Some x → lget l i = Ok x.
Proof. intros Hi Hx. unfold lget. rewrite (proj2 (Z.leb_le 0 i)) by lia. by rewrite Hx. Qed.

Lemma lget_Ok {A} (l : list A) (i : Z) x :
  lget l i = Ok x ↔ 0 <= i ∧ l !! Z.to_nat i = Some x.
Proof.
  unfold lget. destruct (Z.leb_spec 0 i); [|naive_solver lia].
  destruct (l !! Z.to_nat i); naive_solver.
Qed.

Lemma lget_in_range {A} (l : list A) (i : Z) :
  0 <= i < zlen l → ∃ x, lget l i = Ok x ∧ l !! Z.to_nat i = Some x.
Proof.
  unfold zlen. intros Hi.
  destruct (lookup_lt_is_Some_2 l (Z.to_nat i)) as [x Hx]; [lia|].
  exists x. split; [apply lget_lookup; [lia|done]|done].
Qed.

Lemma bget_lget {E} (b : buf E) i v : lget b i = Ok (Some v) → bget b i = Ok v.
Proof. intros Hl. unfold bget. by rewrite Hl. Qed.

(** [upd g lo w l] rewrites the cells [lo .. lo+w-1] of [l] with [g], which sees
    the index and the old cell.  Loop bodies that write one cell after another
    are proved equal to it. *)
Definition upd {A} (g : Z → A → A) (lo w : Z) (l : list A) : list A :=
  imap (λ (j : nat) x, if (lo <=? j) && (j <? lo + w) then g j x else x) l.
Definition fill {E} (spec : Z → E) : Z → Z → buf E → buf E :=
  upd (λ j _, Some (spec j)).
(** The buffer of length [n] whose cell [j] holds [spec j]. *)
Definition tabulate {E} (spec : Z → E) (n : Z) : buf E :=
  (λ j, Some (spec j)) <$> seqZ 0 n.

Section upd.
  Context {A : Type}.
  Implicit Types (g : Z → A → A) (l : list A).

Lemma length_upd g lo w l : length (upd g lo w l) = length l.
Proof. apply length_imap. Qed.

Lemma zlen_upd g lo w l : zlen (upd g lo w l) = zlen l.
Proof. unfold zlen. by rewrite length_upd. Qed.

Lemma lookup_upd g lo w l (j : nat) :
  upd g lo w l !! j
  = (λ x, if (lo <=? j) && (j <? lo + w) then g j x else x) <$> l !! j.
Proof. unfold upd. by rewrite list_lookup_imap. Qed.

Lemma upd_nil g lo w l : w <= 0 → upd g lo w l = l.
Proof.
  intros. apply list_eq. intros j. rewrite lookup_upd.
  destruct (l !! j); simpl; [|done]. by case_match; try lia.
Qed.

Lemma upd_app g lo w1 w2 l :
  0 <= w1 → 0 <= w2 → upd g (lo + w1) w2 (upd g lo w1 l) = upd g lo (w1 + w2) l.
Proof.
  intros. apply list_eq. intros j. rewrite !lookup_upd.
  destruct (l !! j); simpl; [|done]. f_equal.
  repeat case_match; try lia; done.
Qed.

Lemma upd_ext g g' lo w l :
  (∀ j x, lo <= j < lo + w → g j x = g' j x) → upd g lo w l = upd g' lo w l.
Proof.
  intros Hg. apply list_eq. intros j. rewrite !lookup_upd.
  destruct (l !! j); simpl; [|done]. f_equal.
  case_match; [apply Hg; lia|done].
Qed.

Lemma lset_upd g l (i : Z) x :
  lget l i = Ok x → lset l i (g i x) = Ok (upd g i 1 l).
Proof.
  intros [Hi Hx]%lget_Ok. pose proof (lookup_lt_Some _ _ _ Hx) as Hlt.
  unfold lset, zlen.
  rewrite (proj2 (Z.leb_le 0 i)), (proj2 (Z.ltb_lt i _)) by lia. simpl. f_equal.
  apply list_eq. intros j. rewrite lookup_upd.
  destruct (decide (j = Z.to_nat i)) as [->|Hne].
  - rewrite list_lookup_insert_eq, Hx by lia. simpl.
    rewrite Z2Nat.id by lia. by case_match; try lia.
  - rewrite list_lookup_insert_ne by done.
    destruct (l !! j); simpl; [|done]. by case_match; try lia.
Qed.

(** A counted loop whose body rewrites the next [w] cells. *)
Lemma cfor_upd g lo hi step body l idx w :
  0 < step → is_int lo → hi + step <= int_max + 1 → 0 <= w →
  (∀ n l', 0 <= n < trips lo hi step → l' = upd g idx (n * w) l →
     body (lo + n * step) (l', idx + n * w)
     = Ok (upd g (idx + n * w) w l', idx + n * w + w)) →
  cfor lo hi step body (l, idx)
  = Ok (upd g idx (trips lo hi step * w) l, idx + trips lo hi step * w).
Proof.
  intros ??? Hw Hbody.
  pose proof (cfor_states (λ n, (upd g idx (n * w) l, idx + n * w)) lo hi step body) as H'.
  cbv beta in H'. rewrite Z.mul_0_l, Z.add_0_r, upd_nil in H' by lia.
  apply H'; auto. intros n Hn. rewrite (Hbody n) by done.
  rewrite upd_app by nia.
  replace ((n + 1) * w) with (n * w + w) by ring. by rewrite Z.add_assoc.
Qed.

End upd.

(** Writing a constant pattern. *)
Lemma bset_fill {E} (spec : Z → E) (b : buf E) i :
  0 <= i < zlen b → bset b i (spec i) = Ok (fill spec i 1 b).
Proof.
  intros Hi. destruct (lget_in_range b i Hi) as (x & Hx & _).
  unfold bset, fill. by apply (lset_upd (λ j _, Some (spec j))) in Hx.
Qed.

(** One store through a running index. *)
Lemma store_step {E} (spec : Z → E) (b : buf E) i v :
  v = spec i → 0 <= i < zlen b → i < int_max →
  (b' ← bset b i v; Ok (b', i32 (i + 1))) = Ok (fill spec i 1 b, i + 1).
Proof.
  intros -> Hi Hl. rewrite bset_fill by done. simpl. rewrite i32_id by int_solve. done.
Qed.

(** A loop that stores [w] cells per iteration through a running index. *)
Lemma cfor_fill {E} (spec : Z → E) n body (b : buf E) idx w :
  0 <= n <= int_max → 0 <= w →
  (∀ i b', 0 <= i < n → zlen b' = zlen b →
     body i (b', idx + i * w) = Ok (fill spec (idx + i * w) w b', idx + i * w + w)) →
  cfor 0 n 1 body (b, idx) = Ok (fill spec idx (n * w) b, idx + n * w).
Proof.
  intros Hn Hw Hbody. unfold fill.
  rewrite (cfor_upd (λ j _, Some (spec j)) 0 n 1 body b idx w);
    rewrite ?trips_unit, ?Z.sub_0_r by lia; try int_solve; try done.
  intros i b' Hi ->. rewrite Z.mul_1_r, Z.add_0_l. apply Hbody; [done|apply zlen_upd].
Qed.

Lemma bget_upd_other {E} (g : Z → option E → option E) lo w (b : buf E) i :
  i < lo ∨ lo + w <= i → bget (upd g lo w b) i = bget b i.
Proof.
  intros Hi. unfold bget, lget. destruct (Z.leb_spec 0 i); [|done].
  rewrite lookup_upd. destruct (b !! Z.to_nat i); simpl; [|done].
  rewrite Z2Nat.id by lia.
  by replace ((lo <=? i) && (i <? lo + w)) with false by lia.
Qed.

Lemma lookup_tabulate {E} (spec : Z → E) n (j : nat) :
  j < n → tabulate spec n !! j = Some (Some (spec j)).
Proof.
  intros. unfold tabulate. rewrite list_lookup_fmap, lookup_seqZ_lt by lia.
  simpl. by rewrite Z.add_0_l.
Qed.

Lemma zlen_tabulate {E} (spec : Z → E) n : 0 <= n → zlen (tabulate spec n) = n.
Proof. intros. unfold zlen, tabulate. rewrite length_fmap, length_seqZ. lia. Qed.

Lemma bget_tabulate {E} (spec : Z → E) n i :
  0 <= i < n → bget (tabulate spec n) i = Ok (spec i).
Proof.
  intros. unfold bget. erewrite lget_lookup;
    [| lia | apply lookup_tabulate; lia]. simpl. by rewrite Z2Nat.id by lia.
Qed.

Lemma tabulate_ext {E} (s1 s2 : Z → E) n :
  (∀ i, 0 <= i < n → s1 i = s2 i) → tabulate s1 n = tabulate s2 n.
Proof.
  intros Hs. unfold tabulate. apply list_fmap_ext. intros i x Hx.
  apply lookup_seqZ in Hx as [-> ?]. by rewrite Hs by lia.
Qed.

Lemma fill_all {E} (spec : Z → E) (b : buf E) :
  fill spec 0 (zlen b) b = tabulate spec (zlen b).
Proof.
  apply list_eq. intros j. unfold fill. rewrite lookup_upd.
  destruct (b !! j) eqn:Hb; simpl.
  - pose proof (lookup_lt_Some _ _ _ Hb). unfold zlen.
    rewrite lookup_tabulate by lia. by case_match; try lia.
  - apply lookup_ge_None in Hb. symmetry. apply lookup_ge_None.
    unfold tabulate, zlen. rewrite length_fmap, length_seqZ. lia.
Qed.

(** A lookup table filled with [g]. *)
Lemma lget_table {A} (g : Z → A) n i : 0 <= i < n → lget (g <$> seqZ 0 n) i = Ok (g i).
Proof.
  intros. apply lget_lookup; [lia|].
  rewrite list_lookup_fmap, lookup_seqZ_lt by lia. simpl. do 2 f_equal. lia.
Qed.

(** ** Parallel loops

    [#pragma omp parallel for] hands the iterations of a loop (of a [collapse]d
    loop nest, of all its index tuples) to a team of threads.  The OpenMP
    runtime decides the order in which they take effect, and that order is a
    parameter: the class says only that every iteration runs exactly once. *)

Class Omp := {
  omp_order : ∀ {A : Type}, list A → list A;
  omp_order_perm : ∀ {A : Type} (l : list A), omp_order l ≡ₚ l
}.

(** Two concrete schedules, program order and its reverse. *)
Definition omp_program_order : Omp :=
  {| omp_order := λ A l, l; omp_order_perm := λ A l, reflexivity l |}.
Definition omp_reverse_order : Omp :=
  {| omp_order := λ A l, reverse l; omp_order_perm := λ A l, reverse_Permutation l |}.

Fixpoint foldM {A S} (f : A → S → res S) (xs : list A) (s : S) : res S :=
  match xs with
  | [] => Ok s
  | x :: xs => s' ← f x s; foldM f xs s'
  end.

Lemma foldM_app {A S} (f : A → S → res S) xs ys s : foldM f (xs ++ ys) s = (s ← foldM f xs s; foldM f ys s).
Proof. revert s. induction xs as [|x xs IH]; intros s; simpl; [done|]. destruct (f x s); simpl; [apply IH|done|done]. Qed.

Definition omp_for `{Omp} {A S} (space : list A) (body : A → S → res S) (s : S) : res S :=
  foldM body (omp_order space) s.

(** The counter values of [for (i = lo; i < hi; i += step)].  A loop that steps
    away from its bound is not a loop OpenMP accepts. *)
Definition range (lo hi step : Z) : list Z := (λ n, lo + n * step) <$> seqZ 0 (trips lo hi step).
Definition omp_range (lo hi step : Z) : res (list Z) :=
  require (0 <? step) NoProgress (Ok (range lo hi step)).

Lemma omp_range_ok lo hi step : 0 < step → omp_range lo hi step = Ok (range lo hi step).
Proof. intros. unfold omp_range. rewrite require_true; [done|]. lia. Qed.

Lemma elem_of_range lo hi step i :
  i ∈ range lo hi step ↔ ∃ n, i = lo + n * step ∧ 0 <= n < trips lo hi step.
Proof.
  unfold range. rewrite list_elem_of_fmap.
  by setoid_rewrite elem_of_seqZ.
Qed.

(** Iterations that each write their own part of one pattern leave that pattern
    behind, in whatever order they run. *)
Lemma foldM_fill {E I} (spec : Z → E) (base : I → Z) (w : Z) its body (b : buf E) :
  (∀ it b', it ∈ its → zlen b' = zlen b → body it b' = Ok (fill spec (base it) w b')) →
  ∃ b', foldM body its b = Ok b' ∧ zlen b' = zlen b ∧
    (∀ (j : nat), (∃ it, it ∈ its ∧ base it <= j < base it + w) → (j < length b)%nat →
        b' !! j = Some (Some (spec j))) ∧
    (∀ (j : nat), (∀ it, it ∈ its → ¬ base it <= j < base it + w) → b' !! j = b !! j).
Proof.
  revert b. induction its as [|it its IH]; intros b Hbody; simpl.
  { exists b. repeat split; try done. intros j (it & Hit & _). set_solver. }
  rewrite (Hbody it b) by set_solver. simpl.
  destruct (IH (fill spec (base it) w b)) as (b' & Hf & Hl & Hin & Hout).
  { intros it' b' Hit' Hlen. apply Hbody; [set_solver|].
    rewrite Hlen. apply zlen_upd. }
  exists b'. split; [done|]. split; [by rewrite Hl; apply zlen_upd|].
  assert (∀ j : nat, (j < length b)%nat → base it <= j < base it + w →
    fill spec (base it) w b !! j = Some (Some (spec j))) as Hhere.
  { intros j Hj Hr. unfold fill. rewrite lookup_upd.
    destruct (lookup_lt_is_Some_2 b j Hj) as [x ->]. simpl.
    by case_match; try lia. }
  split.
  - intros j (it' & Hit' & Hr) Hj.
    destruct (decide (Exists (λ i, base i <= j < base i + w) its)) as [Hex|Hnex].
    + apply Hin; [|unfold fill; by rewrite length_upd].
      apply Exists_exists in Hex as (i & ? & ?). exists i. set_solver.
    + rewrite Hout by (intros i Hi Hri; apply Hnex, Exists_exists; set_solver).
      apply Hhere; [done|]. apply elem_of_cons in Hit' as [->|Hit']; [done|].
      exfalso. apply Hnex, Exists_exists. set_solver.
  - intros j Hnone. rewrite Hout by set_solver.
    unfold fill. rewrite lookup_upd. destruct (b !! j); simpl; [|done].
    specialize (Hnone it ltac:(set_solver)).
    by case_match; try lia.
Qed.

(** Iterations that write exactly the cells [lo .. lo+w-1]. *)
Lemma foldM_fill_region {E I} (spec : Z → E) (base : I → Z) (w lo n : Z) its body (b : buf E) :
  (∀ it b', it ∈ its → zlen b' = zlen b → body it b' = Ok (fill spec (base it) w b')) →
  (∀ j, lo <= j < lo + n ↔ ∃ it, it ∈ its ∧ base it <= j < base it + w) →
  foldM body its b = Ok (fill spec lo n b).
Proof.
  intros Hbody Hcover.
  destruct (foldM_fill spec base w its body b Hbody) as (b' & -> & Hl & Hin & Hout).
  f_equal. apply list_eq. intros j. unfold fill. rewrite lookup_upd.
  destruct (decide (lo <= j < lo + n)) as [Hj|Hj].
  - destruct (decide (j < length b)%nat) as [Hlt|Hge].
    + rewrite Hin by (done || by apply Hcover).
      destruct (lookup_lt_is_Some_2 b j Hlt) as [x ->]. simpl. by case_match; try lia.
    + rewrite !lookup_ge_None_2; [done|lia|]. unfold zlen in Hl. lia.
  - rewrite Hout by (intros it Hit Hr; apply Hj, Hcover; eauto).
    destruct (b !! j); simpl; [|done]. by case_match; try lia.
Qed.

(** A counted loop whose iteration [i] rewrites cell [i]. *)
Lemma cfor_cells {A} (g : Z → A → A) lo hi body (l : list A) :
  0 <= lo <= hi → hi <= int_max →
  (∀ i l', lo <= i < hi → l' = upd g lo (i - lo) l → body i l' = Ok (upd g i 1 l')) →
  cfor lo hi 1 body l = Ok (upd g lo (hi - lo) l).
Proof.
  intros Hlo Hhi Hbody.
  pose proof (cfor_states (λ n, upd g lo n l) lo hi 1 body) as Hst. cbv beta in Hst.
  rewrite upd_nil in Hst by lia. rewrite trips_unit in Hst by lia.
  apply Hst; [lia|int_solve|lia|]. intros n Hn. rewrite Z.mul_1_r.
  rewrite (Hbody (lo + n)); [|lia|do 2 f_equal; lia]. by rewrite upd_app by lia.
Qed.

(** Rewriting one cell that holds [v]. *)
(** A loop that accumulates. *)
Lemma cfor_foldl {S} (f : S → Z → S) n body s :
  0 <= n <= int_max → (∀ i s, 0 <= i < n → body i s = Ok (f s i)) →
  cfor 0 n 1 body s = Ok (foldl f s (seqZ 0 n)).
Proof.
  intros Hn Hbody.
  pose proof (cfor_states (λ i, foldl f s (seqZ 0 i)) 0 n 1 body) as Hst. cbv beta in Hst.
  rewrite trips_unit, Z.sub_0_r in Hst by lia. apply Hst; [lia|int_solve|lia|].
  intros i Hi. rewrite Z.add_0_l, Z.mul_1_r, Hbody by done. f_equal.
  rewrite seqZ_app by lia. by rewrite foldl_app.
Qed.

(** A parallel loop whose iteration [c] writes the [c]th block of [w] cells. *)
Lemma omp_blocks `{Omp} {E} (spec : Z → E) w n body (b : buf E) :
  0 <= w →
  (∀ c b', 0 <= c < n → zlen b' = zlen b → body c b' = Ok (fill spec (c * w) w b')) →
  omp_for (seqZ 0 n) body b = Ok (fill spec 0 (n * w) b).
Proof.
  intros Hw Hbody. apply (foldM_fill_region spec (λ c, c * w) w).
  - intros c b' Hc Hb'. rewrite omp_order_perm in Hc. apply elem_of_seqZ in Hc. apply Hbody; [lia|done].
  - intros j. setoid_rewrite omp_order_perm. setoid_rewrite elem_of_seqZ. rewrite Z.add_0_l. split.
    + intros Hj. assert (0 < w) by (destruct (decide (w = 0)) as [->|]; lia). exists (j / w).
      pose proof (Z.div_mod j w ltac:(lia)). pose proof (Z.mod_pos_bound j w ltac:(lia)).
      assert (0 <= j / w) by (apply Z.div_pos; lia). nia.
    + intros (c & Hc & Hj). nia.
Qed.

(** A loop whose iteration [g] writes the [g]th block of [w] cells. *)
Lemma cfor_blocks {E} (spec : Z → E) w n body (b : buf E) :
  0 <= n <= int_max → 0 <= w →
  (∀ g b', 0 <= g < n → zlen b' = zlen b → body g b' = Ok (fill spec (g * w) w b')) →
  cfor 0 n 1 body b = Ok (fill spec 0 (n * w) b).
Proof.
  intros Hn Hw Hbody.
  pose proof (cfor_states (λ g, fill spec 0 (g * w) b) 0 n 1 body) as Hst. cbv beta in Hst.
  rewrite trips_unit, Z.sub_0_r, Z.mul_0_l in Hst by lia.
  assert (fill spec 0 0 b = b) as Hnil by (apply upd_nil; lia). rewrite Hnil in Hst.
  apply Hst; [lia|int_solve|lia|].
  intros g Hg. rewrite Z.add_0_l, Z.mul_1_r, Hbody by (done || apply zlen_upd).
  f_equal. unfold fill. rewrite <-(Z.add_0_l (g * w)) at 1. rewrite upd_app by nia. f_equal. ring.
Qed.

Lemma bset_upd {E} (g : Z → option E → option E) (b : buf E) i x y :
  lget b i = Ok x → g i x = Some y → bset b i y = Ok (upd g i 1 b).
Proof. intros Hx Hg. unfold bset. rewrite <-Hg. by apply lset_upd. Qed.

Lemma lget_upd_later {A} (g : Z → A → A) lo w (l : list A) i :
  lo + w <= i → lget (upd g lo w l) i = lget l i.
Proof.
  intros Hi. unfold lget. destruct (Z.leb_spec 0 i); [|done]. rewrite lookup_upd.
  destruct (l !! Z.to_nat i); simpl; [|done].
  rewrite Z2Nat.id by lia. by replace ((lo <=? i) && (i <? lo + w)) with false by lia.
Qed.

Lemma lget_tabulate {E} (spec : Z → E) n i : 0 <= i < n → lget (tabulate spec n) i = Ok (Some (spec i)).
Proof.
  intros. apply lget_lookup; [lia|]. rewrite lookup_tabulate by lia. by rewrite Z2Nat.id by lia.
Qed.

(** Rewriting every cell of a table. *)
Lemma upd_tabulate {E} (g : Z → option E → option E) (h spec : Z → E) n :
  (∀ i, 0 <= i < n → g i (Some (spec i)) = Some (h i)) → upd g 0 n (tabulate spec n) = tabulate h n.
Proof.
  intros Hg. apply list_eq. intros j. rewrite lookup_upd. destruct (decide (j < n)) as [Hj|Hj].
  - rewrite !lookup_tabulate by done. simpl.
    replace ((0 <=? j) && (j <? 0 + n)) with true by lia. by rewrite Hg by lia.
  - rewrite !lookup_ge_None_2; [done|..]; unfold tabulate; rewrite length_fmap, length_seqZ; lia.
Qed.

(** Reading a sequence of values. *)
Fixpoint readM {A B} (f : A → res B) (xs : list A) : res (list B) :=
  match xs with
  | [] => Ok []
  | x :: xs => y ← f x; ys ← readM f xs; Ok (y :: ys)
  end.

Lemma readM_ok {A B} (f : A → res B) (g : A → B) xs :
  (∀ x, x ∈ xs → f x = Ok (g x)) → readM f xs = Ok (g <$> xs).
Proof.
  induction xs as [|x xs IH]; intros Hf; [done|]. simpl. rewrite Hf by set_solver.
  cbn [mbind res_bind]. rewrite IH by set_solver. done.
Qed.

(** When the parts cover the buffer, the result is the whole pattern. *)
Lemma omp_for_fill `{Omp} {E I} (spec : Z → E) (base : I → Z) (w : Z) space body (b : buf E) :
  (∀ it b', it ∈ space → zlen b' = zlen b → body it b' = Ok (fill spec (base it) w b')) →
  (∀ j, 0 <= j < zlen b → ∃ it, it ∈ space ∧ base it <= j < base it + w) →
  omp_for space body b = Ok (tabulate spec (zlen b)).
Proof.
  intros Hbody Hcover. unfold omp_for.
  pose proof (omp_order_perm space) as Hperm.
  destruct (foldM_fill spec base w (omp_order space) body b) as (b' & -> & Hl & Hin & _).
  { intros it b' Hit. rewrite Hperm in Hit. by apply Hbody. }
  f_equal. apply list_eq. intros j.
  destruct (decide (j < length b)%nat) as [Hj|Hj].
  - rewrite lookup_tabulate by (unfold zlen; lia). apply Hin; [|done].
    destruct (Hcover j) as (it & Hit & Hr); [unfold zlen; lia|].
    exists it. by rewrite Hperm.
  - rewrite !lookup_ge_None_2; [done|..].
    + unfold tabulate, zlen. rewrite length_fmap, length_seqZ. lia.
    + unfold zlen in Hl. lia.
Qed.

(** Iterations that each rewrite a cell of their own, looking at its old value
    only, commute. *)
Lemma foldM_cells {A} (g : Z → A → A) its body (l : list A) :
  NoDup its → (∀ i, i ∈ its → 0 <= i) →
  (∀ i l', i ∈ its → zlen l' = zlen l → lget l' i = lget l i → body i l' = Ok (upd g i 1 l')) →
  ∃ l', foldM body its l = Ok l' ∧
    ∀ j : nat, l' !! j = (if decide (Z.of_nat j ∈ its) then g j else id) <$> l !! j.
Proof.
  revert l. induction its as [|i its IH]; intros l Hnd Hpos Hbody.
  { exists l. split; [done|]. intros j. rewrite decide_False by set_solver. by rewrite option_fmap_id. }
  apply NoDup_cons in Hnd as [Hi Hnd]. simpl.
  rewrite (Hbody i l) by (done || set_solver). cbn [mbind res_bind].
  assert (0 <= i) as Hi0 by (apply Hpos; set_solver).
  destruct (IH (upd g i 1 l)) as (l' & -> & Hl'); [done|set_solver| |].
  { intros j l' Hj Hlen Hget. apply Hbody; [set_solver|by rewrite Hlen, zlen_upd|]. rewrite Hget.
    assert (j ≠ i) by set_solver. unfold lget. destruct (Z.leb_spec 0 j); [|done]. rewrite lookup_upd.
    destruct (l !! Z.to_nat j); simpl; [|done].
    rewrite Z2Nat.id by done. by replace ((i <=? j) && (j <? i + 1)) with false by lia. }
  exists l'. split; [done|]. intros j. rewrite Hl', lookup_upd.
  destruct (l !! j) as [x|]; simpl; [|done]. f_equal.
  destruct (decide (Z.of_nat j = i)) as [<-|Hne].
  - rewrite (decide_False (P := Z.of_nat j ∈ its)), decide_True by set_solver. by case_match; try lia.
  - assert ((Z.of_nat j ∈ i :: its) ↔ (Z.of_nat j ∈ its)) as Hiff by set_solver.
    replace ((i <=? j) && (j <? i + 1)) with false by lia.
    destruct (decide (Z.of_nat j ∈ its)), (decide (Z.of_nat j ∈ i :: its)); naive_solver.
Qed.

Lemma omp_for_cells `{Omp} {A} (g : Z → A → A) n body (l : list A) :
  (∀ i l', 0 <= i < n → zlen l' = zlen l → lget l' i = lget l i → body i l' = Ok (upd g i 1 l')) →
  omp_for (seqZ 0 n) body l = Ok (upd g 0 n l).
Proof.
  intros Hbody. unfold omp_for. pose proof (omp_order_perm (seqZ 0 n)) as Hperm.
  destruct (foldM_cells g (omp_order (seqZ 0 n)) body l) as (l' & -> & Hl').
  - rewrite Hperm. apply NoDup_seqZ.
  - intros i. rewrite Hperm, elem_of_seqZ. lia.
  - intros i l' Hi. rewrite Hperm, elem_of_seqZ in Hi. apply Hbody. lia.
  - f_equal. apply list_eq. intros j. rewrite Hl', lookup_upd.
    destruct (l !! j) as [x|]; simpl; [|done]. f_equal.
    assert ((Z.of_nat j ∈ omp_order (seqZ 0 n)) ↔ 0 <= j < n) as Hiff by (rewrite Hperm, elem_of_seqZ; lia).
    destruct (decide (0 <= Z.of_nat j < n)).
    + rewrite decide_True by (by apply Hiff). by case_match; try lia.
    + rewrite decide_False by (by rewrite Hiff). by case_match; try lia.
Qed.

(** ** Memory allocation

    [palloc] rejects requests above [MaxAllocSize] with an error.  Its argument
    is a [size_t], to which a negative [int] count converts to a huge value, so
    a negative count is rejected as well.  The memory is not cleared;
    [palloc0] clears it. *)

Definition MaxAllocSize : Z := 1073741823.

Definition palloc_msg : string := "invalid memory alloc request size".

Definition palloc {E} (elsize n : Z) : res (buf E) :=
  check ((0 <=? n) && (elsize * n <=? MaxAllocSize)) palloc_msg
        (Ok (replicate (Z.to_nat n) None)).
Definition palloc0 {E} (zero : E) (elsize n : Z) : res (buf E) :=
  check ((0 <=? n) && (elsize * n <=? MaxAllocSize)) palloc_msg
        (Ok (replicate (Z.to_nat n) (Some zero))).

Lemma palloc_ok {E} elsize n :
  0 <= n → elsize * n <= MaxAllocSize →
  @palloc E elsize n = Ok (replicate (Z.to_nat n) None).
Proof. intros. unfold palloc. rewrite check_true; [done|]. lia. Qed.

Lemma palloc0_ok {E} (z : E) elsize n :
  0 <= n → elsize * n <= MaxAllocSize →
  palloc0 z elsize n = Ok (tabulate (λ _, z) n).
Proof.
  intros. unfold palloc0. rewrite check_true by lia. f_equal.
  apply list_eq. intros j. destruct (decide (j < n)) as [Hj|Hj].
  - rewrite lookup_tabulate by done. apply lookup_replicate. split; [done|lia].
  - rewrite !lookup_ge_None_2; [done|..].
    + unfold tabulate. rewrite length_fmap, length_seqZ. lia.
    + rewrite length_replicate. lia.
Qed.

Lemma zlen_replicate {A} n (x : A) : 0 <= n → zlen (replicate (Z.to_nat n) x) = n.
Proof. intros. unfold zlen. rewrite length_replicate. lia. Qed.
