(* ===== verification/Float4.v ===== *)
(** * Float4: PostgreSQL's [float4] and the C [double]s it is mixed with

    A [float4] is an IEEE 754 binary32 number and a C [double] a binary64 one.
    Both are the Standard Library's [spec_float], with the operations rounded to
    nearest even at the precision of the format.  The compiler flag
    [-ffast-math] of the extension's Makefile lets the compiler reassociate
    sums; the model keeps the order the source writes. *)

From Stdlib Require Import SpecFloat.
From S2P Require Import Prelude.

Abbreviation float4 := spec_float.
Abbreviation float8 := spec_float.

#[export] Instance spec_float_eq_dec : EqDecision spec_float.
Proof. solve_decision. Defined.

(** ** binary32 *)
Definition f4_zero : float4 := S754_zero false.
Definition f4_neg_inf : float4 := S754_infinity true.   (* -INFINITY *)
Definition f4_of_Z (z : Z) : float4 := binary_normalize 24 128 z 0 false.
Definition f4_add : float4 → float4 → float4 := SFadd 24 128.
Definition f4_mul : float4 → float4 → float4 := SFmul 24 128.
Definition f4_sub : float4 → float4 → float4 := SFsub 24 128.
Definition f4_div : float4 → float4 → float4 := SFdiv 24 128.
Definition f4_valid (x : float4) : bool := valid_binary 24 128 x.

(** ** binary64 *)
Definition f8_of_Z (z : Z) : float8 := binary_normalize 53 1024 z 0 false.
(** The double nearest to the fraction [n / d], for decimal literals. *)
Definition f8_lit (n d : Z) : float8 := SFdiv 53 1024 (f8_of_Z n) (f8_of_Z d).
Definition f8_add : float8 → float8 → float8 := SFadd 53 1024.
Definition f8_sub : float8 → float8 → float8 := SFsub 53 1024.
Definition f8_mul : float8 → float8 → float8 := SFmul 53 1024.
Definition f8_div : float8 → float8 → float8 := SFdiv 53 1024.
Definition f8_sqrt : float8 → float8 := SFsqrt 53 1024.

(** ** Conversions: an operand is promoted exactly, an assignment to a [float4]
    rounds. *)
Definition convert (prec emax : Z) (x : spec_float) : spec_float :=
  match x with
  | S754_finite s m e => binary_round prec emax s m e
  | _ => x
  end.
Definition promote (x : float4) : float8 := convert 53 1024 x.
Definition demote (x : float8) : float4 := convert 24 128 x.

(** ** [fmax], [fmaxf]: the larger operand, and the other one if one is NaN *)
Definition fmax (x y : spec_float) : spec_float :=
  match SFcompare x y with
  | Some Lt => y
  | Some _ => x
  | None => match x with S754_nan => y | _ => x end
  end.

(** [x = fmax(0, x)] on a [float4]: the call promotes, the assignment rounds. *)
Definition relu1 (x : float4) : float4 := demote (fmax (f8_of_Z 0) (promote x)).

(** [(int) sqrt(n)].  The correctly rounded square root of an integer below
    2^53, truncated, is its integer square root: rounding cannot reach the next
    integer.  The square root of a negative number is a NaN, whose conversion to
    [int] is not defined. *)
Definition int_sqrt (n : Z) : res Z := require (0 <=? n) ArithTrap (Ok (Z.sqrt n)).

Lemma int_sqrt_square n : 0 <= n → int_sqrt (n * n) = Ok n.
Proof.
  intros. unfold int_sqrt. rewrite require_true by nia. by rewrite Z.sqrt_square.
Qed.

(** ** Promotion is exact *)

Lemma digits2_pos_bounds m :
  2 ^ (Zpos (digits2_pos m) - 1) <= Zpos m < 2 ^ Zpos (digits2_pos m).
Proof.
  induction m as [m IH|m IH|]; simpl digits2_pos; [| |done];
    rewrite Pos2Z.inj_succ;
    replace (Z.succ (Zpos (digits2_pos m)) - 1)
      with (Z.succ (Zpos (digits2_pos m) - 1)) by lia;
    rewrite !Z.pow_succ_r by lia; lia.
Qed.

Lemma digits2_pos_shift m d :
  Zpos (digits2_pos (Pos.iter xO m d)) = Zpos (digits2_pos m) + Zpos d.
Proof.
  induction d as [|d IH] using Pos.peano_ind; simpl; [lia|].
  rewrite Pos.iter_succ. simpl. lia.
Qed.

Lemma iter_pos_iter {A} (f : A → A) p x : SpecFloat.iter_pos f p x = Pos.iter f x p.
Proof.
  revert x. induction p as [p IH|p IH|]; intros x; simpl; rewrite ?IH; try done.
  by rewrite !Pos.iter_swap.
Qed.

Lemma shr_1_shift m d :
  SpecFloat.iter_pos shr_1 d (Build_shr_record (Zpos (Pos.iter xO m d)) false false)
  = Build_shr_record (Zpos m) false false.
Proof.
  rewrite iter_pos_iter. induction d as [|d IH] using Pos.peano_ind; [done|].
  rewrite Pos.iter_succ_r. rewrite (Pos.iter_succ _ _ xO). simpl. exact IH.
Qed.

(** Rounding a mantissa that already has its canonical exponent changes nothing. *)
Lemma binary_round_aux_canonical prec emax s m e :
  fexp prec emax (Zpos (digits2_pos m) + e) = e → e <= emax - prec →
  binary_round_aux prec emax s (Zpos m) e loc_Exact = S754_finite s m e.
Proof.
  intros Hc He. unfold binary_round_aux, shr_fexp. simpl Zdigits2. rewrite Hc, Z.sub_diag.
  simpl. unfold shr_fexp. simpl Zdigits2. rewrite Hc, Z.sub_diag. simpl.
  by rewrite (proj2 (Z.leb_le _ _)) by lia.
Qed.

(** Rounding to a finer exponent pads the mantissa with zeros. *)
Lemma binary_round_pad prec emax s m e k :
  fexp prec emax (Zpos (digits2_pos m) + e) = e - Zpos k → e - Zpos k <= emax - prec →
  binary_round prec emax s m e = S754_finite s (Pos.iter xO m k) (e - Zpos k).
Proof.
  intros Hf He. unfold binary_round, shl_align. rewrite Hf.
  replace (e - Zpos k - e) with (Zneg k) by lia.
  apply binary_round_aux_canonical; [|done].
  rewrite digits2_pos_shift. rewrite <-Hf at 2. f_equal. lia.
Qed.

(** Rounding to a coarser exponent drops zero bits exactly. *)
Lemma binary_round_unpad prec emax s m e k :
  fexp prec emax (Zpos (digits2_pos m) + e) = e → e <= emax - prec →
  binary_round prec emax s (Pos.iter xO m k) (e - Zpos k) = S754_finite s m e.
Proof.
  intros Hf He. unfold binary_round, shl_align.
  rewrite digits2_pos_shift.
  replace (Zpos (digits2_pos m) + Zpos k + (e - Zpos k))
    with (Zpos (digits2_pos m) + e) by lia.
  rewrite Hf. replace (e - (e - Zpos k)) with (Zpos k) by lia.
  unfold binary_round_aux, shr_fexp at 1. unfold Zdigits2. rewrite digits2_pos_shift.
  replace (Zpos (digits2_pos m) + Zpos k + (e - Zpos k))
    with (Zpos (digits2_pos m) + e) by lia.
  rewrite Hf. replace (e - (e - Zpos k)) with (Zpos k) by lia.
  unfold shr, shr_record_of_loc. rewrite shr_1_shift.
  cbn [shr_m loc_of_shr_record round_nearest_even].
  replace (e - Zpos k + Zpos k) with e by lia.
  unfold shr_fexp, Zdigits2. rewrite Hf, Z.sub_diag. simpl.
  by rewrite (proj2 (Z.leb_le _ _)) by lia.
Qed.

Lemma promote_finite s m e :
  f4_valid (S754_finite s m e) = true →
  ∃ k, promote (S754_finite s m e) = S754_finite s (Pos.iter xO m k) (e - Zpos k).
Proof.
  unfold f4_valid, valid_binary, bounded, canonical_mantissa.
  rewrite andb_true_iff, Z.eqb_eq, Z.leb_le. intros [Hc He].
  exists (Z.to_pos (53 - Zpos (digits2_pos m))). apply binary_round_pad; [|lia].
  unfold fexp, SpecFloat.emin in *. lia.
Qed.

(** Every [float4] survives the trip through [double]. *)
Lemma demote_promote x : f4_valid x = true → demote (promote x) = x.
Proof.
  destruct x as [| | |s m e]; try done. intros Hv.
  destruct (promote_finite s m e Hv) as [k ->].
  revert Hv. unfold f4_valid, valid_binary, bounded, canonical_mantissa.
  rewrite andb_true_iff, Z.eqb_eq, Z.leb_le. intros [Hc He].
  by apply binary_round_unpad.
Qed.

(** The rectifier, stated on the number itself. *)
Definition rectifier (x : float4) : float4 :=
  match x with
  | S754_finite false _ _ | S754_infinity false => x
  | _ => f4_zero
  end.

(** [x = fmax(0, x)] is exactly the rectifier, whatever the detour through
    [double] does. *)
Lemma relu1_rectifier x : f4_valid x = true → relu1 x = rectifier x.
Proof.
  intros Hv. pose proof (demote_promote x Hv) as Hx. unfold relu1.
  destruct x as [[]|[]| |[] m e]; try done;
    destruct (promote_finite _ m e Hv) as [k Hk]; rewrite Hk in *; done.
Qed.

(** ** The order of floats

    [SFcompare] compares sign, exponent and mantissa lexicographically. *)
Definition f_rank (x : spec_float) : Z * Z * Z :=
  match x with
  | S754_zero _ => (0, 0, 0)
  | S754_infinity s => (if s then -2 else 2, 0, 0)
  | S754_finite s m e => if s then (-1, - e, - Zpos m) else (1, e, Zpos m)
  | S754_nan => (0, 0, 0)
  end.
Definition rank_le (a b : Z * Z * Z) : bool :=
  let '(a1, a2, a3) := a in
  let '(b1, b2, b3) := b in
  (a1 <? b1) || ((a1 =? b1) && ((a2 <? b2) || ((a2 =? b2) && (a3 <=? b3)))).

Lemma SFleb_rank x y : x ≠ S754_nan → y ≠ S754_nan → SFleb x y = rank_le (f_rank x) (f_rank y).
Proof.
  destruct x as [?|[]| |[] m1 e1], y as [?|[]| |[] m2 e2]; try done; intros _ _;
    unfold SFleb, SFcompare, f_rank, rank_le;
    change (Pos.compare_cont Eq m1 m2) with (Pos.compare m1 m2);
    cbv beta iota; try (destruct (Z.compare_spec e1 e2), (Pos.compare_spec m1 m2)); cbv beta iota delta [CompOpp]; lia.
Qed.

Lemma fmax_le_l x y : x ≠ S754_nan → SFleb x (fmax x y) = true.
Proof.
  intros Hx. unfold fmax. assert (SFleb x x = true) as Hxx.
  { rewrite SFleb_rank by done. destruct (f_rank x) as [[] ]. unfold rank_le. lia. }
  destruct (SFcompare x y) as [[]|] eqn:Hc; try done.
  - unfold SFleb. by rewrite Hc.
  - by destruct x.
Qed.

Lemma fmax_le_r x y : x ≠ S754_nan → y ≠ S754_nan → SFleb y (fmax x y) = true.
Proof.
  intros Hx Hy. unfold fmax. destruct (SFcompare x y) as [[]|] eqn:Hc.
  - rewrite SFleb_rank by done.
    destruct x as [?|[]| |[] m1 e1], y as [?|[]| |[] m2 e2]; try done; unfold SFcompare in Hc; cbv beta iota in Hc;
      change (Pos.compare_cont Eq m1 m2) with (Pos.compare m1 m2) in Hc;
      try (destruct (Z.compare_spec e1 e2), (Pos.compare_spec m1 m2)); cbv beta iota delta [CompOpp] in Hc;
      simplify_eq; unfold rank_le, f_rank; cbv beta iota; lia.
  - rewrite SFleb_rank by done. destruct (f_rank y) as [[] ]. unfold rank_le. lia.
  - rewrite SFleb_rank by done.
    destruct x as [?|[]| |[] m1 e1], y as [?|[]| |[] m2 e2]; try done; unfold SFcompare in Hc; cbv beta iota in Hc;
      change (Pos.compare_cont Eq m1 m2) with (Pos.compare m1 m2) in Hc;
      try (destruct (Z.compare_spec e1 e2), (Pos.compare_spec m1 m2)); cbv beta iota delta [CompOpp] in Hc;
      simplify_eq; unfold rank_le, f_rank; cbv beta iota; lia.
  - by destruct x as [?|[]| |[] m1 e1], y as [?|[]| |[] m2 e2].
Qed.

Lemma SFleb_trans x y z : SFleb x y = true → SFleb y z = true → SFleb x z = true.
Proof.
  destruct (decide (x = S754_nan)) as [->|]; [done|].
  destruct (decide (y = S754_nan)) as [->|]; [by destruct x as [?|[]| |[] ? ?]|].
  destruct (decide (z = S754_nan)) as [->|]; [by destruct y as [?|[]| |[] ? ?]|].
  rewrite !SFleb_rank by done.
  destruct (f_rank x) as [[x1 x2] x3], (f_rank y) as [[y1 y2] y3], (f_rank z) as [[z1 z2] z3].
  unfold rank_le. lia.
Qed.

Lemma fmax_nan x y : x ≠ S754_nan → fmax x y ≠ S754_nan.
Proof. intros Hx. unfold fmax. destruct (SFcompare x y) as [[]|] eqn:Hc; try done; by destruct x, y. Qed.

(** The running maximum of a list: one of the values, and no smaller than any of
    them that is a number. *)
Lemma foldl_fmax l a :
  a ≠ S754_nan →
  let v := foldl fmax a l in
  (v = a ∨ v ∈ l) ∧ SFleb a v = true ∧ ∀ x, x ∈ l → x ≠ S754_nan → SFleb x v = true.
Proof.
  revert a. induction l as [|y l IH]; intros a Ha; simpl.
  - split; [by left|]. split; [|set_solver].
    rewrite SFleb_rank by done. destruct (f_rank a) as [[] ]. unfold rank_le. lia.
  - destruct (IH (fmax a y) (fmax_nan a y Ha)) as (Hin & Hle & Hmax). split_and!.
    + destruct Hin as [->|]; [|set_solver]. unfold fmax.
      destruct (SFcompare a y) as [[]|]; [by left|set_solver|by left|].
      destruct a; [by left|by left|done|by left].
    + eapply SFleb_trans; [apply fmax_le_l; exact Ha|exact Hle].
    + intros x [->|Hx]%elem_of_cons Hnan; [|by apply Hmax].
      eapply SFleb_trans; [apply fmax_le_r; [exact Ha|exact Hnan]|exact Hle].
Qed.
