(* ===== verification/PgArray.v ===== *)
(** * PgArray: PostgreSQL array values

    The on-disk array header of [utils/array.h], the size computation of
    [arrayutils.c], the constructors of [arrayfuncs.c] for four-byte by-value
    elements ([float4], [int4]) and the two constructors the extension adds in
    [matrix_op.c].  An array value is polymorphic in the content of one element
    slot: the tensor kernels use optional [float4]s, because some of them return
    memory they have not written, and the aggregate uses bytes. *)

From S2P Require Import Prelude Float4.

Definition MAXDIM : Z := 6.
Definition FLOAT4OID : Z := 700.
Definition INT4OID : Z := 23.
Definition TEXTOID : Z := 25.

(** [struct ArrayType] and the variable-length parts that follow it. *)
Record ArrayType (A : Type) : Type := mkArrayType {
  ndim : Z;
  dataoffset : Z;            (* 0: no null bitmap *)
  elemtype : Z;
  arr_dims : list Z;
  arr_lbound : list Z;
  arr_nullbitmap : list Z;   (* one byte each; meaningful when dataoffset <> 0 *)
  arr_data : list A
}.
Arguments mkArrayType {A}.
Arguments ndim {A} a.
Arguments dataoffset {A} a.
Arguments elemtype {A} a.
Arguments arr_dims {A} a.
Arguments arr_lbound {A} a.
Arguments arr_nullbitmap {A} a.
Arguments arr_data {A} a.

(** The arrays the kernels work on. *)
Abbreviation farray := (ArrayType (option float4)).

Definition set_dims {A} (a : ArrayType A) (ds : list Z) : ArrayType A :=
  mkArrayType (ndim a) (dataoffset a) (elemtype a) ds (arr_lbound a) (arr_nullbitmap a) (arr_data a).
Definition set_data {A} (a : ArrayType A) (d : list A) : ArrayType A :=
  mkArrayType (ndim a) (dataoffset a) (elemtype a) (arr_dims a) (arr_lbound a) (arr_nullbitmap a) d.

Definition MAXALIGN (n : Z) : Z := (n + 7) / 8 * 8.
Definition sizeof_ArrayType : Z := 16.
Definition ARR_HASNULL {A} (a : ArrayType A) : bool := negb (dataoffset a =? 0).
Definition ARR_OVERHEAD_NONULLS (ndims : Z) : Z := MAXALIGN (sizeof_ArrayType + 2 * 4 * ndims).
Definition ARR_OVERHEAD_WITHNULLS (ndims nitems : Z) : Z :=
  MAXALIGN (sizeof_ArrayType + 2 * 4 * ndims + (nitems + 7) / 8).
Definition ARR_NULLBITMAP {A} (a : ArrayType A) : option (list Z) :=
  if ARR_HASNULL a then Some (arr_nullbitmap a) else None.
(** [ARR_DIMS(a)[i]]: reading a dimension an array does not have is an access
    past the dimension words of its header. *)
Definition ARR_DIM {A} (a : ArrayType A) (i : Z) : res Z := lget (arr_dims a) i.

(** ** arrayutils.c *)

Definition MaxArraySize : Z := MaxAllocSize / 8.
Definition array_size_msg : string := "array size exceeds the maximum allowed".

Definition ArrayGetNItems (ndim : Z) (dims : list Z) : res Z :=
  if ndim <=? 0 then Ok 0
  else
    ret ← cfor 0 ndim 1 (λ i ret,
        d ← lget dims i;
        check (0 <=? d) array_size_msg
          (let prod := ret * d in
           check (i32 prod =? prod) array_size_msg (Ok (i32 prod)))) 1;
    check (ret <=? MaxArraySize) array_size_msg (Ok ret).

Definition ArrayCheckBounds (ndim : Z) (dims lb : list Z) : res unit :=
  cfor 0 ndim 1 (λ i _,
    d ← lget dims i;
    b ← lget lb i;
    check (i32 (d + b) =? d + b) "array lower bound is too large" (Ok tt)) tt.

(** ** arrayfuncs.c *)

Definition construct_empty_array {A} (elmtype : Z) : ArrayType A :=
  mkArrayType 0 0 elmtype [] [] [] [].

Definition is_null (nulls : option (list bool)) (i : Z) : res bool :=
  match nulls with None => Ok false | Some ns => lget ns i end.

(** The position of [CopyArrayEls] in the array it fills. *)
Record copy_pos (A : Type) := mkCopyPos {
  cp_data : list A; cp_p : Z;                   (* data area and next slot *)
  cp_bitmap : option (list Z); cp_byte : Z;     (* null bitmap and current byte *)
  cp_bitval : Z; cp_bitmask : Z
}.
Arguments mkCopyPos {A}.
Arguments cp_data {A}. Arguments cp_p {A}. Arguments cp_bitmap {A}.
Arguments cp_byte {A}. Arguments cp_bitval {A}. Arguments cp_bitmask {A}.

Definition copy_one {A} (values : list A) (nulls : option (list bool)) (i : Z) (c : copy_pos A)
  : res (copy_pos A) :=
  isnull ← is_null nulls i;
  c ← (if (isnull : bool)
       then match cp_bitmap c with
            | None => Ereport "null array element where not supported"
            | Some _ => Ok c
            end
       else
         v ← lget values i;
         data ← lset (cp_data c) (cp_p c) v;
         Ok (mkCopyPos data (cp_p c + 1) (cp_bitmap c) (cp_byte c)
               (Z.lor (cp_bitval c) (cp_bitmask c)) (cp_bitmask c)));
  match cp_bitmap c with
  | None => Ok c
  | Some bm =>
      let mask := Z.shiftl (cp_bitmask c) 1 in
      if mask =? 256
      then bm ← lset bm (cp_byte c) (cp_bitval c);
           Ok (mkCopyPos (cp_data c) (cp_p c) (Some bm) (cp_byte c + 1) 0 1)
      else Ok (mkCopyPos (cp_data c) (cp_p c) (Some bm) (cp_byte c) (cp_bitval c) mask)
  end.

Definition CopyArrayEls {A} (array : ArrayType A) (values : list A) (nulls : option (list bool))
    (nitems : Z) : res (ArrayType A) :=
  c ← cfor 0 nitems 1 (copy_one values nulls)
        (mkCopyPos (arr_data array) 0 (ARR_NULLBITMAP array) 0 0 1);
  bm ← match cp_bitmap c with
       | Some bm => if negb (cp_bitmask c =? 1) then lset bm (cp_byte c) (cp_bitval c) else Ok bm
       | None => Ok (arr_nullbitmap array)
       end;
  Ok (mkArrayType (ndim array) (dataoffset array) (elemtype array)
        (arr_dims array) (arr_lbound array) bm (cp_data c)).

(** [construct_md_array] for elements of length 4 passed by value.  [zero] is
    the content of a slot [palloc0] has cleared. *)
Definition construct_md_array {A} (zero : A) (elems : list A) (nulls : option (list bool))
    (ndims : Z) (dims lbs : list Z) (elmtype : Z) : res (ArrayType A) :=
  check (0 <=? ndims) "invalid number of dimensions"
  (check (ndims <=? MAXDIM) "number of array dimensions exceeds the maximum allowed"
  (nelems ← ArrayGetNItems ndims dims;
   _ ← ArrayCheckBounds ndims dims lbs;
   if nelems <=? 0 then Ok (construct_empty_array elmtype)
   else
     nh ← cfor 0 nelems 1 (λ i '(nbytes, hasnulls),
        isnull ← is_null nulls i;
        if (isnull : bool) then Ok (nbytes, true)
        else check (nbytes + 4 <=? MaxAllocSize) array_size_msg (Ok (nbytes + 4, hasnulls)))
        (0, false);
     let '(nbytes, hasnulls) := nh : Z * bool in
     let dataoffset := if hasnulls then ARR_OVERHEAD_WITHNULLS ndims nelems else 0 in
     let total := nbytes + (if hasnulls then dataoffset else ARR_OVERHEAD_NONULLS ndims) in
     check (total <=? MaxAllocSize) palloc_msg
     (require ((ndims <=? zlen dims) && (ndims <=? zlen lbs)) OutOfBounds
       (CopyArrayEls
         (mkArrayType ndims dataoffset elmtype
            (take (Z.to_nat ndims) dims) (take (Z.to_nat ndims) lbs)
            (if hasnulls then replicate (Z.to_nat ((nelems + 7) / 8)) 0 else [])
            (replicate (Z.to_nat (nbytes / 4)) zero))
         elems nulls nelems)))).

Definition construct_array {A} (zero : A) (elems : list A) (nelems elmtype : Z) : res (ArrayType A) :=
  construct_md_array zero elems None 1 [nelems] [1] elmtype.

(** ** matrix_op.c: array constructors that copy (or leave out) the data *)

Definition float4construct_md_array (res_data : buf float4) (size ndims : Z) (dims lbs : list Z)
    (elmtype : Z) : res farray :=
  let nbytes := i32 (4 * size) in
  let total := nbytes + ARR_OVERHEAD_NONULLS ndims in
  check ((0 <=? total) && (total <=? MaxAllocSize)) palloc_msg
  (require ((ndims <=? zlen dims) && (ndims <=? zlen lbs)) OutOfBounds
  (require ((0 <=? nbytes) && (nbytes / 4 <=? zlen res_data)) OutOfBounds
    (Ok (mkArrayType ndims 0 FLOAT4OID
           (take (Z.to_nat ndims) dims) (take (Z.to_nat ndims) lbs) []
           (take (Z.to_nat (nbytes / 4)) res_data))))).

Definition float4construct_md_array_ncpy (size ndims : Z) (dims lbs : list Z) (elmtype : Z)
  : res farray :=
  let nbytes := i32 (4 * size) in
  let total := nbytes + ARR_OVERHEAD_NONULLS ndims in
  check ((0 <=? total) && (total <=? MaxAllocSize)) palloc_msg
  (require ((ndims <=? zlen dims) && (ndims <=? zlen lbs)) OutOfBounds
    (Ok (mkArrayType ndims 0 FLOAT4OID
           (take (Z.to_nat ndims) dims) (take (Z.to_nat ndims) lbs) []
           (replicate (Z.to_nat (nbytes / 4)) (Some f4_zero))))).

(** ** Facts *)

Definition product (ds : list Z) : Z := foldr Z.mul 1 ds.

Lemma product_app ds es : product (ds ++ es) = product ds * product es.
Proof. induction ds as [|d ds IH]; simpl; [by rewrite Z.mul_1_l|]. rewrite IH. ring. Qed.

Lemma product_take_S ds (n : nat) d :
  ds !! n = Some d → product (take (S n) ds) = product (take n ds) * d.
Proof. intros Hd. rewrite (take_S_r _ _ _ Hd), product_app. simpl. ring. Qed.

Lemma product_pos ds : Forall (λ d, 0 < d) ds → 0 < product ds.
Proof. induction 1; simpl; lia. Qed.

(** A dimension list whose product is not too large passes the overflow checks; what
    follows the dimensions that count is not looked at. *)
Lemma ArrayGetNItems_prefix ds es :
  Forall (λ d, 0 < d) ds → product ds <= MaxArraySize → zlen ds < int_max → ds ≠ [] →
  ArrayGetNItems (zlen ds) (ds ++ es) = Ok (product ds).
Proof.
  intros Hpos Hmax Hlen Hne. unfold ArrayGetNItems.
  assert (0 < zlen ds) by (destruct ds; [done|]; unfold zlen; simpl; lia).
  rewrite (proj2 (Z.leb_gt _ _)) by lia.
  assert (∀ n : nat, product (take n ds) <= product ds) as Hpre.
  { intros n. rewrite <-(take_drop n ds) at 2. rewrite product_app.
    pose proof (product_pos (take n ds) ltac:(by apply Forall_take)).
    pose proof (product_pos (drop n ds) ltac:(by apply Forall_drop)). nia. }
  pose proof (cfor_states (λ n, product (take (Z.to_nat n) ds)) 0 (zlen ds) 1) as Hloop.
  cbv beta in Hloop. rewrite trips_unit in Hloop by lia.
  simpl (product (take (Z.to_nat 0) ds)) in Hloop. rewrite Hloop; clear Hloop;
    [| lia | done | lia | ].
  - simpl. rewrite Z.sub_0_r. unfold zlen. rewrite Nat2Z.id, firstn_all.
    rewrite check_true; [done|]. apply Z.leb_le. done.
  - intros n Hn. rewrite Z.add_0_l, Z.mul_1_r.
    destruct (lget_in_range ds n ltac:(lia)) as (d & _ & Hd).
    rewrite (lget_lookup (ds ++ es) n d) by (lia || by apply lookup_app_l_Some). simpl.
    pose proof (Forall_lookup_1 _ _ _ _ Hpos Hd) as Hdpos. simpl in Hdpos.
    rewrite check_true by lia.
    pose proof (product_take_S _ _ _ Hd) as HS.
    pose proof (Hpre (S (Z.to_nat n))) as HSle.
    pose proof (product_pos (take (S (Z.to_nat n)) ds) ltac:(by apply Forall_take)).
    change MaxArraySize with 134217727 in Hmax.
    rewrite <-HS, i32_id by (unfold is_int, int_min, int_max; lia).
    rewrite check_true by lia. do 3 f_equal. lia.
Qed.

Lemma ArrayGetNItems_complete ds :
  Forall (λ d, 0 < d) ds → product ds <= MaxArraySize → zlen ds < int_max → ds ≠ [] →
  ArrayGetNItems (zlen ds) ds = Ok (product ds).
Proof. intros. pose proof (ArrayGetNItems_prefix ds []) as Hp. rewrite app_nil_r in Hp. auto. Qed.

(** What a successful size computation has established. *)
Lemma ArrayGetNItems_sound ds n :
  ArrayGetNItems (zlen ds) ds = Ok n → zlen ds < int_max →
  (ds ≠ [] → n = product ds) ∧ Forall (λ d, 0 <= d) ds ∧ 0 <= n <= MaxArraySize.
Proof.
  intros Hrun Hlen. unfold ArrayGetNItems in Hrun.
  destruct (Z.leb_spec (zlen ds) 0) as [Hle|Hgt].
  { injection Hrun as <-. destruct ds; [|unfold zlen in *; simpl in *; lia].
    split; [done|]. split; [by apply Forall_nil|done]. }
  apply res_bind_Ok in Hrun as (r & Hloop & Hchk). unfold check in Hchk.
  destruct (Z.leb_spec r MaxArraySize) as [Hr|]; [|done]. injection Hchk as <-.
  apply (cfor_partial (λ n ret, ret = product (take (Z.to_nat n) ds)
           ∧ Forall (λ d, 0 <= d) (take (Z.to_nat n) ds))) in Hloop; [| lia | done | lia | | ].
  - rewrite trips_unit, Z.sub_0_r in Hloop by lia. unfold zlen in Hloop.
    rewrite Nat2Z.id, firstn_all in Hloop. destruct Hloop as [-> Hall].
    split; [done|]. split; [done|]. split; [|done].
    clear -Hall. unfold product. induction Hall; simpl; [lia|]. nia.
  - simpl. split; [done|constructor].
  - intros k s s' Hk Hlt [-> Hall] Hbody. rewrite Z.mul_1_r, Z.add_0_l in Hbody.
    apply res_bind_Ok in Hbody as (d & Hd & Hbody). apply lget_Ok in Hd as [_ Hd].
    unfold check in Hbody. destruct (Z.leb_spec 0 d); [|done].
    destruct (Z.eqb_spec (i32 (product (take (Z.to_nat k) ds) * d))
                (product (take (Z.to_nat k) ds) * d)) as [E|]; [|done].
    injection Hbody as <-. rewrite E.
    replace (Z.to_nat (k + 1)) with (S (Z.to_nat k)) by lia.
    rewrite (product_take_S _ _ _ Hd). split; [done|].
    rewrite (take_S_r _ _ _ Hd). apply Forall_app. split; [done|]. by constructor.
Qed.

(** A two-dimensional [float4] array value without nulls. *)
Definition matrix (r c : Z) (data : buf float4) : farray :=
  mkArrayType 2 0 FLOAT4OID [r; c] [1; 1] [] data.

Lemma float4construct_md_array_2d data size r c t :
  0 <= size <= zlen data → 4 * size + 32 <= MaxAllocSize →
  float4construct_md_array data size 2 [r; c] [1; 1] t
  = Ok (matrix r c (take (Z.to_nat size) data)).
Proof.
  intros Hs Hmax. unfold float4construct_md_array. unfold MaxAllocSize in *.
  change (ARR_OVERHEAD_NONULLS 2) with 32.
  rewrite i32_id by (unfold is_int, int_min, int_max; lia).
  rewrite check_true by lia. rewrite require_true by done.
  rewrite (Z.mul_comm 4), Z.div_mul by lia.
  by rewrite require_true by lia.
Qed.

Lemma float4construct_md_array_ncpy_2d size r c t :
  0 <= size → 4 * size + 32 <= MaxAllocSize →
  float4construct_md_array_ncpy size 2 [r; c] [1; 1] t
  = Ok (matrix r c (tabulate (λ _, f4_zero) size)).
Proof.
  intros Hs Hmax. unfold float4construct_md_array_ncpy. unfold MaxAllocSize in *.
  change (ARR_OVERHEAD_NONULLS 2) with 32.
  rewrite i32_id by (unfold is_int, int_min, int_max; lia).
  rewrite check_true by lia. rewrite require_true by done.
  rewrite (Z.mul_comm 4), Z.div_mul by lia.
  pose proof (palloc0_ok f4_zero 4 size Hs ltac:(unfold MaxAllocSize; lia)) as Hp.
  unfold palloc0 in Hp. rewrite check_true in Hp by (unfold MaxAllocSize; lia).
  injection Hp as ->. done.
Qed.

(** Bounds whose upper ends fit an [int]. *)
Lemma ArrayCheckBounds_ok ds lbs :
  zlen lbs = zlen ds → zlen ds <= MAXDIM →
  (∀ i d b, ds !! i = Some d → lbs !! i = Some b → is_int (d + b)) →
  ArrayCheckBounds (zlen ds) ds lbs = Ok tt.
Proof.
  intros Hl Hm Hb. unfold ArrayCheckBounds.
  pose proof (zlen_nonneg ds). apply cfor_unit; [done|lia|unfold MAXDIM, int_max in *; lia|]. intros n Hn.
  destruct (lget_in_range ds n) as (d & -> & Hd); [lia|]. cbn [mbind res_bind].
  destruct (lget_in_range lbs n) as (b & -> & Hlb); [lia|]. cbn [mbind res_bind].
  rewrite check_true; [done|]. rewrite i32_id by eauto. lia.
Qed.

(** Without nulls, [CopyArrayEls] copies the first [n] values. *)
Lemma CopyArrayEls_nonulls {A} (zero : A) nd ty ds lbs (elems : list A) n :
  0 <= n <= zlen elems → n <= int_max →
  CopyArrayEls (mkArrayType nd 0 ty ds lbs [] (replicate (Z.to_nat n) zero)) elems None n
  = Ok (mkArrayType nd 0 ty ds lbs [] (take (Z.to_nat n) elems)).
Proof.
  intros Hn Hmax. unfold CopyArrayEls. simpl.
  set (st := λ k : Z, mkCopyPos (take (Z.to_nat k) elems ++ replicate (Z.to_nat (n - k)) zero) k None 0
                        (if k =? 0 then 0 else 1) 1).
  pose proof (cfor_states st 0 n 1 (copy_one elems None)) as Hst.
  rewrite trips_unit, Z.sub_0_r in Hst by lia.
  assert (st 0 = mkCopyPos (replicate (Z.to_nat n) zero) 0 None 0 0 1) as Hst0
    by (unfold st; by rewrite Z.sub_0_r). rewrite Hst0 in Hst. unfold ARR_NULLBITMAP. simpl.
  rewrite Hst; [|lia|int_solve|lia|].
  - cbn [mbind res_bind]. unfold st. simpl. rewrite Z.sub_diag. simpl. by rewrite app_nil_r.
  - intros k Hk. rewrite Z.add_0_l, Z.mul_1_r. unfold copy_one. simpl.
    destruct (lget_in_range elems k) as (v & -> & Hv); [lia|]. cbn [mbind res_bind].
    assert (length (take (Z.to_nat k) elems) = Z.to_nat k) as Hlen by (rewrite length_take; unfold zlen in *; lia).
    unfold lset. rewrite (proj2 (Z.leb_le 0 k)), (proj2 (Z.ltb_lt k _)) by
      (unfold zlen; rewrite ?length_app, ?Hlen, ?length_replicate; lia). cbn [andb mbind res_bind]. simpl.
    unfold st. f_equal. f_equal.
    + replace (Z.to_nat (k + 1)) with (S (Z.to_nat k)) by lia. rewrite (take_S_r _ _ _ Hv), <-app_assoc.
      rewrite insert_app_r_alt, Hlen, Nat.sub_diag by lia.
      replace (Z.to_nat (n - k)) with (S (Z.to_nat (n - (k + 1)))) by lia. done.
    + destruct (Z.eqb_spec (k + 1) 0); [lia|]. by destruct (k =? 0).
Qed.

(** The loop that adds up the space the elements take. *)
Lemma construct_md_array_nbytes n :
  0 <= n → 4 * n <= MaxAllocSize →
  cfor 0 n 1 (λ i '(nbytes, hasnulls),
    isnull ← is_null None i;
    if (isnull : bool) then Ok (nbytes, true)
    else check (nbytes + 4 <=? MaxAllocSize) array_size_msg (Ok (nbytes + 4, hasnulls))) (0, false)
  = Ok (4 * n, false).
Proof.
  intros Hn Hmax. pose proof (cfor_states (λ k, (4 * k, false)) 0 n 1) as Hst. cbv beta in Hst.
  rewrite Z.mul_0_r, trips_unit, Z.sub_0_r in Hst by lia. unfold MaxAllocSize in *.
  apply Hst; [lia|int_solve|unfold int_max; lia|]. intros k Hk. simpl.
  rewrite check_true by lia. do 2 f_equal. lia.
Qed.

Lemma construct_md_array_ok {A} (zero : A) elems ds lbs ty :
  ds ≠ [] → zlen ds <= MAXDIM → zlen lbs = zlen ds →
  Forall (λ d, 0 < d) ds → product ds <= MaxArraySize → product ds <= zlen elems →
  (∀ i d b, ds !! i = Some d → lbs !! i = Some b → is_int (d + b)) →
  construct_md_array zero elems None (zlen ds) ds lbs ty
  = Ok (mkArrayType (zlen ds) 0 ty ds lbs [] (take (Z.to_nat (product ds)) elems)).
Proof.
  intros Hne Hdim Hlbs Hpos Hmax Helems Hb. unfold construct_md_array. pose proof (zlen_nonneg ds).
  rewrite !check_true by lia. rewrite ArrayGetNItems_complete by (done || (unfold MAXDIM, int_max in *; lia)). cbn [mbind res_bind].
  rewrite ArrayCheckBounds_ok by done. cbn [mbind res_bind].
  pose proof (product_pos ds Hpos). replace (product ds <=? 0) with false by lia.
  change MaxArraySize with 134217727 in *.
  rewrite construct_md_array_nbytes by (unfold MaxAllocSize; lia). cbn [mbind res_bind].
  assert (ARR_OVERHEAD_NONULLS (zlen ds) <= 64).
  { unfold ARR_OVERHEAD_NONULLS, MAXALIGN, sizeof_ArrayType, MAXDIM in *.
    pose proof (Z.mul_div_le (16 + 2 * 4 * zlen ds + 7) 8 ltac:(lia)). lia. }
  rewrite check_true by (unfold MaxAllocSize; lia). rewrite require_true by lia.
  rewrite (Z.mul_comm 4), Z.div_mul by lia.
  rewrite !take_ge by (unfold zlen in *; lia).
  apply CopyArrayEls_nonulls; [lia|unfold int_max; lia].
Qed.

Lemma take_tabulate {E} (spec : Z → E) n : take (Z.to_nat n) (tabulate spec n) = tabulate spec n.
Proof. apply take_ge. unfold tabulate. rewrite length_fmap, length_seqZ. lia. Qed.

(** A vector of values that were all computed. *)
Lemma construct_array_tabulate (spec : Z → float4) n ty :
  0 < n <= 134217727 →
  construct_array (Some f4_zero) (tabulate spec n) n ty = Ok (mkArrayType 1 0 ty [n] [1] [] (tabulate spec n)).
Proof.
  intros Hn. unfold construct_array.
  pose proof (construct_md_array_ok (Some f4_zero) (tabulate spec n) [n] [1] ty) as Hc.
  unfold product in Hc. simpl foldr in Hc. rewrite Z.mul_1_r in Hc. change (zlen [n]) with 1 in Hc.
  change MaxArraySize with 134217727 in Hc.
  rewrite Hc; [|done|done|done|apply Forall_singleton; lia|lia|rewrite zlen_tabulate; lia|].
  - by rewrite take_tabulate.
  - intros [|i] d b; [|by destruct i]. simpl. intros [= <-] [= <-]. int_solve.
Qed.
