(* ===== verification/Bytes.v ===== *)
(** * Bytes: memory that is read as bytes

    Byte buffers whose contents after [palloc] are arbitrary but fixed (the class
    [Memory]), [repalloc], the byte orders of integers, the power-of-two helpers
    of [pg_bitutils.h], and [array_bitmap_copy] of [arrayfuncs.c], which copies
    runs of null bits between bitmaps at any bit offset. *)

From S2P Require Import Prelude PgArray.

Open Scope Z_scope.

Definition is_byte (b : Z) : Prop := 0 <= b < 256.

(** What the bytes of a fresh chunk happen to be. *)
Class Memory := {
  junk : Z → list Z;
  junk_len : ∀ n, 0 <= n → zlen (junk n) = n;
  junk_bytes : ∀ n, Forall is_byte (junk n)
}.

Definition palloc_bytes `{Memory} (size : Z) : res (list Z) :=
  check ((0 <=? size) && (size <=? MaxAllocSize)) palloc_msg (Ok (junk size)).

(** [repalloc] keeps the bytes that fit; the rest are those of a fresh chunk. *)
Definition repalloc `{Memory} (d : list Z) (size : Z) : res (list Z) :=
  check ((0 <=? size) && (size <=? MaxAllocSize)) palloc_msg
    (Ok (take (Z.to_nat size) d ++ drop (length d) (junk size))).

(** Memory that happens to hold zeros. *)
Definition zeroed_memory : Memory.
Proof.
  refine {| junk := λ n, replicate (Z.to_nat n) 0 |}.
  - intros n Hn. by apply zlen_replicate.
  - intros n. apply Forall_replicate. unfold is_byte. lia.
Defined.

(** ** Integers as bytes *)

(** The [n] low bytes of [x], the least significant first. *)
Fixpoint le_bytes (n : nat) (x : Z) : list Z :=
  match n with O => [] | S n => x mod 256 :: le_bytes n (x / 256) end.
Fixpoint le_value (bs : list Z) : Z :=
  match bs with [] => 0 | b :: bs => b + 256 * le_value bs end.

(** [pg_hton32] and the copy that follows it: the most significant byte first. *)
Definition be_bytes (n : nat) (x : Z) : list Z := reverse (le_bytes n x).
Definition be_value (bs : list Z) : Z := le_value (reverse bs).

Lemma length_le_bytes n x : length (le_bytes n x) = n.
Proof. revert x. induction n; intros x; simpl; auto. Qed.

Lemma le_value_bytes n x : le_value (le_bytes n x) = x mod 256 ^ n.
Proof.
  revert x. induction n as [|n IH]; intros x; simpl le_value.
  - simpl. by rewrite Z.mod_1_r.
  - simpl le_bytes. simpl le_value. rewrite IH, Nat2Z.inj_succ, Z.pow_succ_r by lia.
    rewrite Z.rem_mul_r by lia. done.
Qed.

Lemma le_bytes_byte n x : Forall is_byte (le_bytes n x).
Proof.
  revert x. induction n as [|n IH]; intros x; simpl; constructor; [|done].
  unfold is_byte. by apply Z.mod_pos_bound.
Qed.

Lemma be_value_bytes n x : be_value (be_bytes n x) = x mod 256 ^ n.
Proof. unfold be_value, be_bytes. by rewrite reverse_involutive, le_value_bytes. Qed.

Lemma length_be_bytes n x : length (be_bytes n x) = n.
Proof. unfold be_bytes. by rewrite length_reverse, length_le_bytes. Qed.

(** ** pg_bitutils.h *)

(** The position of the leftmost one bit; not defined for 0. *)
Definition pg_leftmost_one_pos32 (word : Z) : Z := Z.log2 word.

Definition pg_nextpower2_32 (num : Z) : Z :=
  let num := u32 num in
  if Z.land num (u32 (num - 1)) =? 0 then num
  else u32 (Z.shiftl 1 (pg_leftmost_one_pos32 num + 1)).

(** At least its argument, and less than twice as much. *)
Lemma pg_nextpower2_32_bounds num :
  0 < num <= 2147483648 → num <= pg_nextpower2_32 num < 2 * num.
Proof.
  intros Hn. unfold pg_nextpower2_32. rewrite (u32_id num), (u32_id (num - 1)) by lia.
  destruct (Z.eqb_spec (Z.land num (num - 1)) 0) as [_|Hne]; [lia|].
  unfold pg_leftmost_one_pos32. pose proof (Z.log2_spec num ltac:(lia)) as [Hlo Hhi].
  pose proof (Z.log2_nonneg num) as Hlog.
  assert (num ≠ 2 ^ Z.log2 num) as Hpow.
  { intros Heq. apply Hne. assert (num - 1 = Z.ones (Z.log2 num)) as -> by (rewrite Z.ones_equiv; lia).
    rewrite Z.land_ones by done. rewrite Heq at 1. apply Z.mod_same. lia. }
  rewrite Z.shiftl_1_l, Z.add_1_r, u32_id; rewrite Z.pow_succ_r in * by lia; [lia|].
  assert (Z.log2 num < 31) as Hlt.
  { apply Z.log2_lt_pow2; [lia|]. destruct (decide (num = 2147483648)) as [->|]; [done|lia]. }
  split; [lia|]. replace 4294967296 with (2 * 2 ^ 31) by done.
  apply Z.mul_lt_mono_pos_l; [lia|]. by apply Z.pow_lt_mono_r.
Qed.

(** ** arrayfuncs.c: array_bitmap_copy

    The loop keeps the destination byte it is filling in [destbitval] and writes
    it back when it is complete, or at the end. *)

(** [destbitmask <<= 1; if (destbitmask == 0x100) { *destbitmap++ = destbitval; ... }];
    [n] items remain. *)
Definition dest_advance (n : nat) (dest : list Z) (dpos dmask dval : Z) : res (list Z * Z * Z * Z) :=
  let dmask := Z.shiftl dmask 1 in
  if dmask =? 256 then
    dest ← lset dest dpos dval;
    dval ← (match n with O => Ok dval | S _ => lget dest (dpos + 1) end);
    Ok (dest, dpos + 1, 1, dval)
  else Ok (dest, dpos, dmask, dval).
Definition src_advance (n : nat) (src : list Z) (spos smask sval : Z) : res (Z * Z * Z) :=
  let smask := Z.shiftl smask 1 in
  if smask =? 256 then
    sval ← (match n with O => Ok sval | S _ => lget src (spos + 1) end);
    Ok (spos + 1, 1, sval)
  else Ok (spos, smask, sval).

Definition bitmap_end (dest : list Z) (dpos dmask dval : Z) : res (list Z) :=
  if negb (dmask =? 1) then lset dest dpos dval else Ok dest.

Fixpoint bitmap_copy_loop (n : nat) (dest : list Z) (dpos dmask dval : Z) (src : list Z) (spos smask sval : Z)
    : res (list Z) :=
  match n with
  | O => bitmap_end dest dpos dmask dval
  | S n =>
      let dval := if negb (Z.land sval smask =? 0) then Z.lor dval dmask else Z.ldiff dval dmask in
      '(dest, dpos, dmask, dval) ← dest_advance n dest dpos dmask dval;
      '(spos, smask, sval) ← src_advance n src spos smask sval;
      bitmap_copy_loop n dest dpos dmask dval src spos smask sval
  end.
Fixpoint bitmap_set_loop (n : nat) (dest : list Z) (dpos dmask dval : Z) : res (list Z) :=
  match n with
  | O => bitmap_end dest dpos dmask dval
  | S n =>
      '(dest, dpos, dmask, dval) ← dest_advance n dest dpos dmask (Z.lor dval dmask);
      bitmap_set_loop n dest dpos dmask dval
  end.

Definition array_bitmap_copy (destbitmap : list Z) (destoffset : Z) (srcbitmap : option (list Z))
    (srcoffset nitems : Z) : res (list Z) :=
  if nitems <=? 0 then Ok destbitmap
  else
    dpos ← idiv destoffset 8;
    dbit ← imod destoffset 8;
    destbitval ← lget destbitmap dpos;
    match srcbitmap with
    | Some src =>
        spos ← idiv srcoffset 8;
        sbit ← imod srcoffset 8;
        srcbitval ← lget src spos;
        bitmap_copy_loop (Z.to_nat nitems) destbitmap dpos (Z.shiftl 1 dbit) destbitval
          src spos (Z.shiftl 1 sbit) srcbitval
    | None => bitmap_set_loop (Z.to_nat nitems) destbitmap dpos (Z.shiftl 1 dbit) destbitval
    end.

(** Bit [i] of a bitmap. *)
Definition getbit (l : list Z) (i : Z) : bool :=
  match l !! Z.to_nat (i / 8) with Some b => Z.testbit b (i mod 8) | None => false end.

(** The bits while byte [dp / 8] is held in [dval]. *)
Definition held (act : bool) (dest : list Z) (dp dval i : Z) : bool :=
  if act && (i / 8 =? dp / 8) then Z.testbit dval (i mod 8) else getbit dest i.

(** Moving on by one bit. *)
Lemma next_bit p :
  (p mod 8 < 7 ∧ (p + 1) / 8 = p / 8 ∧ (p + 1) mod 8 = p mod 8 + 1)
  ∨ (p mod 8 = 7 ∧ (p + 1) / 8 = p / 8 + 1 ∧ (p + 1) mod 8 = 0).
Proof.
  pose proof (Z.div_mod p 8 ltac:(lia)). pose proof (Z.mod_pos_bound p 8 ltac:(lia)).
  destruct (decide (p mod 8 = 7)); [right|left]; (split; [lia|]).
  - split; [symmetry; apply (Z.div_unique_pos _ _ _ 0)|symmetry; apply (Z.mod_unique_pos _ _ (p / 8 + 1))]; lia.
  - split; [symmetry; apply (Z.div_unique_pos _ _ _ (p mod 8 + 1))|symmetry; apply (Z.mod_unique_pos _ _ (p / 8))]; lia.
Qed.

Lemma mask_shift p : Z.shiftl (2 ^ (p mod 8)) 1 = 2 ^ (p mod 8 + 1).
Proof.
  pose proof (Z.mod_pos_bound p 8 ltac:(lia)). rewrite Z.shiftl_mul_pow2, Z.pow_add_r by lia. done.
Qed.

Lemma getbit_insert l j b i :
  0 <= i → (j < length l)%nat →
  getbit (<[j := b]> l) i = if decide (Z.to_nat (i / 8) = j) then Z.testbit b (i mod 8) else getbit l i.
Proof.
  intros Hi Hj. unfold getbit. destruct (decide (Z.to_nat (i / 8) = j)) as [->|Hne].
  - by rewrite list_lookup_insert_eq.
  - by rewrite list_lookup_insert_ne by done.
Qed.

Definition active (n : nat) (dp : Z) : bool := match n with O => negb (dp mod 8 =? 0) | S _ => true end.

Lemma dest_advance_spec (n : nat) dest dp dval :
  0 <= dp → dp + n < 8 * zlen dest →
  ∃ dest' dval', dest_advance n dest (dp / 8) (2 ^ (dp mod 8)) dval
                 = Ok (dest', (dp + 1) / 8, 2 ^ ((dp + 1) mod 8), dval')
    ∧ length dest' = length dest
    ∧ ∀ i, 0 <= i → held (active n (dp + 1)) dest' (dp + 1) dval' i = held true dest dp dval i.
Proof.
  intros Hdp Hlen. unfold dest_advance. rewrite mask_shift. unfold zlen in Hlen.
  assert (0 <= dp / 8 < length dest) as Hpos by (split; [apply Z.div_pos; lia|apply Z.div_lt_upper_bound; lia]).
  destruct (next_bit dp) as [(Hm & Hd1 & Hm1)|(Hm & Hd1 & Hm1)].
  - rewrite (proj2 (Z.eqb_neq (2 ^ (dp mod 8 + 1)) 256)).
    + exists dest, dval. rewrite Hm1, Hd1. split; [done|]. split; [done|]. intros i Hi. unfold held. rewrite Hd1.
      assert (active n (dp + 1) = true) as ->; [|done]. destruct n; [|done]. simpl.
      pose proof (Z.mod_pos_bound dp 8). lia.
    + intros Heq. change 256 with (2 ^ 8) in Heq. apply Z.pow_inj_r in Heq; pose proof (Z.mod_pos_bound dp 8); lia.
  - rewrite Hm. change (2 ^ (7 + 1) =? 256) with true. cbv iota.
    unfold lset. rewrite (proj2 (Z.leb_le 0 (dp / 8))) by lia. cbn [andb].
    rewrite (proj2 (Z.ltb_lt (dp / 8) (zlen dest))) by (unfold zlen; lia). cbn [mbind res_bind].
    assert (∀ i, 0 <= i → getbit (<[Z.to_nat (dp / 8) := dval]> dest) i = held true dest dp dval i) as Hget.
    { intros i Hi. rewrite getbit_insert by lia. unfold held. cbn [andb].
      pose proof (Z.div_pos i 8 Hi ltac:(lia)). destruct (Z.eqb_spec (i / 8) (dp / 8)); case_decide; done || lia. }
    destruct n as [|n]; cbn [mbind res_bind].
    + exists (<[Z.to_nat (dp / 8) := dval]> dest), dval. rewrite Hd1, Hm1, length_insert. split; [done|].
      split; [done|]. intros i Hi. unfold held at 1. simpl. rewrite Hm1. simpl. by apply Hget.
    + assert (dp / 8 + 1 < length dest).
      { pose proof (Z.div_mod dp 8 ltac:(lia)). lia. }
      destruct (lookup_lt_is_Some_2 (<[Z.to_nat (dp / 8) := dval]> dest) (Z.to_nat (dp / 8 + 1))) as [v Hv].
      { rewrite length_insert. lia. }
      rewrite (lget_lookup _ (dp / 8 + 1) _ ltac:(lia) Hv). cbn [mbind res_bind].
      exists (<[Z.to_nat (dp / 8) := dval]> dest), v. rewrite Hd1, Hm1, length_insert. split; [done|].
      split; [done|]. intros i Hi. unfold held at 1. simpl. rewrite Hd1, <-Hget by done.
      destruct (Z.eqb_spec (i / 8) (dp / 8 + 1)) as [Heq|]; [|done]. unfold getbit. by rewrite Heq, Hv.
Qed.

Lemma src_advance_spec (n : nat) src sp sval :
  0 <= sp → sp + n < 8 * zlen src → src !! Z.to_nat (sp / 8) = Some sval →
  ∃ sval', src_advance n src (sp / 8) (2 ^ (sp mod 8)) sval = Ok ((sp + 1) / 8, 2 ^ ((sp + 1) mod 8), sval')
    ∧ (n ≠ O → src !! Z.to_nat ((sp + 1) / 8) = Some sval').
Proof.
  intros Hsp Hlen Hs. unfold src_advance. rewrite mask_shift. unfold zlen in Hlen.
  destruct (next_bit sp) as [(Hm & Hd1 & Hm1)|(Hm & Hd1 & Hm1)].
  - rewrite (proj2 (Z.eqb_neq (2 ^ (sp mod 8 + 1)) 256)).
    + exists sval. rewrite Hm1, Hd1. done.
    + intros Heq. change 256 with (2 ^ 8) in Heq. apply Z.pow_inj_r in Heq; pose proof (Z.mod_pos_bound sp 8); lia.
  - rewrite Hm. change (2 ^ (7 + 1) =? 256) with true. cbv iota. rewrite Hd1, Hm1.
    destruct n as [|n]; cbn [mbind res_bind]; [by exists sval|].
    destruct (lookup_lt_is_Some_2 src (Z.to_nat (sp / 8 + 1))) as [v Hv].
    { pose proof (Z.div_mod sp 8 ltac:(lia)). pose proof (Z.div_pos sp 8). lia. }
    pose proof (Z.div_pos sp 8 Hsp ltac:(lia)).
    rewrite (lget_lookup _ (sp / 8 + 1) _ ltac:(lia) Hv). by exists v.
Qed.

(** One step of either loop writes bit [dp]. *)
Lemma held_set dest dp dval (b : bool) i :
  0 <= dp →
  held true dest dp (if b then Z.lor dval (2 ^ (dp mod 8)) else Z.ldiff dval (2 ^ (dp mod 8))) i
  = if i =? dp then b else held true dest dp dval i.
Proof.
  intros Hdp. unfold held. cbn [andb].
  pose proof (Z.div_mod i 8 ltac:(lia)). pose proof (Z.div_mod dp 8 ltac:(lia)).
  pose proof (Z.mod_pos_bound i 8 ltac:(lia)). pose proof (Z.mod_pos_bound dp 8 ltac:(lia)).
  destruct (Z.eqb_spec (i / 8) (dp / 8)) as [Heq|Hne].
  - destruct b; [rewrite Z.lor_spec|rewrite Z.ldiff_spec]; rewrite Z.pow2_bits_eqb by lia.
    + destruct (Z.eqb_spec (dp mod 8) (i mod 8)), (Z.eqb_spec i dp); try lia; by rewrite ?orb_true_r, ?orb_false_r.
    + destruct (Z.eqb_spec (dp mod 8) (i mod 8)), (Z.eqb_spec i dp); try lia; by rewrite ?andb_true_r, ?andb_false_r.
  - destruct (Z.eqb_spec i dp) as [->|]; [lia|done].
Qed.

Lemma bitmap_end_spec dest dp dval :
  0 <= dp → dp <= 8 * zlen dest →
  ∃ dest', bitmap_end dest (dp / 8) (2 ^ (dp mod 8)) dval = Ok dest' ∧ length dest' = length dest
    ∧ ∀ i, 0 <= i → getbit dest' i = held (active 0 dp) dest dp dval i.
Proof.
  intros Hdp Hlen. unfold bitmap_end, active. pose proof (Z.mod_pos_bound dp 8 ltac:(lia)).
  destruct (Z.eqb_spec (dp mod 8) 0) as [->|Hne].
  - exists dest. done.
  - rewrite (proj2 (Z.eqb_neq (2 ^ (dp mod 8)) 1)).
    + pose proof (Z.div_mod dp 8 ltac:(lia)). pose proof (Z.div_pos dp 8 Hdp ltac:(lia)).
      unfold lset. rewrite (proj2 (Z.leb_le 0 (dp / 8))) by lia. rewrite (proj2 (Z.ltb_lt (dp / 8) (zlen dest))) by lia.
      cbn [negb andb]. unfold zlen in *. eexists. split; [done|]. rewrite length_insert. split; [done|].
      intros i Hi. rewrite getbit_insert by lia. unfold held. cbn [andb].
      pose proof (Z.div_pos i 8 Hi ltac:(lia)). destruct (Z.eqb_spec (i / 8) (dp / 8)); case_decide; done || lia.
    + intros Heq. change 1 with (2 ^ 0) in Heq. apply Z.pow_inj_r in Heq; lia.
Qed.

Lemma sval_bit src sp sval : src !! Z.to_nat (sp / 8) = Some sval → 
  negb (Z.land sval (2 ^ (sp mod 8)) =? 0) = getbit src sp.
Proof.
  intros Hs. unfold getbit. rewrite Hs. pose proof (Z.mod_pos_bound sp 8 ltac:(lia)).
  destruct (Z.testbit sval (sp mod 8)) eqn:Hb.
  - apply negb_true_iff, Z.eqb_neq. intros H0. apply (f_equal (λ z, Z.testbit z (sp mod 8))) in H0.
    rewrite Z.land_spec, Hb, Z.pow2_bits_true, Z.bits_0 in H0 by lia. done.
  - apply negb_false_iff, Z.eqb_eq. apply Z.bits_inj'. intros k Hk.
    rewrite Z.land_spec, Z.pow2_bits_eqb, Z.bits_0 by lia.
    destruct (Z.eqb_spec (sp mod 8) k) as [<-|]; [by rewrite Hb|by rewrite andb_false_r].
Qed.

Lemma bitmap_copy_loop_spec n dest dp dval src sp sval :
  0 <= dp → dp + Z.of_nat n <= 8 * zlen dest → 0 <= sp → sp + Z.of_nat n <= 8 * zlen src →
  (n ≠ O → src !! Z.to_nat (sp / 8) = Some sval) →
  ∃ dest', bitmap_copy_loop n dest (dp / 8) (2 ^ (dp mod 8)) dval src (sp / 8) (2 ^ (sp mod 8)) sval = Ok dest'
    ∧ length dest' = length dest
    ∧ ∀ i, 0 <= i → getbit dest' i = if (dp <=? i) && (i <? dp + Z.of_nat n) then getbit src (sp + (i - dp))
                                     else held (active n dp) dest dp dval i.
Proof.
  revert dest dp dval sp sval. induction n as [|n IH]; intros dest dp dval sp sval Hdp Hd Hsp Hs Hsv; cbn [bitmap_copy_loop].
  - destruct (bitmap_end_spec dest dp dval) as (dest' & -> & Hl & Hb); [lia..|].
    exists dest'. split; [done|]. split; [done|]. intros i Hi. rewrite Hb by done.
    destruct ((dp <=? i) && _) eqn:Hc; [|done].
    apply andb_true_iff in Hc as [Hc1%Z.leb_le Hc2%Z.ltb_lt]. simpl in Hc2. lia.
  - specialize (Hsv ltac:(done)).
    destruct (dest_advance_spec n dest dp (if negb (Z.land sval (2 ^ (sp mod 8)) =? 0)
      then Z.lor dval (2 ^ (dp mod 8)) else Z.ldiff dval (2 ^ (dp mod 8)))) as (dest1 & dval1 & -> & Hl1 & Hh1); [lia..|].
    cbn [mbind res_bind]. destruct (src_advance_spec n src sp sval) as (sval1 & -> & Hs1); [lia|lia|done|].
    cbn [mbind res_bind].
    destruct (IH dest1 (dp + 1) dval1 (sp + 1) sval1) as (dest' & -> & Hl & Hb); [lia|unfold zlen in *; lia|lia|lia|done|].
    exists dest'. split; [done|]. split; [congruence|]. intros i Hi. rewrite Hb by done.
    rewrite Hh1, held_set by done. rewrite (sval_bit src sp) by done.
    destruct (Z.eqb_spec i dp) as [->|].
    + rewrite (proj2 (Z.leb_gt (dp + 1) dp)), Z.leb_refl, (proj2 (Z.ltb_lt dp (dp + Z.of_nat (S n)))) by lia.
      cbn [andb]. f_equal. lia.
    + replace (dp + Z.of_nat (S n)) with (dp + 1 + Z.of_nat n) by lia.
      replace (dp <=? i) with (dp + 1 <=? i) by lia.
      destruct (_ && _); [f_equal; lia|done].
Qed.

(** Setting bits is copying them from a bitmap of ones. *)
Lemma bitmap_set_loop_copy n dest dpos dmask dval m sp :
  0 <= sp → sp + Z.of_nat n < 8 * Z.of_nat m →
  bitmap_set_loop n dest dpos dmask dval
  = bitmap_copy_loop n dest dpos dmask dval (replicate m 255) (sp / 8) (2 ^ (sp mod 8)) 255.
Proof.
  revert dest dpos dmask dval sp. induction n as [|n IH]; intros dest dpos dmask dval sp Hsp Hm;
    cbn [bitmap_set_loop bitmap_copy_loop]; [done|].
  assert (∀ q, 0 <= q → q / 8 < m → replicate m 255 !! Z.to_nat (q / 8) = Some 255) as Hrep.
  { intros q Hq Hqm. apply lookup_replicate. split; [done|]. pose proof (Z.div_pos q 8). lia. }
  assert (sp / 8 < m ∧ (n ≠ O → (sp + 1) / 8 < m)) as [Hq0 Hq1].
  { split; [|intros Hn0]; apply Z.div_lt_upper_bound; lia. }
  rewrite (sval_bit (replicate m 255) sp) by auto.
  assert (getbit (replicate m 255) sp = true) as ->.
  { unfold getbit. rewrite Hrep by done. pose proof (Z.mod_pos_bound sp 8 ltac:(lia)).
    change 255 with (Z.ones 8). apply Z.ones_spec_low. lia. }
  destruct (dest_advance n dest dpos dmask (Z.lor dval dmask)) as [[[[dest1 dpos1] dmask1] dval1]| |]; try done.
  cbn [mbind res_bind].
  destruct (src_advance_spec n (replicate m 255) sp 255) as (sval' & -> & Hs').
  { done. } { unfold zlen. rewrite length_replicate. lia. } { auto. }
  cbn [mbind res_bind]. destruct n as [|n]; [done|].
  rewrite (IH _ _ _ _ (sp + 1)) by lia. specialize (Hs' ltac:(done)). rewrite Hrep in Hs'; [|lia|by apply Hq1].
  injection Hs' as <-. done.
Qed.

(** [array_bitmap_copy] copies [nitems] bits (ones, when there is no source) and
    changes no other bit. *)
Lemma array_bitmap_copy_spec dest destoffset src srcoffset nitems :
  0 <= destoffset → 0 <= nitems → destoffset + nitems <= 8 * zlen dest →
  0 <= srcoffset → (∀ s, src = Some s → srcoffset + nitems <= 8 * zlen s) →
  ∃ dest', array_bitmap_copy dest destoffset src srcoffset nitems = Ok dest' ∧ length dest' = length dest
    ∧ ∀ i, 0 <= i → getbit dest' i
        = if (destoffset <=? i) && (i <? destoffset + nitems)
          then match src with Some s => getbit s (srcoffset + (i - destoffset)) | None => true end
          else getbit dest i.
Proof.
  intros Hd Hn Hdl Hs Hsl. unfold array_bitmap_copy. destruct (Z.leb_spec nitems 0) as [H0|Hpos].
  { exists dest. split; [done|]. split; [done|]. intros i Hi. destruct (_ && _) eqn:Hc; [lia|done]. }
  assert (∀ (l : list Z) q, 0 <= q → q + nitems <= 8 * zlen l → ∃ v, l !! Z.to_nat (q / 8) = Some v ∧ lget l (q / 8) = Ok v) as Hget.
  { intros l q Hq Hl. pose proof (Z.div_pos q 8 Hq ltac:(lia)). destruct (lookup_lt_is_Some_2 l (Z.to_nat (q / 8))) as [v Hv].
    - unfold zlen in Hl. assert (q / 8 < length l) by (apply Z.div_lt_upper_bound; lia). lia.
    - exists v. split; [done|]. by apply lget_lookup. }
  rewrite (idiv_pos destoffset), (imod_pos destoffset) by lia. cbn [mbind res_bind].
  destruct (Hget dest destoffset Hd Hdl) as (dval & Hdv & ->). cbn [mbind res_bind].
  rewrite Z.shiftl_1_l.
  assert (∀ i, held (active (Z.to_nat nitems) destoffset) dest destoffset dval i = getbit dest i) as Hheld.
  { intros i. unfold active. destruct (Z.to_nat nitems) eqn:Heq; [lia|]. unfold held. cbn [andb].
    destruct (Z.eqb_spec (i / 8) (destoffset / 8)) as [Hi|]; [|done]. unfold getbit. by rewrite Hi, Hdv. }
  destruct src as [src|].
  - specialize (Hsl src eq_refl). rewrite idiv_pos, imod_pos by lia. cbn [mbind res_bind].
    destruct (Hget src srcoffset Hs Hsl) as (sval & Hsv & ->). cbn [mbind res_bind]. rewrite Z.shiftl_1_l.
    destruct (bitmap_copy_loop_spec (Z.to_nat nitems) dest destoffset dval src srcoffset sval) as (dest' & -> & Hl & Hb);
      [lia..|done|]. rewrite Z2Nat.id in Hb by lia.
    exists dest'. split; [done|]. split; [done|]. intros i Hi. rewrite Hb by done. by rewrite Hheld.
  - set (m := Z.to_nat (nitems / 8 + 1)).
    assert (nitems < 8 * Z.of_nat m) as Hm.
    { unfold m. pose proof (Z.div_mod nitems 8 ltac:(lia)). pose proof (Z.mod_pos_bound nitems 8 ltac:(lia)).
      pose proof (Z.div_pos nitems 8). lia. }
    clearbody m. rewrite (bitmap_set_loop_copy _ _ _ _ _ m 0) by lia.
    destruct (bitmap_copy_loop_spec (Z.to_nat nitems) dest destoffset dval (replicate m 255) 0 255) as (dest' & -> & Hl & Hb);
      [lia|lia|lia|unfold zlen; rewrite length_replicate; lia|intros _; apply lookup_replicate_2; change (Z.to_nat (0 / 8)) with O; lia|].
    rewrite Z2Nat.id in Hb by lia. exists dest'. split; [done|]. split; [done|]. intros i Hi. rewrite Hb by done.
    rewrite Hheld. destruct (_ && _) eqn:Hc; [|done]. unfold getbit.
    rewrite Z.add_0_l, lookup_replicate_2.
    + pose proof (Z.mod_pos_bound (i - destoffset) 8 ltac:(lia)). change 255 with (Z.ones 8). apply Z.ones_spec_low. lia.
    + assert ((i - destoffset) / 8 < m) by (apply Z.div_lt_upper_bound; lia).
      pose proof (Z.div_pos (i - destoffset) 8). lia.
Qed.

(** The result depends on the bits that are copied, not on the bytes that hold
    them. *)
Lemma bitmap_copy_loop_ext n dest dpos dmask dval s1 s2 sp v1 v2 :
  0 <= sp → sp + Z.of_nat n <= 8 * zlen s1 → sp + Z.of_nat n <= 8 * zlen s2 →
  (n ≠ O → s1 !! Z.to_nat (sp / 8) = Some v1 ∧ s2 !! Z.to_nat (sp / 8) = Some v2) →
  (∀ i, sp <= i < sp + Z.of_nat n → getbit s1 i = getbit s2 i) →
  bitmap_copy_loop n dest dpos dmask dval s1 (sp / 8) (2 ^ (sp mod 8)) v1
  = bitmap_copy_loop n dest dpos dmask dval s2 (sp / 8) (2 ^ (sp mod 8)) v2.
Proof.
  revert dest dpos dmask dval sp v1 v2.
  induction n as [|n IH]; intros dest dpos dmask dval sp v1 v2 Hsp Hl1 Hl2 Hv Hb; cbn [bitmap_copy_loop]; [done|].
  destruct (Hv ltac:(done)) as [Hv1 Hv2]. rewrite (sval_bit s1 sp v1), (sval_bit s2 sp v2), (Hb sp) by (done || lia).
  destruct (dest_advance n dest dpos dmask _) as [[[[dest1 dpos1] dmask1] dval1]| |]; try done. cbn [mbind res_bind].
  destruct (src_advance_spec n s1 sp v1) as (w1 & -> & Hw1); [lia|lia|done|].
  destruct (src_advance_spec n s2 sp v2) as (w2 & -> & Hw2); [lia|lia|done|]. cbn [mbind res_bind].
  apply IH; [lia..|naive_solver|]. intros i Hi. apply Hb. lia.
Qed.

Lemma array_bitmap_copy_ext dest destoffset s1 s2 srcoffset nitems :
  0 <= srcoffset → srcoffset + nitems <= 8 * zlen s1 → srcoffset + nitems <= 8 * zlen s2 →
  (∀ i, srcoffset <= i < srcoffset + nitems → getbit s1 i = getbit s2 i) →
  array_bitmap_copy dest destoffset (Some s1) srcoffset nitems
  = array_bitmap_copy dest destoffset (Some s2) srcoffset nitems.
Proof.
  intros Hs Hl1 Hl2 Hb. unfold array_bitmap_copy. destruct (Z.leb_spec nitems 0) as [|Hpos]; [done|].
  destruct (idiv destoffset 8) as [dpos| |]; try done. destruct (imod destoffset 8) as [dbit| |]; try done. cbn [mbind res_bind].
  destruct (lget dest dpos) as [dv| |]; try done. cbn [mbind res_bind].
  rewrite idiv_pos, imod_pos by lia. cbn [mbind res_bind]. pose proof (Z.div_pos srcoffset 8 Hs ltac:(lia)).
  assert (srcoffset / 8 < zlen s1 ∧ srcoffset / 8 < zlen s2) as [? ?] by (split; apply Z.div_lt_upper_bound; lia).
  destruct (lget_in_range s1 (srcoffset / 8)) as (v1 & -> & Hv1); [lia|].
  destruct (lget_in_range s2 (srcoffset / 8)) as (v2 & -> & Hv2); [lia|]. cbn [mbind res_bind].
  pose proof (Z.mod_pos_bound srcoffset 8 ltac:(lia)). rewrite Z.shiftl_1_l. rewrite Z.shiftl_1_l.
  apply bitmap_copy_loop_ext; try lia; [done|]. intros i Hi. apply Hb. lia.
Qed.
