(* ===== verification/StringInfo.v ===== *)
(** * StringInfo: extensible byte strings and binary messages

    [StringInfoData] of [stringinfo.c] and the part of [pqformat.c] and
    [pqformat.h] that builds and reads messages: the aggregate's transition state
    travels between processes in this form.

    [si_rep s bs] says that [s] is well formed and holds the bytes [bs].  Every
    append is shown to append; reading an integer returns the integer that was
    sent. *)

From S2P Require Import Prelude PgArray Bytes.

Open Scope Z_scope.

Record StringInfoData := mkStringInfo {
  si_data : list Z;
  si_len : Z;
  si_maxlen : Z;
  si_cursor : Z
}.

Section stringinfo.
  Context `{Memory}.
  Implicit Types s : StringInfoData.

Definition resetStringInfo s : res StringInfoData :=
  d ← lset (si_data s) 0 0; Ok (mkStringInfo d 0 (si_maxlen s) 0).

Definition initStringInfo : res StringInfoData :=
  let size := 1024 in
  d ← palloc_bytes size;
  resetStringInfo (mkStringInfo d 0 size 0).

(** [while (needed > newlen) newlen = 2 * newlen;] from a positive [newlen] and
    with [needed < 2^31], at most 31 rounds. *)
Fixpoint newlen_loop (fuel : nat) (needed newlen : Z) : res Z :=
  match fuel with
  | O => Stuck NoProgress
  | S fuel => if newlen <? needed then newlen_loop fuel needed (i32 (2 * newlen)) else Ok newlen
  end.

Definition enlarge_msg : string := "invalid string enlargement request size: %d".
Definition oom_msg : string := "out of memory".

Definition enlargeStringInfo s (needed : Z) : res StringInfoData :=
  if needed <? 0 then Ereport enlarge_msg
  else if u64 (MaxAllocSize - si_len s) <=? needed then Ereport oom_msg
  else
    let needed := i32 (needed + si_len s + 1) in
    if needed <=? si_maxlen s then Ok s
    else
      newlen ← newlen_loop 32 needed (i32 (2 * si_maxlen s));
      let newlen := if MaxAllocSize <? newlen then MaxAllocSize else newlen in
      d ← repalloc (si_data s) newlen;
      Ok (mkStringInfo d (si_len s) newlen (si_cursor s)).

(** [memcpy(str->data + str->len, data, datalen); str->len += datalen;] *)
Definition si_write s (data : list Z) (datalen : Z) : res StringInfoData :=
  d ← lcopy (si_data s) (si_len s) data 0 datalen;
  Ok (mkStringInfo d (i32 (si_len s + datalen)) (si_maxlen s) (si_cursor s)).
(** [str->data[str->len] = '\0';] *)
Definition si_terminate s : res StringInfoData :=
  d ← lset (si_data s) (si_len s) 0; Ok (mkStringInfo d (si_len s) (si_maxlen s) (si_cursor s)).

Definition appendBinaryStringInfoNT s (data : list Z) (datalen : Z) : res StringInfoData :=
  s ← enlargeStringInfo s datalen; si_write s data datalen.
Definition appendBinaryStringInfo s (data : list Z) (datalen : Z) : res StringInfoData :=
  s ← enlargeStringInfo s datalen;
  s ← si_write s data datalen;
  si_terminate s.
Definition appendStringInfoChar s (ch : Z) : res StringInfoData :=
  s ← (if si_maxlen s <=? i32 (si_len s + 1) then enlargeStringInfo s 1 else Ok s);
  s ← si_write s [ch] 1;
  si_terminate s.
Definition appendStringInfoCharMacro s (ch : Z) : res StringInfoData :=
  if si_maxlen s <=? i32 (si_len s + 1) then appendStringInfoChar s ch
  else s ← si_write s [ch] 1; si_terminate s.
Definition appendStringInfoSpaces s (count : Z) : res StringInfoData :=
  if 0 <? count then
    s ← enlargeStringInfo s count;
    s ← si_write s (replicate (Z.to_nat count) 32) count;
    si_terminate s
  else Ok s.

(** [appendStringInfoString], the bytes of a C string without its terminator. *)
Definition appendStringInfoString s (str : list Z) : res StringInfoData := appendBinaryStringInfo s str (zlen str).

(** [pvsnprintf] into [avail] bytes at [d + off]; [text] is what the format yields.
    It returns the length of the text or, if that does not fit, the space needed. *)
Definition pvsnprintf (d : list Z) (off avail : Z) (text : list Z) : res (list Z * Z) :=
  let n := Z.min (zlen text) (avail - 1) in
  d ← lcopy d off text 0 n;
  d ← lset d (off + n) 0;
  if zlen text <? avail then Ok (d, zlen text)
  else check (zlen text <=? MaxAllocSize - 1) oom_msg (Ok (d, zlen text + 1)).

(** Zero on success, else the space to ask for. *)
Definition appendStringInfoVA s (text : list Z) : res (StringInfoData * Z) :=
  let avail := i32 (si_maxlen s - si_len s) in
  if avail <? 16 then Ok (s, 32)
  else
    '(d, nprinted) ← pvsnprintf (si_data s) (si_len s) avail text;
    if nprinted <? avail then Ok (mkStringInfo d (i32 (si_len s + nprinted)) (si_maxlen s) (si_cursor s), 0)
    else d ← lset d (si_len s) 0; Ok (mkStringInfo d (si_len s) (si_maxlen s) (si_cursor s), nprinted).

(** Three attempts are enough: the first may ask for 32 bytes, the second for the
    exact space. *)
Fixpoint append_loop (fuel : nat) s (text : list Z) : res StringInfoData :=
  match fuel with
  | O => Stuck NoProgress
  | S fuel =>
      '(s, needed) ← appendStringInfoVA s text;
      if needed =? 0 then Ok s else s ← enlargeStringInfo s needed; append_loop fuel s text
  end.
Definition appendStringInfo s (text : list Z) : res StringInfoData := append_loop 3 s text.

(** ** pqformat.h, pqformat.c: sending *)
Definition pq_writeint8 s (i : Z) : res StringInfoData := si_write s (be_bytes 1 i) 1.
Definition pq_writeint16 s (i : Z) : res StringInfoData := si_write s (be_bytes 2 i) 2.
Definition pq_writeint32 s (i : Z) : res StringInfoData := si_write s (be_bytes 4 i) 4.
Definition pq_sendint8 s (i : Z) : res StringInfoData := s ← enlargeStringInfo s 1; pq_writeint8 s i.
Definition pq_sendint16 s (i : Z) : res StringInfoData := s ← enlargeStringInfo s 2; pq_writeint16 s i.
Definition pq_sendint32 s (i : Z) : res StringInfoData := s ← enlargeStringInfo s 4; pq_writeint32 s i.
Definition size_msg : string := "unsupported integer size %d".
Definition pq_sendint s (i b : Z) : res StringInfoData :=
  if b =? 1 then pq_sendint8 s i else if b =? 2 then pq_sendint16 s i
  else if b =? 4 then pq_sendint32 s i else Ereport size_msg.
Definition pq_sendbytes s (data : list Z) (datalen : Z) : res StringInfoData :=
  appendBinaryStringInfo s data datalen.

Definition pq_begintypsend : res StringInfoData :=
  s ← initStringInfo;
  s ← appendStringInfoCharMacro s 0;
  s ← appendStringInfoCharMacro s 0;
  s ← appendStringInfoCharMacro s 0;
  appendStringInfoCharMacro s 0.

(** A variable-length value has a four-byte length word, which holds the total size
    shifted left by two, or a one-byte header, which holds it shifted left by one
    with the lowest bit set. *)
Definition SET_VARSIZE (d : list Z) (len : Z) : res (list Z) := lcopy d 0 (le_bytes 4 (Z.shiftl len 2)) 0 4.
Definition VARATT_IS_1B (b : list Z) : bool := Z.odd (hd 0 b).
Definition VARSIZE_ANY_EXHDR (b : list Z) : Z :=
  if VARATT_IS_1B b then Z.shiftr (hd 0 b) 1 - 1 else Z.shiftr (le_value (take 4 b)) 2 - 4.
Definition VARDATA_ANY (b : list Z) : list Z := if VARATT_IS_1B b then drop 1 b else drop 4 b.

Definition pq_endtypsend s : res (list Z) :=
  d ← SET_VARSIZE (si_data s) (si_len s); Ok d.
End stringinfo.

(** ** Reading *)
Definition no_data_msg : string := "no data left in message".
Definition insufficient_msg : string := "insufficient data left in message".
Definition invalid_msg : string := "invalid message format".

Definition set_cursor (s : StringInfoData) (c : Z) : StringInfoData :=
  mkStringInfo (si_data s) (si_len s) (si_maxlen s) c.

Definition pq_getmsgbyte (msg : StringInfoData) : res (Z * StringInfoData) :=
  if si_len msg <=? si_cursor msg then Ereport no_data_msg
  else b ← lget (si_data msg) (si_cursor msg); Ok (b, set_cursor msg (si_cursor msg + 1)).

(** [pq_copymsgbytes] and [pq_getmsgbytes], which returns a pointer: the bytes
    behind it. *)
Definition pq_getmsgbytes (msg : StringInfoData) (datalen : Z) : res (list Z * StringInfoData) :=
  if (datalen <? 0) || (si_len msg - si_cursor msg <? datalen) then Ereport insufficient_msg
  else
    bs ← lcopy (replicate (Z.to_nat datalen) 0) 0 (si_data msg) (si_cursor msg) datalen;
    Ok (bs, set_cursor msg (i32 (si_cursor msg + datalen))).
Definition pq_copymsgbytes : StringInfoData → Z → res (list Z * StringInfoData) := pq_getmsgbytes.

Definition pq_getmsgint (msg : StringInfoData) (b : Z) : res (Z * StringInfoData) :=
  if (b =? 1) || (b =? 2) || (b =? 4) then
    '(bs, msg) ← pq_copymsgbytes msg b; Ok (be_value bs, msg)
  else Ereport size_msg.

Definition pq_getmsgend (msg : StringInfoData) : res unit :=
  if negb (si_cursor msg =? si_len msg) then Ereport invalid_msg else Ok tt.

(** extended_op.c: initReadOnlyStringInfo *)
Definition initReadOnlyStringInfo (data : list Z) (len : Z) : StringInfoData := mkStringInfo data len 0 0.

(** ** Well-formed strings *)

Record si_rep (s : StringInfoData) (bs : list Z) : Prop := {
  si_size : zlen (si_data s) = si_maxlen s;
  si_length : si_len s = zlen bs;
  si_room : si_len s < si_maxlen s;
  si_max : si_maxlen s <= MaxAllocSize;
  si_bytes : take (length bs) (si_data s) = bs
}.

(** [memcpy] into the middle of a buffer. *)
Lemma lcopy_ok {A} (dst : list A) doff src n :
  0 <= doff → 0 <= n → doff + n <= zlen dst → n <= zlen src →
  lcopy dst doff src 0 n
  = Ok (take (Z.to_nat doff) dst ++ take (Z.to_nat n) src ++ drop (Z.to_nat (doff + n)) dst).
Proof. intros. unfold lcopy. by rewrite require_true by lia. Qed.

Lemma lset_ok {A} (l : list A) i x : 0 <= i < zlen l → lset l i x = Ok (<[Z.to_nat i := x]> l).
Proof. intros Hi. unfold lset. by replace ((0 <=? i) && (i <? zlen l)) with true by lia. Qed.

Section facts.
  Context `{Memory}.

Lemma newlen_loop_ok fuel needed newlen :
  0 < newlen → needed < 2 ^ 30 → needed <= newlen * 2 ^ Z.of_nat fuel →
  ∃ r, newlen_loop (S fuel) needed newlen = Ok r ∧ needed <= r ∧ newlen <= r <= Z.max newlen (2 * needed).
Proof.
  revert newlen. induction fuel as [|fuel IH]; intros newlen Hn Hneed Hle; simpl newlen_loop.
  - rewrite (proj2 (Z.ltb_ge newlen needed)) by lia. exists newlen. split; [done|]. lia.
  - destruct (Z.ltb_spec newlen needed) as [Hlt|Hge]; [|exists newlen; split; [done|lia]].
    rewrite i32_id by int_solve. rewrite Nat2Z.inj_succ, Z.pow_succ_r in Hle by lia.
    destruct (IH (2 * newlen)) as (r & Hr & ? & ?); [lia|lia|lia|]. exists r. split; [exact Hr|]. lia.
Qed.

Lemma zlen_repalloc (d : list Z) n : zlen d <= n → zlen (take (Z.to_nat n) d ++ drop (length d) (junk n)) = n.
Proof.
  intros Hd. pose proof (zlen_nonneg d). pose proof (junk_len n ltac:(lia)) as Hj.
  unfold zlen in *. rewrite length_app, length_take, length_drop. lia.
Qed.

(** There is room for [n] more bytes and a terminator afterwards. *)
Lemma enlarge_ok s bs n :
  si_rep s bs → 0 <= n → n < MaxAllocSize - zlen bs →
  ∃ s', enlargeStringInfo s n = Ok s' ∧ si_rep s' bs ∧ zlen bs + n + 1 <= si_maxlen s'
        ∧ si_cursor s' = si_cursor s.
Proof.
  intros Hs Hn Hfit. pose proof Hs as [Hsz Hl Hroom Hmax Hb]. pose proof (zlen_nonneg bs).
  unfold enlargeStringInfo. rewrite (proj2 (Z.ltb_ge n 0)) by done. unfold MaxAllocSize in *.
  unfold u64. rewrite Z.mod_small by lia. rewrite (proj2 (Z.leb_gt _ n)) by lia.
  rewrite (i32_id (n + si_len s + 1)) by int_solve.
  destruct (Z.leb_spec (n + si_len s + 1) (si_maxlen s)) as [Hle|Hgt]; [exists s; split_and!; done || lia|].
  destruct (newlen_loop_ok 31 (n + si_len s + 1) (i32 (2 * si_maxlen s))) as (r & -> & Hr1 & Hr2).
  { rewrite i32_id by int_solve. lia. }
  { change (2 ^ 30) with 1073741824. lia. }
  { rewrite i32_id by int_solve. change (2 ^ Z.of_nat 31) with 2147483648. lia. }
  cbn [mbind res_bind]. rewrite i32_id in Hr2 by int_solve.
  set (nl := if 1073741823 <? r then 1073741823 else r).
  assert (n + si_len s + 1 <= nl <= 1073741823 ∧ si_maxlen s <= nl) as [Hnl Hnl'] by (unfold nl; case_match; lia).
  unfold repalloc. rewrite check_true by (unfold MaxAllocSize; lia). cbn [mbind res_bind].
  eexists. split; [done|]. split; [|simpl; split; [lia|done]]. split; simpl.
  - apply zlen_repalloc. lia.
  - done.
  - lia.
  - unfold MaxAllocSize. lia.
  - unfold zlen in *. rewrite take_app_le by (rewrite length_take; lia). rewrite take_take. rewrite Nat.min_l by lia. done.
Qed.

(** Writing into the room that is there. *)
Lemma si_write_ok s bs data :
  si_rep s bs → zlen bs + zlen data < si_maxlen s →
  ∃ s', si_write s data (zlen data) = Ok s' ∧ si_rep s' (bs ++ data) ∧ si_cursor s' = si_cursor s
        ∧ si_maxlen s' = si_maxlen s.
Proof.
  intros [Hsz Hl Hroom Hmax Hb] Hfit. pose proof (zlen_nonneg bs). pose proof (zlen_nonneg data).
  unfold si_write. rewrite Hl, lcopy_ok by lia. cbn [mbind res_bind].
  unfold MaxAllocSize in Hmax. rewrite i32_id by int_solve.
  eexists. split; [done|]. split; [|done]. unfold zlen in *.
  rewrite Nat2Z.id. rewrite (take_ge data) by lia.
  split; simpl; unfold zlen; rewrite ?length_app, ?length_take, ?length_drop; try lia.
  - unfold MaxAllocSize. lia.
  - rewrite Hb, app_assoc. apply take_app_length'. by rewrite length_app.
Qed.

Lemma si_terminate_ok s bs :
  si_rep s bs → ∃ s', si_terminate s = Ok s' ∧ si_rep s' bs ∧ si_data s' !! length bs = Some 0
    ∧ si_cursor s' = si_cursor s ∧ si_maxlen s' = si_maxlen s.
Proof.
  intros [Hsz Hl Hroom Hmax Hb]. unfold si_terminate, lset.
  replace ((0 <=? si_len s) && (si_len s <? zlen (si_data s))) with true by (pose proof (zlen_nonneg bs); lia).
  cbn [mbind res_bind]. unfold zlen in *. rewrite Hl, Nat2Z.id. eexists. split; [done|].
  split; [|split; [apply list_lookup_insert_eq; lia|done]].
  split; simpl; unfold zlen; rewrite ?length_insert; try done; try lia. by rewrite take_insert_ge by lia.
Qed.

Lemma append_binary_ok s bs data :
  si_rep s bs → zlen bs + zlen data < MaxAllocSize →
  ∃ s', appendBinaryStringInfo s data (zlen data) = Ok s' ∧ si_rep s' (bs ++ data)
    ∧ si_data s' !! length (bs ++ data) = Some 0 ∧ si_cursor s' = si_cursor s.
Proof.
  intros Hs Hfit. unfold appendBinaryStringInfo. pose proof (zlen_nonneg data).
  destruct (enlarge_ok s bs (zlen data)) as (s1 & -> & Hs1 & Hr1 & Hc1); [done|lia|lia|]. cbn [mbind res_bind].
  destruct (si_write_ok s1 bs data) as (s2 & -> & Hs2 & Hc2 & _); [done|lia|]. cbn [mbind res_bind].
  destruct (si_terminate_ok s2 _ Hs2) as (s3 & -> & Hs3 & Hz & Hc3 & _). exists s3. split_and!; try done. congruence.
Qed.

Lemma appendVA_fits s bs text :
  si_rep s bs → 16 <= si_maxlen s - zlen bs → zlen text < si_maxlen s - zlen bs →
  ∃ s', appendStringInfoVA s text = Ok (s', 0) ∧ si_rep s' (bs ++ text) ∧ si_data s' !! length (bs ++ text) = Some 0.
Proof.
  intros Hs H16 Hfit. pose proof Hs as [Hsz Hl Hroom Hmax Hb]. unfold MaxAllocSize in Hmax.
  pose proof (zlen_nonneg bs). pose proof (zlen_nonneg text). unfold appendStringInfoVA. rewrite Hl.
  rewrite (i32_id (si_maxlen s - zlen bs)) by int_solve. rewrite (proj2 (Z.ltb_ge _ 16)) by lia.
  unfold pvsnprintf. rewrite Z.min_l by lia.
  destruct (si_write_ok s bs text Hs ltac:(lia)) as (s1 & Hw & Hs1 & Hc1 & Hm1). unfold si_write in Hw. rewrite Hl in Hw.
  destruct (lcopy (si_data s) (zlen bs) text 0 (zlen text)) as [d1| |]; cbn [mbind res_bind] in Hw |- *; [|done|done].
  injection Hw as <-. destruct (si_terminate_ok _ _ Hs1) as (s2 & Ht & Hs2 & Hz2 & Hc2 & Hm2).
  unfold si_terminate in Ht. simpl in Ht. rewrite (i32_id (zlen bs + zlen text)) in Ht by int_solve.
  destruct (lset d1 (zlen bs + zlen text) 0) as [d2| |]; cbn [mbind res_bind] in Ht |- *; [|done|done].
  rewrite (proj2 (Z.ltb_lt (zlen text) _)) by lia. cbn [mbind res_bind]. rewrite (proj2 (Z.ltb_lt (zlen text) _)) by lia.
  injection Ht as <-. rewrite i32_id by int_solve. eexists. split; [done|]. simpl in *. split; [|done].
  exact Hs2.
Qed.

Lemma appendVA_short s bs text :
  si_rep s bs → si_maxlen s - zlen bs <= zlen text → 16 <= si_maxlen s - zlen bs → zlen text < MaxAllocSize →
  ∃ s', appendStringInfoVA s text = Ok (s', zlen text + 1) ∧ si_rep s' bs.
Proof.
  intros Hs Hshort H16 Hbig. pose proof Hs as [Hsz Hl Hroom Hmax Hb]. unfold MaxAllocSize in *.
  pose proof (zlen_nonneg bs). unfold appendStringInfoVA. rewrite Hl.
  rewrite (i32_id (si_maxlen s - zlen bs)) by int_solve. rewrite (proj2 (Z.ltb_ge _ 16)) by lia.
  unfold pvsnprintf. rewrite Z.min_r by lia. set (n := si_maxlen s - zlen bs - 1).
  rewrite lcopy_ok by lia. cbn [mbind res_bind].
  set (d1 := _ ++ _ ++ _). assert (length d1 = length (si_data s) ∧ take (length bs) d1 = bs) as [Hd1 Htk].
  { unfold d1, zlen in *. rewrite !length_app, !length_take, length_drop. split; [lia|].
    rewrite take_app_le by (rewrite length_take; lia). by rewrite take_take, Nat2Z.id, Nat.min_id. }
  rewrite (lset_ok d1) by (unfold zlen in *; lia). cbn [mbind res_bind]. rewrite (proj2 (Z.ltb_ge (zlen text) _)) by lia. rewrite check_true by (unfold MaxAllocSize; lia).
  cbn [mbind res_bind]. rewrite (proj2 (Z.ltb_ge (zlen text + 1) _)) by lia.
  rewrite lset_ok by (unfold zlen in *; rewrite length_insert; lia). cbn [mbind res_bind].
  eexists. split; [done|]. split; simpl; unfold zlen in *; rewrite ?length_insert; try lia; try (unfold MaxAllocSize; lia).
  rewrite take_insert_ge, take_insert_ge by lia. done.
Qed.

(** [appendStringInfo] appends the formatted text. *)
Lemma append_format_ok s bs text :
  si_rep s bs → zlen bs + zlen text + 33 < MaxAllocSize →
  ∃ s', appendStringInfo s text = Ok s' ∧ si_rep s' (bs ++ text) ∧ si_data s' !! length (bs ++ text) = Some 0.
Proof.
  intros Hs Hfit. unfold appendStringInfo. pose proof (zlen_nonneg bs). pose proof (zlen_nonneg text).
  assert (∀ f s, si_rep s bs → 16 <= si_maxlen s - zlen bs →
    ∃ s', append_loop (S (S f)) s text = Ok s' ∧ si_rep s' (bs ++ text) ∧ si_data s' !! length (bs ++ text) = Some 0) as Htry.
  { intros f s1 Hs1 H16. cbn [append_loop]. destruct (decide (zlen text < si_maxlen s1 - zlen bs)) as [Hlt|Hge].
    - destruct (appendVA_fits s1 bs text Hs1 H16 Hlt) as (s2 & -> & ? & ?). by exists s2.
    - destruct (appendVA_short s1 bs text Hs1) as (s2 & -> & Hs2); [lia|lia|lia|]. cbn [mbind res_bind].
      rewrite (proj2 (Z.eqb_neq (zlen text + 1) 0)) by lia.
      destruct (enlarge_ok s2 bs (zlen text + 1)) as (s3 & -> & Hs3 & Hr3 & _); [done|lia|lia|]. cbn [mbind res_bind].
      destruct (appendVA_fits s3 bs text Hs3) as (s4 & -> & ? & ?); [lia|lia|]. by exists s4. }
  destruct (decide (16 <= si_maxlen s - zlen bs)) as [H16|H16]; [by apply (Htry 1%nat)|].
  pose proof Hs as [_ Hl Hroom Hmax _]. unfold MaxAllocSize in Hmax. 
  assert (appendStringInfoVA s text = Ok (s, 32)) as Hva.
  { unfold appendStringInfoVA. rewrite Hl, i32_id by int_solve. by rewrite (proj2 (Z.ltb_lt _ 16)) by lia. }
  cbn [append_loop]. rewrite Hva. cbn [mbind res_bind]. change (32 =? 0) with false. cbv iota.
  destruct (enlarge_ok s bs 32) as (s1 & -> & Hs1 & Hr1 & _); [done|lia|lia|]. cbn [mbind res_bind].
  destruct (Htry 0%nat s1 Hs1) as (s2 & Hrun & ?); [lia|]. exists s2. split; [exact Hrun|done].
Qed.

(** The three sizes of integers. *)
Lemma send_be_ok s bs i (k : nat) :
  si_rep s bs → zlen bs + k < MaxAllocSize →
  ∃ s', (s1 ← enlargeStringInfo s k; si_write s1 (be_bytes k i) k) = Ok s'
    ∧ si_rep s' (bs ++ be_bytes k i) ∧ si_cursor s' = si_cursor s.
Proof.
  intros Hs Hfit.
  destruct (enlarge_ok s bs k) as (s1 & -> & Hs1 & Hr1 & Hc1); [done|lia|lia|]. cbn [mbind res_bind].
  destruct (si_write_ok s1 bs (be_bytes k i)) as (s2 & Hw & Hs2 & Hc2 & _); [done| |].
  { unfold zlen in *. rewrite length_be_bytes. lia. }
  unfold zlen in Hw. rewrite length_be_bytes in Hw. exists s2. split; [exact Hw|]. split; [done|congruence].
Qed.

Lemma sendint32_ok s bs i :
  si_rep s bs → zlen bs + 4 < MaxAllocSize →
  ∃ s', pq_sendint32 s i = Ok s' ∧ si_rep s' (bs ++ be_bytes 4 i).
Proof. intros Hs Hfit. destruct (send_be_ok s bs i 4 Hs Hfit) as (s' & ? & ? & _). by exists s'. Qed.

Lemma sendbytes_ok s bs data :
  si_rep s bs → zlen bs + zlen data < MaxAllocSize →
  ∃ s', pq_sendbytes s data (zlen data) = Ok s' ∧ si_rep s' (bs ++ data).
Proof. intros Hs Hfit. destruct (append_binary_ok s bs data Hs Hfit) as (s' & ? & ? & _). by exists s'. Qed.

Lemma initStringInfo_ok : ∃ s, initStringInfo = Ok s ∧ si_rep s [] ∧ si_maxlen s = 1024.
Proof.
  unfold initStringInfo, palloc_bytes. rewrite check_true by done. cbn [mbind res_bind].
  unfold resetStringInfo, lset. simpl si_data. rewrite junk_len by lia. simpl.
  eexists. split; [done|]. split; [|done]. split; simpl; try done.
  pose proof (junk_len 1024 ltac:(lia)) as Hj. unfold zlen in *. by rewrite length_insert.
Qed.

Lemma append_char_ok s bs ch :
  si_rep s bs → zlen bs + 1 < MaxAllocSize →
  ∃ s', appendStringInfoCharMacro s ch = Ok s' ∧ si_rep s' (bs ++ [ch]).
Proof.
  intros Hs Hfit. unfold appendStringInfoCharMacro, appendStringInfoChar.
  pose proof Hs as [_ Hl Hroom _ _]. pose proof (zlen_nonneg bs). unfold MaxAllocSize in Hfit.
  rewrite i32_id by int_solve. destruct (Z.leb_spec (si_maxlen s) (si_len s + 1)) as [Hle|Hgt].
  - destruct (enlarge_ok s bs 1) as (s1 & -> & Hs1 & Hr1 & _); [done|lia|unfold MaxAllocSize; lia|]. cbn [mbind res_bind].
    destruct (si_write_ok s1 bs [ch]) as (s2 & Hw & Hs2 & _); [done|unfold zlen in *; simpl; lia|].
    change (zlen [ch]) with 1 in Hw. rewrite Hw. cbn [mbind res_bind].
    destruct (si_terminate_ok s2 _ Hs2) as (s3 & -> & Hs3 & _). by exists s3.
  - destruct (si_write_ok s bs [ch]) as (s2 & Hw & Hs2 & _); [done|unfold zlen in *; simpl; lia|].
    change (zlen [ch]) with 1 in Hw. rewrite Hw. cbn [mbind res_bind].
    destruct (si_terminate_ok s2 _ Hs2) as (s3 & -> & Hs3 & _). by exists s3.
Qed.

Lemma begintypsend_ok : ∃ s, pq_begintypsend = Ok s ∧ si_rep s [0; 0; 0; 0].
Proof.
  unfold pq_begintypsend. destruct initStringInfo_ok as (s0 & -> & H0 & _). cbn [mbind res_bind].
  destruct (append_char_ok s0 _ 0 H0) as (s1 & -> & H1); [done|]. cbn [mbind res_bind].
  destruct (append_char_ok s1 _ 0 H1) as (s2 & -> & H2); [done|]. cbn [mbind res_bind].
  destruct (append_char_ok s2 _ 0 H2) as (s3 & -> & H3); [done|]. cbn [mbind res_bind].
  destruct (append_char_ok s3 _ 0 H3) as (s4 & -> & H4); [done|]. by exists s4.
Qed.
End facts.

(** [msg] has the bytes [bs] left to read. *)
Record reads (msg : StringInfoData) (bs : list Z) : Prop := {
  rd_cursor : 0 <= si_cursor msg <= si_len msg;
  rd_len : si_len msg <= zlen (si_data msg);
  rd_max : si_len msg <= MaxAllocSize;
  rd_bytes : drop (Z.to_nat (si_cursor msg)) (take (Z.to_nat (si_len msg)) (si_data msg)) = bs
}.

Lemma reads_length msg bs : reads msg bs → zlen bs = si_len msg - si_cursor msg.
Proof. intros [Hc Hl _ <-]. unfold zlen in *. rewrite length_drop, length_take. lia. Qed.

Lemma getmsgbytes_ok msg bs rest :
  reads msg (bs ++ rest) →
  ∃ msg', pq_getmsgbytes msg (zlen bs) = Ok (bs, msg') ∧ reads msg' rest.
Proof.
  intros Hr. pose proof (reads_length _ _ Hr) as Hlen. destruct Hr as [Hc Hl Hm Hb].
  pose proof (zlen_nonneg bs). pose proof (zlen_nonneg rest).
  assert (zlen (bs ++ rest) = zlen bs + zlen rest) as Happ by (unfold zlen; rewrite length_app; lia).
  unfold pq_getmsgbytes. replace ((zlen bs <? 0) || (si_len msg - si_cursor msg <? zlen bs)) with false by lia.
  unfold lcopy. rewrite require_true by (rewrite zlen_replicate by lia; lia). cbn [mbind res_bind].
  unfold MaxAllocSize in Hm. rewrite i32_id by int_solve.
  eexists. split; [do 2 f_equal|].
  - rewrite (drop_ge (replicate _ _)) by (rewrite length_replicate; lia). rewrite app_nil_r. simpl.
    rewrite skipn_firstn_comm in Hb.
    apply (f_equal (take (length bs))) in Hb. rewrite take_app_length, take_take in Hb.
    rewrite Nat.min_l in Hb by (unfold zlen in *; lia). unfold zlen. by rewrite Nat2Z.id.
  - split; simpl; try (unfold MaxAllocSize; lia).
    apply (f_equal (drop (length bs))) in Hb. rewrite drop_app_length, drop_drop in Hb.
    rewrite <-Hb. f_equal. unfold zlen. lia.
Qed.

Lemma getmsgint_ok msg (k : nat) x rest :
  reads msg (be_bytes k x ++ rest) → (k = 1 ∨ k = 2 ∨ k = 4)%nat →
  ∃ msg', pq_getmsgint msg k = Ok (x mod 256 ^ k, msg') ∧ reads msg' rest.
Proof.
  intros Hr Hk. destruct (getmsgbytes_ok _ _ _ Hr) as (msg' & Hg & Hr'). exists msg'. split; [|done].
  unfold zlen in Hg. rewrite length_be_bytes in Hg. unfold pq_getmsgint, pq_copymsgbytes.
  replace ((Z.of_nat k =? 1) || (Z.of_nat k =? 2) || (Z.of_nat k =? 4)) with true by (destruct Hk as [-> | [-> | ->]]; done).
  rewrite Hg. cbn [mbind res_bind]. by rewrite be_value_bytes.
Qed.

Lemma getmsgend_ok msg : reads msg [] → pq_getmsgend msg = Ok tt.
Proof.
  intros Hr. pose proof (reads_length _ _ Hr) as Hl. unfold pq_getmsgend.
  replace (si_cursor msg =? si_len msg) with true; [done|]. unfold zlen in Hl. simpl in Hl. lia.
Qed.

(** The receiver reads what follows the length word. *)
Lemma endtypsend_ok s hdr bs :
  si_rep s (hdr ++ bs) → length hdr = 4%nat →
  ∃ d, pq_endtypsend s = Ok d ∧ reads (initReadOnlyStringInfo (VARDATA_ANY d) (VARSIZE_ANY_EXHDR d)) bs.
Proof.
  intros [Hsz Hl Hroom Hmax Hb] Hh. unfold pq_endtypsend, SET_VARSIZE.
  assert (si_len s = 4 + zlen bs) as Hlen by (rewrite Hl; unfold zlen; rewrite length_app; lia).
  pose proof (zlen_nonneg bs). unfold MaxAllocSize in *.
  set (w := le_bytes 4 (Z.shiftl (si_len s) 2)).
  assert (length w = 4%nat) as Hw by apply length_le_bytes.
  rewrite (lcopy_ok _ 0 w 4) by (unfold zlen in *; lia). cbn [mbind res_bind].
  eexists. split; [done|]. change (take (Z.to_nat 0) (si_data s)) with (@nil Z). rewrite app_nil_l.
  change (Z.to_nat (0 + 4)) with 4%nat. rewrite (take_ge w) by (simpl; lia).
  assert (VARATT_IS_1B (w ++ drop 4 (si_data s)) = false) as H1b.
  { unfold VARATT_IS_1B, w. cbn [le_bytes app hd]. rewrite Z.shiftl_mul_pow2 by lia. change (2 ^ 2) with (2 * 2). change 256 with (2 * 128).
    rewrite Z.mul_assoc, (Z.mul_comm _ 2), Z.mul_assoc, (Z.mul_comm (2 * _) 2), Z.mul_mod_distr_l by lia. by rewrite Z.odd_mul. }
  assert (VARSIZE_ANY_EXHDR (w ++ drop 4 (si_data s)) = zlen bs) as Hv.
  { unfold VARSIZE_ANY_EXHDR. rewrite H1b, take_app_length' by done. unfold w. rewrite le_value_bytes.
    rewrite Z.shiftl_mul_pow2, Z.shiftr_div_pow2 by lia. change (2 ^ 2) with 4. change (256 ^ 4%nat) with 4294967296.
    rewrite Z.mod_small by lia. rewrite Z.div_mul by lia. lia. }
  rewrite Hv. unfold VARDATA_ANY. rewrite H1b, drop_app_length' by done.
  split; simpl; [lia| |unfold MaxAllocSize; lia|].
  - unfold zlen in *. rewrite length_drop. lia.
  - rewrite drop_0. apply (f_equal (drop 4)) in Hb. rewrite drop_app_length' in Hb by done.
    rewrite <-Hb at 2. rewrite length_app, Hh. rewrite skipn_firstn_comm. f_equal. unfold zlen. lia.
Qed.

(** ** Messages *)

(** A field of a message: an integer of 1, 2 or 4 bytes, or raw bytes. *)
Inductive field := FInt (size : nat) (x : Z) | FBytes (bs : list Z).

Definition field_bytes (f : field) : list Z :=
  match f with FInt k x => be_bytes k x | FBytes bs => bs end.
Definition field_ok (f : field) : Prop :=
  match f with FInt k x => (k = 1 ∨ k = 2 ∨ k = 4)%nat ∧ 0 <= x < 256 ^ k | FBytes _ => True end.

Definition send_field `{Memory} (f : field) (s : StringInfoData) : res StringInfoData :=
  match f with FInt k x => pq_sendint s x k | FBytes bs => pq_sendbytes s bs (zlen bs) end.
Definition get_field (f : field) (msg : StringInfoData) : res (field * StringInfoData) :=
  match f with
  | FInt k _ => '(x, msg) ← pq_getmsgint msg k; Ok (FInt k x, msg)
  | FBytes bs => '(bs, msg) ← pq_getmsgbytes msg (zlen bs); Ok (FBytes bs, msg)
  end.

(** Send the fields in order; read fields of the given sizes in order. *)
Definition send_message `{Memory} (fs : list field) : res (list Z) :=
  s ← pq_begintypsend; s ← foldM send_field fs s; pq_endtypsend s.
Fixpoint get_fields (fs : list field) (msg : StringInfoData) : res (list field) :=
  match fs with
  | [] => _ ← pq_getmsgend msg; Ok []
  | f :: fs => '(g, msg) ← get_field f msg; gs ← get_fields fs msg; Ok (g :: gs)
  end.
Definition receive_message (fs : list field) (d : list Z) : res (list field) :=
  get_fields fs (initReadOnlyStringInfo (VARDATA_ANY d) (VARSIZE_ANY_EXHDR d)).

Lemma send_field_ok `{Memory} s bs f :
  si_rep s bs → field_ok f → zlen bs + zlen (field_bytes f) < MaxAllocSize →
  ∃ s', send_field f s = Ok s' ∧ si_rep s' (bs ++ field_bytes f).
Proof.
  intros Hs Hf Hfit. destruct f as [k x|data]; [|by apply sendbytes_ok].
  destruct Hf as [Hk _]. simpl in *. unfold zlen in Hfit at 2. rewrite length_be_bytes in Hfit.
  destruct (send_be_ok s bs x k Hs Hfit) as (s' & Hrun & Hs' & _). exists s'. split; [|done].
  by destruct Hk as [-> | [-> | ->]].
Qed.

Lemma send_fields_ok `{Memory} fs s bs :
  si_rep s bs → Forall field_ok fs → zlen bs + zlen (flat_map field_bytes fs) < MaxAllocSize →
  ∃ s', foldM send_field fs s = Ok s' ∧ si_rep s' (bs ++ flat_map field_bytes fs).
Proof.
  revert s bs. induction fs as [|f fs IH]; intros s bs Hs Hall Hfit.
  { exists s. split; [done|]. simpl. by rewrite app_nil_r. }
  apply Forall_cons in Hall as [Hf Hall]. simpl in *. unfold zlen in *. rewrite !length_app in Hfit.
  destruct (send_field_ok s bs f) as (s1 & -> & Hs1); [done|done|unfold zlen; lia|]. cbn [mbind res_bind].
  rewrite app_assoc. apply IH; [done|done|]. unfold zlen. rewrite length_app. lia.
Qed.

Lemma get_field_ok msg f rest :
  reads msg (field_bytes f ++ rest) → field_ok f →
  ∃ msg', get_field f msg = Ok (f, msg') ∧ reads msg' rest.
Proof.
  intros Hr Hf. destruct f as [k x|data]; simpl in *.
  - destruct Hf as [Hk Hx]. destruct (getmsgint_ok _ _ _ _ Hr Hk) as (msg' & -> & ?). exists msg'. split; [|done].
    cbn [mbind res_bind]. by rewrite Z.mod_small.
  - destruct (getmsgbytes_ok _ _ _ Hr) as (msg' & -> & ?). by exists msg'.
Qed.

Lemma get_fields_ok fs msg :
  reads msg (flat_map field_bytes fs) → Forall field_ok fs → get_fields fs msg = Ok fs.
Proof.
  revert msg. induction fs as [|f fs IH]; intros msg Hr Hall; simpl.
  { by rewrite getmsgend_ok. }
  apply Forall_cons in Hall as [Hf Hall]. destruct (get_field_ok _ _ _ Hr Hf) as (msg' & -> & Hr').
  cbn [mbind res_bind]. by rewrite IH.
Qed.

Lemma send_message_ok `{Memory} fs :
  Forall field_ok fs → 4 + zlen (flat_map field_bytes fs) < MaxAllocSize →
  ∃ d, send_message fs = Ok d
    ∧ reads (initReadOnlyStringInfo (VARDATA_ANY d) (VARSIZE_ANY_EXHDR d)) (flat_map field_bytes fs).
Proof.
  intros Hall Hfit. unfold send_message. destruct begintypsend_ok as (s0 & -> & Hs0). cbn [mbind res_bind].
  destruct (send_fields_ok fs s0 _ Hs0 Hall Hfit) as (s1 & -> & Hs1). cbn [mbind res_bind].
  by apply endtypsend_ok with (1 := Hs1).
Qed.

(** A send of the first [n] of the bytes at [data]. *)
Lemma sendbytes_take `{Memory} s data n :
  0 <= n <= zlen data → pq_sendbytes s data n = pq_sendbytes s (take (Z.to_nat n) data) n.
Proof.
  intros Hn. unfold pq_sendbytes, appendBinaryStringInfo.
  destruct (enlargeStringInfo s n) as [s1| |]; try done. cbn [mbind res_bind]. unfold si_write, lcopy.
  replace (zlen (take (Z.to_nat n) data)) with n by (unfold zlen in *; rewrite length_take; lia).
  replace (0 + n <=? zlen data) with (0 + n <=? n) by lia. by rewrite !drop_0, take_take, Nat.min_id.
Qed.

(** C24: a message is read back as it was sent.  Whatever 1-, 2- and 4-byte
    integers and byte strings are appended between [pq_begintypsend] and
    [pq_endtypsend] (with the buffer growing as needed), reading fields of these
    sizes returns them in order and leaves nothing over, as long as the message
    stays below the allocation limit. *)
Theorem message_roundtrip `{Memory} fs :
  Forall field_ok fs → 4 + zlen (flat_map field_bytes fs) < MaxAllocSize →
  ∃ d, send_message fs = Ok d ∧ receive_message fs d = Ok fs.
Proof.
  intros Hall Hfit. destruct (send_message_ok fs Hall Hfit) as (d & -> & Hr). exists d. split; [done|].
  by apply get_fields_ok.
Qed.

Lemma message_roundtrip_witness :
  let M := zeroed_memory in let fs := [FInt 4 700; FBytes [1; 2; 3]; FInt 1 255] in
  Forall field_ok fs ∧ ∃ d, send_message fs = Ok d ∧ receive_message fs d = Ok fs.
Proof.
  intros M fs. assert (Forall field_ok fs) as Hok by (repeat apply Forall_cons_2; simpl; auto with lia).
  split; [exact Hok|]. apply (message_roundtrip fs Hok). reflexivity.
Defined.
