(* ===== verification/ArrayAgg.v ===== *)
(** * ArrayAgg: the aggregate that stacks arrays

    The aggregate [array_2d_agg] of [extended_op.c], which stacks the matrices of
    a group on their first dimension, and the functions of [arrayfuncs.c] and
    [lsyscache.c] it is built on.  Its five SQL functions (transition, final,
    combine, serialize, deserialize) are one definition each; the transition state
    [ArrayBuildStateArr] is passed explicitly.

    [st_holds st xs] says that a state has accumulated the arrays [xs].  The
    theorems show that the final function returns the arrays stacked in order,
    that a state survives serialisation, and that splitting the input among
    workers gives the array of the sequential plan; and they show where the
    combination goes wrong: a state with a null bitmap that is combined with one
    without.  [palloc] returns arbitrary bytes throughout (class [Memory]) and the
    contents of [pg_type] are a parameter (class [Catalog]). *)

From S2P Require Import Prelude PgArray Bytes StringInfo.

Open Scope Z_scope.

(** ** Types *)

Definition InvalidOid : Z := 0.
Definition OidIsValid (oid : Z) : bool := negb (oid =? InvalidOid).

(** The columns of [pg_type] that say whether a type is an array type. *)
Record Form_pg_type := { typelem : Z; typsubscript : Z }.
Class Catalog := { SearchTypeOid : Z → option Form_pg_type }.

Definition F_ARRAY_SUBSCRIPT_HANDLER : Z := 6179.
Definition IsTrueArrayType (t : Form_pg_type) : bool :=
  OidIsValid (typelem t) && (typsubscript t =? F_ARRAY_SUBSCRIPT_HANDLER).

(** lsyscache.c *)
Definition get_element_type `{Catalog} (typid : Z) : Z :=
  match SearchTypeOid typid with
  | Some typtup => if IsTrueArrayType typtup then typelem typtup else InvalidOid
  | None => InvalidOid
  end.

(** ** The transition state *)

Record ArrayBuildStateArr := mkState {
  st_data : option (list Z);         (* the chunk [data] points to *)
  st_nullbitmap : option (list Z);
  st_abytes : Z; st_nbytes : Z; st_aitems : Z; st_nitems : Z;
  st_ndims : Z; st_dims : list Z; st_lbs : list Z;
  st_array_type : Z; st_element_type : Z
}.

Definition not_array_msg : string := "data type %s is not an array type".
Definition null_array_msg : string := "cannot accumulate null arrays".
Definition empty_array_msg : string := "cannot accumulate empty arrays".
Definition ndims_msg : string := "number of array dimensions (%d) exceeds the maximum allowed (%d)".
Definition dims_msg : string := "cannot accumulate arrays of different dimensionality".
Definition argtype_msg : string := "could not determine input data type".
Definition context_msg : string := "aggregate function called in non-aggregate context".
Definition transfn_context_msg : string := "array_agg_2d+transfn called in non-aggregate context".

Section operations.
  Context `{Catalog, Memory}.

(** [p] where [NULL] must not be followed. *)
Definition deref {A} (p : option A) : res A := match p with Some x => Ok x | None => Stuck NullDeref end.

Definition initArrayResultArr (array_type element_type : Z) : res ArrayBuildStateArr :=
  let element_type := if negb (OidIsValid element_type) then get_element_type array_type else element_type in
  check (OidIsValid element_type) not_array_msg
    (Ok (mkState None None 0 0 0 0 0 (replicate 6 0) (replicate 6 0) array_type element_type)).

(** The first array decides on the dimensions of all. *)
Definition accum_first (st : ArrayBuildStateArr) (ndims : Z) (dims lbs : list Z) (ndatabytes : Z)
    : res ArrayBuildStateArr :=
  check (negb (ndims =? 0)) empty_array_msg
  (check (ndims + 1 <=? MAXDIM) ndims_msg
  (d ← lset (st_dims st) 0 0;
   d ← lcopy d 1 dims 0 ndims;
   l ← lset (st_lbs st) 0 1;
   l ← lcopy l 1 lbs 0 ndims;
   let abytes := i32 (pg_nextpower2_32 (Z.max 1024 (i32 (ndatabytes + 1)))) in
   data ← palloc_bytes abytes;
   Ok (mkState (Some data) (st_nullbitmap st) abytes (st_nbytes st) (st_aitems st) (st_nitems st)
         (ndims + 1) d l (st_array_type st) (st_element_type st)))).

Definition accum_next (st : ArrayBuildStateArr) (ndims : Z) (dims lbs : list Z) (ndatabytes : Z)
    : res ArrayBuildStateArr :=
  check (st_ndims st =? ndims + 1) dims_msg
  (_ ← cfor 0 ndims 1 (λ i _,
     sd ← lget (st_dims st) (i + 1); d ← lget dims i;
     if negb (sd =? d) then Ereport dims_msg
     else
       sl ← lget (st_lbs st) (i + 1); l ← lget lbs i;
       check (sl =? l) dims_msg (Ok tt)) tt;
   if st_abytes st <? i32 (st_nbytes st + ndatabytes) then
     let abytes := Z.max (i32 (st_abytes st * 2)) (i32 (st_nbytes st + ndatabytes)) in
     data ← deref (st_data st);
     data ← repalloc data abytes;
     Ok (mkState (Some data) (st_nullbitmap st) abytes (st_nbytes st) (st_aitems st) (st_nitems st)
           (st_ndims st) (st_dims st) (st_lbs st) (st_array_type st) (st_element_type st))
   else Ok st).

(** Mark everything so far as not null, in a bitmap for [aitems] items. *)
Definition new_bitmap (aitems nitems : Z) : res (list Z) :=
  n ← idiv (i32 (aitems + 7)) 8;
  bm ← palloc_bytes n;
  array_bitmap_copy bm 0 None 0 nitems.

Definition grow_bitmap (bm : list Z) (aitems : Z) : res (list Z) :=
  n ← idiv (i32 (aitems + 7)) 8; repalloc bm n.

(** The bitmap after [nitems] more items, described by [src] ([None]: no nulls). *)
Definition accum_bitmap (st : ArrayBuildStateArr) (src : option (list Z)) (nitems : Z)
    : res (option (list Z) * Z) :=
  match st_nullbitmap st, src with
  | None, None => Ok (None, st_aitems st)
  | _, _ =>
      let newnitems := i32 (st_nitems st + nitems) in
      '(bm, aitems) ←
        (match st_nullbitmap st with
         | None =>
             let aitems := i32 (pg_nextpower2_32 (Z.max 256 (i32 (newnitems + 1)))) in
             bm ← new_bitmap aitems (st_nitems st); Ok (bm, aitems)
         | Some bm =>
             if st_aitems st <? newnitems then
               let aitems := Z.max (i32 (st_aitems st * 2)) newnitems in
               bm ← grow_bitmap bm aitems; Ok (bm, aitems)
             else Ok (bm, st_aitems st)
         end);
      bm ← array_bitmap_copy bm (st_nitems st) src 0 nitems;
      Ok (Some bm, aitems)
  end.

(** [arg]: [None] for a null sub-array. *)
Definition accumArrayResultArr (astate : option ArrayBuildStateArr) (arg : option (ArrayType Z)) (array_type : Z)
    : res ArrayBuildStateArr :=
  match arg with
  | None => Ereport null_array_msg
  | Some arg =>
      st ← (match astate with None => initArrayResultArr array_type InvalidOid | Some st => Ok st end);
      nitems ← ArrayGetNItems (ndim arg) (arr_dims arg);
      let ndatabytes := zlen (arr_data arg) in
      st ← (if st_ndims st =? 0
            then accum_first st (ndim arg) (arr_dims arg) (arr_lbound arg) ndatabytes
            else accum_next st (ndim arg) (arr_dims arg) (arr_lbound arg) ndatabytes);
      data ← deref (st_data st);
      data ← lcopy data (st_nbytes st) (arr_data arg) 0 ndatabytes;
      '(bm, aitems) ← accum_bitmap st (ARR_NULLBITMAP arg) nitems;
      d0 ← lget (st_dims st) 0;
      d ← lset (st_dims st) 0 (i32 (d0 + 1));
      Ok (mkState (Some data) bm (st_abytes st) (i32 (st_nbytes st + ndatabytes)) aitems
            (i32 (st_nitems st + nitems)) (st_ndims st) d (st_lbs st) (st_array_type st) (st_element_type st))
  end.

(** ** extended_op.c

    [arg1_typeid] is what [get_fn_expr_argtype] returns and [in_agg] what
    [AggCheckCallContext] does. *)
Definition array_2d_agg_transfn (arg1_typeid : Z) (in_agg : bool) (state : option ArrayBuildStateArr)
    (arg : option (ArrayType Z)) : res ArrayBuildStateArr :=
  check (OidIsValid arg1_typeid) argtype_msg
  (check in_agg transfn_context_msg
  (st ← (match state with None => initArrayResultArr arg1_typeid InvalidOid | Some st => Ok st end);
   accumArrayResultArr (Some st) arg arg1_typeid)).

Definition makeAgg2dResultArr (st : ArrayBuildStateArr) : res (ArrayType Z) :=
  if st_ndims st =? 0 then Ok (construct_empty_array (st_element_type st))
  else
    _ ← ArrayGetNItems (st_ndims st) (st_dims st);
    let new_ndims := st_ndims st - 1 in
    let dataoffset := match st_nullbitmap st with
                      | Some _ => ARR_OVERHEAD_WITHNULLS new_ndims (st_nitems st)
                      | None => 0
                      end in
    let nbytes := i32 (st_nbytes st + match st_nullbitmap st with
                                      | Some _ => dataoffset
                                      | None => ARR_OVERHEAD_NONULLS new_ndims
                                      end) in
    check ((0 <=? nbytes) && (nbytes <=? MaxAllocSize)) palloc_msg
    (d0 ← lget (st_dims st) 0; d1 ← lget (st_dims st) 1; d2 ← lget (st_dims st) 2;
     dims ← lcopy (replicate (Z.to_nat new_ndims) 0) 0 [i32 (d0 * d1); d2] 0 new_ndims;
     lbs ← lcopy (replicate (Z.to_nat new_ndims) 0) 0 [1; 1] 0 new_ndims;
     src ← deref (st_data st);
     data ← lcopy (replicate (Z.to_nat (st_nbytes st)) 0) 0 src 0 (st_nbytes st);
     bm ← (match st_nullbitmap st with
           | Some bm => array_bitmap_copy (replicate (Z.to_nat ((st_nitems st + 7) / 8)) 0) 0 (Some bm) 0 (st_nitems st)
           | None => Ok []
           end);
     Ok (mkArrayType new_ndims dataoffset (st_element_type st) dims lbs bm data)).

(** [None] is the SQL null. *)
Definition array_2d_agg_finalfn (state : option ArrayBuildStateArr) : res (option (ArrayType Z)) :=
  match state with
  | None => Ok None
  | Some st => r ← makeAgg2dResultArr st; Ok (Some r)
  end.

(** The copy of [state2] the leader starts from. *)
Definition combine_first (st2 : ArrayBuildStateArr) : res ArrayBuildStateArr :=
  st1 ← initArrayResultArr (st_array_type st2) InvalidOid;
  data ← palloc_bytes (st_abytes st2);
  bm ← (match st_nullbitmap st2 with
        | Some bm2 =>
            size ← idiv (i32 (st_aitems st2 + 7)) 8;
            bm ← palloc_bytes size;
            bm ← lcopy bm 0 bm2 0 size;
            Ok (Some bm)
        | None => Ok (st_nullbitmap st1)
        end);
  src ← deref (st_data st2);
  data ← lcopy data 0 src 0 (st_nbytes st2);
  Ok (mkState (Some data) bm (st_abytes st2) (st_nbytes st2) (st_aitems st2) (st_nitems st2)
        (st_ndims st2) (st_dims st2) (st_lbs st2) (st_array_type st2) (st_element_type st2)).

(** The bitmap of [state1] with the items of [state2]. *)
Definition combine_bitmap (st1 st2 : ArrayBuildStateArr) : res (option (list Z) * Z) :=
  match st_nullbitmap st2 with
  | None => Ok (st_nullbitmap st1, st_aitems st1)
  | Some bm2 =>
      let newnitems := i32 (st_nitems st1 + st_nitems st2) in
      '(bm, aitems) ←
        (match st_nullbitmap st1 with
         | None =>
             let aitems := i32 (pg_nextpower2_32 (Z.max 256 (i32 (newnitems + 1)))) in
             bm ← new_bitmap aitems (st_nitems st1); Ok (bm, aitems)
         | Some bm1 =>
             if st_aitems st1 <? newnitems then
               let newaitems := i32 (st_aitems st1 + st_aitems st2) in
               let aitems := i32 (pg_nextpower2_32 newaitems) in
               bm ← grow_bitmap bm1 aitems; Ok (bm, aitems)
             else Ok (bm1, st_aitems st1)
         end);
      bm ← array_bitmap_copy bm (st_nitems st1) (Some bm2) 0 (st_nitems st2);
      Ok (Some bm, aitems)
  end.

Definition combine_next (st1 st2 : ArrayBuildStateArr) : res ArrayBuildStateArr :=
  let reqsize := i32 (st_nbytes st1 + st_nbytes st2) in
  check (st_ndims st1 =? st_ndims st2) dims_msg
  (_ ← cfor 1 (st_ndims st1) 1 (λ i _,
     d1 ← lget (st_dims st1) i; d2 ← lget (st_dims st2) i;
     if negb (d1 =? d2) then Ereport dims_msg
     else
       l1 ← lget (st_lbs st1) i; l2 ← lget (st_lbs st2) i;
       check (l1 =? l2) dims_msg (Ok tt)) tt;
   '(data, abytes) ← (if st_abytes st1 <? reqsize then
       let abytes := i32 (pg_nextpower2_32 reqsize) in
       data ← deref (st_data st1);
       data ← repalloc data abytes;
       Ok (data, abytes)
     else data ← deref (st_data st1); Ok (data, st_abytes st1));
   '(bm, aitems) ← combine_bitmap st1 st2;
   src ← deref (st_data st2);
   data ← lcopy data (st_nbytes st1) src 0 (st_nbytes st2);
   d1 ← lget (st_dims st1) 0; d2 ← lget (st_dims st2) 0;
   d ← lset (st_dims st1) 0 (i32 (d1 + d2));
   Ok (mkState (Some data) bm abytes (i32 (st_nbytes st1 + st_nbytes st2)) aitems
         (i32 (st_nitems st1 + st_nitems st2)) (st_ndims st1) d (st_lbs st1)
         (st_array_type st1) (st_element_type st1))).

Definition array_2d_agg_combine (in_agg : bool) (state1 state2 : option ArrayBuildStateArr)
    : res (option ArrayBuildStateArr) :=
  check in_agg context_msg
  (match state2 with
   | None => Ok state1
   | Some st2 =>
       match state1 with
       | None => st ← combine_first st2; Ok (Some st)
       | Some st1 => if 0 <? st_nitems st2 then st ← combine_next st1 st2; Ok (Some st) else Ok (Some st1)
       end
   end).

(** [int]s as they lie in memory. *)
Definition ints_bytes (ds : list Z) : list Z := flat_map (le_bytes 4) ds.
Fixpoint bytes_ints (n : nat) (bs : list Z) : list Z :=
  match n with O => [] | S n => i32 (le_value (take 4 bs)) :: bytes_ints n (drop 4 bs) end.

(** The arguments of these two may be null: neither function looks. *)
Definition array_agg_array_serialize (state : option ArrayBuildStateArr) : res (list Z) :=
  buf ← pq_begintypsend;
  st ← deref state;
  buf ← pq_sendint32 buf (st_element_type st);
  buf ← pq_sendint32 buf (st_array_type st);
  buf ← pq_sendint32 buf (st_nbytes st);
  data ← deref (st_data st);
  buf ← pq_sendbytes buf data (st_nbytes st);
  buf ← pq_sendint32 buf (st_abytes st);
  buf ← pq_sendint32 buf (st_aitems st);
  buf ← (match st_nullbitmap st with
         | Some bm => size ← idiv (i32 (st_aitems st + 7)) 8; pq_sendbytes buf bm size
         | None => Ok buf
         end);
  buf ← pq_sendint32 buf (st_nitems st);
  buf ← pq_sendint32 buf (st_ndims st);
  buf ← pq_sendbytes buf (ints_bytes (st_dims st)) 24;
  buf ← pq_sendbytes buf (ints_bytes (st_lbs st)) 24;
  pq_endtypsend buf.

Definition array_agg_array_deserialize (sstate : option (list Z)) : res ArrayBuildStateArr :=
  sstate ← deref sstate;
  let buf := initReadOnlyStringInfo (VARDATA_ANY sstate) (VARSIZE_ANY_EXHDR sstate) in
  '(element_type, buf) ← pq_getmsgint buf 4;
  '(array_type, buf) ← pq_getmsgint buf 4;
  '(nbytes, buf) ← pq_getmsgint buf 4;
  let nbytes := i32 nbytes in
  result ← initArrayResultArr array_type element_type;
  size ← newlen_loop 32 nbytes 1024;
  data ← palloc_bytes size;
  '(temp, buf) ← pq_getmsgbytes buf nbytes;
  data ← lcopy data 0 temp 0 nbytes;
  '(abytes, buf) ← pq_getmsgint buf 4;
  '(aitems, buf) ← pq_getmsgint buf 4;
  let aitems := i32 aitems in
  '(bm, buf) ← (if 0 <? aitems then
      size ← idiv (i32 (aitems + 7)) 8;
      bm ← palloc_bytes size;
      '(temp, buf) ← pq_getmsgbytes buf size;
      bm ← lcopy bm 0 temp 0 size;
      Ok (Some bm, buf)
    else Ok (None, buf));
  '(nitems, buf) ← pq_getmsgint buf 4;
  '(ndims, buf) ← pq_getmsgint buf 4;
  '(dims, buf) ← pq_getmsgbytes buf 24;
  '(lbs, buf) ← pq_getmsgbytes buf 24;
  _ ← pq_getmsgend buf;
  Ok (mkState (Some data) bm (i32 abytes) nbytes aitems (i32 nitems) (i32 ndims)
        (bytes_ints 6 dims) (bytes_ints 6 lbs) (st_array_type result) (st_element_type result)).
End operations.

(** ** Running the aggregate *)

Section plans.
  Context `{Catalog, Memory}.

(** The transition function over the rows of a group. *)
Definition aggregate (arg1_typeid : Z) (rows : list (option (ArrayType Z))) (state : option ArrayBuildStateArr)
    : res (option ArrayBuildStateArr) :=
  foldM (λ row state, st ← array_2d_agg_transfn arg1_typeid true state row; Ok (Some st)) rows state.

(** The plan of one process. *)
Definition sequential_plan (arg1_typeid : Z) (rows : list (option (ArrayType Z))) : res (option (ArrayType Z)) :=
  st ← aggregate arg1_typeid rows None; array_2d_agg_finalfn st.

(** A strict function is not called on a null.  The extension's script declares
    neither [array_agg_array_serialize] nor [array_agg_array_deserialize] strict. *)
Definition serialfn_strict : bool := false.
Definition deserialfn_strict : bool := false.

(** nodeAgg.c, for an aggregate with a serialization function. *)
Definition finalize_partialaggregate (fn_strict : bool) (transValue : option ArrayBuildStateArr)
    : res (option (list Z)) :=
  match transValue with
  | None => if fn_strict then Ok None else m ← array_agg_array_serialize None; Ok (Some m)
  | Some st => m ← array_agg_array_serialize (Some st); Ok (Some m)
  end.

(** execExprInterp.c: the steps that deserialize the argument of the combine
    function; a strict function that is given a null skips the combination too. *)
Definition agg_deserialize_combine (fn_strict : bool) (message : option (list Z)) (state : option ArrayBuildStateArr)
    : res (option ArrayBuildStateArr) :=
  match message with
  | None => if fn_strict then Ok state
            else st ← array_agg_array_deserialize None; array_2d_agg_combine true state (Some st)
  | Some m => st ← array_agg_array_deserialize (Some m); array_2d_agg_combine true state (Some st)
  end.

(** A query without GROUP BY: every worker aggregates its share of the rows, which
    may be empty, and sends its state; the leader combines the states in the order
    in which they arrive. *)
Definition worker (arg1_typeid : Z) (rows : list (option (ArrayType Z))) : res (option (list Z)) :=
  st ← aggregate arg1_typeid rows None; finalize_partialaggregate serialfn_strict st.
Definition parallel_plan (arg1_typeid : Z) (shares : list (list (option (ArrayType Z))))
    : res (option (ArrayType Z)) :=
  st ← foldM (λ share state,
         m ← worker arg1_typeid share; agg_deserialize_combine deserialfn_strict m state) shares None;
  array_2d_agg_finalfn st.
End plans.

(** ** What a state holds *)

Section contents.
  Context (P : Z) (HP : 0 < P).   (* the number of items of every array *)
  Context `{Memory}.
  Implicit Types (xs ys : list (ArrayType Z)) (bm : list Z).

(** Whether item [i] of the arrays in order is present. *)
Definition nonnull xs (i : Z) : bool :=
  match xs !! Z.to_nat (i / P) with
  | Some a => match ARR_NULLBITMAP a with Some bm => getbit bm (i mod P) | None => true end
  | None => false
  end.
Definition items xs : Z := zlen xs * P.
Definition nulls xs : bool := existsb ARR_HASNULL xs.

Definition bits_ok bm xs : Prop := ∀ i, 0 <= i < items xs → getbit bm i = nonnull xs i.

Definition bitmap_rep (K : Z) xs (obm : option (list Z)) (aitems : Z) : Prop :=
  match obm with
  | None => nulls xs = false ∧ aitems = 0
  | Some bm => nulls xs = true ∧ bits_ok bm xs ∧ zlen bm = (aitems + 7) / 8
               ∧ 0 < aitems ∧ items xs <= aitems <= K * (items xs + 256)
  end.

Lemma items_app xs ys : items (xs ++ ys) = items xs + items ys.
Proof. unfold items, zlen. rewrite length_app. lia. Qed.
Lemma items_nonneg xs : 0 <= items xs.
Proof. unfold items. pose proof (zlen_nonneg xs). nia. Qed.

Lemma nonnull_app xs ys i :
  0 <= i → nonnull (xs ++ ys) i = if i <? items xs then nonnull xs i else nonnull ys (i - items xs).
Proof.
  intros Hi. unfold nonnull, items. pose proof (zlen_nonneg xs) as Hx.
  destruct (Z.ltb_spec i (zlen xs * P)) as [Hlt|Hge].
  - assert (i / P < zlen xs) by (apply Z.div_lt_upper_bound; lia).
    rewrite lookup_app_l; [done|]. unfold zlen in *. lia.
  - assert (i = i - zlen xs * P + zlen xs * P) as Heq by lia.
    assert (i / P = (i - zlen xs * P) / P + zlen xs) as Hd by (rewrite Heq at 1; by rewrite Z.div_add by lia).
    assert (i mod P = (i - zlen xs * P) mod P) as Hm by (rewrite Heq at 1; by rewrite Z.mod_add by lia).
    pose proof (Z.div_pos (i - zlen xs * P) P ltac:(lia) HP).
    rewrite lookup_app_r by (unfold zlen in *; lia). rewrite Hm, Hd. unfold zlen.
    by replace (Z.to_nat ((i - length xs * P) / P + length xs) - length xs)%nat
      with (Z.to_nat ((i - length xs * P) / P)) by (unfold zlen in *; lia).
Qed.

Lemma nonnull_no_nulls xs i : nulls xs = false → 0 <= i < items xs → nonnull xs i = true.
Proof.
  intros Hn Hi. unfold nonnull, items, nulls in *.
  destruct (lookup_lt_is_Some_2 xs (Z.to_nat (i / P))) as [a Ha].
  { pose proof (Z.div_pos i P ltac:(lia) HP). assert (i / P < zlen xs) by (apply Z.div_lt_upper_bound; lia).
    unfold zlen in *. lia. }
  rewrite Ha. unfold ARR_NULLBITMAP. destruct (ARR_HASNULL a) eqn:Hh; [|done].
  assert (existsb ARR_HASNULL xs = true); [|congruence].
  apply existsb_exists. exists a. split; [|done]. apply list_elem_of_In. by eapply list_elem_of_lookup_2.
Qed.

Lemma nonnull_single a i :
  0 <= i < P → nonnull [a] i = match ARR_NULLBITMAP a with Some bm => getbit bm i | None => true end.
Proof. intros Hi. unfold nonnull. by rewrite Z.div_small, Z.mod_small by lia. Qed.

Lemma nulls_app xs ys : nulls (xs ++ ys) = nulls xs || nulls ys.
Proof. apply existsb_app. Qed.

(** Growing a chunk keeps its bits. *)
Lemma getbit_app (l1 l2 : list Z) i : 0 <= i < 8 * zlen l1 → getbit (l1 ++ l2) i = getbit l1 i.
Proof.
  intros Hi. unfold getbit. rewrite lookup_app_l; [done|].
  assert (i / 8 < zlen l1) by (apply Z.div_lt_upper_bound; lia).
  pose proof (Z.div_pos i 8 ltac:(lia) ltac:(lia)). unfold zlen in *. lia.
Qed.

Lemma bitmap_append bm xs ys src :
  bits_ok bm xs → items xs + items ys <= 8 * zlen bm →
  (∀ s, src = Some s → items ys <= 8 * zlen s ∧ bits_ok s ys) → (src = None → nulls ys = false) →
  ∃ bm', array_bitmap_copy bm (items xs) src 0 (items ys) = Ok bm' ∧ zlen bm' = zlen bm ∧ bits_ok bm' (xs ++ ys).
Proof.
  intros Hb Hfit Hsrc Hnone. pose proof (items_nonneg xs). pose proof (items_nonneg ys).
  destruct (array_bitmap_copy_spec bm (items xs) src 0 (items ys)) as (bm' & Hrun & Hlen & Hbits); [done|done|done|done| |].
  { intros s Hs. destruct (Hsrc s Hs). lia. }
  exists bm'. split; [done|]. split; [unfold zlen; by rewrite Hlen|].
  intros i Hi. rewrite items_app in Hi. rewrite Hbits, nonnull_app by lia.
  destruct (Z.ltb_spec i (items xs)) as [Hlt|Hge].
  - replace (items xs <=? i) with false by lia. simpl. apply Hb. lia.
  - replace ((items xs <=? i) && (i <? items xs + items ys)) with true by lia.
    destruct src as [s|]; [|symmetry; apply nonnull_no_nulls; [auto|lia]].
    rewrite Z.add_0_l. apply (Hsrc s eq_refl). lia.
Qed.

Lemma new_bitmap_ok xs aitems :
  nulls xs = false → 0 < aitems <= 2 ^ 30 → items xs <= aitems →
  ∃ bm, new_bitmap aitems (items xs) = Ok bm ∧ zlen bm = (aitems + 7) / 8 ∧ bits_ok bm xs.
Proof.
  intros Hn Ha Hi. unfold new_bitmap. pose proof (items_nonneg xs). change (2 ^ 30) with 1073741824 in Ha.
  rewrite i32_id by int_solve. rewrite idiv_pos by lia. cbn [mbind res_bind].
  pose proof (Z.div_pos (aitems + 7) 8 ltac:(lia) ltac:(lia)). pose proof (Z.mul_succ_div_gt (aitems + 7) 8 ltac:(lia)).
  pose proof (Z.mul_div_le (aitems + 7) 8 ltac:(lia)).
  unfold palloc_bytes. rewrite check_true by (unfold MaxAllocSize; lia). cbn [mbind res_bind].
  pose proof (junk_len ((aitems + 7) / 8) ltac:(lia)) as Hj.
  destruct (bitmap_append (junk ((aitems + 7) / 8)) [] xs None) as (bm & Hrun & Hlen & Hbits).
  - intros i Hi'. unfold items, zlen in Hi'. simpl in Hi'. lia.
  - change (items []) with 0. lia.
  - done.
  - done.
  - change (items []) with 0 in Hrun. exists bm. split; [done|]. split; [lia|done].
Qed.

Lemma grow_bitmap_ok bm xs aitems :
  bits_ok bm xs → items xs <= 8 * zlen bm → 0 <= aitems <= 2 ^ 30 → zlen bm <= (aitems + 7) / 8 →
  ∃ bm', grow_bitmap bm aitems = Ok bm' ∧ zlen bm' = (aitems + 7) / 8 ∧ bits_ok bm' xs.
Proof.
  intros Hb Hx Ha Hle. unfold grow_bitmap. change (2 ^ 30) with 1073741824 in Ha.
  rewrite i32_id by int_solve. rewrite idiv_pos by lia. cbn [mbind res_bind].
  pose proof (Z.mul_div_le (aitems + 7) 8 ltac:(lia)). pose proof (zlen_nonneg bm).
  unfold repalloc. rewrite check_true by (unfold MaxAllocSize; lia).
  eexists. split; [done|]. split; [by apply zlen_repalloc|].
  intros i Hi. rewrite take_ge by (unfold zlen in *; lia). rewrite getbit_app by lia. auto.
Qed.

(** A bitmap that was just created, or grown, for [new] items. *)
Lemma div8_bounds n : 0 <= n → n <= 8 * ((n + 7) / 8) ∧ 0 <= (n + 7) / 8.
Proof.
  intros Hn. pose proof (Z.mul_succ_div_gt (n + 7) 8 ltac:(lia)). pose proof (Z.div_pos (n + 7) 8 ltac:(lia) ltac:(lia)). lia.
Qed.

(** The bitmap of an array covers its items. *)
Definition array_bits_ok (a : ArrayType Z) : Prop := ∀ bm, ARR_NULLBITMAP a = Some bm → P <= 8 * zlen bm.

Lemma nulls_single a : nulls [a] = ARR_HASNULL a.
Proof. unfold nulls. simpl. apply orb_false_r. Qed.
Lemma items_single a : items [a] = P.
Proof. unfold items, zlen. simpl. lia. Qed.

Lemma array_src_ok a : array_bits_ok a →
  (∀ s, ARR_NULLBITMAP a = Some s → items [a] <= 8 * zlen s ∧ bits_ok s [a])
  ∧ (ARR_NULLBITMAP a = None → nulls [a] = false).
Proof.
  intros Ha. rewrite nulls_single, items_single. split.
  - intros s Hs. split; [by apply Ha|]. intros i Hi. rewrite items_single in Hi. by rewrite nonnull_single, Hs by lia.
  - unfold ARR_NULLBITMAP. by destruct (ARR_HASNULL a).
Qed.

Lemma fresh_aitems n :
  0 <= n <= 134217727 →
  let aitems := i32 (pg_nextpower2_32 (Z.max 256 (i32 (n + 1)))) in
  0 < aitems <= 2 ^ 30 ∧ n <= aitems <= 2 * (n + 256).
Proof.
  intros Hn aitems. unfold aitems. rewrite (i32_id (n + 1)) by int_solve.
  pose proof (pg_nextpower2_32_bounds (Z.max 256 (n + 1)) ltac:(lia)) as Hp.
  rewrite i32_id by int_solve. change (2 ^ 30) with 1073741824. lia.
Qed.

Lemma accum_bitmap_ok st xs a :
  st_nitems st = items xs → bitmap_rep 2 xs (st_nullbitmap st) (st_aitems st) → array_bits_ok a →
  items xs + P <= 134217727 →
  ∃ obm aitems, accum_bitmap st (ARR_NULLBITMAP a) P = Ok (obm, aitems) ∧ bitmap_rep 2 (xs ++ [a]) obm aitems.
Proof.
  intros Hn Hrep Ha Hmax. pose proof (items_nonneg xs) as Hx. destruct (array_src_ok a Ha) as [Hsome Hnone].
  unfold accum_bitmap, bitmap_rep in *. rewrite Hn. rewrite nulls_app, items_app, items_single.
  rewrite (i32_id (items xs + P)) by int_solve.
  pose proof (fresh_aitems (items xs + P) ltac:(lia)) as Hf. cbv zeta in Hf.
  set (fr := i32 (pg_nextpower2_32 (Z.max 256 (i32 (items xs + P + 1))))) in *.
  destruct (st_nullbitmap st) as [bm|].
  - destruct Hrep as (Hnx & Hb & Hlen & Hpos & Hai). rewrite Hnx. simpl orb.
    pose proof (div8_bounds (st_aitems st) ltac:(lia)).
    destruct (Z.ltb_spec (st_aitems st) (items xs + P)) as [Hlt|Hge].
    + rewrite i32_id by int_solve. set (ai := Z.max (st_aitems st * 2) (items xs + P)).
      assert ((st_aitems st + 7) / 8 <= (ai + 7) / 8) by (apply Z.div_le_mono; lia).
      destruct (grow_bitmap_ok bm xs ai) as (bm1 & -> & Hl1 & Hb1); [done|lia|change (2 ^ 30) with 1073741824; lia|lia|].
      cbn [mbind res_bind]. pose proof (div8_bounds ai ltac:(lia)).
      destruct (bitmap_append bm1 xs [a] (ARR_NULLBITMAP a)) as (bm2 & Hrun & Hl2 & Hb2); [done|rewrite items_single; lia|done|done|].
      rewrite items_single in Hrun. rewrite Hrun. cbn [mbind res_bind]. exists (Some bm2), ai. split_and!; done || lia.
    + cbn [mbind res_bind].
      destruct (bitmap_append bm xs [a] (ARR_NULLBITMAP a)) as (bm2 & Hrun & Hl2 & Hb2); [done|rewrite items_single; lia|done|done|].
      rewrite items_single in Hrun. rewrite Hrun. cbn [mbind res_bind]. exists (Some bm2), (st_aitems st). split_and!; done || lia.
  - destruct Hrep as [Hnx Hai]. rewrite Hnx. simpl orb. destruct (ARR_NULLBITMAP a) as [abm|] eqn:Habm.
    + destruct (new_bitmap_ok xs fr) as (bm1 & -> & Hl1 & Hb1); [done|lia|lia|]. cbn [mbind res_bind].
      pose proof (div8_bounds fr ltac:(lia)).
      destruct (bitmap_append bm1 xs [a] (Some abm)) as (bm2 & Hrun & Hl2 & Hb2); [done|rewrite items_single; lia|done|done|].
      rewrite items_single in Hrun. rewrite Hrun. cbn [mbind res_bind]. exists (Some bm2), fr.
      split; [done|]. split_and!; try done; try lia. rewrite orb_false_r.
      unfold ARR_NULLBITMAP in Habm. by destruct (ARR_HASNULL a).
    + exists None, (st_aitems st). split; [done|]. split; [by apply Hnone|done].
Qed.

(** A bitmap of the first state is carried on only if the second has one. *)
Lemma combine_bitmap_ok st1 st2 xs ys :
  st_nitems st1 = items xs → bitmap_rep 6 xs (st_nullbitmap st1) (st_aitems st1) →
  st_nitems st2 = items ys → bitmap_rep 2 ys (st_nullbitmap st2) (st_aitems st2) →
  (nulls xs = true → nulls ys = true) → items xs + items ys <= 134217727 →
  ∃ obm aitems, combine_bitmap st1 st2 = Ok (obm, aitems) ∧ bitmap_rep 6 (xs ++ ys) obm aitems.
Proof.
  intros Hn1 Hrep1 Hn2 Hrep2 Hord Hmax. pose proof (items_nonneg xs). pose proof (items_nonneg ys).
  unfold combine_bitmap. destruct (st_nullbitmap st2) as [bm2|]; simpl in Hrep2.
  2:{ exists (st_nullbitmap st1), (st_aitems st1). split; [done|]. destruct Hrep2 as [Hy _].
      destruct (st_nullbitmap st1) as [bm1|]; simpl in *; [destruct Hrep1 as [Hx _]; by rewrite Hord in Hy|].
      rewrite nulls_app, Hy. by destruct Hrep1 as [-> ->]. }
  destruct Hrep2 as (Hy & Hb2 & Hlen2 & Hpos2 & Hai2). rewrite Hn1, Hn2.
  rewrite (i32_id (items xs + items ys)) by int_solve.
  pose proof (div8_bounds (st_aitems st2) ltac:(lia)).
  assert (∀ s, Some bm2 = Some s → items ys <= 8 * zlen s ∧ bits_ok s ys) as Hsrc by (intros s [= <-]; split; [lia|done]).
  assert (∀ bm1 ai, bits_ok bm1 xs → zlen bm1 = (ai + 7) / 8 → items xs + items ys <= ai → 0 < ai →
    ai <= 6 * (items xs + items ys + 256) →
    ∃ obm aitems, (bm ← array_bitmap_copy bm1 (items xs) (Some bm2) 0 (items ys); Ok (Some bm, ai)) = Ok (obm, aitems)
      ∧ bitmap_rep 6 (xs ++ ys) obm aitems) as Hend.
  { intros bm1 ai Hb1 Hl1 Hfit Hpos Hle. pose proof (div8_bounds ai ltac:(lia)).
    destruct (bitmap_append bm1 xs ys (Some bm2)) as (bm3 & Hrun & Hl3 & Hb3); [done|lia|done|done|].
    rewrite Hrun. cbn [mbind res_bind]. exists (Some bm3), ai. split; [done|].
    simpl. rewrite nulls_app, Hy, orb_true_r, items_app. split_and!; try done; lia. }
  destruct (st_nullbitmap st1) as [bm1|]; simpl in Hrep1.
  - destruct Hrep1 as (Hx & Hb1 & Hlen1 & Hpos1 & Hai1). pose proof (div8_bounds (st_aitems st1) ltac:(lia)).
    destruct (Z.ltb_spec (st_aitems st1) (items xs + items ys)) as [Hlt|Hge]; [|cbn [mbind res_bind]; apply Hend; lia || done].
    rewrite (i32_id (st_aitems st1 + st_aitems st2)) by int_solve.
    pose proof (pg_nextpower2_32_bounds (st_aitems st1 + st_aitems st2) ltac:(lia)) as Hp.
    set (ai := pg_nextpower2_32 (st_aitems st1 + st_aitems st2)) in *. rewrite (i32_id ai) by int_solve.
    assert ((st_aitems st1 + 7) / 8 <= (ai + 7) / 8) by (apply Z.div_le_mono; lia).
    destruct (grow_bitmap_ok bm1 xs ai) as (bm1' & -> & Hl1 & Hb1'); [done|lia|change (2 ^ 30) with 1073741824; lia|lia|].
    cbn [mbind res_bind]. apply Hend; lia || done.
  - destruct Hrep1 as [Hx _]. pose proof (fresh_aitems (items xs + items ys) ltac:(lia)) as Hf. cbv zeta in Hf.
    destruct (new_bitmap_ok xs _ Hx (proj1 Hf)) as (bm1' & -> & Hl1 & Hb1'); [lia|]. cbn [mbind res_bind].
    apply Hend; lia || done.
Qed.
End contents.

(** [lcopy] after the bytes [D] that a chunk already holds. *)
Lemma data_append (d D s S : list Z) :
  take (length D) d = D → take (length S) s = S → zlen D + zlen S <= zlen d → zlen S <= zlen s →
  ∃ d', lcopy d (zlen D) s 0 (zlen S) = Ok d' ∧ zlen d' = zlen d ∧ take (length (D ++ S)) d' = D ++ S.
Proof.
  intros HD HS Hfit Hs. pose proof (zlen_nonneg D). pose proof (zlen_nonneg S).
  rewrite lcopy_ok by lia. eexists. split; [done|]. unfold zlen in *. rewrite !Nat2Z.id, HD, HS.
  split; [rewrite !length_app, length_drop; lia|]. rewrite app_assoc. apply take_app_length.
Qed.

Lemma lcopy_short {A} (dst src : list A) doff soff n :
  zlen src < soff + n → lcopy dst doff src soff n = Stuck OutOfBounds.
Proof. intros Hs. unfold lcopy, require. replace (soff + n <=? zlen src) with false by lia. by rewrite andb_false_r. Qed.

(** The six words of [dims] and [lbs]. *)
Definition padded (x : Z) (l : list Z) : list Z := x :: l ++ replicate (5 - length l) 0.

Lemma padded_length x l : zlen l <= 5 → length (padded x l) = 6%nat.
Proof. unfold zlen, padded. intros. simpl. rewrite length_app, length_replicate. lia. Qed.

Lemma padded_lget x l i d : 0 <= i → l !! Z.to_nat i = Some d → lget (padded x l) (i + 1) = Ok d.
Proof.
  intros Hi Hd. apply lget_lookup; [lia|]. replace (Z.to_nat (i + 1)) with (S (Z.to_nat i)) by lia.
  simpl. by apply lookup_app_l_Some.
Qed.

Lemma padded_lset x y l : lset (padded x l) 0 y = Ok (padded y l).
Proof.
  unfold lset. assert (0 < zlen (padded x l)) by (unfold zlen, padded; cbn [length]; lia).
  by replace ((0 <=? 0) && (0 <? zlen (padded x l))) with true by lia.
Qed.

Lemma lset_zeros x : lset (replicate 6 0) 0 x = Ok (x :: replicate 5 0).
Proof. done. Qed.
Lemma padded_init x l : zlen l <= 5 → lcopy (x :: replicate 5 0) 1 l 0 (zlen l) = Ok (padded x l).
Proof.
  intros Hl. pose proof (zlen_nonneg l). rewrite lcopy_ok by (unfold zlen in *; simpl; lia).
  f_equal. simpl. unfold padded. f_equal. unfold zlen. rewrite Nat2Z.id, firstn_all. f_equal.
  replace (Z.to_nat (1 + length l)) with (S (length l)) by lia. simpl.
  unfold zlen in Hl. change [0; 0; 0; 0; 0] with (replicate 5 0). by rewrite drop_replicate.
Qed.

(** [int] arrays in memory. *)
Lemma zlen_ints_bytes l : zlen (ints_bytes l) = 4 * zlen l.
Proof.
  unfold zlen. induction l as [|x l IH]; [done|]. unfold ints_bytes in *. cbn [flat_map length].
  rewrite length_app, length_le_bytes. lia.
Qed.

Lemma i32_mod_id x : is_int x → i32 (x mod 4294967296) = x.
Proof. intros Hx. change (i32 (u32 x) = x). rewrite i32_u32. by apply i32_id. Qed.

Lemma bytes_ints_bytes l rest : Forall is_int l → bytes_ints (length l) (ints_bytes l ++ rest) = l.
Proof.
  intros Hl. induction Hl as [|x l Hx _ IH]; [done|]. cbn [length bytes_ints].
  unfold ints_bytes in *. cbn [flat_map]. rewrite <-app_assoc.
  rewrite take_app_length', drop_app_length' by by rewrite length_le_bytes.
  rewrite le_value_bytes. change (256 ^ 4%nat) with 4294967296. by rewrite i32_mod_id, IH.
Qed.

(** The message a state is sent as. *)
Definition state_fields (st : ArrayBuildStateArr) (data : list Z) : list field :=
  [FInt 4 (st_element_type st); FInt 4 (st_array_type st); FInt 4 (st_nbytes st);
   FBytes (take (Z.to_nat (st_nbytes st)) data); FInt 4 (st_abytes st); FInt 4 (st_aitems st)]
  ++ match st_nullbitmap st with Some bm => [FBytes bm] | None => [] end
  ++ [FInt 4 (st_nitems st); FInt 4 (st_ndims st); FBytes (ints_bytes (st_dims st)); FBytes (ints_bytes (st_lbs st))].

Lemma serialize_message `{Memory} st d :
  st_data st = Some d → 0 <= st_nbytes st <= zlen d → zlen (st_dims st) = 6 → zlen (st_lbs st) = 6 →
  0 <= st_aitems st <= 2 ^ 30 → (∀ bm, st_nullbitmap st = Some bm → zlen bm = (st_aitems st + 7) / 8) →
  array_agg_array_serialize (Some st) = send_message (state_fields st d).
Proof.
  intros Hd Hnb Hdims Hlbs Hai Hbm. unfold array_agg_array_serialize, send_message, state_fields.
  change (2 ^ 30) with 1073741824 in Hai.
  assert (zlen (take (Z.to_nat (st_nbytes st)) d) = st_nbytes st) as Htk by (unfold zlen in *; rewrite length_take; lia).
  destruct pq_begintypsend as [s0| |]; [|done|done]. cbn [mbind res_bind app foldM send_field deref].
  rewrite Hd. cbn [mbind res_bind deref]. unfold pq_sendint. simpl (if _ =? _ then _ else _). rewrite Htk.
  do 3 (destruct (pq_sendint32 _ _) as [?| |]; [|done|done]; cbn [mbind res_bind]).
  rewrite (sendbytes_take _ d) by done. destruct (pq_sendbytes _ _ _) as [?| |]; [|done|done]. cbn [mbind res_bind].
  do 2 (destruct (pq_sendint32 _ _) as [?| |]; [|done|done]; cbn [mbind res_bind]).
  destruct (st_nullbitmap st) as [bm|]; cbn [mbind res_bind app foldM send_field]; rewrite !zlen_ints_bytes, Hdims, Hlbs;
    unfold pq_sendint; simpl (if _ =? _ then _ else _).
  - rewrite i32_id by int_solve. rewrite idiv_pos by lia. cbn [mbind res_bind]. rewrite (Hbm bm eq_refl).
    destruct (pq_sendbytes _ _ _) as [?| |]; [|done|done]. cbn [mbind res_bind].
    do 2 (destruct (pq_sendint32 _ _) as [?| |]; [|done|done]; cbn [mbind res_bind]).
    do 2 (destruct (pq_sendbytes _ _ _) as [?| |]; [|done|done]; cbn [mbind res_bind]). done.
  - do 2 (destruct (pq_sendint32 _ _) as [?| |]; [|done|done]; cbn [mbind res_bind]).
    do 2 (destruct (pq_sendbytes _ _ _) as [?| |]; [|done|done]; cbn [mbind res_bind]). done.
Qed.

Section states.
  Context `{Catalog, Memory}.
  Context (ds lbs : list Z) (typ el : Z).

(** The arrays have the same dimensions, positive and not too many, and a type
    the catalog knows as an array type. *)
Record shape_ok : Prop := {
  so_dims : ds ≠ []; so_ndims : zlen ds <= 5; so_lbs : zlen lbs = zlen ds;
  so_pos : Forall (λ d, 0 < d) ds; so_size : product ds <= MaxArraySize;
  so_ints : Forall is_int ds; so_lints : Forall is_int lbs;
  so_typ : 0 < typ < 4294967296; so_el : 0 < el < 4294967296; so_cat : get_element_type typ = el
}.
Context (Hshape : shape_ok).

Abbreviation P := (product ds).
Abbreviation count := (items (product ds)).

Record row_ok (a : ArrayType Z) : Prop := {
  ro_ndim : ndim a = zlen ds; ro_dims : arr_dims a = ds; ro_lbs : arr_lbound a = lbs;
  ro_bits : array_bits_ok P a
}.

Definition bytes (xs : list (ArrayType Z)) : list Z := flat_map arr_data xs.

Record st_holds (K : Z) (st : ArrayBuildStateArr) (xs : list (ArrayType Z)) : Prop := {
  sh_data : ∃ d, st_data st = Some d ∧ zlen (bytes xs) <= zlen d ∧ take (length (bytes xs)) d = bytes xs;
  sh_nbytes : st_nbytes st = zlen (bytes xs);
  sh_abytes : st_nbytes st <= st_abytes st <= 2 * (st_nbytes st + 1024);
  sh_nitems : st_nitems st = count xs;
  sh_bitmap : bitmap_rep P K xs (st_nullbitmap st) (st_aitems st);
  sh_ndims : st_ndims st = zlen ds + 1;
  sh_dims : st_dims st = padded (zlen xs) ds;
  sh_lb : st_lbs st = padded 1 lbs;
  sh_types : st_array_type st = typ ∧ st_element_type st = el
}.

(** [data] is as long as [abytes] says. *)
Definition st_room (st : ArrayBuildStateArr) : Prop := ∃ d, st_data st = Some d ∧ zlen d = st_abytes st.

Lemma P_pos : 0 < P.
Proof. apply product_pos, Hshape. Qed.

Lemma bytes_app xs ys : bytes (xs ++ ys) = bytes xs ++ bytes ys.
Proof. apply flat_map_app. Qed.

Lemma init_ok : initArrayResultArr typ InvalidOid
  = Ok (mkState None None 0 0 0 0 0 (replicate 6 0) (replicate 6 0) typ el).
Proof.
  destruct Hshape. unfold initArrayResultArr. simpl. rewrite so_cat0.
  rewrite check_true; [done|]. unfold OidIsValid, InvalidOid. lia.
Qed.

Lemma nitems_ok a : row_ok a → ArrayGetNItems (ndim a) (arr_dims a) = Ok P.
Proof.
  intros [-> -> _ _]. destruct Hshape. apply ArrayGetNItems_complete; auto. unfold int_max. lia.
Qed.

(** The end of [accumArrayResultArr], on a state with room for the new array. *)
Lemma accum_tail st xs a d :
  st_data st = Some d → take (length (bytes xs)) d = bytes xs → zlen (bytes xs) + zlen (arr_data a) <= st_abytes st →
  zlen d = st_abytes st → st_nbytes st = zlen (bytes xs) →
  st_abytes st <= 2 * (zlen (bytes xs) + zlen (arr_data a) + 1024) →
  st_nitems st = count xs → bitmap_rep P 2 xs (st_nullbitmap st) (st_aitems st) → st_ndims st = zlen ds + 1 →
  st_dims st = padded (zlen xs) ds → st_lbs st = padded 1 lbs → st_array_type st = typ → st_element_type st = el →
  row_ok a → count xs + P <= 134217727 → zlen (bytes xs) + zlen (arr_data a) <= 268435456 →
  ∃ st', (data ← deref (st_data st);
      data ← lcopy data (st_nbytes st) (arr_data a) 0 (zlen (arr_data a));
      '(bm, aitems) ← accum_bitmap st (ARR_NULLBITMAP a) P;
      d0 ← lget (st_dims st) 0;
      d ← lset (st_dims st) 0 (i32 (d0 + 1));
      Ok (mkState (Some data) bm (st_abytes st) (i32 (st_nbytes st + zlen (arr_data a))) aitems
            (i32 (st_nitems st + P)) (st_ndims st) d (st_lbs st) (st_array_type st) (st_element_type st))) = Ok st'
    ∧ st_holds 2 st' (xs ++ [a]) ∧ st_room st'.
Proof.
  intros Hd HD Hfit Hcap Hnb Hab Hn Hbm Hnd Hdims Hlbs Ht He Hrow Hmax Hbytes.
  pose proof P_pos as HP. pose proof (zlen_nonneg (bytes xs)). pose proof (zlen_nonneg (arr_data a)).
  pose proof (items_nonneg P HP xs) as Hi0. rewrite Hd, Hnb, Hdims. simpl deref. cbn [mbind res_bind].
  destruct (data_append d (bytes xs) (arr_data a) (arr_data a)) as (d' & -> & Hl' & Htk); [done|by rewrite firstn_all|lia|lia|].
  cbn [mbind res_bind].
  destruct (accum_bitmap_ok P HP st xs a Hn Hbm (ro_bits _ Hrow) Hmax) as (obm & ai & -> & Hbm'). cbn [mbind res_bind].
  change (lget (padded (zlen xs) ds) 0) with (Ok (zlen xs)). cbn [mbind res_bind]. rewrite padded_lset. cbn [mbind res_bind].
  assert (zlen xs + 1 <= 134217727) by (unfold items in *; pose proof (zlen_nonneg xs); nia).
  pose proof (zlen_nonneg xs). rewrite Hn. rewrite !i32_id by int_solve.
  assert (bytes (xs ++ [a]) = bytes xs ++ arr_data a) as Hby by (rewrite bytes_app; unfold bytes; simpl; by rewrite app_nil_r).
  eexists. split; [done|]. split; [|exists d'; split; [done|simpl; lia]].
  assert (zlen (bytes (xs ++ [a])) = zlen (bytes xs) + zlen (arr_data a)) as Hzl by (rewrite Hby; unfold zlen; rewrite length_app; lia).
  split; simpl; try done; try lia.
  - exists d'. split; [done|]. split; [lia|]. by rewrite Hby.
  - by rewrite items_app, items_single.
  - f_equal. unfold zlen. rewrite length_app. simpl. lia.
Qed.

Lemma transfn_unfold st a :
  array_2d_agg_transfn typ true st (Some a)
  = (st ← match st with None => initArrayResultArr typ InvalidOid | Some st => Ok st end;
     accumArrayResultArr (Some st) (Some a) typ).
Proof.
  unfold array_2d_agg_transfn. destruct Hshape. rewrite !check_true; [done|done|]. unfold OidIsValid, InvalidOid. lia.
Qed.

Lemma transfn_first a :
  row_ok a → P <= 134217727 → zlen (arr_data a) <= 268435456 →
  ∃ st, array_2d_agg_transfn typ true None (Some a) = Ok st ∧ st_holds 2 st [a] ∧ st_room st.
Proof.
  intros Hrow HP1 Hb. rewrite transfn_unfold, init_ok. cbn [mbind res_bind]. unfold accumArrayResultArr. cbn [mbind res_bind].
  rewrite (nitems_ok a Hrow). cbn [mbind res_bind]. simpl st_ndims. rewrite (Z.eqb_refl 0).
  pose proof Hrow as [-> -> -> _]. pose proof Hshape as [Hne Hnd Hlb _ _ _ _ _ _ _]. pose proof (zlen_nonneg (arr_data a)).
  assert (0 < zlen ds) by (destruct ds; [done|]; unfold zlen; simpl; lia).
  unfold accum_first. rewrite !check_true by (unfold MAXDIM; lia).
  pose proof (padded_init 0 ds Hnd) as Hd. pose proof (padded_init 1 lbs ltac:(lia)) as Hl. rewrite Hlb in Hl.
  cbn [st_dims st_lbs]. rewrite (lset_zeros 0), (lset_zeros 1). cbn [mbind res_bind]. rewrite Hd. cbn [mbind res_bind]. rewrite Hl. cbn [mbind res_bind].
  rewrite (i32_id (zlen (arr_data a) + 1)) by int_solve.
  pose proof (pg_nextpower2_32_bounds (Z.max 1024 (zlen (arr_data a) + 1)) ltac:(lia)) as Hp.
  rewrite i32_id by int_solve. set (ab := pg_nextpower2_32 _) in *.
  unfold palloc_bytes. rewrite check_true by (unfold MaxAllocSize; lia). cbn [mbind res_bind].
  apply (accum_tail _ [] a (junk ab)); simpl; try done; try lia.
  - change (zlen (@nil Z)) with 0. lia.
  - apply junk_len. lia.
  - change (zlen (@nil Z)) with 0. lia.
Qed.

Lemma dims_match (x y : Z) (l : list Z) :
  zlen l = zlen ds →
  cfor 0 (zlen ds) 1 (λ i _,
     sd ← lget (padded x ds) (i + 1); d ← lget ds i;
     if negb (sd =? d) then Ereport dims_msg
     else sl ← lget (padded y l) (i + 1); m ← lget l i; check (sl =? m) dims_msg (Ok tt)) tt = Ok tt.
Proof.
  intros Hl. destruct Hshape. pose proof (zlen_nonneg ds).
  apply cfor_unit; [done|lia|unfold int_max; lia|]. intros n Hn.
  destruct (lget_in_range ds n) as (d & Hd & Hd'); [lia|]. destruct (lget_in_range l n) as (m & Hm & Hm'); [lia|].
  rewrite (padded_lget x ds n d), Hd by (done || lia). cbn [mbind res_bind]. rewrite Z.eqb_refl. simpl negb.
  rewrite (padded_lget y l n m), Hm by (done || lia). cbn [mbind res_bind]. by rewrite Z.eqb_refl.
Qed.

Lemma transfn_next st xs a :
  st_holds 2 st xs → st_room st → row_ok a → xs ≠ [] →
  count xs + P <= 134217727 → zlen (bytes xs) + zlen (arr_data a) <= 268435456 →
  ∃ st', array_2d_agg_transfn typ true (Some st) (Some a) = Ok st' ∧ st_holds 2 st' (xs ++ [a]) ∧ st_room st'.
Proof.
  intros [(d & Hd & Hdl & HD) Hnb Hab Hn Hbm Hnd Hdims Hlbs [Ht He]] (d' & Hd' & Hcap) Hrow Hne Hmax Hb.
  assert (d' = d) as -> by congruence. rewrite transfn_unfold. cbn [mbind res_bind]. unfold accumArrayResultArr.
  cbn [mbind res_bind]. rewrite (nitems_ok a Hrow). cbn [mbind res_bind]. pose proof Hshape as [_ Hnd5 Hlb _ _ _ _ _ _ _].
  pose proof (zlen_nonneg ds). pose proof (zlen_nonneg (arr_data a)). pose proof (zlen_nonneg (bytes xs)).
  rewrite Hnd. replace (zlen ds + 1 =? 0) with false by lia.
  pose proof Hrow as [-> -> -> _]. unfold accum_next. rewrite Hnd, check_true by lia.
  rewrite Hdims, Hlbs, dims_match by done. cbn [mbind res_bind]. rewrite Hnb in *.
  rewrite (i32_id (zlen (bytes xs) + zlen (arr_data a))) by int_solve.
  destruct (Z.ltb_spec (st_abytes st) (zlen (bytes xs) + zlen (arr_data a))) as [Hlt|Hge]; cbn [mbind res_bind].
  - rewrite Hd. simpl deref. cbn [mbind res_bind]. rewrite i32_id by int_solve.
    set (ab := Z.max _ _). unfold repalloc. rewrite check_true by (unfold MaxAllocSize; lia). cbn [mbind res_bind].
    pose proof (zlen_repalloc d ab ltac:(lia)) as Hlen. rewrite take_ge in Hlen |- * by (unfold zlen in *; lia).
    eapply (accum_tail _ xs a); simpl; try done; try lia.
    rewrite take_app_le by (unfold zlen in *; lia). done.
  - by apply (accum_tail st xs a d); try lia.
Qed.

Lemma aggregate_cons row rows state :
  aggregate typ (row :: rows) state
  = (st ← array_2d_agg_transfn typ true state row; aggregate typ rows (Some st)).
Proof. unfold aggregate. simpl. by destruct (array_2d_agg_transfn typ true state row). Qed.

(** The state after the rows of a group. *)
Lemma aggregate_more rows st xs :
  st_holds 2 st xs → st_room st → xs ≠ [] → Forall row_ok rows →
  count (xs ++ rows) <= 134217727 → zlen (bytes (xs ++ rows)) <= 268435456 →
  ∃ st', aggregate typ (Some <$> rows) (Some st) = Ok (Some st') ∧ st_holds 2 st' (xs ++ rows) ∧ st_room st'.
Proof.
  revert st xs. induction rows as [|a rows IH]; intros st xs Hst Hroom Hne Hall Hmax Hb.
  { exists st. by rewrite app_nil_r. }
  apply Forall_cons in Hall as [Ha Hall]. pose proof P_pos as HP.
  replace (xs ++ a :: rows) with ((xs ++ [a]) ++ rows) in * by by rewrite <-app_assoc.
  pose proof (items_nonneg P HP rows). pose proof (zlen_nonneg (bytes rows)).
  pose proof Hmax as Hmax1. rewrite items_app, items_app, items_single in Hmax1.
  pose proof Hb as Hb1. rewrite !bytes_app in Hb1. unfold bytes in Hb1 at 2. simpl in Hb1. rewrite app_nil_r in Hb1.
  unfold zlen in Hb1. rewrite !length_app in Hb1.
  destruct (transfn_next st xs a) as (st1 & Hrun1 & Hst1 & Hr1); try done; [lia|unfold zlen in *; lia|].
  rewrite fmap_cons, aggregate_cons, Hrun1. cbn [mbind res_bind].
  apply IH; try done. by destruct xs.
Qed.

Lemma aggregate_ok rows :
  rows ≠ [] → Forall row_ok rows → count rows <= 134217727 → zlen (bytes rows) <= 268435456 →
  ∃ st, aggregate typ (Some <$> rows) None = Ok (Some st) ∧ st_holds 2 st rows ∧ st_room st.
Proof.
  intros Hne Hall Hmax Hb. destruct rows as [|a rows]; [done|]. apply Forall_cons in Hall as [Ha Hall].
  pose proof P_pos as HP. pose proof (items_nonneg P HP rows).
  pose proof Hmax as Hm. change (a :: rows) with ([a] ++ rows) in Hm. rewrite items_app, items_single in Hm.
  pose proof Hb as Hb1. unfold bytes in Hb1. simpl in Hb1. unfold zlen in Hb1. rewrite length_app in Hb1.
  destruct (transfn_first a Ha) as (st & Hrun1 & Hst & Hr); [lia|unfold zlen; lia|].
  rewrite fmap_cons, aggregate_cons, Hrun1. cbn [mbind res_bind].
  by apply (aggregate_more rows st [a]).
Qed.

(** The array that results depends only on the arrays that were accumulated. *)
Lemma final_determined K1 K2 st1 st2 xs :
  st_holds K1 st1 xs → st_holds K2 st2 xs → makeAgg2dResultArr st1 = makeAgg2dResultArr st2.
Proof.
  intros [(d1 & Hd1 & Hl1 & HD1) Hnb1 _ Hn1 Hbm1 Hnd1 Hdims1 _ [_ He1]]
         [(d2 & Hd2 & Hl2 & HD2) Hnb2 _ Hn2 Hbm2 Hnd2 Hdims2 _ [_ He2]].
  unfold makeAgg2dResultArr. rewrite Hnd1, Hnd2, Hdims1, Hdims2, Hnb1, Hnb2, Hn1, Hn2, He1, He2, Hd1, Hd2. simpl deref.
  assert (lcopy (replicate (Z.to_nat (zlen (bytes xs))) 0) 0 d1 0 (zlen (bytes xs))
          = lcopy (replicate (Z.to_nat (zlen (bytes xs))) 0) 0 d2 0 (zlen (bytes xs))) as Hcp.
  { pose proof (zlen_nonneg (bytes xs)). rewrite !lcopy_ok by (rewrite ?zlen_replicate by lia; lia).
    do 3 f_equal. unfold zlen. rewrite Nat2Z.id. congruence. }
  cbn [mbind res_bind]. rewrite Hcp.
  destruct (st_nullbitmap st1) as [bm1|], (st_nullbitmap st2) as [bm2|]; simpl in Hbm1, Hbm2;
    destruct Hbm1 as [Hx1 Hr1]; destruct Hbm2 as [Hx2 Hr2]; try congruence.
  destruct Hr1 as (Hb1 & Hz1 & Hp1 & Ha1). destruct Hr2 as (Hb2 & Hz2 & Hp2 & Ha2).
  pose proof (div8_bounds (st_aitems st1) ltac:(lia)). pose proof (div8_bounds (st_aitems st2) ltac:(lia)).
  rewrite (array_bitmap_copy_ext _ _ bm1 bm2) by (lia || intros i Hi; by rewrite Hb1, Hb2 by lia). done.
Qed.

Lemma dims_size xs :
  xs ≠ [] → count xs <= 134217727 → ArrayGetNItems (zlen ds + 1) (padded (zlen xs) ds) = Ok (count xs).
Proof.
  intros Hne Hmax. destruct Hshape. assert (0 < zlen xs) by (destruct xs; [done|]; unfold zlen; simpl; lia).
  pose proof (ArrayGetNItems_prefix (zlen xs :: ds) (replicate (5 - length ds) 0)) as Hg.
  change (product (zlen xs :: ds)) with (count xs) in Hg.
  replace (zlen (zlen xs :: ds)) with (zlen ds + 1) in Hg by (unfold zlen; cbn [length]; lia).
  apply Hg; [by constructor|done|unfold int_max; lia|done].
Qed.

Lemma final_ok K st xs h w :
  st_holds K st xs → ds = [h; w] → xs ≠ [] → count xs <= 134217727 → zlen (bytes xs) <= 268435456 →
  ∃ bm, makeAgg2dResultArr st
    = Ok (mkArrayType 2 (if nulls xs then ARR_OVERHEAD_WITHNULLS 2 (count xs) else 0) el
            [zlen xs * h; w] [1; 1] bm (bytes xs))
    ∧ if nulls xs then zlen bm = (count xs + 7) / 8 ∧ bits_ok P bm xs else bm = [].
Proof.
  intros [(d & Hd & Hdl & HD) Hnb _ Hn Hbm Hnd Hdims _ [_ He]] Hds Hne Hmax Hb.
  unfold makeAgg2dResultArr. rewrite Hnd, Hdims. pose proof (zlen_nonneg ds).
  replace (zlen ds + 1 =? 0) with false by lia. rewrite (dims_size xs Hne Hmax). cbn [mbind res_bind].
  rewrite Hnb, Hn, He, Hd. pose proof (zlen_nonneg (bytes xs)). pose proof P_pos as HP. pose proof (items_nonneg P HP xs) as Hi0.
  replace (zlen ds + 1 - 1) with 2 by (rewrite Hds; done). change (ARR_OVERHEAD_NONULLS 2) with 32.
  pose proof (div8_bounds (count xs) Hi0) as [H8 H8'].
  assert (0 <= ARR_OVERHEAD_WITHNULLS 2 (count xs) <= 268435456) as Hov.
  { unfold ARR_OVERHEAD_WITHNULLS, MAXALIGN, sizeof_ArrayType.
    pose proof (Z.mul_div_le (count xs + 7) 8 ltac:(lia)).
    set (q := (count xs + 7) / 8) in *. pose proof (Z.mul_div_le (16 + 2 * 4 * 2 + q + 7) 8 ltac:(lia)).
    pose proof (Z.div_pos (16 + 2 * 4 * 2 + q + 7) 8 ltac:(lia) ltac:(lia)). lia. }
  rewrite i32_id by (destruct (st_nullbitmap st); int_solve).
  rewrite check_true by (unfold MaxAllocSize; destruct (st_nullbitmap st); lia).
  assert (is_int (zlen xs * h)) as Hxh.
  { pose proof so_pos Hshape as Hpos. unfold items in *. rewrite Hds in Hmax, Hpos. unfold product in Hmax. simpl in Hmax.
    apply Forall_cons in Hpos as [Hh Hpos]. apply Forall_cons in Hpos as [Hw _]. pose proof (zlen_nonneg xs). split; int_nsolve. }
  assert (padded (zlen xs) ds = [zlen xs; h; w; 0; 0; 0]) as -> by (rewrite Hds; done).
  change (lget [zlen xs; h; w; 0; 0; 0] 0) with (Ok (zlen xs)). change (lget [zlen xs; h; w; 0; 0; 0] 1) with (Ok h).
  change (lget [zlen xs; h; w; 0; 0; 0] 2) with (Ok w). cbn [mbind res_bind]. rewrite (i32_id _ Hxh).
  simpl deref. cbn [mbind res_bind]. 
  change (lcopy (replicate (Z.to_nat 2) 0) 0 [zlen xs * h; w] 0 2) with (Ok [zlen xs * h; w]).
  change (lcopy (replicate (Z.to_nat 2) 0) 0 [1; 1] 0 2) with (Ok [1; 1]). cbn [mbind res_bind].
  destruct (data_append (replicate (Z.to_nat (zlen (bytes xs))) 0) [] d (bytes xs)) as (d' & Hrun & Hl' & Htk);
    [done|done|rewrite zlen_replicate by lia; change (zlen (@nil Z)) with 0; lia|done|].
  rewrite zlen_replicate in Hl' by lia. change (zlen (@nil Z)) with 0 in Hrun. rewrite Hrun. cbn [mbind res_bind].
  rewrite take_ge in Htk by (unfold zlen in *; simpl; lia). simpl in Htk. subst d'.
  destruct (st_nullbitmap st) as [bm|]; simpl in Hbm.
  - destruct Hbm as (Hx & Hbits & Hz & Hp & Ha). rewrite Hx. pose proof (div8_bounds (st_aitems st) ltac:(lia)).
    destruct (bitmap_append P HP (replicate (Z.to_nat ((count xs + 7) / 8)) 0) [] xs (Some bm)) as (bm' & Hcp & Hlc & Hbc).
    + intros i Hi. unfold items, zlen in Hi. simpl in Hi. lia.
    + rewrite zlen_replicate by lia. change (items P []) with 0. lia.
    + intros s [= <-]. split; [lia|done].
    + done.
    + change (items P []) with 0 in Hcp. rewrite Hcp. cbn [mbind res_bind]. exists bm'. split; [done|].
      rewrite zlen_replicate in Hlc by lia. done.
  - destruct Hbm as [Hx _]. rewrite Hx. by exists [].
Qed.

(** Fields of a state, as the receiver checks them. *)
Lemma state_fields_ok K st xs d :
  st_holds K st xs → st_data st = Some d → 0 <= K <= 6 → xs ≠ [] →
  count xs <= 134217727 → zlen (bytes xs) <= 268435456 →
  Forall field_ok (state_fields st d) ∧ 4 + zlen (flat_map field_bytes (state_fields st d)) < MaxAllocSize
  ∧ 0 <= st_aitems st <= 2 ^ 30 ∧ zlen (st_dims st) = 6 ∧ zlen (st_lbs st) = 6
  ∧ (∀ bm, st_nullbitmap st = Some bm → zlen bm = (st_aitems st + 7) / 8).
Proof.
  intros [(d' & Hd' & Hdl & HD) Hnb Hab Hn Hbm Hnd Hdims Hlbs [Ht He]] Hd HK Hne Hmax Hb.
  assert (d' = d) as -> by congruence. pose proof Hshape as [_ Hnd5 Hlb _ _ _ _ Htyp Hel _].
  pose proof P_pos as HP. pose proof (items_nonneg P HP xs). pose proof (zlen_nonneg (bytes xs)). pose proof (zlen_nonneg ds).
  change (2 ^ 30) with 1073741824.
  assert (0 <= st_aitems st <= 1073741824 ∧ ∀ bm, st_nullbitmap st = Some bm → zlen bm = (st_aitems st + 7) / 8) as [Hai Hz].
  { destruct (st_nullbitmap st) as [bm|]; simpl in Hbm.
    - destruct Hbm as (_ & _ & Hz & Hp & Ha). split; [nia|]. by intros ? [= <-].
    - destruct Hbm as [_ ->]. split; [lia|done]. }
  assert (zlen (st_dims st) = 6 ∧ zlen (st_lbs st) = 6) as [Hd6 Hl6].
  { rewrite Hdims, Hlbs. unfold zlen at 1 3. rewrite !padded_length by lia. done. }
  split_and!; try done.
  - unfold state_fields. rewrite Ht, He, Hnb, Hnd, Hn.
    repeat apply Forall_app_2; repeat apply Forall_cons_2; try apply Forall_nil_2; simpl; try done; try (split; [tauto|]); try lia.
    destruct (st_nullbitmap st); by repeat constructor.
  - unfold state_fields. rewrite !flat_map_app. unfold zlen. rewrite !length_app. cbn [flat_map field_bytes app].
    rewrite ?length_app, ?length_be_bytes. pose proof (zlen_ints_bytes (st_dims st)) as Hb1. pose proof (zlen_ints_bytes (st_lbs st)) as Hb2.
    unfold zlen in Hb1, Hb2, Hd6, Hl6 |- *. rewrite length_take. simpl (length []).
    assert (length (flat_map field_bytes match st_nullbitmap st with Some bm => [FBytes bm] | None => [] end) <= 134217729).
    { destruct (st_nullbitmap st) as [bm|]; simpl; [|lia]. rewrite app_nil_r. specialize (Hz bm eq_refl).
      pose proof (Z.mul_div_le (st_aitems st + 7) 8 ltac:(lia)). unfold zlen in Hz. lia. }
    unfold zlen in *. unfold MaxAllocSize. lia.
  - apply Hai.
  - apply Hai.
Qed.

Lemma init_typed : initArrayResultArr typ el
  = Ok (mkState None None 0 0 0 0 0 (replicate 6 0) (replicate 6 0) typ el).
Proof.
  destruct Hshape. unfold initArrayResultArr.
  replace (OidIsValid el) with true by (unfold OidIsValid, InvalidOid; lia). simpl.
  rewrite check_true; [done|]. unfold OidIsValid, InvalidOid. lia.
Qed.

(** Copying into fresh memory. *)
Lemma fresh_copy size (D : list Z) :
  zlen D <= size <= MaxAllocSize →
  ∃ d, palloc_bytes size = Ok (junk size) ∧ lcopy (junk size) 0 D 0 (zlen D) = Ok d ∧ zlen d = size ∧ take (length D) d = D.
Proof.
  intros Hs. pose proof (zlen_nonneg D). unfold palloc_bytes. rewrite check_true by lia.
  pose proof (junk_len size ltac:(lia)) as Hj.
  destruct (data_append (junk size) [] D D) as (d & Hrun & Hl & Htk);
    [done|by rewrite firstn_all|change (zlen (@nil Z)) with 0; lia|done|].
  exists d. split; [done|]. split; [exact Hrun|]. split; [lia|exact Htk].
Qed.

Ltac get_int H :=
  let m := fresh "m" in let E := fresh "E" in let H' := fresh "Hr" in
  destruct (getmsgint_ok _ 4 _ _ H ltac:(auto)) as (m & E & H');
  change (256 ^ Z.of_nat 4) with 4294967296 in E; change (Z.of_nat 4) with 4 in E;
  rewrite E; clear E H; rename H' into H; cbn [mbind res_bind].
Ltac get_bytes_then H tac :=
  let m := fresh "m" in let E := fresh "E" in let H' := fresh "Hr" in
  destruct (getmsgbytes_ok _ _ _ H) as (m & E & H');
  tac E;
  rewrite E; clear E H; rename H' into H; cbn [mbind res_bind].
Ltac get_bytes H := get_bytes_then H ltac:(fun E => idtac).
Tactic Notation "get_bytes_of" hyp(H) constr(Heq) := get_bytes_then H ltac:(fun E => rewrite Heq in E).

Lemma receive_bitmap K st xs msg rest :
  bitmap_rep P K xs (st_nullbitmap st) (st_aitems st) →
  (∀ bm, st_nullbitmap st = Some bm → zlen bm = (st_aitems st + 7) / 8) → 0 <= st_aitems st <= 1073741824 →
  reads msg (flat_map field_bytes match st_nullbitmap st with Some bm => [FBytes bm] | None => [] end ++ rest) →
  ∃ bm msg', (if 0 <? st_aitems st then
      size ← idiv (i32 (st_aitems st + 7)) 8;
      bm ← palloc_bytes size;
      '(temp, buf) ← pq_getmsgbytes msg size;
      bm ← lcopy bm 0 temp 0 size;
      Ok (Some bm, buf)
    else Ok (None, msg)) = Ok (bm, msg') ∧ bitmap_rep P K xs bm (st_aitems st) ∧ reads msg' rest.
Proof.
  intros Hbm Hz Hai Hr. destruct (st_nullbitmap st) as [bm|] eqn:Hobm.
  - specialize (Hz bm eq_refl). destruct Hbm as (Hx & Hbits & _ & Hp & Ha). replace (0 <? st_aitems st) with true by lia.
    rewrite i32_id by int_solve. rewrite idiv_pos by lia. cbn [mbind res_bind]. rewrite <-Hz.
    pose proof (Z.mul_div_le (st_aitems st + 7) 8 ltac:(lia)).
    destruct (fresh_copy (zlen bm) bm) as (bm' & -> & Hcp' & Hbz & Htk'); [unfold MaxAllocSize; lia|]. cbn [mbind res_bind].
    cbn [flat_map field_bytes app] in Hr. rewrite <-?app_assoc in Hr.
    get_bytes Hr. rewrite Hcp'. cbn [mbind res_bind]. exists (Some bm'), m. split; [done|]. split; [|exact Hr].
    rewrite take_ge in Htk' by (unfold zlen in *; lia). subst bm'. done.
  - destruct Hbm as [Hx Ha]. rewrite Ha. exists None, msg. split; [done|]. split; [done|]. exact Hr.
Qed.

Lemma padded_ints x l : is_int x → Forall is_int l → Forall is_int (padded x l).
Proof.
  intros Hx Hl. unfold padded. constructor; [done|]. apply Forall_app_2; [done|]. apply Forall_replicate. int_solve.
Qed.

(** The state that is received holds what was sent, but its [data] may be shorter
    than the [abytes] it announces. *)
Lemma deserialize_ok K st xs d msg :
  st_holds K st xs → st_data st = Some d → 0 <= K <= 6 → xs ≠ [] →
  count xs <= 134217727 → zlen (bytes xs) <= 268435456 →
  reads (initReadOnlyStringInfo (VARDATA_ANY msg) (VARSIZE_ANY_EXHDR msg)) (flat_map field_bytes (state_fields st d)) →
  ∃ st', array_agg_array_deserialize (Some msg) = Ok st' ∧ st_holds K st' xs.
Proof.
  intros Hst Hd HK Hne Hmax Hb Hr. destruct (state_fields_ok K st xs d) as (_ & _ & Hai & Hd6 & Hl6 & Hz); try done.
  pose proof Hst as [(d' & Hd' & Hdl & HD) Hnb Hab Hn Hbm Hnd Hdims Hlbs [Ht He]].
  assert (d' = d) as -> by congruence. pose proof Hshape as [_ Hnd5 Hlb _ _ Hi1 Hi2 Htyp Hel _].
  pose proof P_pos as HP. pose proof (items_nonneg P HP xs). pose proof (zlen_nonneg (bytes xs)).
  pose proof (zlen_nonneg ds). pose proof (zlen_nonneg xs).
  change (2 ^ 30) with 1073741824 in Hai. unfold array_agg_array_deserialize. cbn [deref mbind res_bind].
  unfold state_fields in Hr. rewrite Ht, He, Hnb, Hn, Hnd in Hr. unfold zlen in Hr at 2. rewrite Nat2Z.id, HD in Hr.
  rewrite !flat_map_app in Hr. cbn [flat_map field_bytes app] in Hr. rewrite <-?app_assoc in Hr.
  get_int Hr. get_int Hr. get_int Hr. rewrite (Z.mod_small el), (Z.mod_small typ) by lia.
  rewrite init_typed. cbn [mbind res_bind]. rewrite (i32_mod_id (zlen (bytes xs))) by int_solve.
  destruct (newlen_loop_ok 31 (zlen (bytes xs)) 1024) as (size & -> & Hs1 & Hs2);
    [lia|change (2 ^ 30) with 1073741824; lia|change (2 ^ Z.of_nat 31) with 2147483648; lia|]. cbn [mbind res_bind].
  destruct (fresh_copy size (bytes xs)) as (data & -> & Hcp & Hdz & Htk); [unfold MaxAllocSize; lia|]. cbn [mbind res_bind].
  get_bytes Hr. rewrite Hcp. cbn [mbind res_bind].
  get_int Hr. get_int Hr. rewrite (i32_mod_id (st_abytes st)), (i32_mod_id (st_aitems st)) by int_solve.
  destruct (receive_bitmap K st xs _ _ Hbm Hz Hai Hr) as (bm & msg' & -> & Hbm' & Hr'). clear Hr. rename Hr' into Hr. cbn [mbind res_bind].
  get_int Hr. get_int Hr. pose proof (zlen_ints_bytes (st_dims st)) as Hb1. pose proof (zlen_ints_bytes (st_lbs st)) as Hb2.
  assert (zlen (ints_bytes (st_dims st)) = 24) as Hb3 by lia. assert (zlen (ints_bytes (st_lbs st)) = 24) as Hb4 by lia.
  get_bytes_of Hr Hb3. get_bytes_of Hr Hb4. rewrite (getmsgend_ok _ Hr). cbn [mbind res_bind].
  assert (∀ l, Forall is_int l → zlen l = 6 → bytes_ints 6 (ints_bytes l) = l) as Hints.
  { intros l Hl Hl'. pose proof (bytes_ints_bytes l [] Hl) as Hbi. rewrite app_nil_r in Hbi.
    replace (length l) with 6%nat in Hbi by (unfold zlen in Hl'; lia). exact Hbi. }
  assert (zlen xs <= 134217727) by (unfold items in *; nia).
  rewrite !Hints by (done || rewrite ?Hdims, ?Hlbs; apply padded_ints; done || int_solve).
  rewrite (i32_mod_id (count xs)), (i32_mod_id (zlen ds + 1)) by int_solve.
  eexists. split; [done|]. rewrite Hnb in Hab. split; simpl; try done.
  exists data. split; [done|]. split; [lia|done].
Qed.

Lemma bitmap_weaken xs obm ai : bitmap_rep P 2 xs obm ai → bitmap_rep P 6 xs obm ai.
Proof.
  pose proof P_pos as HP. pose proof (items_nonneg P HP xs). destruct obm; simpl; [|done].
  intros (? & ? & ? & ? & ?). split_and!; done || lia.
Qed.

Lemma combine_first_ok st2 ys :
  st_holds 2 st2 ys → count ys <= 134217727 → zlen (bytes ys) <= 268435456 →
  ∃ st, combine_first st2 = Ok st ∧ st_holds 6 st ys ∧ st_room st.
Proof.
  intros [(d & Hd & Hdl & HD) Hnb Hab Hn Hbm Hnd Hdims Hlbs [Ht He]] Hmax Hb.
  pose proof P_pos as HP. pose proof (items_nonneg P HP ys). pose proof (zlen_nonneg (bytes ys)).
  unfold combine_first. rewrite Ht, init_ok. cbn [mbind res_bind]. rewrite Hnb in Hab.
  assert (palloc_bytes (st_abytes st2) = Ok (junk (st_abytes st2))) as ->
    by (unfold palloc_bytes; by rewrite check_true by (unfold MaxAllocSize; lia)).
  cbn [mbind res_bind].
  assert (∃ obm, (match st_nullbitmap st2 with
        | Some bm2 => size ← idiv (i32 (st_aitems st2 + 7)) 8; bm ← palloc_bytes size; bm ← lcopy bm 0 bm2 0 size; Ok (Some bm)
        | None => Ok None end) = Ok obm ∧ bitmap_rep P 2 ys obm (st_aitems st2)) as (obm & Hobm & Hrep).
  { destruct (st_nullbitmap st2) as [bm|]; [|by exists None].
    pose proof Hbm as (Hx & Hbits & Hz & Hp & Ha). rewrite i32_id by int_solve. rewrite idiv_pos by lia. cbn [mbind res_bind].
    pose proof (Z.mul_div_le (st_aitems st2 + 7) 8 ltac:(lia)). rewrite <-Hz.
    destruct (fresh_copy (zlen bm) bm) as (bm' & -> & Hcp & Hbz & Htk); [unfold MaxAllocSize; lia|]. cbn [mbind res_bind].
    rewrite Hcp. cbn [mbind res_bind]. exists (Some bm'). split; [done|].
    rewrite take_ge in Htk by (unfold zlen in *; lia). by subst bm'. }
  simpl (st_nullbitmap (mkState _ _ _ _ _ _ _ _ _ _ _)). rewrite Hobm. cbn [mbind res_bind]. rewrite Hd. simpl deref. cbn [mbind res_bind].
  pose proof (junk_len (st_abytes st2) ltac:(lia)) as Hj.
  destruct (data_append (junk (st_abytes st2)) [] d (bytes ys)) as (d' & Hrun & Hl & Htk);
    [done|done|change (zlen (@nil Z)) with 0; lia|lia|].
  change (zlen (@nil Z)) with 0 in Hrun. rewrite Hnb, Hrun. cbn [mbind res_bind].
  eexists. split; [done|]. split; [|exists d'; split; [done|simpl; lia]].
  split; simpl; try done; try lia; [|by apply bitmap_weaken].
  exists d'. split; [done|]. split; [lia|exact Htk].
Qed.

Lemma combine_dims_match x1 x2 y :
  cfor 1 (zlen ds + 1) 1 (λ i _,
     d1 ← lget (padded x1 ds) i; d2 ← lget (padded x2 ds) i;
     if negb (d1 =? d2) then Ereport dims_msg
     else l1 ← lget (padded y lbs) i; l2 ← lget (padded y lbs) i; check (l1 =? l2) dims_msg (Ok tt)) tt = Ok tt.
Proof.
  destruct Hshape. pose proof (zlen_nonneg ds). apply cfor_unit; [done|lia|unfold int_max; lia|]. intros i Hi.
  replace i with (i - 1 + 1) by lia.
  destruct (lget_in_range ds (i - 1)) as (d & _ & Hd); [lia|]. destruct (lget_in_range lbs (i - 1)) as (m & _ & Hm); [lia|].
  rewrite !(padded_lget _ ds (i - 1) d) by (done || lia). cbn [mbind res_bind]. rewrite Z.eqb_refl. simpl negb. cbv iota.
  rewrite !(padded_lget _ lbs (i - 1) m) by (done || lia). cbn [mbind res_bind]. by rewrite Z.eqb_refl.
Qed.

Lemma combine_next_ok st1 st2 xs ys :
  st_holds 6 st1 xs → st_room st1 → st_holds 2 st2 ys → (nulls xs = true → nulls ys = true) →
  count (xs ++ ys) <= 134217727 → zlen (bytes (xs ++ ys)) <= 268435456 →
  ∃ st, combine_next st1 st2 = Ok st ∧ st_holds 6 st (xs ++ ys) ∧ st_room st.
Proof.
  intros [(d1 & Hd1 & Hdl1 & HD1) Hnb1 Hab1 Hn1 Hbm1 Hnd1 Hdims1 Hlbs1 [Ht1 He1]] (d1' & Hd1' & Hcap)
         [(d2 & Hd2 & Hdl2 & HD2) Hnb2 Hab2 Hn2 Hbm2 Hnd2 Hdims2 Hlbs2 [Ht2 He2]] Hord Hmax Hb.
  assert (d1' = d1) as -> by congruence.
  pose proof P_pos as HP. pose proof (items_nonneg P HP xs). pose proof (items_nonneg P HP ys).
  rewrite items_app in Hmax. rewrite bytes_app in Hb. unfold zlen in Hb. rewrite length_app, Nat2Z.inj_add in Hb.
  fold (zlen (bytes xs)) in Hb. fold (zlen (bytes ys)) in Hb.
  pose proof (zlen_nonneg (bytes xs)). pose proof (zlen_nonneg (bytes ys)). pose proof (zlen_nonneg xs). pose proof (zlen_nonneg ys).
  unfold combine_next. rewrite Hnd1, Hnd2, check_true by lia. rewrite Hdims1, Hdims2, Hlbs1, Hlbs2, combine_dims_match.
  cbn [mbind res_bind]. rewrite Hnb1, Hnb2 in *. rewrite (i32_id (zlen (bytes xs) + zlen (bytes ys))) by int_solve.
  set (nb := zlen (bytes xs) + zlen (bytes ys)) in *.
  assert (∃ d ab, (if st_abytes st1 <? nb then
       data ← deref (st_data st1); data ← repalloc data (i32 (pg_nextpower2_32 nb)); Ok (data, i32 (pg_nextpower2_32 nb))
     else data ← deref (st_data st1); Ok (data, st_abytes st1)) = Ok (d, ab)
     ∧ zlen d = ab ∧ nb <= ab <= 2 * (nb + 1024) ∧ take (length (bytes xs)) d = bytes xs) as (d & ab & Hgrow & Hdz & Hab & Htk).
  { rewrite Hd1. simpl deref. cbn [mbind res_bind].
    destruct (Z.ltb_spec (st_abytes st1) nb) as [Hlt|Hge]; [|exists d1, (st_abytes st1); split_and!; done || lia].
    pose proof (pg_nextpower2_32_bounds nb ltac:(lia)) as Hp. set (p := pg_nextpower2_32 nb) in *. rewrite i32_id by int_solve.
    unfold repalloc. rewrite check_true by (unfold MaxAllocSize; lia). cbn [mbind res_bind].
    eexists _, p. split; [done|]. split; [apply zlen_repalloc; lia|]. split; [lia|].
    rewrite (take_ge d1) by (unfold zlen in *; lia). by rewrite take_app_le by (unfold zlen in *; lia). }
  cbv zeta. rewrite Hgrow. cbn [mbind res_bind].
  destruct (combine_bitmap_ok P HP st1 st2 xs ys) as (obm & ai & -> & Hrep); try done. cbn [mbind res_bind].
  rewrite Hd2. simpl deref. cbn [mbind res_bind].
  destruct (data_append d (bytes xs) d2 (bytes ys)) as (d' & -> & Hl' & Htk'); [done|done|lia|lia|]. cbn [mbind res_bind].
  change (lget (padded (zlen xs) ds) 0) with (Ok (zlen xs)). change (lget (padded (zlen ys) ds) 0) with (Ok (zlen ys)).
  cbn [mbind res_bind]. rewrite padded_lset. cbn [mbind res_bind].
  assert (zlen xs + zlen ys <= 134217727) by (unfold items in *; nia). rewrite Hn1, Hn2, !i32_id by int_solve.
  eexists. split; [done|]. split; [|exists d'; split; [done|simpl; lia]].
  assert (zlen (bytes (xs ++ ys)) = nb) as Hzl by (rewrite bytes_app; unfold nb, zlen; rewrite length_app; lia).
  split; simpl; try done; try lia.
  - exists d'. split; [done|]. split; [lia|]. by rewrite bytes_app.
  - by rewrite items_app.
  - f_equal. unfold zlen. rewrite length_app. lia.
Qed.

(** ** Plans *)

Lemma worker_ok rows :
  rows ≠ [] → Forall row_ok rows → count rows <= 134217727 → zlen (bytes rows) <= 268435456 →
  ∃ msg st, worker typ (Some <$> rows) = Ok (Some msg) ∧ array_agg_array_deserialize (Some msg) = Ok st ∧ st_holds 2 st rows.
Proof.
  intros Hne Hall Hmax Hb. destruct (aggregate_ok rows) as (st & Hagg & Hst & _); try done.
  unfold worker. rewrite Hagg. cbn [mbind res_bind finalize_partialaggregate].
  destruct (sh_data _ _ _ Hst) as (d & Hd & Hdl & _).
  destruct (state_fields_ok 2 st rows d) as (Hfs & Hfit & Hai & Hd6 & Hl6 & Hz); try done.
  pose proof (sh_nbytes _ _ _ Hst) as Hnb. pose proof (zlen_nonneg (bytes rows)).
  rewrite (serialize_message st d) by (done || lia).
  destruct (send_message_ok _ Hfs Hfit) as (msg & -> & Hr). cbn [mbind res_bind].
  destruct (deserialize_ok 2 st rows d msg) as (st' & Hdes & Hst'); try done. by exists msg, st'.
Qed.

(** Rows that are not null. *)
Definition present (rows : list (ArrayType Z)) : list (option (ArrayType Z)) := Some <$> rows.

(** A share with nulls is never followed by one without. *)
Definition nulls_ordered (shares : list (list (ArrayType Z))) : Prop :=
  ∀ l1 s l2, shares = l1 ++ s :: l2 → nulls (concat l1) = true → nulls s = true.

Definition leader_state (state : option ArrayBuildStateArr) (xs : list (ArrayType Z)) : Prop :=
  match state with None => xs = [] | Some st => xs ≠ [] ∧ st_holds 6 st xs ∧ st_room st end.

Lemma leader_step state xs share :
  leader_state state xs → share ≠ [] → Forall row_ok share → (nulls xs = true → nulls share = true) →
  count (xs ++ share) <= 134217727 → zlen (bytes (xs ++ share)) <= 268435456 →
  ∃ state', (m ← worker typ (present share); agg_deserialize_combine deserialfn_strict m state) = Ok state'
    ∧ leader_state state' (xs ++ share).
Proof.
  intros Hl Hne Hall Hord Hmax Hb. unfold present. pose proof P_pos as HP. pose proof (items_nonneg P HP xs).
  pose proof Hmax as Hmax1. rewrite items_app in Hmax1.
  pose proof Hb as Hb1. rewrite bytes_app in Hb1. unfold zlen in Hb1. rewrite length_app in Hb1.
  destruct (worker_ok share) as (msg & st2 & -> & Hdes & Hst2); [done|done|lia|unfold zlen; lia|].
  cbn [mbind res_bind agg_deserialize_combine]. rewrite Hdes. cbn [mbind res_bind]. unfold array_2d_agg_combine.
  rewrite check_true by done. destruct state as [st1|]; simpl in Hl.
  - destruct Hl as (Hxs & Hst1 & Hroom). rewrite (sh_nitems _ _ _ Hst2).
    assert (0 < count share).
    { unfold items. assert (0 < zlen share) by (destruct share; [done|]; unfold zlen; simpl; lia). nia. }
    replace (0 <? count share) with true by lia.
    destruct (combine_next_ok st1 st2 xs share) as (st & -> & Hst & Hr); try done. cbn [mbind res_bind].
    exists (Some st). split; [done|]. split; [by destruct xs|done].
  - subst xs. destruct (combine_first_ok st2 share) as (st & -> & Hst & Hr); [done|lia|unfold zlen; lia|].
    cbn [mbind res_bind]. exists (Some st). done.
Qed.

Lemma leader_ok shares state xs :
  leader_state state xs → Forall (λ s, s ≠ []) shares → Forall (Forall row_ok) shares →
  (∀ l1 s l2, shares = l1 ++ s :: l2 → nulls (xs ++ concat l1) = true → nulls s = true) →
  count (xs ++ concat shares) <= 134217727 → zlen (bytes (xs ++ concat shares)) <= 268435456 →
  ∃ state', foldM (λ share (state : option ArrayBuildStateArr), m ← worker typ share; agg_deserialize_combine deserialfn_strict m state)
              (present <$> shares) state = Ok state' ∧ leader_state state' (xs ++ concat shares).
Proof.
  revert state xs. induction shares as [|s shares IH]; intros state xs Hl Hne Hall Hord Hmax Hb.
  { exists state. simpl. by rewrite app_nil_r. }
  apply Forall_cons in Hne as [Hs Hne]. apply Forall_cons in Hall as [Hr Hall]. simpl concat in *. rewrite app_assoc in *.
  pose proof P_pos as HP. pose proof (items_nonneg P HP (concat shares)).
  pose proof Hmax as Hmax1. rewrite items_app in Hmax1.
  pose proof Hb as Hb1. rewrite bytes_app in Hb1. unfold zlen in Hb1. rewrite length_app in Hb1.
  destruct (leader_step state xs s) as (st1 & Hrun & Hl1); try done; [|lia|unfold zlen; lia|].
  { intros Hx. apply (Hord [] s shares); [done|]. simpl. by rewrite app_nil_r. }
  rewrite fmap_cons. cbn [foldM]. rewrite Hrun. cbn [mbind res_bind]. apply IH; try done.
  intros l1 s' l2 Hsh Hx. apply (Hord (s :: l1) s' l2); [by rewrite Hsh|]. simpl. by rewrite app_assoc.
Qed.
End states.

(** A catalog that knows the array type of [float4]. *)
Definition float4_catalog : Catalog :=
  {| SearchTypeOid := λ oid, if oid =? 1021 then Some {| typelem := FLOAT4OID; typsubscript := F_ARRAY_SUBSCRIPT_HANDLER |} else None |}.
(** A matrix of [float4] given by the bytes of its items, without nulls. *)
Definition byte_matrix (h w : Z) (data : list Z) : ArrayType Z := mkArrayType 2 0 FLOAT4OID [h; w] [1; 1] [] data.

(** One with a null bitmap; the data are those of the items that are present. *)
Definition null_matrix (h w : Z) (bm data : list Z) : ArrayType Z :=
  mkArrayType 2 (ARR_OVERHEAD_WITHNULLS 2 (h * w)) FLOAT4OID [h; w] [1; 1] bm data.

Lemma byte_matrix_shape h w (H : Catalog := float4_catalog) :
  0 < h → 0 < w → h * w <= 1000 → shape_ok [h; w] [1; 1] 1021 FLOAT4OID.
Proof.
  intros Hh Hw Hs. assert (h <= 1000 ∧ w <= 1000) as [? ?] by nia.
  split; try done; repeat apply Forall_cons_2; try apply Forall_nil_2; try int_solve.
  change MaxArraySize with 134217727. unfold product. simpl. lia.
Qed.
Lemma byte_matrix_row h w data : row_ok [h; w] [1; 1] (byte_matrix h w data).
Proof. by split. Qed.
Lemma null_matrix_row h w bm data : h * w <= 8 * zlen bm → row_ok [h; w] [1; 1] (null_matrix h w bm data).
Proof.
  intros Hbm. split; try done. intros bm' Hbm'. unfold ARR_NULLBITMAP in Hbm'. case_match; simplify_eq/=.
  unfold product. simpl. lia.
Qed.

(** C13: the aggregate stacks matrices.  Accumulating [rows], matrices of one
    shape [h] x [w], and finishing gives the matrix of [length rows * h] rows and
    [w] columns that holds their data in order, and a null bitmap exactly if one of
    them has one, which marks the items that are null and no others; whatever fresh
    memory contains. *)
Theorem sequential_plan_stacks `{Catalog, Memory} h w lbs typ el rows :
  shape_ok [h; w] lbs typ el → rows ≠ [] → Forall (row_ok [h; w] lbs) rows →
  zlen rows * (h * w) <= 134217727 → zlen (bytes rows) <= 268435456 →
  ∃ bm, sequential_plan typ (present rows)
    = Ok (Some (mkArrayType 2 (if nulls rows then ARR_OVERHEAD_WITHNULLS 2 (zlen rows * (h * w)) else 0) el
                  [zlen rows * h; w] [1; 1] bm (bytes rows)))
    ∧ if nulls rows
      then zlen bm = (zlen rows * (h * w) + 7) / 8
           ∧ ∀ i, 0 <= i < zlen rows * (h * w) → getbit bm i = nonnull (h * w) rows i
      else bm = [].
Proof.
  intros Hshape Hne Hall Hmax Hb. assert (product [h; w] = h * w) as HP by (unfold product; simpl; lia).
  pose proof (aggregate_ok _ _ _ _ Hshape rows Hne Hall) as Hagg. pose proof (final_ok _ _ _ _ Hshape) as Hfin.
  unfold bits_ok, items in *. rewrite HP in *. destruct (Hagg Hmax Hb) as (st & Hrun & Hst & _).
  destruct (Hfin 2 st rows h w Hst eq_refl Hne Hmax Hb) as (bm & Hbm & Hbits). exists bm. split; [|done].
  unfold sequential_plan, present. rewrite Hrun. cbn [mbind res_bind array_2d_agg_finalfn]. by rewrite Hbm.
Qed.

Lemma sequential_plan_stacks_witness :
  let C := float4_catalog in let M := zeroed_memory in
  let rows := [byte_matrix 1 2 [1; 2; 3; 4; 5; 6; 7; 8]; byte_matrix 1 2 [9; 10; 11; 12; 13; 14; 15; 16]] in
  zlen rows * (1 * 2) <= 134217727 ∧
  ∃ bm, sequential_plan 1021 (present rows)
    = Ok (Some (mkArrayType 2 (if nulls rows then ARR_OVERHEAD_WITHNULLS 2 (zlen rows * (1 * 2)) else 0) FLOAT4OID
                  [zlen rows * 1; 2] [1; 1] bm (bytes rows)))
    ∧ if nulls rows
      then zlen bm = (zlen rows * (1 * 2) + 7) / 8
           ∧ ∀ i, 0 <= i < zlen rows * (1 * 2) → getbit bm i = nonnull (1 * 2) rows i
      else bm = [].
Proof.
  intros C M rows. split; [done|].
  apply (sequential_plan_stacks (H := C) (H0 := M) 1 2 [1; 1] 1021 FLOAT4OID rows);
    [by apply byte_matrix_shape|done|repeat constructor; apply byte_matrix_row|done|done].
Defined.

(** C6: a parallel plan computes what the sequential one does.  Split the rows of a
    group among workers in any way that gives each at least one row and puts
    no share without null bitmaps after one with; let every worker aggregate its
    share and send its state, and let the leader receive and combine the states in
    order: the result is that of aggregating all rows in one process. *)
Theorem parallel_plan_equals_sequential `{Catalog, Memory} ds lbs typ el shares :
  shape_ok ds lbs typ el → Forall (λ s, s ≠ []) shares → Forall (Forall (row_ok ds lbs)) shares →
  nulls_ordered shares → zlen (concat shares) * product ds <= 134217727 → zlen (bytes (concat shares)) <= 268435456 →
  parallel_plan typ (present <$> shares) = sequential_plan typ (present (concat shares)).
Proof.
  intros Hshape Hne Hall Hord Hmax Hb. unfold parallel_plan, sequential_plan.
  destruct (leader_ok _ _ _ _ Hshape shares None []) as (state & -> & Hl); try done. cbn [mbind res_bind].
  change ([] ++ concat shares) with (concat shares) in Hl. destruct state as [st|]; simpl in Hl.
  - destruct Hl as (Hx & Hst & _).
    destruct (aggregate_ok _ _ _ _ Hshape (concat shares) Hx) as (st' & Hrun & Hst' & _); [|done|done|].
    { apply Forall_concat. done. }
    unfold present. rewrite Hrun. cbn [mbind res_bind array_2d_agg_finalfn].
    by rewrite (final_determined _ _ _ _ 6 2 st st' _ Hst Hst').
  - by rewrite Hl.
Qed.

(** Three matrices of two items; of the second and the third one item is null. *)
Lemma parallel_plan_equals_sequential_witness :
  let C := float4_catalog in let M := zeroed_memory in
  let a := byte_matrix 1 2 [1; 2; 3; 4; 5; 6; 7; 8] in
  let b := null_matrix 1 2 [1] [9; 10; 11; 12] in let c := null_matrix 1 2 [2] [13; 14; 15; 16] in
  nulls_ordered [[a]; [b; a]; [c]] ∧ nulls (concat [[a]; [b; a]; [c]]) = true ∧
  parallel_plan 1021 (present <$> [[a]; [b; a]; [c]]) = sequential_plan 1021 (present (concat [[a]; [b; a]; [c]])).
Proof.
  intros C M a b c. assert (nulls_ordered [[a]; [b; a]; [c]]) as Hord.
  { intros l1 s l2 Heq Hn. by destruct l1 as [|s1 [|s2 [|s3 [|s4 l1]]]]; simplify_list_eq. }
  split; [exact Hord|]. split; [done|].
  apply (parallel_plan_equals_sequential (H := C) (H0 := M) [1; 2] [1; 1] 1021 FLOAT4OID);
    [by apply byte_matrix_shape|by repeat constructor| |exact Hord|done|done].
  repeat constructor; try apply byte_matrix_row; by apply null_matrix_row.
Defined.

(** The combination forgets items.  The bitmap of a leader's state is not
    extended when the state of the next worker has none: of two matrices of one
    item, the first of which is null, the sequential plan returns the second and the
    parallel plan reports it as null, because its bit is what fresh memory held. *)
Lemma parallel_plan_loses_items :
  let a := null_matrix 1 1 [0] [] in
  let b := byte_matrix 1 1 [1; 2; 3; 4] in
  let result bits := Ok (Some (mkArrayType 2 (ARR_OVERHEAD_WITHNULLS 2 2) FLOAT4OID [2; 1] [1; 1] [bits] [1; 2; 3; 4])) in
  @sequential_plan float4_catalog zeroed_memory 1021 (present [a; b]) = result 2
  ∧ @parallel_plan float4_catalog zeroed_memory 1021 (present <$> [[a]; [b]]) = result 0.
Proof. split; vm_compute; reflexivity. Qed.




(** Only vectors and matrices can be stacked.  The final function copies
    [ndims - 1] words out of a local array of two: for inputs with three or more
    dimensions it reads past its end. *)
Theorem final_overread `{Catalog, Memory} ds lbs typ el rows :
  shape_ok ds lbs typ el → 3 <= zlen ds → rows ≠ [] → Forall (row_ok ds lbs) rows →
  zlen rows * product ds <= 134217727 → zlen (bytes rows) <= 268435456 → nulls rows = false →
  sequential_plan typ (present rows) = Stuck OutOfBounds.
Proof.
  intros Hshape H3 Hne Hall Hmax Hb Hnn. destruct (aggregate_ok _ _ _ _ Hshape rows Hne Hall Hmax Hb) as (st & Hrun & Hst & _).
  unfold sequential_plan, present. rewrite Hrun. cbn [mbind res_bind array_2d_agg_finalfn].
  destruct Hst as [_ Hnb _ Hn Hbm Hnd Hdims _ _]. unfold makeAgg2dResultArr. rewrite Hnd, Hdims.
  replace (zlen ds + 1 =? 0) with false by lia. rewrite (dims_size _ _ _ _ Hshape rows Hne Hmax). cbn [mbind res_bind].
  destruct (st_nullbitmap st) as [bm|]; simpl in Hbm; [destruct Hbm as [Hx _]; congruence|].
  pose proof (zlen_nonneg (bytes rows)). pose proof (so_ndims _ _ _ _ Hshape).
  assert (0 <= ARR_OVERHEAD_NONULLS (zlen ds + 1 - 1) <= 64) as Hov.
  { unfold ARR_OVERHEAD_NONULLS, MAXALIGN, sizeof_ArrayType.
    pose proof (Z.mul_div_le (16 + 2 * 4 * (zlen ds + 1 - 1) + 7) 8 ltac:(lia)).
    pose proof (Z.div_pos (16 + 2 * 4 * (zlen ds + 1 - 1) + 7) 8 ltac:(lia) ltac:(lia)). lia. }
  rewrite Hnb, i32_id by int_solve. rewrite check_true by (unfold MaxAllocSize; lia).
  destruct ds as [|d1 [|d2 ds']] eqn:Hds; [by unfold zlen in H3; simpl in H3..|]. rewrite <-Hds in *.
  assert (padded (zlen rows) ds = zlen rows :: d1 :: d2 :: (ds' ++ replicate (5 - length ds) 0)) as -> by by rewrite Hds.
  set (tl := ds' ++ _). change (lget (zlen rows :: d1 :: d2 :: tl) 0) with (Ok (zlen rows)).
  change (lget (zlen rows :: d1 :: d2 :: tl) 1) with (Ok d1). change (lget (zlen rows :: d1 :: d2 :: tl) 2) with (Ok d2).
  cbn [mbind res_bind]. rewrite (lcopy_short _ [i32 (zlen rows * d1); d2]) by (change (zlen [i32 (zlen rows * d1); d2]) with 2; lia). done.
Qed.

Lemma final_overread_witness :
  let C := float4_catalog in let M := zeroed_memory in
  let a := mkArrayType 3 0 FLOAT4OID [1; 1; 1] [1; 1; 1] [] [1; 2; 3; 4] in
  3 <= zlen (arr_dims a) ∧ sequential_plan 1021 (present [a]) = Stuck OutOfBounds.
Proof.
  intros C M a. split; [done|].
  apply (final_overread (H := C) (H0 := M) [1; 1; 1] [1; 1; 1] 1021 FLOAT4OID [a]); try done.
  - split; try done; repeat apply Forall_cons_2; try apply Forall_nil_2; int_solve.
  - apply Forall_singleton. by split.
Defined.
