(* ===== verification/ExtendedOps.v ===== *)
(** * ExtendedOps: concatenation, splitting and normalisation

    The functions of [extended_op.c] beside the aggregate: [concat_array] stacks up
    to six matrices, [split_array] (a set-returning function) cuts a matrix into
    blocks of rows, [split_vertical_array] and [batchnorm].

    [concat_array] changes the dimensions of its first argument in place when it is
    given a range of channels, and several arguments may be one array: its
    arguments are references into a store of arrays, which it returns too. *)

From Stdlib Require Import Floats.SpecFloat.
From S2P Require Import Prelude Float4 PgArray.

Open Scope Z_scope.

(** ** concat_array *)

(** The [float4] whose representation is the word [w]. *)
Definition f4_of_bits (w : Z) : float4 :=
  let w := u32 w in
  let s := Z.testbit w 31 in
  let e := Z.land (Z.shiftr w 23) 255 in
  let m := Z.land w 8388607 in
  if e =? 255 then (if m =? 0 then S754_infinity s else S754_nan)
  else if e =? 0 then match m with Zpos p => S754_finite s p (-149) | _ => S754_zero s end
  else match m + 8388608 with Zpos p => S754_finite s p (e - 150) | _ => S754_zero s end.

(** Argument [1 + i]: one of the six matrices, or, where they end, [offset] read as
    an array of [float4]. *)
Definition concat_arg (store : list farray) (args : list (option nat)) (offset : option (ArrayType Z)) (i : Z)
    : res farray :=
  if i =? 6 then
    match offset with
    | None => Stuck NullDeref
    | Some o => Ok (mkArrayType (ndim o) (dataoffset o) (elemtype o) (arr_dims o) (arr_lbound o)
                      (arr_nullbitmap o) (Some ∘ f4_of_bits <$> arr_data o))
    end
  else
    a ← lget args i;
    match a with
    | None => Stuck NullDeref
    | Some r => match store !! r with Some m => Ok m | None => Stuck NullDeref end
    end.

(** An element of [inputs], [channels] and [nelems_channel]: the array and the
    element its pointer points to, and the size of the block. *)
Record concat_input := mkInput { in_data : buf float4; in_start : Z; in_channels : Z; in_nelems : Z }.

(** The range of channels that the first argument is cut down to. *)
Definition concat_offset (store : list farray) (r : nat) (matrix : farray) (offset : ArrayType Z)
    : res (list farray * farray * Z) :=
  o0 ← lget (arr_data offset) 0;
  o1 ← lget (arr_data offset) 1;
  let start_index := i32 (o0 - 1) in
  let end_index := o1 in
  dims ← lset (arr_dims matrix) 0 (i32 (end_index - start_index));
  let matrix := set_dims matrix dims in
  w ← ARR_DIM matrix 1;
  Ok (<[r := matrix]> store, matrix, i32 (start_index * w)).

Definition concat_read (args : list (option nat)) (offset : option (ArrayType Z)) (i : Z)
    (s : list farray * list concat_input * Z) : res (list farray * list concat_input * Z) :=
  let '(store, inputs, total_channel) := s in
  matrix ← concat_arg store args offset i;
  '(store, matrix, start) ←
     (match (if i =? 0 then offset else None), args with
      | Some o, Some r :: _ => concat_offset store r matrix o
      | _, _ => Ok (store, matrix, 0)
      end);
  c ← ARR_DIM matrix 0;
  w ← ARR_DIM matrix 1;
  Ok (store, inputs ++ [mkInput (arr_data matrix) start c w], i32 (total_channel + c)).

Definition concat_copy (i : concat_input) (s : buf float4 * Z) : res (buf float4 * Z) :=
  let '(res_data, offset) := s in
  d ← lcopy res_data offset (in_data i) (in_start i) (in_channels i * in_nelems i);
  Ok (d, i32 (offset + i32 (in_channels i * in_nelems i))).

(** [args]: six references, null where no matrix is given. *)
Definition concat_array (store : list farray) (num_inputs : Z) (args : list (option nat)) (offset : option (ArrayType Z))
    : res (farray * list farray) :=
  require (0 <? num_inputs) OutOfBounds
  ('(store, inputs, total_channel) ← cfor 0 num_inputs 1 (concat_read args offset) (store, [], 0);
   first ← lget inputs 0;
   let res_size := i32 (total_channel * in_nelems first) in
   res ← float4construct_md_array_ncpy res_size 2 [total_channel; in_nelems first] [1; 1] FLOAT4OID;
   '(res_data, _) ← foldM concat_copy inputs (arr_data res, 0);
   Ok (set_data res res_data, store)).

(** ** split_array *)

(** The part of the state of a set-returning function that the function uses. *)
Record FuncCallContext := mkCtx { user_fctx : list (Z * farray); call_cntr : Z; max_calls : Z }.

Definition split_msg : string := "The number of rows in the input array is not evenly divisible by split_num".
Definition row_type_msg : string := "return type must be a row type".

Definition split_part (data : buf float4) (rows_per_subarray ncols sub_size i : Z) (parts : list (Z * farray))
    : res (list (Z * farray)) :=
  sub ← palloc 8 sub_size;
  sub ← cfor 0 sub_size 1 (λ j sub, v ← bget data (i32 (i * sub_size) + j); bset sub j v) sub;
  resultArray ← construct_md_array (Some f4_zero) sub None 2 [rows_per_subarray; ncols] [1; 1] FLOAT4OID;
  Ok (parts ++ [(i + 1, resultArray)]).

(** The branch of the first call. [composite] is whether the caller expects rows. *)
Definition split_array_init (composite : bool) (input : farray) (split_num : Z) : res FuncCallContext :=
  check composite row_type_msg
  (_ ← (palloc 8 split_num : res (buf float4));
   nrows ← ARR_DIM input 0;
   ncols ← ARR_DIM input 1;
   rows_per_subarray ← idiv nrows split_num;
   rem ← imod nrows split_num;
   check (rem =? 0) split_msg
   (let sub_size := i32 (rows_per_subarray * ncols) in
    parts ← cfor 0 split_num 1 (split_part (arr_data input) rows_per_subarray ncols sub_size) [];
    Ok (mkCtx parts 0 split_num))).

(** One call: the next row, or [None] when there are no more. *)
Definition split_array (composite : bool) (input : farray) (split_num : Z) (fctx : option FuncCallContext)
    : res (option (Z * farray) * FuncCallContext) :=
  ctx ← (match fctx with None => split_array_init composite input split_num | Some ctx => Ok ctx end);
  if call_cntr ctx <? max_calls ctx then
    r ← lget (user_fctx ctx) (call_cntr ctx);
    Ok (Some r, mkCtx (user_fctx ctx) (call_cntr ctx + 1) (max_calls ctx))
  else Ok (None, ctx).

(** The executor calls the function until it is done. *)
Fixpoint run_srf (fuel : nat) (composite : bool) (input : farray) (split_num : Z) (fctx : option FuncCallContext)
    : res (list (Z * farray)) :=
  match fuel with
  | O => Stuck NoProgress
  | S fuel =>
      '(row, ctx) ← split_array composite input split_num fctx;
      match row with
      | None => Ok []
      | Some r => rs ← run_srf fuel composite input split_num (Some ctx); Ok (r :: rs)
      end
  end.

(** ** split_vertical_array *)

Definition record_msg : string := "function returning record called in context that cannot accept type record".

(** The tuple that is returned: a column is [None] where [nulls] is set. *)
Definition split_vertical_array (composite : bool) (input : farray) (split_num : Z) : res (list (option farray)) :=
  '(res_elements, nulls) ← cfor 0 split_num 1 (λ i '(els, nulls),
      els ← lset els i (Some input);
      nulls ← lset nulls i false;
      Ok (els, nulls)) (replicate 4 None, replicate 4 true);
  check composite record_msg
    (Ok (zip_with (λ (e : option farray) (isnull : bool), if isnull then None else e) res_elements nulls)).

(** ** batchnorm *)

(** [((x - mean) / sqrt(var)) + bias]: [sqrt] and what follows are in double
    precision, because [sqrt] takes and returns a [double]. *)
Definition bn_value (x mean var bias : float4) : float4 :=
  demote (f8_add (f8_div (promote (f4_sub x mean)) (f8_sqrt (promote var))) (promote bias)).

Definition batchnorm (input_arr args_arr : farray) : res farray :=
  channel ← ARR_DIM input_arr 0;
  nelems_channel ← ARR_DIM input_arr 1;
  let size := i32 (channel * nelems_channel) in
  res_data ← palloc 4 size;
  '(res_data, _) ← cfor 0 channel 1 (λ c '(res_data, offset),
    _ ← bget (arr_data args_arr) c;
    bias ← bget (arr_data args_arr) (i32 (channel + c));
    mean ← bget (arr_data args_arr) (i32 (i32 (2 * channel) + c));
    var ← bget (arr_data args_arr) (i32 (i32 (3 * channel) + c));
    res_data ← cfor offset (i32 (offset + nelems_channel)) 1 (λ i res_data,
       x ← bget (arr_data input_arr) i;
       bset res_data i (bn_value x mean var bias)) res_data;
    Ok (res_data, i32 (offset + nelems_channel))) (res_data, 0);
  float4construct_md_array res_data size 2 [channel; nelems_channel] [1; 1] FLOAT4OID.

(** ** batchnorm *)

Section normalisation.
  Context (c n : Z) (f g : Z → float4).

(** [batchnorm] normalises every channel.  With the vector of the [c] scales,
    biases, means and variances of the channels, item [j] of channel [j / n] becomes
    [(x - mean) / sqrt var + bias], in double precision and rounded once; the scales
    play no part in the result. *)
Theorem batchnorm_correct a la :
  0 < c → 0 < n → 4 * (c * n) + 32 <= MaxAllocSize → 4 * c <= int_max → 4 * c <= la → arr_data a = tabulate g la →
  batchnorm (matrix c n (tabulate f (c * n))) a
  = Ok (matrix c n (tabulate (λ j, bn_value (f j) (g (2 * c + j / n)) (g (3 * c + j / n)) (g (c + j / n))) (c * n))).
Proof.
  intros Hc Hn Hmax Hc4 Hla Ha. unfold batchnorm. rewrite Ha. unfold MaxAllocSize in Hmax.
  change (ARR_DIM (matrix c n (tabulate f (c * n))) 0) with (Ok c).
  change (ARR_DIM (matrix c n (tabulate f (c * n))) 1) with (Ok n). cbn [mbind res_bind].
  assert (0 < c * n) by nia. rewrite (i32_id (c * n)) by int_solve.
  rewrite palloc_ok by (unfold MaxAllocSize; lia). cbn [mbind res_bind].
  set (spec := λ j, bn_value (f j) (g (2 * c + j / n)) (g (3 * c + j / n)) (g (c + j / n))).
  rewrite (cfor_fill spec c _ _ 0 n); [|int_solve|lia|].
  - cbn [mbind res_bind]. pose proof (zlen_replicate (c * n) (@None float4) ltac:(lia)) as Hl.
    rewrite <-Hl at 1. rewrite fill_all, Hl. rewrite float4construct_md_array_2d; [|rewrite zlen_tabulate; lia|unfold MaxAllocSize; lia].
    by rewrite take_tabulate.
  - intros i b Hi Hb. rewrite zlen_replicate in Hb by lia.
    assert (0 <= i * n ∧ i * n + n <= c * n) as [Hin Hin'] by nia.
    rewrite !(i32_id (_ * c)), !i32_id by int_solve. rewrite !bget_tabulate by lia. cbn [mbind res_bind]. rewrite Z.add_0_l.
    rewrite (cfor_cells (λ j _, Some (spec j)) (i * n) (i * n + n)); [|lia|int_solve|].
    + cbn [mbind res_bind]. unfold fill. do 3 f_equal. lia.
    + intros j b' Hj ->. cbn [arr_data matrix]. rewrite bget_tabulate by lia. cbn [mbind res_bind].
      replace (bn_value _ _ _ _) with (spec j); [apply bset_fill; rewrite zlen_upd; lia|]. unfold spec.
      by replace (j / n) with i by (apply (Z.div_unique_pos _ _ _ (j - i * n)); lia).
Qed.
End normalisation.

(** ** Splitting *)

Section splitting.
  Context (f : Z → float4) (k r w : Z).
  Context (Hk : 0 < k) (Hr : 0 < r) (Hw : 0 < w) (Hsize : k * (r * w) <= 134217727).

(** Block [i] of [r] rows. *)
Definition part (i : Z) : Z * farray := (i + 1, matrix r w (tabulate (λ j, f (i * (r * w) + j)) (r * w))).
Definition parts : list (Z * farray) := part <$> seqZ 0 k.
Abbreviation input := (matrix (k * r) w (tabulate f (k * (r * w)))).

Lemma split_part_ok i ps :
  0 <= i < k → split_part (tabulate f (k * (r * w))) r w (r * w) i ps = Ok (ps ++ [part i]).
Proof.
  intros Hi. unfold split_part. assert (0 < r * w <= k * (r * w)) as Hs by nia.
  assert (0 <= i * (r * w) ∧ i * (r * w) + r * w <= k * (r * w)) as [Hi0 Hi1] by nia.
  rewrite palloc_ok by (unfold MaxAllocSize; lia). cbn [mbind res_bind].
  set (spec := λ j, f (i * (r * w) + j)).
  rewrite (cfor_cells (λ j _, Some (spec j)) 0 (r * w)); [|lia|unfold int_max; lia|].
  - cbn [mbind res_bind]. rewrite Z.sub_0_r. pose proof (zlen_replicate (r * w) (@None float4) ltac:(lia)) as Hl.
    pose proof (fill_all spec (replicate (Z.to_nat (r * w)) None)) as Hf. rewrite Hl in Hf. unfold fill in Hf. rewrite Hf.
    pose proof (construct_md_array_ok (Some f4_zero) (tabulate spec (r * w)) [r; w] [1; 1] FLOAT4OID) as Hm.
    replace (product [r; w]) with (r * w) in Hm by (unfold product; simpl; lia).
    change (zlen [r; w]) with 2 in Hm. change MaxArraySize with 134217727 in Hm. assert (r <= 134217727 ∧ w <= 134217727) as [? ?] by nia.
    rewrite Hm; try done; [|repeat constructor; lia|lia|rewrite zlen_tabulate; lia|].
    + cbn [mbind res_bind]. rewrite take_tabulate. done.
    + intros [|[|?]] d b; simpl; intros [= <-] [= <-]; int_solve.
  - intros j b Hj ->. rewrite (i32_id (i * (r * w))) by int_solve. rewrite bget_tabulate by lia. cbn [mbind res_bind].
    apply (bset_fill spec). rewrite zlen_upd, zlen_replicate; lia.
Qed.

Lemma split_array_init_ok : split_array_init true input k = Ok (mkCtx parts 0 k).
Proof.
  unfold split_array_init. rewrite check_true by done. assert (k <= 134217727 ∧ 0 < r * w) as [? ?] by nia.
  rewrite palloc_ok by (unfold MaxAllocSize; lia). cbn [mbind res_bind].
  change (ARR_DIM input 0) with (Ok (k * r)). change (ARR_DIM input 1) with (Ok w). cbn [mbind res_bind].
  rewrite idiv_pos, imod_pos by nia. cbn [mbind res_bind].
  rewrite (Z.mul_comm k r), Z.mod_mul, Z.div_mul by lia. rewrite check_true by done. rewrite i32_id by (unfold is_int, int_min, int_max; nia).
  cbn [arr_data matrix].
  pose proof (cfor_states (λ n, part <$> seqZ 0 n) 0 k 1 (split_part (tabulate f (k * (r * w))) r w (r * w))) as Hst.
  cbv beta in Hst. rewrite trips_unit, Z.sub_0_r in Hst by lia. change (part <$> seqZ 0 0) with (@nil (Z * farray)) in Hst.
  rewrite Hst; [done|lia|int_solve|unfold int_max; lia|]. intros n Hn. rewrite Z.add_0_l, Z.mul_1_r, split_part_ok by done.
  rewrite seqZ_app by lia. by rewrite fmap_app.
Qed.

Lemma parts_lget i : 0 <= i < k → lget parts i = Ok (part i).
Proof. apply lget_table. Qed.

Lemma run_srf_from i fuel :
  0 <= i <= k → (Z.to_nat (k - i) < fuel)%nat →
  run_srf fuel true input k (Some (mkCtx parts i k)) = Ok (drop (Z.to_nat i) parts).
Proof.
  revert i. induction fuel as [|fuel IH]; intros i Hi Hf; [lia|]. cbn [run_srf]. unfold split_array. cbn [mbind res_bind call_cntr max_calls].
  assert (length parts = Z.to_nat k) as Hlen by (unfold parts; by rewrite length_fmap, length_seqZ).
  destruct (Z.ltb_spec i k) as [Hlt|Hge].
  - simpl user_fctx. rewrite parts_lget by lia. cbn [mbind res_bind]. rewrite IH by lia. cbn [mbind res_bind].
    pose proof (parts_lget i ltac:(lia)) as Hg. apply lget_Ok in Hg as [_ Hg].
    rewrite (drop_S _ _ _ Hg). do 3 f_equal. lia.
  - rewrite drop_ge by lia. done.
Qed.

(** The rows the function returns, in order, with [k + 1] calls. *)
Lemma run_srf_ok : run_srf (S (Z.to_nat k)) true input k None = Ok parts.
Proof.
  pose proof (run_srf_from 0 (S (Z.to_nat k)) ltac:(lia) ltac:(lia)) as Hrun. cbn [run_srf] in *.
  unfold split_array in *. by rewrite split_array_init_ok.
Qed.
End splitting.

(** ** Concatenation *)

(** The items a block contributes. *)
Definition in_items (i : concat_input) : buf float4 :=
  take (Z.to_nat (in_channels i * in_nelems i)) (drop (Z.to_nat (in_start i)) (in_data i)).
Definition in_ok (w : Z) (i : concat_input) : Prop :=
  in_nelems i = w ∧ 0 <= in_channels i ∧ 0 <= in_start i ∧ in_start i + in_channels i * w <= zlen (in_data i).
Definition channels_of (ins : list concat_input) : Z := foldr (λ i n, in_channels i + n) 0 ins.

Lemma channels_of_app l1 l2 : channels_of (l1 ++ l2) = channels_of l1 + channels_of l2.
Proof.
  unfold channels_of. induction l1 as [|i l1 IH]; [done|]. simpl. lia.
Qed.
Lemma channels_of_nonneg w ins : Forall (in_ok w) ins → 0 <= channels_of ins.
Proof. unfold channels_of. induction 1 as [|i l [_ [Hi _]] _ IH]; simpl; lia. Qed.

Lemma zlen_in_items w i : 0 <= w → in_ok w i → zlen (in_items i) = in_channels i * w.
Proof.
  intros Hw (Hn & Hc & Hs & Hf). unfold in_items, zlen in *. rewrite Hn, length_take, length_drop. nia.
Qed.

Lemma concat_copy_ok w ins (filled rest : buf float4) :
  0 <= w → Forall (in_ok w) ins → zlen filled + channels_of ins * w <= int_max → channels_of ins * w = zlen rest →
  foldM concat_copy ins (filled ++ rest, zlen filled)
  = Ok (filled ++ flat_map in_items ins, zlen filled + channels_of ins * w).
Proof.
  intros Hw Hall. revert filled rest. induction Hall as [|i ins Hi Hall IH]; intros filled rest Hmax Hrest.
  { change (channels_of []) with 0 in *. simpl. rewrite Z.mul_0_l, Z.add_0_r in *.
    destruct rest; [done|]. unfold zlen in Hrest. simpl in Hrest. lia. }
  change (channels_of (i :: ins)) with (in_channels i + channels_of ins) in *. rewrite Z.mul_add_distr_r in *.
  pose proof (channels_of_nonneg w ins Hall). assert (0 <= channels_of ins * w) by nia.
  pose proof (zlen_in_items w i Hw Hi) as Hlen. destruct Hi as (Hn & Hc & Hs & Hf). assert (0 <= in_channels i * w) by nia.
  pose proof (zlen_nonneg filled). cbn [foldM concat_copy]. rewrite Hn.
  assert (zlen (filled ++ rest) = zlen filled + zlen rest) as Happ by (unfold zlen; rewrite length_app; lia).
  unfold lcopy. rewrite require_true by lia. cbn [mbind res_bind].
  rewrite (i32_id (in_channels i * w)), i32_id by int_solve.
  assert (take (Z.to_nat (zlen filled)) (filled ++ rest) = filled) as -> by (unfold zlen; by rewrite Nat2Z.id, take_app_length).
  assert (drop (Z.to_nat (zlen filled + in_channels i * w)) (filled ++ rest) = drop (Z.to_nat (in_channels i * w)) rest) as ->.
  { rewrite drop_app_ge by (unfold zlen in *; lia). f_equal. unfold zlen. lia. }
  fold (in_items i). rewrite app_assoc. unfold in_items at 1. rewrite <-Hn at 1. fold (in_items i).
  replace (zlen filled + in_channels i * w) with (zlen (filled ++ in_items i)) by (unfold zlen in *; rewrite length_app; lia).
  rewrite IH.
  - simpl. rewrite <-app_assoc. f_equal. f_equal. unfold zlen in *. rewrite length_app. lia.
  - unfold zlen in *. rewrite length_app. lia.
  - unfold zlen in *. rewrite length_drop. lia.
Qed.

(** The range of channels [s + 1] to [e], as a user writes it. *)
Definition range_array (s e : Z) : ArrayType Z := mkArrayType 1 0 INT4OID [2] [1] [] [s + 1; e].

Section concatenation.
  Context (w : Z) (Hw : 0 < w) (args : list (option nat)).

(** The arguments are matrices of [w] columns with these numbers of rows and data. *)
Definition given (store : list farray) (first : nat) (mats : list (Z * buf float4)) : Prop :=
  ∀ i c d, mats !! i = Some (c, d) →
    ∃ r, args !! (first + i)%nat = Some (Some r) ∧ store !! r = Some (matrix c w d).
Definition sized (m : Z * buf float4) : Prop := 0 <= m.1 ∧ zlen m.2 = m.1 * w.
Definition whole (m : Z * buf float4) : concat_input := mkInput m.2 0 m.1 w.

Lemma whole_ok mats : Forall sized mats → Forall (in_ok w) (whole <$> mats).
Proof. intros Hall. apply Forall_fmap. eapply Forall_impl; [exact Hall|]. intros [c d] [Hc Hd]. simpl in *. split_and!; simpl; lia. Qed.

Lemma whole_items mats : Forall sized mats → flat_map in_items (whole <$> mats) = flat_map snd mats.
Proof.
  induction 1 as [|[c d] mats [Hc Hd] _ IH]; [done|]. rewrite fmap_cons. cbn [flat_map]. rewrite IH. f_equal.
  unfold in_items. simpl in *. rewrite drop_0. apply take_ge. unfold zlen in Hd. lia.
Qed.

(** Reading an argument that is not cut down. *)
Lemma concat_read_whole store offset (i : nat) r c d ins tot :
  (offset = None ∨ i ≠ O) → (i < 6)%nat → args !! i = Some (Some r) → store !! r = Some (matrix c w d) → is_int (tot + c) →
  concat_read args offset i (store, ins, tot) = Ok (store, ins ++ [whole (c, d)], tot + c).
Proof.
  intros Ho Hi6 Hi Hs Hint. unfold concat_read, concat_arg. replace (Z.of_nat i =? 6) with false by lia.
  rewrite (lget_lookup args i (Some r)) by (lia || by rewrite Nat2Z.id). cbn [mbind res_bind]. rewrite Hs. cbn [mbind res_bind].
  assert ((if Z.of_nat i =? 0 then offset else None) = None) as ->.
  { destruct Ho as [-> | Hne]; [by destruct (Z.of_nat i =? 0)|]. by replace (Z.of_nat i =? 0) with false by lia. }
  cbn [mbind res_bind]. change (ARR_DIM (matrix c w d) 0) with (Ok c). change (ARR_DIM (matrix c w d) 1) with (Ok w).
  cbn [mbind res_bind]. by rewrite i32_id.
Qed.

Lemma concat_read_rest store offset (k : nat) mats ins tot :
  given store k mats → (k ≠ O ∨ offset = None) → (k + length mats <= 6)%nat → Forall sized mats →
  0 <= tot → tot + channels_of (whole <$> mats) <= int_max →
  cfor k (k + zlen mats) 1 (concat_read args offset) (store, ins, tot)
  = Ok (store, ins ++ (whole <$> mats), tot + channels_of (whole <$> mats)).
Proof.
  intros Hg Hk Hlen Hall Htot Hmax.
  pose proof (cfor_states (λ n, (store, ins ++ (whole <$> take (Z.to_nat n) mats), tot + channels_of (whole <$> take (Z.to_nat n) mats)))
    k (k + zlen mats) 1 (concat_read args offset)) as Hst. cbv beta in Hst.
  pose proof (zlen_nonneg mats). rewrite trips_unit in Hst by lia. replace (k + zlen mats - k) with (zlen mats) in Hst by lia.
  change (take (Z.to_nat 0) mats) with (@nil (Z * buf float4)) in Hst. change (channels_of (whole <$> [])) with 0 in Hst.
  change (whole <$> []) with (@nil concat_input) in Hst. rewrite app_nil_r, Z.add_0_r in Hst.
  unfold zlen in Hst at 3 4 5. rewrite Nat2Z.id, firstn_all in Hst. apply Hst; [lia|unfold zlen in *; int_solve|unfold zlen, int_max in *; lia|].
  clear Hst. intros n Hn. rewrite Z.mul_1_r. destruct (lookup_lt_is_Some_2 mats (Z.to_nat n)) as [[c d] Hm]; [unfold zlen in *; lia|].
  destruct (Hg _ _ _ Hm) as (r & Hr & Hs). pose proof (take_S_r _ _ _ Hm) as Hts.
  replace (Z.to_nat (n + 1)) with (S (Z.to_nat n)) by lia. rewrite Hts, fmap_app, channels_of_app.
  assert (channels_of (whole <$> take (Z.to_nat n) mats) + c <= channels_of (whole <$> mats)) as Hle.
  { rewrite <-(take_drop (S (Z.to_nat n)) mats) at 2. rewrite Hts, !fmap_app, !channels_of_app. simpl.
    pose proof (channels_of_nonneg w (whole <$> drop (S (Z.to_nat n)) mats) ltac:(apply whole_ok; by apply Forall_drop)). lia. }
  pose proof (channels_of_nonneg w (whole <$> take (Z.to_nat n) mats) ltac:(apply whole_ok; by apply Forall_take)).
  assert (0 <= c) by (by apply (Forall_lookup_1 _ _ _ _ Hall Hm)).
  replace (k + n) with (Z.of_nat (k + Z.to_nat n)) by lia.
  rewrite (concat_read_whole store offset _ r c d); [|destruct Hk; [right; lia|by left]|unfold zlen in *; lia|done|done|int_solve].
  rewrite <-app_assoc. do 2 f_equal. simpl. lia.
Qed.

(** The first argument, cut down to channels [s] to [e]. *)
Definition cut_store (store : list farray) (offset : option (ArrayType Z)) (r0 : nat) (c0 : Z) (d0 : buf float4) (s e : Z)
    : list farray :=
  match offset with None => store | Some _ => <[r0 := set_dims (matrix c0 w d0) [e - s; w]]> store end.
Definition cut_ok (offset : option (ArrayType Z)) (c0 s e : Z) : Prop :=
  match offset with
  | None => s = 0 ∧ e = c0
  | Some o => o = range_array s e ∧ 0 <= s <= e ∧ e <= c0
  end.

Lemma concat_read_first store offset r0 c0 d0 s e tl :
  args = Some r0 :: tl → store !! r0 = Some (matrix c0 w d0) → sized (c0, d0) → cut_ok offset c0 s e → c0 * w <= int_max →
  concat_read args offset 0 (store, [], 0)
  = Ok (cut_store store offset r0 c0 d0 s e, [mkInput d0 (s * w) (e - s) w], e - s) ∧ in_ok w (mkInput d0 (s * w) (e - s) w).
Proof.
  intros Hargs Hr0 [Hc Hd] Hcut Hmax. simpl in Hc, Hd. assert (c0 <= int_max) by nia.
  destruct offset as [o|]; simpl in Hcut.
  - destruct Hcut as (-> & Hse & Hec). assert (0 <= s * w <= c0 * w ∧ s * w + (e - s) * w <= c0 * w) as [? ?] by nia.
    split; [|split_and!; simpl; lia]. unfold concat_read, concat_arg. rewrite Hargs. simpl (0 =? 6). cbv iota.
    change (lget (Some r0 :: tl) 0) with (Ok (Some r0)). cbn [mbind res_bind]. rewrite Hr0. cbn [mbind res_bind].
    simpl (if 0 =? 0 then _ else _). unfold concat_offset. cbn [arr_data range_array].
    change (lget [s + 1; e] 0) with (Ok (s + 1)). change (lget [s + 1; e] 1) with (Ok e). cbn [mbind res_bind].
    rewrite (i32_id (s + 1 - 1)), (i32_id (e - (s + 1 - 1))) by int_solve.
    replace (e - (s + 1 - 1)) with (e - s) by lia. replace (s + 1 - 1) with s by lia.
    change (lset (arr_dims (matrix c0 w d0)) 0 (e - s)) with (Ok [e - s; w]). cbn [mbind res_bind].
    change (ARR_DIM (set_dims (matrix c0 w d0) [e - s; w]) 1) with (Ok w). cbn [mbind res_bind].
    change (ARR_DIM (set_dims (matrix c0 w d0) [e - s; w]) 1) with (Ok w).
    change (ARR_DIM (set_dims (matrix c0 w d0) [e - s; w]) 0) with (Ok (e - s)). cbn [mbind res_bind].
    rewrite (i32_id (s * w)), Z.add_0_l, (i32_id (e - s)) by int_solve. done.
  - destruct Hcut as [-> ->]. split; [|split_and!; simpl; lia].
    pose proof (concat_read_whole store None 0 r0 c0 d0 [] 0 ltac:(by left) ltac:(lia)) as Hread.
    rewrite Hargs in *. rewrite Z.sub_0_r. apply Hread; [done|done|int_solve].
Qed.

Lemma concat_array_ok store offset r0 c0 d0 s e mats tl :
  args = Some r0 :: tl → store !! r0 = Some (matrix c0 w d0) → sized (c0, d0) → cut_ok offset c0 s e →
  given (cut_store store offset r0 c0 d0 s e) 1 mats → Forall sized mats → zlen mats <= 5 →
  c0 * w <= int_max → 4 * ((e - s + channels_of (whole <$> mats)) * w) + 32 <= MaxAllocSize →
  concat_array store (1 + zlen mats) args offset
  = Ok (matrix (e - s + channels_of (whole <$> mats)) w
          (take (Z.to_nat ((e - s) * w)) (drop (Z.to_nat (s * w)) d0) ++ flat_map snd mats),
        cut_store store offset r0 c0 d0 s e).
Proof.
  intros Hargs Hr0 Hd0 Hcut Hg Hall Hlen Hc0 Hmax. pose proof (zlen_nonneg mats). unfold MaxAllocSize in Hmax.
  pose proof (whole_ok mats Hall) as Hwh. pose proof (channels_of_nonneg w _ Hwh).
  destruct (concat_read_first store offset r0 c0 d0 s e tl Hargs Hr0 Hd0 Hcut Hc0) as [Hfirst Hin].
  pose proof Hin as (_ & Hes & Hsw & Hfit). cbn [in_channels in_start in_data in_nelems] in *.
  set (tot := e - s + channels_of (whole <$> mats)) in *. assert (0 <= tot <= tot * w) as Htot by nia.
  unfold concat_array. rewrite require_true by lia. rewrite cfor_first by (lia || int_solve). rewrite Hfirst. cbn [mbind res_bind].
  pose proof (concat_read_rest (cut_store store offset r0 c0 d0 s e) offset 1 mats [mkInput d0 (s * w) (e - s) w] (e - s)) as Hrest.
  change (Z.of_nat 1) with 1 in Hrest. rewrite Z.add_0_l.
  rewrite Hrest; [|done|by left|unfold zlen in *; lia|done|lia|unfold int_max; lia]. cbn [mbind res_bind app].
  change (lget (mkInput d0 (s * w) (e - s) w :: (whole <$> mats)) 0) with (Ok (mkInput d0 (s * w) (e - s) w)).
  cbn [mbind res_bind in_nelems]. fold tot. rewrite i32_id by int_solve.
  rewrite float4construct_md_array_ncpy_2d by (unfold MaxAllocSize; lia). cbn [mbind res_bind].
  pose proof (concat_copy_ok w (mkInput d0 (s * w) (e - s) w :: (whole <$> mats)) [] (tabulate (λ _, f4_zero) (tot * w))) as Hcopy.
  change (channels_of (mkInput d0 (s * w) (e - s) w :: (whole <$> mats))) with tot in Hcopy.
  change (zlen (@nil (option float4))) with 0 in Hcopy. simpl app in Hcopy. cbn [arr_data matrix].
  rewrite Hcopy; [|lia|by constructor|unfold int_max; lia|rewrite zlen_tabulate; lia]. cbn [mbind res_bind].
  unfold set_data. simpl. by rewrite whole_items.
Qed.
End concatenation.

Lemma tabulate_app {E} (f : Z → E) a b :
  0 <= a → 0 <= b → tabulate f (a + b) = tabulate f a ++ tabulate (λ j, f (a + j)) b.
Proof.
  intros Ha Hb. unfold tabulate. rewrite seqZ_app, fmap_app by lia. f_equal.
  rewrite Z.add_0_l. replace (seqZ a b) with ((λ j, a + j) <$> seqZ 0 b) by (rewrite fmap_add_seqZ; f_equal; lia).
  by rewrite <-list_fmap_compose.
Qed.

(** The blocks in order are the whole. *)
Lemma parts_data (f : Z → float4) r w (n : nat) :
  0 <= r * w →
  flat_map snd ((λ i, (r, tabulate (λ j, f (i * (r * w) + j)) (r * w))) <$> seqZ 0 n) = tabulate f (n * (r * w)).
Proof.
  intros Hs. induction n as [|n IH]; [done|]. rewrite Nat2Z.inj_succ, <-Z.add_1_r, seqZ_app by lia.
  rewrite fmap_app, flat_map_app, IH, Z.mul_add_distr_r, Z.mul_1_l, tabulate_app by lia. simpl. by rewrite app_nil_r, Z.add_0_l.
Qed.

Lemma parts_channels w r (n : nat) (g : Z → buf float4) i0 :
  channels_of (whole w <$> ((λ i, (r, g i)) <$> seqZ i0 n)) = n * r.
Proof.
  revert i0. induction n as [|n IH]; intros i0; [done|]. rewrite Nat2Z.inj_succ, seqZ_cons by lia.
  rewrite !fmap_cons. cbn [channels_of foldr whole in_channels fst]. rewrite Z.pred_succ. fold (channels_of (whole w <$> ((λ i, (r, g i)) <$> seqZ (Z.succ i0) n))).
  rewrite IH. simpl. lia.
Qed.

(** C29: splitting and concatenating are inverse.  Cutting a matrix of [k * r] rows
    into [k] blocks (with [k + 1] calls of the set-returning function) and
    concatenating the blocks gives the matrix back. *)
Theorem split_then_concat (f : Z → float4) k r w :
  0 < k <= 6 → 0 < r → 0 < w → k * (r * w) <= 134217727 →
  let input := matrix (k * r) w (tabulate f (k * (r * w))) in
  ∃ rows, run_srf (S (Z.to_nat k)) true input k None = Ok rows
    ∧ rows.*1 = seqZ 1 k
    ∧ concat_array rows.*2 k ((Some <$> seq 0 (Z.to_nat k)) ++ replicate (6 - Z.to_nat k) None) None = Ok (input, rows.*2).
Proof.
  intros Hk Hr Hw Hsize input. exists (parts f k r w). split; [by apply run_srf_ok; try lia|].
  split.
  { unfold parts. rewrite <-list_fmap_compose. replace (seqZ 1 k) with ((λ i, i + 1) <$> seqZ 0 k); [done|].
    rewrite (list_fmap_ext _ (Z.add 1)) by (intros; lia). by rewrite fmap_add_seqZ. }
  set (g := λ i, tabulate (λ j, f (i * (r * w) + j)) (r * w)). set (mats := (λ i, (r, g i)) <$> seqZ 1 (k - 1)).
  assert (0 < r * w <= k * (r * w)) as Hrw by nia. assert (zlen mats = k - 1) as Hml.
  { unfold mats, zlen. rewrite length_fmap, length_seqZ. lia. }
  replace (Z.to_nat k) with (S (Z.to_nat (k - 1))) by lia. cbn [seq]. rewrite fmap_cons, <-app_comm_cons.
  assert (∀ i, 0 <= i < k → (parts f k r w).*2 !! Z.to_nat i = Some (matrix r w (g i))) as Hstore.
  { intros i Hi. unfold parts. rewrite !list_lookup_fmap, lookup_seqZ_lt by lia. simpl. by rewrite Z2Nat.id by lia. }
  pose proof (concat_array_ok w Hw (Some 0%nat :: (Some <$> seq 1 (Z.to_nat (k - 1))) ++ replicate (6 - S (Z.to_nat (k - 1))) None)
    (parts f k r w).*2 None 0 r (g 0) 0 r mats _ eq_refl (Hstore 0 ltac:(lia))) as Hc.
  rewrite Hml in Hc. replace (1 + (k - 1)) with k in Hc by lia.
  assert (channels_of (whole w <$> mats) = (k - 1) * r) as Hch.
  { unfold mats. rewrite <-(Z2Nat.id (k - 1)) by lia. apply parts_channels. }
  assert (take (Z.to_nat ((r - 0) * w)) (drop (Z.to_nat (0 * w)) (g 0)) ++ flat_map snd mats = tabulate f (k * (r * w))) as Hdata.
  { rewrite <-(Z2Nat.id k) by lia. rewrite <-parts_data by lia. rewrite Z2Nat.id by lia.
    assert (seqZ 0 k = 0 :: seqZ 1 (k - 1)) as -> by (rewrite seqZ_cons by lia; done).
    rewrite fmap_cons. cbn [flat_map snd]. f_equal. rewrite Z.mul_0_l, Z.sub_0_r. apply take_tabulate. }
  rewrite Hch, Hdata in Hc. replace (r - 0 + (k - 1) * r) with (k * r) in Hc by lia. apply Hc; clear Hc.
  - split; [simpl; lia|]. simpl. unfold g. rewrite zlen_tabulate; lia.
  - done.
  - intros i c d Hi. unfold mats in Hi. rewrite list_lookup_fmap in Hi. apply fmap_Some in Hi as (j & [-> Hj]%lookup_seqZ & [= -> ->]).
    exists (S i). split; [|simpl; rewrite <-(Hstore (1 + i)) by lia; f_equal; lia].
    simpl. rewrite lookup_app_l by (rewrite length_fmap, length_seq; lia).
    rewrite list_lookup_fmap, lookup_seq_lt by lia. done.
  - unfold mats. apply Forall_fmap, Forall_true. intros i. split; [simpl; lia|]. simpl. unfold g. rewrite zlen_tabulate; lia.
  - lia.
  - unfold int_max. nia.
  - unfold MaxAllocSize. nia.
Qed.

Lemma split_then_concat_witness :
  let input := matrix (2 * 1) 1 (tabulate f4_of_Z (2 * (1 * 1))) in
  0 < 2 <= 6 ∧
  ∃ rows, run_srf (S (Z.to_nat 2)) true input 2 None = Ok rows
    ∧ rows.*1 = seqZ 1 2
    ∧ concat_array rows.*2 2 ((Some <$> seq 0 (Z.to_nat 2)) ++ replicate (6 - Z.to_nat 2) None) None = Ok (input, rows.*2).
Proof. intros input. split; [lia|]. apply (split_then_concat f4_of_Z 2 1 1); lia. Defined.

(** [concat_array] stacks matrices.  With matrices of [w] columns in its first
    arguments, the result is the matrix of all their rows in order; given a range
    of channels it takes only these of the first matrix, whose dimensions it
    overwrites, and all of the others, provided none of them is the same array. *)
Theorem concat_array_correct store args offset w r0 c0 d0 s e mats tl :
  0 < w → args = Some r0 :: tl → store !! r0 = Some (matrix c0 w d0) → sized w (c0, d0) → cut_ok offset c0 s e →
  given w args store 1 mats → (∀ i, args !! S i ≠ Some (Some r0)) → Forall (sized w) mats → zlen mats <= 5 →
  c0 * w <= int_max → 4 * ((e - s + channels_of (whole w <$> mats)) * w) + 32 <= MaxAllocSize →
  concat_array store (1 + zlen mats) args offset
  = Ok (matrix (e - s + channels_of (whole w <$> mats)) w
          (take (Z.to_nat ((e - s) * w)) (drop (Z.to_nat (s * w)) d0) ++ flat_map snd mats),
        cut_store w store offset r0 c0 d0 s e).
Proof.
  intros Hw Hargs Hr0 Hd0 Hcut Hg Hne Hall Hlen Hc0 Hmax. eapply concat_array_ok; try done.
  intros i c d Hi. destruct (Hg i c d Hi) as (r & Hr & Hs). exists r. split; [done|].
  unfold cut_store. destruct offset; [|done]. rewrite list_lookup_insert_ne; [done|]. intros ->. by apply (Hne i).
Qed.

(** Two rows of which only the second is taken, followed by another matrix. *)
Lemma concat_array_correct_witness :
  let m1 := matrix 2 1 (tabulate f4_of_Z 2) in let m2 := matrix 1 1 (tabulate (λ _, f4_of_Z 7) 1) in
  let args := [Some 0%nat; Some 1%nat; None; None; None; None] in
  cut_ok (Some (range_array 1 2)) 2 1 2 ∧
  concat_array [m1; m2] 2 args (Some (range_array 1 2))
  = Ok (matrix 2 1 [Some (f4_of_Z 1); Some (f4_of_Z 7)], [set_dims m1 [1; 1]; m2]).
Proof.
  intros m1 m2 args. assert (cut_ok (Some (range_array 1 2)) 2 1 2) as Hcut by (split; [done|lia]).
  split; [exact Hcut|].
  apply (concat_array_correct [m1; m2] args (Some (range_array 1 2)) 1 0 2 (tabulate f4_of_Z 2) 1 2
           [(1, tabulate (λ _, f4_of_Z 7) 1)] (tail args)); try done.
  - intros [|i] c d Hi; simplify_eq/=. by exists 1%nat.
  - by intros [|[|[|[|[|i]]]]].
  - by repeat constructor.
Defined.

(** One array in two arguments: the second is cut down with the first. *)
Example concat_array_aliased :
  let m := matrix 2 1 (tabulate f4_of_Z 2) in
  concat_array [m] 2 [Some 0%nat; Some 0%nat; None; None; None; None] (Some (range_array 0 1))
  = Ok (matrix 2 1 [Some (f4_of_Z 0); Some (f4_of_Z 0)], [set_dims m [1; 1]]).
Proof. reflexivity. Qed.

(** The vertical split does not split: every column is the whole input. *)
Lemma split_vertical_array_copies input k :
  0 <= k <= 4 →
  split_vertical_array true input k = Ok (replicate (Z.to_nat k) (Some input) ++ replicate (4 - Z.to_nat k) None).
Proof.
  intros Hk. assert (k = 0 ∨ k = 1 ∨ k = 2 ∨ k = 3 ∨ k = 4) as [-> | [-> | [-> | [-> | ->]]]] by lia; reflexivity.
Qed.

(** More than four columns are written past the end of a local array. *)
Lemma split_vertical_array_overflow input composite k :
  4 < k < int_max → split_vertical_array composite input k = Stuck OutOfBounds.
Proof.
  intros Hk. unfold split_vertical_array. set (body := λ i '(els, nulls), _).
  set (st := λ n : nat, (replicate n (Some input) ++ replicate (4 - n) None, replicate n false ++ replicate (4 - n) true)).
  change (replicate 4 None, replicate 4 true) with (st 0%nat).
  do 4 (rewrite cfor_first by (lia || int_solve);
    match goal with |- context [body ?i (st ?n)] => change (body i (st n)) with (Ok (st (S n))) end; cbn [mbind res_bind]).
  rewrite cfor_first by (lia || int_solve). done.
Qed.

(** No blocks: a division by zero. *)
Lemma split_array_zero input nrows ncols :
  ARR_DIM input 0 = Ok nrows → ARR_DIM input 1 = Ok ncols →
  split_array true input 0 None = Stuck ArithTrap.
Proof. intros H0 H1. unfold split_array, split_array_init. simpl. by rewrite H0, H1. Qed.

Lemma batchnorm_correct_witness :
  let g j := f4_of_Z (j + 1) in
  4 * (1 * 2) + 32 <= MaxAllocSize ∧
  batchnorm (matrix 1 2 (tabulate f4_of_Z (1 * 2))) (mkArrayType 1 0 FLOAT4OID [4] [1] [] (tabulate g 4))
  = Ok (matrix 1 2 (tabulate (λ j, bn_value (f4_of_Z j) (g (2 * 1 + j / 2)) (g (3 * 1 + j / 2)) (g (1 + j / 2))) (1 * 2))).
Proof. intros g. split; [done|]. by apply (batchnorm_correct 1 2 f4_of_Z g _ 4). Defined.
