(* ===== verification/Virtual.v ===== *)
(** * Virtual: images as tensors

    [virtual_in] of [virtual.c]: decode a JPEG file, normalise the samples with the
    mean and the deviation of their channel and return a matrix with one row per
    channel.  libjpeg is a parameter: what a file decodes to. *)

From Stdlib Require Import Floats.SpecFloat.
From S2P Require Import Prelude Float4 PgArray.

Open Scope Z_scope.

(** What the decompressor says of an image, and the rows it hands out. *)
Record jpeg_image := mkJpeg {
  output_width : Z; output_height : Z; output_components : Z;
  scanlines : list (list Z)
}.

(** [None]: the file cannot be opened. *)
Class Jpeg := { jpeg_file : string → option jpeg_image }.

(** libjpeg: an image is not empty, and each of its rows has one byte per component
    of every column. *)
Record jpeg_ok (img : jpeg_image) : Prop := {
  jpeg_width : 0 < output_width img; jpeg_height : 0 < output_height img; jpeg_comps : 0 < output_components img;
  jpeg_rows : zlen (scanlines img) = output_height img;
  jpeg_row : ∀ r, r ∈ scanlines img → zlen r = output_width img * output_components img
}.

Definition mean : list float4 := [demote (f8_lit 4914 10000); demote (f8_lit 4822 10000); demote (f8_lit 4465 10000)].
Definition std : list float4 := [demote (f8_lit 2471 10000); demote (f8_lit 2435 10000); demote (f8_lit 2616 10000)].

(** [(x*1.0/255-mean[i])/std[i]], converted to [float4]. *)
Definition normalised (x : Z) (m s : float4) : float4 :=
  demote (f8_div (f8_sub (f8_div (f8_mul (f8_of_Z x) (f8_of_Z 1)) (f8_of_Z 255)) (promote m)) (promote s)).

Definition open_msg : string := "Failed to open JPEG file".
Definition composite_msg : string := "function returning record called in context that cannot accept type record".

(** The loop over the scanlines; [current_row] counts them. *)
Definition read_scanline (row_stride : Z) (row : list Z) (s : buf Z * Z) : res (buf Z * Z) :=
  let '(image_data, current_row) := s in
  d ← lcopy image_data (i32 (current_row * row_stride)) (Some <$> row) 0 (zlen row);
  Ok (d, i32 (current_row + 1)).

Definition virtual_in `{Jpeg} (composite : bool) (file_path : string) : res (string * farray) :=
  match jpeg_file file_path with
  | None => Ereport open_msg
  | Some cinfo =>
      let image_size := i32 (output_width cinfo * output_height cinfo * output_components cinfo) in
      image_data ← palloc 1 image_size;
      let row_stride := i32 (output_width cinfo * output_components cinfo) in
      '(image_data, _) ← foldM (read_scanline row_stride) (scanlines cinfo) (image_data, 0);
      let num_channels := output_components cinfo in
      let num_elements_channel := i32 (u64 image_size / num_channels) in
      elements ← palloc 8 (i32 (num_elements_channel * num_channels));
      elements ← cfor 0 num_channels 1 (λ i elements,
        cfor 0 num_elements_channel 1 (λ j elements,
          x ← bget image_data (i32 (i32 (j * num_channels) + i));
          m ← lget mean i;
          s ← lget std i;
          bset elements (i32 (i * num_elements_channel) + j) (normalised x m s)) elements) elements;
      image_array ← construct_md_array (Some f4_zero) elements None 2 [num_channels; num_elements_channel] [1; 1] FLOAT4OID;
      check composite composite_msg (Ok (file_path, image_array))
  end.

(** ** What it computes *)

Section decode.
  Context (img : jpeg_image) (Himg : jpeg_ok img).
  Abbreviation w := (output_width img).
  Abbreviation h := (output_height img).
  Abbreviation c := (output_components img).
  Context (Hsize : w * h * c <= 134217727).

(** Sample [k] of the image, row by row. *)
Definition sample (k : Z) : Z := default 0 (concat (scanlines img) !! Z.to_nat k).

Lemma zlen_concat_rows (rows : list (list Z)) n :
  (∀ r, r ∈ rows → zlen r = n) → zlen (concat rows) = zlen rows * n.
Proof.
  intros Hr. induction rows as [|r rows IH]; [done|]. unfold zlen in *. simpl concat. rewrite length_app, Nat2Z.inj_add.
  rewrite IH by (intros; apply Hr; by right). rewrite Hr by by left. simpl length. lia.
Qed.

Lemma read_rows rows (filled : buf Z) n st r :
  (∀ r, r ∈ rows → zlen r = st) → 0 <= st → zlen filled = r * st → 0 <= r → zlen rows * st <= n →
  r * st + n <= int_max → r + zlen rows <= int_max →
  foldM (read_scanline st) rows (filled ++ replicate (Z.to_nat n) None, r)
  = Ok (filled ++ (Some <$> concat rows) ++ replicate (Z.to_nat (n - zlen rows * st)) None, r + zlen rows).
Proof.
  revert filled n r. induction rows as [|row rows IH]; intros filled n r Hr Hst Hf Hr0 Hn Hmax Hrm.
  { change (zlen []) with 0. rewrite Z.mul_0_l, Z.sub_0_r, Z.add_0_r. done. }
  assert (zlen (row :: rows) = zlen rows + 1) as Hz by (unfold zlen; simpl; lia). rewrite Hz in *.
  pose proof (zlen_nonneg rows). assert (zlen row = st) as Hrow by (apply Hr; by left).
  assert (0 <= zlen rows * st) by nia. assert (zlen (Some <$> row) = st) as Hs by (unfold zlen in *; by rewrite length_fmap).
  cbn [foldM read_scanline]. rewrite (i32_id (r * st)) by int_nsolve. rewrite Hrow.
  assert (zlen (filled ++ replicate (Z.to_nat n) None) = r * st + n) as Hl.
  { unfold zlen in *. rewrite length_app, length_replicate. lia. }
  unfold lcopy. rewrite require_true by lia. cbn [mbind res_bind]. rewrite (i32_id (r + 1)) by int_solve.
  assert (take (Z.to_nat (r * st)) (filled ++ replicate (Z.to_nat n) None) = filled) as ->.
  { apply take_app_length'. unfold zlen in Hf. lia. }
  assert (drop (Z.to_nat (r * st + st)) (filled ++ replicate (Z.to_nat n) None) = replicate (Z.to_nat (n - st)) None) as ->.
  { rewrite drop_app_ge by (unfold zlen in Hf; lia). rewrite drop_replicate. f_equal. unfold zlen in Hf. lia. }
  rewrite drop_0, take_ge by (unfold zlen in Hs; lia). rewrite app_assoc.
  rewrite IH; [| |done| |lia|lia|lia|lia].
  - simpl concat. rewrite fmap_app, <-!app_assoc.
    replace (n - st - zlen rows * st) with (n - (zlen rows + 1) * st) by lia. by replace (r + 1 + zlen rows) with (r + (zlen rows + 1)) by lia.
  - intros r' Hr'. apply Hr. by right.
  - unfold zlen in *. rewrite length_app, length_fmap. lia.
Qed.

Lemma image_bounds : 0 < w * h ∧ 0 < h * (w * c) ∧ 0 < w * c <= 134217727 ∧ w * h <= 134217727 ∧ h <= 134217727 ∧ c <= 134217727
  ∧ w * h * c = h * (w * c).
Proof. destruct Himg. repeat split; nia. Qed.

Lemma read_image :
  foldM (read_scanline (w * c)) (scanlines img) (replicate (Z.to_nat (w * h * c)) None, 0)
  = Ok (tabulate sample (w * h * c), h).
Proof.
  pose proof image_bounds as (H1 & H2 & H3 & H4 & H5 & H6 & Heq). destruct Himg as [Hw Hh Hc Hrows Hrow].
  pose proof (read_rows (scanlines img) [] (w * h * c) (w * c) 0 Hrow ltac:(nia)) as Hrun. rewrite Hrows in Hrun.
  change ([] ++ replicate (Z.to_nat (w * h * c)) None) with (replicate (Z.to_nat (w * h * c)) (@None Z)) in Hrun.
  rewrite Hrun; [|done|lia|lia|unfold int_max; lia|unfold int_max; lia].
  rewrite <-Heq, Z.sub_diag, Z.add_0_l. simpl. rewrite app_nil_r. do 2 f_equal.
  pose proof (zlen_concat_rows _ _ Hrow) as Hl. rewrite Hrows, <-Heq in Hl.
  apply list_eq. intros j. rewrite list_lookup_fmap. destruct (decide (j < w * h * c)) as [Hj|Hj].
  - rewrite lookup_tabulate by done. unfold sample. rewrite Nat2Z.id.
    destruct (lookup_lt_is_Some_2 (concat (scanlines img)) j) as [x Hx]; [unfold zlen in Hl; lia|]. by rewrite Hx.
  - rewrite !lookup_ge_None_2; [done| |unfold zlen in Hl; lia].
    pose proof (zlen_tabulate sample (w * h * c) ltac:(lia)) as Ht. unfold zlen in Ht. lia.
Qed.

(** Row [i] and column [j] of the tensor. *)
Definition tensor (k : Z) : float4 :=
  let i := k / (w * h) in
  normalised (sample (k mod (w * h) * c + i)) (default f4_zero (mean !! Z.to_nat i)) (default f4_zero (std !! Z.to_nat i)).

Lemma virtual_in_channels (i : Z) (b : buf float4) :
  0 <= i < c → i < 3 → zlen b = c * (w * h) →
  cfor 0 (w * h) 1 (λ j elements,
     x ← bget (tabulate sample (w * h * c)) (i32 (i32 (j * c) + i)); m ← lget mean i; s ← lget std i;
     bset elements (i32 (i * (w * h)) + j) (normalised x m s)) b
  = Ok (fill tensor (i * (w * h)) (w * h) b).
Proof.
  intros Hi Hi3 Hb. pose proof image_bounds as (H1 & _ & _ & H4 & _ & H6 & Heq).
  assert (0 <= i * (w * h) ∧ i * (w * h) + w * h <= c * (w * h)) as [Hlo Hhi] by nia.
  pose proof (cfor_states (λ n, fill tensor (i * (w * h)) n b) 0 (w * h) 1) as Hst. cbv beta in Hst.
  rewrite trips_unit, Z.sub_0_r in Hst by lia. assert (fill tensor (i * (w * h)) 0 b = b) as Hnil by (apply upd_nil; lia). rewrite Hnil in Hst.
  apply Hst; [lia|int_solve|unfold int_max; lia|]. clear Hst. intros j Hj. rewrite Z.mul_1_r, Z.add_0_l.
  assert (0 <= j * c ∧ j * c + c <= w * h * c) as [Hj0 Hj1] by nia.
  rewrite (i32_id (j * c)), (i32_id (j * c + i)), (i32_id (i * (w * h))) by int_solve.
  rewrite bget_tabulate by lia. cbn [mbind res_bind].
  destruct (lget_in_range mean i) as (m & -> & Hm); [unfold mean, zlen; simpl; lia|].
  destruct (lget_in_range std i) as (s & -> & Hs); [unfold std, zlen; simpl; lia|]. cbn [mbind res_bind].
  replace (normalised _ m s) with (tensor (i * (w * h) + j)).
  - rewrite bset_fill by (unfold fill; rewrite zlen_upd; lia). unfold fill. by rewrite upd_app by lia.
  - unfold tensor. rewrite Z.div_add_l, Z.div_small, Z.add_0_r by lia.
    rewrite (Z.add_comm (i * (w * h))), Z.mod_add, Z.mod_small by lia. by rewrite Hm, Hs.
Qed.
End decode.

(** The number of elements per channel. *)
Lemma elements_per_channel n c : 0 < c → 0 <= n * c <= int_max → i32 (u64 (n * c) / c) = n.
Proof.
  intros Hc Hn. unfold u64. rewrite Z.mod_small by (unfold int_max in Hn; lia). rewrite Z.div_mul by lia.
  apply i32_id. split; unfold int_min, int_max in *; nia.
Qed.

(** C31: [virtual_in] turns an image into a tensor.  For an image of at most three
    channels it returns a matrix with a row per channel; column [j] of row [i] is
    sample [i] of pixel [j] (counted row by row), scaled to [0, 1], less the mean
    and divided by the deviation of the channel, in double precision and rounded
    once to [float4]. *)
Theorem virtual_in_correct `{Jpeg} path img :
  jpeg_file path = Some img → jpeg_ok img → output_components img <= 3 →
  output_width img * output_height img * output_components img <= 134217727 →
  virtual_in true path
  = Ok (path, matrix (output_components img) (output_width img * output_height img)
                (tabulate (tensor img) (output_components img * (output_width img * output_height img)))).
Proof.
  intros Hf Himg Hc3 Hsize. unfold virtual_in. rewrite Hf.
  set (w := output_width img) in *. set (h := output_height img) in *. set (c := output_components img) in *.
  pose proof (image_bounds img Himg Hsize) as (H1 & H2 & H3 & H4 & H5 & H6 & Heq). fold w h c in H1, H2, H3, H4, H5, H6, Heq.
  pose proof (jpeg_comps img Himg) as Hc. fold c in Hc. assert (c * (w * h) = w * h * c) as Hcomm by lia.
  rewrite (i32_id (w * h * c)), (i32_id (w * c)) by int_solve. rewrite (palloc_ok 1 (w * h * c)) by (unfold MaxAllocSize; lia). cbn [mbind res_bind].
  pose proof (read_image img Himg Hsize) as Hread. fold w h c in Hread. rewrite Hread. cbn [mbind res_bind].
  rewrite elements_per_channel by (unfold int_max; lia). rewrite (i32_id (w * h * c)) by int_solve.
  rewrite palloc_ok by (unfold MaxAllocSize; lia). cbn [mbind res_bind].
  rewrite (cfor_blocks (tensor img) (w * h) c); [|unfold int_max; lia|lia|].
  - cbn [mbind res_bind]. pose proof (fill_all (tensor img) (replicate (Z.to_nat (w * h * c)) None)) as Hfill.
    rewrite zlen_replicate in Hfill by lia. rewrite Hcomm, Hfill.
    pose proof (construct_md_array_ok (Some f4_zero) (tabulate (tensor img) (w * h * c)) [c; w * h] [1; 1] FLOAT4OID) as Hm.
    replace (product [c; w * h]) with (w * h * c) in Hm by (unfold product; simpl; lia).
    change (zlen [c; w * h]) with 2 in Hm. change MaxArraySize with 134217727 in Hm.
    rewrite Hm; try done; [|by repeat constructor|rewrite zlen_tabulate; lia|].
    + cbn [mbind res_bind]. rewrite take_tabulate. done.
    + intros [|[|?]] d b; simpl; intros [= <-] [= <-]; int_solve.
  - intros i b Hi Hb. rewrite zlen_replicate in Hb by lia.
    apply (virtual_in_channels img Himg Hsize); fold w h c; lia.
Qed.

(** An image with four channels is read past the constants.  [mean] and [std]
    have three elements; the conversion of the fourth channel of a (CMYK) image
    reads a fourth. *)
Theorem virtual_in_four_channels `{Jpeg} path img :
  jpeg_file path = Some img → jpeg_ok img → output_components img = 4 →
  output_width img * output_height img * output_components img <= 134217727 →
  virtual_in true path = Stuck OutOfBounds.
Proof.
  intros Hf Himg Hc4 Hsize. unfold virtual_in. rewrite Hf.
  pose proof (image_bounds img Himg Hsize) as (H1 & H2 & H3 & H4 & H5 & H6 & Heq).
  pose proof (read_image img Himg Hsize) as Hread.
  rewrite (i32_id (output_width img * output_height img * output_components img)),
    (i32_id (output_width img * output_components img)) by int_solve.
  rewrite (palloc_ok 1 (_ * _)) by (unfold MaxAllocSize; lia). cbn [mbind res_bind]. rewrite Hread. cbn [mbind res_bind].
  rewrite elements_per_channel by (unfold int_max; lia). rewrite (i32_id (_ * _)) by int_solve.
  rewrite palloc_ok by (unfold MaxAllocSize; lia). cbn [mbind res_bind].
  rewrite Hc4. set (body := λ i elements, cfor 0 _ 1 _ elements).
  assert (∀ i b, 0 <= i < 3 → zlen b = 4 * (output_width img * output_height img) →
    ∃ b', body i b = Ok b' ∧ zlen b' = 4 * (output_width img * output_height img)) as Hch.
  { intros i b Hi Hb. eexists. unfold body. rewrite <-Hc4. split; [apply (virtual_in_channels img Himg Hsize); rewrite ?Hc4; lia|].
    unfold fill. by rewrite zlen_upd, Hc4. }
  destruct (Hch 0 (replicate (Z.to_nat (output_width img * output_height img * 4)) None)) as (b1 & Hb1 & Hl1);
    [lia|rewrite zlen_replicate; lia|].
  destruct (Hch 1 b1) as (b2 & Hb2 & Hl2); [lia|done|]. destruct (Hch 2 b2) as (b3 & Hb3 & Hl3); [lia|done|].
  rewrite (cfor_first 0 4), Hb1 by (lia || int_solve). cbn [mbind res_bind]. change (0 + 1) with 1.
  rewrite (cfor_first 1 4), Hb2 by (lia || int_solve). cbn [mbind res_bind]. change (1 + 1) with 2.
  rewrite (cfor_first 2 4), Hb3 by (lia || int_solve). cbn [mbind res_bind]. change (2 + 1) with 3.
  rewrite (cfor_first 3 4) by (lia || int_solve). assert (body 3 b3 = Stuck OutOfBounds) as ->; [|done].
  unfold body. rewrite (cfor_first 0 (_ * _)) by (lia || int_solve).
  change (i32 (i32 (0 * 4) + 3)) with 3. rewrite bget_tabulate by lia. done.
Qed.

(** ** Witnesses *)

(** A file that is a row of [n] pixels of [c] samples. *)
Definition ex_jpeg (c n : Z) : Jpeg :=
  {| jpeg_file := λ _, Some (mkJpeg n 1 c [seqZ 0 (n * c)]) |}.

Lemma virtual_in_correct_witness :
  let J := ex_jpeg 3 2 in let img := mkJpeg 2 1 3 [seqZ 0 (2 * 3)] in
  jpeg_file "a.jpg" = Some img ∧
  virtual_in true "a.jpg" = Ok ("a.jpg", matrix 3 (2 * 1) (tabulate (tensor img) (3 * (2 * 1)))).
Proof.
  intros J img. split; [done|]. apply (virtual_in_correct (H := J) "a.jpg" img); try done.
  split; try done. by intros r ->%list_elem_of_singleton.
Defined.

Lemma virtual_in_four_channels_witness :
  let J := ex_jpeg 4 2 in jpeg_file "cmyk.jpg" ≠ None ∧ virtual_in true "cmyk.jpg" = Stuck OutOfBounds.
Proof.
  intros J. split; [done|]. apply (virtual_in_four_channels (H := J) "cmyk.jpg" (mkJpeg 2 1 4 [seqZ 0 (2 * 4)])); try done.
  split; try done. by intros r ->%list_elem_of_singleton.
Defined.
