(* ===== verification/Support.v ===== *)
(** * Support: planner support functions

    The cost estimates of [support.c] and their consumer, [add_function_cost] of
    [plancat.c].  A support function is handed a request, fills it in and returns it,
    or returns [NULL] when it has nothing to say. *)

From S2P Require Import Prelude Float4 PgArray ExtendedOps.

Open Scope Z_scope.

(** The expression a request is about, as far as the functions look: the arguments
    of a call are constants, given by their datum, or other expressions. *)
Inductive Expr := Const (constvalue : Z) | FuncExpr (args : list Expr) | OtherExpr.

Record SupportRequestCost := mkCost { req_node : option Expr; req_startup : float8; req_per_tuple : float8 }.
Inductive Request := CostRequest (req : SupportRequestCost) | SimplifyRequest | OtherRequest.

(** The constant in the last argument of a call. *)
Definition last_const (node : option Expr) : option Z :=
  match node with
  | Some (FuncExpr args) => match last args with Some (Const v) => Some v | _ => None end
  | _ => None
  end.

(** The request as the function leaves it, and whether it returns it. *)
Definition support_result : Type := Request * bool.

Definition conv_support (rawreq : Request) : support_result :=
  match rawreq with
  | CostRequest req =>
      let cost_in := match last_const (req_node req) with Some v => f4_of_bits v | None => f4_zero end in
      (CostRequest (mkCost (req_node req) (req_startup req) (promote cost_in)), true)
  | _ => (rawreq, false)
  end.
(** [ret] is never set: the function fills the request in and returns [NULL]. *)
Definition kfm_nt_support (rawreq : Request) : support_result :=
  match rawreq with
  | CostRequest req => (CostRequest (mkCost (req_node req) (req_startup req) (f8_of_Z 40000)), false)
  | _ => (rawreq, false)
  end.
Definition kfm_support (rawreq : Request) : support_result :=
  match rawreq with
  | CostRequest req => (CostRequest (mkCost (req_node req) (f8_lit 1 4) (f8_of_Z 40000)), true)
  | _ => (rawreq, false)
  end.
Definition im2col_support (rawreq : Request) : support_result :=
  match rawreq with
  | CostRequest req => (CostRequest (mkCost (req_node req) (f8_lit 1 4) (f8_of_Z 40000)), true)
  | _ => (rawreq, false)
  end.
Definition im2col_init_support (rawreq : Request) : support_result :=
  match rawreq with
  | CostRequest req => (CostRequest (mkCost (req_node req) (f8_lit 1 4) (f8_of_Z 10000)), true)
  | _ => (rawreq, false)
  end.

(** plancat.c: the cost of a call with support function [prosupport] and declared
    cost [procost], added to [cost] (startup, per tuple). *)
Definition add_function_cost (prosupport : option (Request → support_result)) (procost cpu_operator_cost : float8)
    (node : option Expr) (cost : float8 * float8) : float8 * float8 :=
  let fallback := (cost.1, f8_add cost.2 (f8_mul procost cpu_operator_cost)) in
  match prosupport with
  | Some support =>
      match support (CostRequest (mkCost node (f8_of_Z 0) (f8_of_Z 0))) with
      | (CostRequest req, true) => (f8_add cost.1 (req_startup req), f8_add cost.2 (req_per_tuple req))
      | _ => fallback
      end
  | None => fallback
  end.

(** The estimate of [kfm_nt_support] never reaches the planner. *)
Theorem kfm_nt_support_ignored procost opcost node cost :
  add_function_cost (Some kfm_nt_support) procost opcost node cost = add_function_cost None procost opcost node cost.
Proof. done. Qed.

(** The cost of a convolution is the [float4] in its last argument. *)
Theorem conv_support_cost procost opcost args v cost :
  add_function_cost (Some conv_support) procost opcost (Some (FuncExpr (args ++ [Const v]))) cost
  = (f8_add cost.1 (f8_of_Z 0), f8_add cost.2 (promote (f4_of_bits v))).
Proof.
  assert (last_const (Some (FuncExpr (args ++ [Const v]))) = Some v) as Hl by (unfold last_const; by rewrite last_snoc).
  unfold add_function_cost, conv_support. cbn [req_node]. by rewrite Hl.
Qed.
