(* ===== verification/Nudf.v ===== *)
(** * Nudf: inference functions and the rewriting of queries

    An inference function (nUDF) is a name with an equivalent sub-query.  The
    catalog [pg_nudf] and its creation ([pg_nudf.c], [nudfcmds.c],
    [create_nudf.c]), and the parser hook of [aqua.c], which replaces the first call
    of such a function in a query by the sub-query: a walk over the parse tree that
    rebuilds the text of the call, and a search for that text in the query.

    Strings are the bytes before the terminator; they are built in [StringInfo]
    buffers.  The theorem on the hook says which part of the query it replaces and
    when it leaves the query as it is.  The grammar, the name of the database, the schemas and the Python
    exporter are parameters. *)

From S2P Require Import Prelude PgArray Bytes StringInfo.

Open Scope Z_scope.

Abbreviation cstr := (list Z).

(** The C string at the start of a buffer. *)
Fixpoint c_str (d : list Z) : cstr :=
  match d with [] => [] | b :: d => if b =? 0 then [] else b :: c_str d end.

(** ** Parse trees *)

(** A field of a column reference: a name, or the star. *)
Inductive ColField := FString (sval : cstr) | FStar.
(** Nodes of a raw parse tree; of other nodes, the sub-nodes that
    [raw_expression_tree_walker] visits, in its order. *)
Inductive Node :=
  | FuncCall (funcname : list cstr) (args : list Node)
  | ColumnRef (fields : list ColField)
  | OtherNode (children : list Node).
Inductive Stmt :=
  | SelectStmt (node : Node)
  | ExplainStmt (query : Stmt)
  | CreateNUDFStmt (funcname : list cstr) (model_path : cstr)
  | OtherStmt.

(** ** The catalog *)

Record pg_nudf_row := mkNudf { oid : Z; nudfname : cstr; nudfsrc : cstr }.

(** [NameStr] comparison of the syscache, [strncmp(a, b, NAMEDATALEN) == 0]. *)
Definition name_eq (a b : cstr) : bool := bool_decide (take 64 a = take 64 b).
Definition namestrcpy (s : cstr) : cstr := take 63 s.

(** [SearchSysCache1(NUDFNAME, name)] *)
Definition search_nudf (cat : list pg_nudf_row) (name : cstr) : option pg_nudf_row :=
  List.find (λ r, name_eq (nudfname r) name) cat.

Definition exists_msg : string := "nudf %s already exists".
Definition unique_msg : string := "duplicate key value violates unique constraint".

Class NudfEnv := {
  raw_parser : cstr → list Stmt;               (* the grammar *)
  database_name : cstr;
  creation_namespace : option cstr → res Z;    (* the schema an object is created in *)
  GetNewOid : list Z → Z                       (* an oid that is not in use *)
}.

(** A catalog insertion, with its two unique indexes. *)
Definition CatalogTupleInsert (cat : list pg_nudf_row) (r : pg_nudf_row) : res (list pg_nudf_row) :=
  check (negb (existsb (λ r', (oid r' =? oid r) || name_eq (nudfname r') (nudfname r)) cat)) unique_msg (Ok (cat ++ [r])).

(** [nudfInfo]: the query of the record, [None] for a pointer that was not assigned. *)
Definition NUDFCreate `{NudfEnv} (cat : list pg_nudf_row) (nudfName : cstr) (nudfInfo : option cstr)
    : res (list pg_nudf_row * Z) :=
  let nm := namestrcpy nudfName in
  match nudfInfo with
  | None => Stuck Uninitialised
  | Some nudf_query =>
      match search_nudf cat nudfName with
      | Some _ => Ereport exists_msg
      | None =>
          let newOid := GetNewOid (oid <$> cat) in
          cat ← CatalogTupleInsert cat (mkNudf newOid nm nudf_query);
          Ok (cat, newOid)
      end
  end.

(** ** Names *)

Definition cross_db_msg : string := "cross-database references are not implemented: %s".
Definition dotted_msg : string := "improper qualified name (too many dotted names): %s".

Definition DeconstructQualifiedName `{NudfEnv} (names : list cstr) : res (option cstr * cstr) :=
  match names with
  | [n] => Ok (None, n)
  | [s; n] => Ok (Some s, n)
  | [c; s; n] => check (bool_decide (c = database_name)) cross_db_msg (Ok (Some s, n))
  | _ => Ereport dotted_msg
  end.
Definition QualifiedNameGetCreationNamespace `{NudfEnv} (names : list cstr) : res (Z * cstr) :=
  '(schema, n) ← DeconstructQualifiedName names; ns ← creation_namespace schema; Ok (ns, n).

(** ** create_nudf.c and nudfcmds.c *)

(** What the embedded Python interpreter finds: the module, a callable class and the
    string that its method [export] returns. *)
Record python := { py_module : bool; py_class : bool; py_export : option cstr }.

Definition py_call_msg : string := "[create_nudf] fail to call create_nudf".
Definition py_class_msg : string := "[create_nudf] fail to find nUDF class".
Definition py_module_msg : string := "[create_nudf] fail to find pModule".

(** Where the export returns a string, the query of the record is assigned through
    [res], which is declared and never set. *)
Definition create_inference_function (py : python) (func_name model_path : cstr) : res (option cstr) :=
  if py_module py then
    if py_class py then
      match py_export py with
      | Some result => Stuck Uninitialised
      | None => Ereport py_call_msg
      end
    else Ereport py_class_msg
  else Ereport py_module_msg.

(** What [CreateNUDF] finds: the extension, the shared library, the symbol. *)
Record installation := { ext_installed : bool; lib_opens : bool; has_symbol : bool; interpreter : python }.

Definition CreateNUDF `{NudfEnv} (inst : installation) (cat : list pg_nudf_row) (funcname : list cstr) (model_path : cstr)
    : res (list pg_nudf_row * Z) :=
  '(_, name) ← QualifiedNameGetCreationNamespace funcname;
  nudfRes ← (if ext_installed inst && lib_opens inst && has_symbol inst
             then create_inference_function (interpreter inst) name model_path
             else Ok None);
  NUDFCreate cat name nudfRes.

(** ** aqua.c: text *)

Fixpoint starts_with (needle hay : cstr) : bool :=
  match needle, hay with
  | [], _ => true
  | a :: needle, b :: hay => (a =? b) && starts_with needle hay
  | _, [] => false
  end.
(** The offset of the first occurrence. *)
Fixpoint strstr (hay needle : cstr) : option nat :=
  if starts_with needle hay then Some O
  else match hay with [] => None | _ :: hay => S <$> strstr hay needle end.

Section text.
  Context `{Memory}.

Definition StrReplace (query_string src dst : cstr) : res (list Z) :=
  res ← initStringInfo;
  res ← (match strstr query_string src with
         | None => appendStringInfoString res query_string
         | Some pos =>
             res ← appendBinaryStringInfo res query_string pos;
             res ← appendStringInfo res ([40] ++ dst ++ [41]);
             appendStringInfoString res (drop (pos + length src) query_string)
         end);
  Ok (si_data res).

Definition append_field (field : ColField) (str : StringInfoData) : res StringInfoData :=
  match field with
  | FString sval =>
      str ← (if 0 <? si_len str then appendStringInfoChar str 46 else Ok str);
      appendStringInfoString str sval
  | FStar => Ok str
  end.
Definition ColumnRefToString (fields : list ColField) : res (list Z) :=
  str ← initStringInfo; str ← foldM append_field fields str; Ok (si_data str).

(** The loop over the arguments of a call.  [arg_str] is assigned for column
    references only and read in any case. *)
Definition append_arg (arg : Node) (arg_strs : StringInfoData) : res StringInfoData :=
  match arg with
  | ColumnRef fields => arg_str ← ColumnRefToString fields; appendStringInfoString arg_strs (c_str arg_str)
  | _ => Stuck Uninitialised
  end.
Definition args_to_string (args : list Node) : res (list Z) :=
  s ← initStringInfo; s ← foldM append_arg args s; Ok (si_data s).
End text.

(** ** aqua.c: the walk *)

Record NUDFContext := mkCtxt { nudf_name : cstr; nudf_query : cstr; nudf_args : cstr }.

Section rewriting.
  Context `{NudfEnv, Memory} (cat : list pg_nudf_row).

Definition ParseNUDF (funcname : list cstr) : res (option (cstr * cstr)) :=
  '(_, nudfname) ← DeconstructQualifiedName funcname;
  match search_nudf cat nudfname with
  | None => Ok None
  | Some row => Ok (Some (nudfname, nudfsrc row))
  end.

(** The walker: [Some] context once a call of an inference function is found, which
    ends the walk.  It does not descend into the arguments of other calls. *)
Fixpoint findFuncCallWalker (node : Node) : res (option NUDFContext) :=
  match node with
  | FuncCall funcname args =>
      nudf ← ParseNUDF funcname;
      match nudf with
      | Some (name, query) =>
          arg_strs ← args_to_string args;
          Ok (Some (mkCtxt name query (c_str arg_strs)))
      | None => Ok None
      end
  | ColumnRef _ => Ok None
  | OtherNode children =>
      (fix walk (l : list Node) : res (option NUDFContext) :=
         match l with
         | [] => Ok None
         | n :: l => c ← findFuncCallWalker n; match c with Some _ => Ok c | None => walk l end
         end) children
  end.

Definition aqua_select_parser (node : Node) (old_string : cstr) : res (option cstr) :=
  ctx ← findFuncCallWalker node;
  match ctx with
  | None => Ok None
  | Some ctx =>
      full_nudf ← initStringInfo;
      full_nudf ← appendStringInfo full_nudf (nudf_name ctx ++ [40] ++ nudf_args ctx ++ [41]);
      d ← StrReplace old_string (c_str (si_data full_nudf)) (nudf_query ctx);
      Ok (Some (c_str d))
  end.

Definition aqua_parser (query_string : cstr) : res (list Stmt) :=
  match raw_parser query_string with
  | [] => Stuck NullDeref
  | raw_node :: _ =>
      _ ← (match raw_node with
           | CreateNUDFStmt funcname _ => r ← QualifiedNameGetCreationNamespace funcname; Ok (fst r)
           | _ => Ok 0
           end);
      transformed_query ←
        (match raw_node with
         | SelectStmt node => aqua_select_parser node query_string
         | ExplainStmt (SelectStmt node) => aqua_select_parser node query_string
         | _ => Ok None
         end);
      Ok (raw_parser (default query_string transformed_query))
  end.
End rewriting.

(** ** Strings in buffers *)

(** A terminated buffer that holds [bs]. *)
Definition si_str (s : StringInfoData) (bs : cstr) : Prop := si_rep s bs ∧ si_data s !! length bs = Some 0.
Definition no_nul (s : cstr) : Prop := Forall (λ b, b ≠ 0) s.

Lemma c_str_app bs rest : no_nul bs → c_str (bs ++ 0 :: rest) = bs.
Proof.
  induction 1 as [|b bs Hb _ IH]; [done|]. simpl. destruct (Z.eqb_spec b 0); [done|]. by rewrite IH.
Qed.

Lemma si_str_c_str s bs : si_str s bs → no_nul bs → c_str (si_data s) = bs.
Proof.
  intros [[_ _ _ _ Hb] Hz] Hn. rewrite <-(take_drop_middle _ _ _ Hz), Hb. by apply c_str_app.
Qed.

Section buffers.
  Context `{Memory}.

Lemma init_str : ∃ s, initStringInfo = Ok s ∧ si_str s [].
Proof.
  unfold initStringInfo, palloc_bytes. rewrite check_true by done. cbn [mbind res_bind].
  pose proof (junk_len 1024 ltac:(lia)) as Hj. unfold resetStringInfo. simpl si_data. rewrite lset_ok by lia. cbn [mbind res_bind].
  eexists. split; [done|]. unfold zlen in Hj. split; [split; simpl; try done|].
  - unfold zlen. by rewrite length_insert.
  - simpl. apply list_lookup_insert_eq. lia.
Qed.

Lemma append_str s bs t : si_str s bs → zlen bs + zlen t < MaxAllocSize →
  ∃ s', appendStringInfoString s t = Ok s' ∧ si_str s' (bs ++ t).
Proof.
  intros [Hs _] Hfit. destruct (append_binary_ok s bs t Hs Hfit) as (s' & Hrun & ? & ? & _). by exists s'.
Qed.

Lemma append_char_str s bs ch : si_str s bs → zlen bs + 1 < MaxAllocSize →
  ∃ s', appendStringInfoChar s ch = Ok s' ∧ si_str s' (bs ++ [ch]).
Proof.
  intros [Hs _] Hfit. pose proof Hs as [_ Hl Hroom Hmax _]. pose proof (zlen_nonneg bs). unfold appendStringInfoChar.
  assert (∃ s1, (if si_maxlen s <=? i32 (si_len s + 1) then enlargeStringInfo s 1 else Ok s) = Ok s1
    ∧ si_rep s1 bs ∧ zlen bs + 1 < si_maxlen s1) as (s1 & -> & Hs1 & Hr1).
  { unfold MaxAllocSize in *. rewrite i32_id by int_solve. destruct (Z.leb_spec (si_maxlen s) (si_len s + 1)).
    - destruct (enlarge_ok s bs 1) as (s1 & ? & ? & ? & _); [done|lia|unfold MaxAllocSize; lia|]. exists s1. split_and!; done || lia.
    - exists s. split_and!; done || lia. }
  cbn [mbind res_bind]. destruct (si_write_ok s1 bs [ch] Hs1) as (s2 & Hw & Hs2 & _); [done|]. change (zlen [ch]) with 1 in Hw.
  rewrite Hw. cbn [mbind res_bind]. destruct (si_terminate_ok s2 _ Hs2) as (s3 & -> & ? & ? & _). by exists s3.
Qed.

Lemma append_format_str s bs t : si_str s bs → zlen bs + zlen t + 33 < MaxAllocSize →
  ∃ s', appendStringInfo s t = Ok s' ∧ si_str s' (bs ++ t).
Proof. intros [Hs _] Hfit. destruct (append_format_ok s bs t Hs Hfit) as (s' & ? & ? & ?). by exists s'. Qed.

(** ** Replacing *)

Definition str_replace (q src dst : cstr) : cstr :=
  match strstr q src with
  | None => q
  | Some pos => take pos q ++ ([40] ++ dst ++ [41]) ++ drop (pos + length src) q
  end.

Lemma starts_with_app needle hay : starts_with needle hay = true ↔ ∃ rest, hay = needle ++ rest.
Proof.
  revert hay. induction needle as [|a needle IH]; intros hay; simpl; [split; eauto|].
  destruct hay as [|b hay]; [split; [done|by intros [? [=]]]|].
  rewrite andb_true_iff, IH, Z.eqb_eq. split; [intros [-> [rest ->]]; eauto|intros [rest [= -> ->]]; eauto].
Qed.

(** [strstr] finds the first place where the needle occurs. *)
Lemma strstr_spec hay needle pos :
  strstr hay needle = Some pos ↔
  (∃ rest, drop pos hay = needle ++ rest) ∧ (pos <= length hay)%nat
  ∧ ∀ i, (i < pos)%nat → starts_with needle (drop i hay) = false.
Proof.
  revert pos. induction hay as [|b hay IH]; intros pos; cbn [strstr]; destruct (starts_with needle _) eqn:Hs.
  - split.
    + intros [= <-]. rewrite starts_with_app in Hs. split; [done|]. split; [lia|]. intros i Hi. lia.
    + intros (_ & Hle & _). simpl in Hle. f_equal. lia.
  - split; [done|]. intros (Hr & Hle & _). simpl in Hle. assert (pos = O) as -> by lia. rewrite drop_0 in Hr.
    apply starts_with_app in Hr. congruence.
  - split.
    + intros [= <-]. rewrite starts_with_app in Hs. split; [done|]. split; [lia|]. intros i Hi. lia.
    + intros (_ & _ & Hfirst). destruct pos as [|pos]; [done|]. specialize (Hfirst O ltac:(lia)). rewrite drop_0 in Hfirst. congruence.
  - destruct pos as [|pos].
    + split; [by destruct (strstr hay needle)|]. intros (Hr & _). rewrite drop_0 in Hr. apply starts_with_app in Hr. congruence.
    + rewrite fmap_Some. split.
      * intros (p & Hp & [= ->]). apply IH in Hp as (Hr & Hle & Hfirst). split; [done|]. split; [simpl; lia|].
        intros [|i] Hi; [done|]. apply Hfirst. lia.
      * intros (Hr & Hle & Hfirst). exists pos. split; [|done]. apply IH. split; [done|]. simpl in Hle. split; [lia|].
        intros i Hi. apply (Hfirst (S i)). lia.
Qed.

Lemma strstr_occurs before needle after : strstr (before ++ needle ++ after) needle ≠ None.
Proof.
  induction before as [|b before IH]; simpl.
  - assert (starts_with needle (needle ++ after) = true) as Hs by (apply starts_with_app; eauto).
    destruct (needle ++ after); simpl; by rewrite Hs.
  - destruct (starts_with needle _); [done|]. by destruct (strstr (before ++ needle ++ after) needle).
Qed.

Lemma StrReplace_ok q src dst :
  no_nul q → no_nul dst → zlen q + zlen dst + 40 < MaxAllocSize →
  ∃ d, StrReplace q src dst = Ok d ∧ c_str d = str_replace q src dst.
Proof.
  intros Hq Hd Hfit. unfold StrReplace, str_replace. destruct init_str as (s0 & -> & Hs0). cbn [mbind res_bind].
  pose proof (zlen_nonneg q). pose proof (zlen_nonneg dst). destruct (strstr q src) as [pos|] eqn:Hpos.
  - apply strstr_spec in Hpos as (_ & Hle & _).
    assert (pq_sendbytes s0 q pos = pq_sendbytes s0 (take pos q) pos) as Htake.
    { rewrite sendbytes_take by (unfold zlen; lia). by rewrite Nat2Z.id. }
    unfold pq_sendbytes in Htake. rewrite Htake.
    assert (Z.of_nat pos = zlen (take pos q)) as Hlen by (unfold zlen; rewrite length_take; lia). rewrite Hlen.
    destruct (append_str s0 [] (take pos q) Hs0) as (s1 & Hrun1 & Hs1); [rewrite <-Hlen; unfold zlen in *; simpl; lia|].
    unfold appendStringInfoString in Hrun1. rewrite Hrun1. cbn [mbind res_bind]. rewrite app_nil_l in Hs1.
    destruct (append_format_str s1 (take pos q) ([40] ++ dst ++ [41]) Hs1) as (s2 & -> & Hs2).
    { unfold zlen in *. rewrite !length_app. simpl. lia. }
    cbn [mbind res_bind].
    destruct (append_str s2 _ (drop (pos + length src) q) Hs2) as (s3 & -> & Hs3).
    { unfold zlen in *. rewrite !length_app, length_take, length_drop. simpl. lia. }
    cbn [mbind res_bind]. eexists. split; [done|]. rewrite <-app_assoc in Hs3. apply (si_str_c_str _ _ Hs3).
    repeat apply Forall_app_2; try done; [by apply Forall_take|by constructor|by constructor|by apply Forall_drop].
  - destruct (append_str s0 [] q Hs0) as (s1 & -> & Hs1); [unfold zlen in *; simpl; lia|]. cbn [mbind res_bind].
    eexists. split; [done|]. by apply (si_str_c_str _ _ Hs1).
Qed.
End buffers.

(** ** The text of a call *)

Definition column_step (acc : cstr) (f : ColField) : cstr :=
  match f with FString s => acc ++ (if 0 <? zlen acc then [46] else []) ++ s | FStar => acc end.
Definition column_from (acc : cstr) (fields : list ColField) : cstr := foldl column_step acc fields.
(** A column reference: its names, separated by dots. *)
Definition column_text : list ColField → cstr := column_from [].
(** The arguments of a call, one after the other. *)
Definition arg_text (a : Node) : cstr := match a with ColumnRef fs => column_text fs | _ => [] end.
Definition args_text (args : list Node) : cstr := flat_map arg_text args.
Definition call_text (c : NUDFContext) : cstr := nudf_name c ++ [40] ++ nudf_args c ++ [41].

Definition field_str_ok (f : ColField) : Prop := match f with FString s => no_nul s | FStar => True end.
(** Arguments that are column references. *)
Definition arg_ok (a : Node) : Prop := match a with ColumnRef fs => Forall field_str_ok fs | _ => False end.

Lemma column_from_grows fields acc : zlen acc <= zlen (column_from acc fields).
Proof.
  revert acc. induction fields as [|f fields IH]; intros acc; simpl; [lia|].
  etrans; [|apply IH]. unfold column_step, zlen. destruct f; [rewrite length_app; lia|lia].
Qed.

Lemma column_from_no_nul fields acc : no_nul acc → Forall field_str_ok fields → no_nul (column_from acc fields).
Proof.
  intros Ha Hf. revert acc Ha. induction Hf as [|f fields Hf _ IH]; intros acc Ha; [done|]. apply IH.
  destruct f as [s|]; [|done]. simpl. repeat apply Forall_app_2; try done. destruct (0 <? zlen acc); by repeat constructor.
Qed.

Section calls.
  Context `{Memory}.

Lemma append_fields_ok fields s acc :
  si_str s acc → zlen (column_from acc fields) + 2 < MaxAllocSize →
  ∃ s', foldM append_field fields s = Ok s' ∧ si_str s' (column_from acc fields).
Proof.
  revert s acc. induction fields as [|f fields IH]; intros s acc Hs Hfit; [by exists s|]. cbn [foldM].
  change (column_from acc (f :: fields)) with (column_from (column_step acc f) fields) in *.
  pose proof (column_from_grows fields (column_step acc f)) as Hgrow.
  assert (zlen (column_step acc f) + 2 < MaxAllocSize) as Hstep by lia.
  assert (∃ s1, append_field f s = Ok s1 ∧ si_str s1 (column_step acc f)) as (s1 & -> & Hs1).
  { clear Hgrow Hfit IH. destruct f as [t|]; [|by exists s]. unfold append_field, column_step in *.
    rewrite (si_length _ _ (proj1 Hs)). unfold zlen in Hstep at 1. rewrite !length_app in Hstep.
    destruct (0 <? zlen acc); simpl length in Hstep.
    - destruct (append_char_str s acc 46 Hs) as (s1 & -> & Hs1); [unfold zlen; lia|]. cbn [mbind res_bind].
      rewrite app_assoc. apply append_str; [done|]. unfold zlen. rewrite length_app. simpl. lia.
    - cbn [mbind res_bind]. change ([] ++ t) with t. apply append_str; [done|]. unfold zlen. lia. }
  cbn [mbind res_bind]. by apply IH.
Qed.

Lemma ColumnRefToString_ok fields :
  Forall field_str_ok fields → zlen (column_text fields) + 2 < MaxAllocSize →
  ∃ d, ColumnRefToString fields = Ok d ∧ c_str d = column_text fields.
Proof.
  intros Hf Hfit. unfold ColumnRefToString. destruct init_str as (s0 & -> & Hs0). cbn [mbind res_bind].
  destruct (append_fields_ok fields s0 [] Hs0 Hfit) as (s & -> & Hs). cbn [mbind res_bind].
  eexists. split; [done|]. apply (si_str_c_str _ _ Hs). by apply column_from_no_nul; [constructor|].
Qed.

Lemma append_args_ok args s acc :
  si_str s acc → Forall arg_ok args → zlen acc + zlen (args_text args) + 2 < MaxAllocSize →
  ∃ s', foldM append_arg args s = Ok s' ∧ si_str s' (acc ++ args_text args).
Proof.
  revert s acc. induction args as [|a args IH]; intros s acc Hs Hok Hfit.
  { exists s. simpl. by rewrite app_nil_r. }
  apply Forall_cons in Hok as [Ha Hok]. cbn [foldM args_text flat_map] in *. fold (args_text args) in *.
  destruct a as [|fs|]; [done| |done]. simpl in Ha. cbn [append_arg arg_text] in *.
  unfold zlen in Hfit at 2. rewrite length_app in Hfit.
  destruct (ColumnRefToString_ok fs Ha) as (d & -> & Hd); [unfold zlen in *; lia|]. cbn [mbind res_bind]. rewrite Hd.
  destruct (append_str s acc (column_text fs) Hs) as (s1 & -> & Hs1); [unfold zlen in *; lia|]. cbn [mbind res_bind].
  rewrite app_assoc. apply IH; [done|done|]. unfold zlen in *. rewrite length_app. lia.
Qed.

Lemma args_to_string_ok args :
  Forall arg_ok args → zlen (args_text args) + 2 < MaxAllocSize →
  ∃ d, args_to_string args = Ok d ∧ c_str d = args_text args.
Proof.
  intros Hok Hfit. unfold args_to_string. destruct init_str as (s0 & -> & Hs0). cbn [mbind res_bind].
  destruct (append_args_ok args s0 [] Hs0 Hok Hfit) as (s & -> & Hs). cbn [mbind res_bind]. eexists. split; [done|].
  rewrite app_nil_l in Hs. apply (si_str_c_str _ _ Hs). apply Forall_flat_map. apply Forall_forall. intros a Ha.
  rewrite Forall_forall in Hok. specialize (Hok a Ha). destruct a; [done| |done]. apply column_from_no_nul; [constructor|done].
Qed.
End calls.

(** ** The hook *)

(** Induction over the nodes below a node. *)
Lemma Node_nested_ind (Q : Node → Prop) :
  (∀ names args, Q (FuncCall names args)) → (∀ fs, Q (ColumnRef fs)) →
  (∀ children, Forall Q children → Q (OtherNode children)) → ∀ n, Q n.
Proof.
  intros Hf Hc Ho. fix IH 1. intros [names args|fs|children]; [apply Hf|apply Hc|]. apply Ho.
  induction children as [|n l IHl]; constructor; [apply IH|exact IHl].
Qed.

Section hook.
  Context `{NudfEnv, Memory} (cat : list pg_nudf_row).

(** The first call, in the order of the walk, of an inference function. *)
Fixpoint first_nudf (node : Node) : option NUDFContext :=
  match node with
  | FuncCall names args =>
      name ← last names; row ← search_nudf cat name; Some (mkCtxt name (nudfsrc row) (args_text args))
  | ColumnRef _ => None
  | OtherNode children =>
      (fix walk (l : list Node) : option NUDFContext :=
         match l with [] => None | n :: l => match first_nudf n with Some c => Some c | None => walk l end end) children
  end.

(** Calls have names of at most two parts; the arguments of inference functions are
    column references. *)
Fixpoint tree_ok (node : Node) : Prop :=
  match node with
  | FuncCall names args =>
      (∃ n, names = [n] ∨ ∃ s, names = [s; n]) ∧
      (first_nudf (FuncCall names args) ≠ None → Forall arg_ok args ∧ zlen (args_text args) <= 268435456)
  | ColumnRef _ => True
  | OtherNode children => (fix all (l : list Node) : Prop := match l with [] => True | n :: l => tree_ok n ∧ all l end) children
  end.

Lemma walker_ok node : tree_ok node → findFuncCallWalker cat node = Ok (first_nudf node).
Proof.
  induction node as [names args|fs|children IH] using Node_nested_ind; [|done|].
  - intros [(n & Hn) Hargs]. cbn [findFuncCallWalker first_nudf] in *. unfold ParseNUDF.
    assert (∃ s, DeconstructQualifiedName names = Ok (s, n) ∧ last names = Some n) as (s & -> & Hlast)
      by (destruct Hn as [-> | [s ->]]; eauto).
    rewrite Hlast in *. cbn [mbind res_bind option_bind]. cbn in Hargs.
    destruct (search_nudf cat n) as [row|]; [|done]. cbn [mbind res_bind].
    destruct Hargs as [Hok Hlen]; [done|].
    destruct (args_to_string_ok args Hok) as (d & -> & Hd); [unfold MaxAllocSize; lia|]. cbn [mbind res_bind]. by rewrite Hd.
  - cbn [findFuncCallWalker first_nudf tree_ok]. induction IH as [|n l Hn _ IHl]; [done|].
    intros [Htn Htl]. rewrite (Hn Htn). cbn [mbind res_bind]. destruct (first_nudf n); [done|]. by apply IHl.
Qed.

(** The sizes are within limits and no string holds a zero byte. *)
Record ctx_ok (c : NUDFContext) : Prop := {
  co_name : no_nul (nudf_name c) ∧ zlen (nudf_name c) <= 268435456;
  co_query : no_nul (nudf_query c) ∧ zlen (nudf_query c) <= 268435456;
  co_args : no_nul (nudf_args c) ∧ zlen (nudf_args c) <= 268435456
}.

Lemma select_parser_ok node query :
  tree_ok node → (∀ c, first_nudf node = Some c → ctx_ok c) → no_nul query → zlen query <= 268435456 →
  aqua_select_parser cat node query
  = Ok (match first_nudf node with Some c => Some (str_replace query (call_text c) (nudf_query c)) | None => None end).
Proof.
  intros Htree Hctx Hq Hql. unfold aqua_select_parser. rewrite (walker_ok node Htree). cbn [mbind res_bind].
  destruct (first_nudf node) as [c|]; [|done]. destruct (Hctx c eq_refl) as [[Hn Hnl] [Hs Hsl] [Ha Hal]].
  destruct init_str as (s0 & -> & Hs0). cbn [mbind res_bind]. fold (call_text c).
  assert (zlen (call_text c) <= 536870914) as Hcl.
  { unfold call_text, zlen in *. rewrite !length_app. cbn [length]. lia. }
  destruct (append_format_str s0 [] (call_text c) Hs0) as (s1 & -> & Hs1);
    [change (zlen (@nil Z)) with 0; unfold MaxAllocSize; lia|]. cbn [mbind res_bind].
  rewrite app_nil_l in Hs1. rewrite (si_str_c_str _ _ Hs1) by (unfold call_text; repeat apply Forall_app_2; try done; by repeat constructor).
  destruct (StrReplace_ok query (call_text c) (nudf_query c) Hq Hs) as (d & -> & Hd); [unfold MaxAllocSize; lia|].
  cbn [mbind res_bind]. by rewrite Hd.
Qed.

(** The trees the hook looks into. *)
Definition stmt_tree (s : Stmt) : option Node :=
  match s with SelectStmt n => Some n | ExplainStmt (SelectStmt n) => Some n | _ => None end.

(** [call] begins at [before] and nowhere earlier. *)
Definition first_occurrence (query before call after : cstr) : Prop :=
  query = before ++ call ++ after ∧ ∀ i rest, (i < length before)%nat → drop i query ≠ call ++ rest.

Lemma str_replace_occurs query before call after dst :
  first_occurrence query before call after → str_replace query call dst = before ++ [40] ++ dst ++ [41] ++ after.
Proof.
  intros [-> Hfirst]. unfold str_replace. assert (strstr (before ++ call ++ after) call = Some (length before)) as ->.
  { apply strstr_spec. rewrite drop_app_length. split; [by exists after|]. split; [rewrite length_app; lia|].
    intros i Hi. destruct (starts_with call _) eqn:Hs; [|done]. apply starts_with_app in Hs as [rest Hs]. by destruct (Hfirst i rest Hi). }
  rewrite take_app_length, <-drop_drop, !drop_app_length. by rewrite <-!app_assoc.
Qed.

Lemma str_replace_absent query call dst :
  (∀ before after, query ≠ before ++ call ++ after) → str_replace query call dst = query.
Proof.
  intros Hno. unfold str_replace. destruct (strstr query call) as [pos|] eqn:Hp; [|done].
  apply strstr_spec in Hp as ((rest & Hd) & _). destruct (Hno (take pos query) rest). by rewrite <-Hd, take_drop.
Qed.

(** C35: the parser hook replaces the text of a call.  Take a query the grammar accepts,
    whose first statement is not CREATE INFERENCE FUNCTION and calls functions with names
    of at most two parts, and inference functions with columns for arguments.  Let [c] be
    the first call of an inference function that the walk over a SELECT (or the SELECT of
    an EXPLAIN) meets, and [call_text c] its text as the hook rebuilds it: the name and,
    in parentheses, the columns one after the other, without commas or blanks.  Where this
    text occurs in the query, the hook parses the query with the first occurrence replaced
    by the sub-query of the function in parentheses.  Where it does not occur (a call
    written with blanks or with several arguments), or where there is no such call, it
    parses the query as it is. *)
Theorem aqua_parser_rewrites query stmt rest :
  raw_parser query = stmt :: rest → (∀ names path, stmt ≠ CreateNUDFStmt names path) →
  (∀ node, stmt_tree stmt = Some node → tree_ok node ∧ ∀ c, first_nudf node = Some c → ctx_ok c) →
  no_nul query → zlen query <= 268435456 →
  (∀ node c before after, stmt_tree stmt = Some node → first_nudf node = Some c →
     first_occurrence query before (call_text c) after →
     aqua_parser cat query = Ok (raw_parser (before ++ [40] ++ nudf_query c ++ [41] ++ after)))
  ∧ ((∀ node c before after, stmt_tree stmt = Some node → first_nudf node = Some c → query ≠ before ++ call_text c ++ after) →
     aqua_parser cat query = Ok (raw_parser query)).
Proof.
  intros Hp Hnc Htree Hq Hql.
  assert (aqua_parser cat query = Ok (raw_parser (default query (node ← stmt_tree stmt; c ← first_nudf node;
            Some (str_replace query (call_text c) (nudf_query c)))))) as ->.
  { unfold aqua_parser. rewrite Hp. destruct stmt as [node|[node| | |]|names path|]; try done; [| |by destruct (Hnc names path)];
      destruct (Htree node eq_refl) as [Ht Hc]; cbn [mbind res_bind]; rewrite (select_parser_ok node query Ht Hc Hq Hql); destruct (first_nudf node) eqn:Hx; cbn; by rewrite ?Hx. }
  split.
  - intros node c before after -> Hc Hocc. cbn [mbind option_bind]. rewrite Hc. simpl. by rewrite (str_replace_occurs query before _ after).
  - intros Hno. destruct (stmt_tree stmt) as [node|]; [|done]. cbn [mbind option_bind]. destruct (first_nudf node) as [c|] eqn:Hc; [|done].
    simpl. by rewrite str_replace_absent by eauto.
Qed.
End hook.

(** ** The catalog *)

Record cat_ok (cat : list pg_nudf_row) : Prop := {
  cat_oids : NoDup (oid <$> cat);
  cat_names : NoDup (nudfname <$> cat);
  cat_lengths : Forall (λ r, (length (nudfname r) <= 63)%nat) cat
}.

Lemma name_eq_short a b : (length a <= 63)%nat → (length b <= 63)%nat → name_eq a b = bool_decide (a = b).
Proof. intros Ha Hb. unfold name_eq. by rewrite !take_ge by lia. Qed.

Lemma search_None cat n : search_nudf cat n = None → ∀ r, r ∈ cat → name_eq (nudfname r) n = false.
Proof. intros Hs r Hr. apply (List.find_none _ _ Hs). by apply list_elem_of_In. Qed.

Lemma search_app cat r n :
  search_nudf (cat ++ [r]) n = match search_nudf cat n with Some x => Some x | None => if name_eq (nudfname r) n then Some r else None end.
Proof.
  unfold search_nudf. induction cat as [|x cat IH]; simpl; [done|]. by destruct (name_eq (nudfname x) n).
Qed.

(** C36: the catalog of inference functions.  [NUDFCreate] refuses a name that is
    taken; otherwise, given an unused oid, it adds a row: oids and names stay
    unique, looking up the name returns the query that was stored, and what other
    names find is unchanged. *)
Theorem NUDFCreate_correct `{NudfEnv} cat name query :
  cat_ok cat → (length name <= 63)%nat → (∀ l, GetNewOid l ∉ l) →
  match search_nudf cat name with
  | Some _ => NUDFCreate cat name (Some query) = Ereport exists_msg
  | None => ∃ cat' o, NUDFCreate cat name (Some query) = Ok (cat', o) ∧ cat_ok cat'
      ∧ search_nudf cat' name = Some (mkNudf o name query)
      ∧ ∀ n, (length n <= 63)%nat → n ≠ name → search_nudf cat' n = search_nudf cat n
  end.
Proof.
  intros [Ho Hn Hl] Hname Hfresh. unfold NUDFCreate. destruct (search_nudf cat name) eqn:Hs; [done|].
  set (o := GetNewOid (oid <$> cat)). assert (namestrcpy name = name) as -> by (apply take_ge; lia).
  pose proof (search_None _ _ Hs) as Hnone. pose proof (Hfresh (oid <$> cat)) as Hof. fold o in Hof.
  assert (∀ r, r ∈ cat → oid r ≠ o ∧ nudfname r ≠ name) as Hdiff.
  { intros r Hr. split; [intros Heq; apply Hof; rewrite <-Heq; apply list_elem_of_fmap; eauto|].
    intros Heq. specialize (Hnone r Hr). rewrite name_eq_short, Heq, bool_decide_true in Hnone; try done. by rewrite Heq. }
  unfold CatalogTupleInsert. rewrite check_true.
  - cbn [mbind res_bind]. eexists _, _. split; [done|]. split; [split|split].
    + rewrite fmap_app. apply NoDup_app. split; [done|]. split; [|apply NoDup_singleton].
      intros x Hx ->%list_elem_of_singleton. done.
    + rewrite fmap_app. apply NoDup_app. split; [done|]. split; [|apply NoDup_singleton].
      intros x (r & -> & Hr)%list_elem_of_fmap Hx%list_elem_of_singleton. by apply (Hdiff r Hr).
    + apply Forall_app_2; [done|by apply Forall_singleton].
    + rewrite search_app, Hs. simpl. by rewrite name_eq_short, bool_decide_true by done.
    + intros n Hnl Hne. rewrite search_app. simpl. destruct (search_nudf cat n); [done|].
      by rewrite name_eq_short, bool_decide_false by done.
  - apply negb_true_iff. destruct (existsb _ cat) eqn:He; [|done].
    apply existsb_exists in He as (r & Hr%list_elem_of_In & Hor). simpl in Hor. destruct (Hdiff r Hr) as [H1 H2].
    rewrite name_eq_short, bool_decide_false, orb_false_r in Hor; try done; [lia|].
    rewrite Forall_forall in Hl. by apply Hl.
Qed.

(** [CREATE INFERENCE FUNCTION] never succeeds.  Where the extension is
    installed and the export works, the result is written through a pointer that
    was never assigned; where it is not, a pointer that was never assigned is
    followed; otherwise the command ends in an error. *)
Lemma CreateNUDF_never_succeeds `{NudfEnv} inst cat names path r : CreateNUDF inst cat names path ≠ Ok r.
Proof.
  unfold CreateNUDF, create_inference_function. destruct (QualifiedNameGetCreationNamespace names) as [[ns n]| |]; [|done|done].
  cbn [mbind res_bind]. destruct (ext_installed inst && lib_opens inst && has_symbol inst); [|done].
  destruct (interpreter inst) as [[] [] [q|]]; done.
Qed.

(** ** Witnesses *)

(** A grammar that takes every text for [SELECT f(a)], in a database [db]. *)
Definition ex_tree : Node := OtherNode [FuncCall [[102]] [ColumnRef [FString [97]]]].
Definition ex_env : NudfEnv := {|
  raw_parser := λ _, [SelectStmt ex_tree];
  database_name := [100; 98];
  creation_namespace := λ _, Ok 2200;
  GetNewOid := λ l, 1 + foldr Z.max 0 l
|}.
Definition ex_cat : list pg_nudf_row := [mkNudf 1 [102] [113]].

Lemma ex_fresh (l : list Z) : 1 + foldr Z.max 0 l ∉ l.
Proof.
  assert (∀ x, x ∈ l → x <= foldr Z.max 0 l) as Hle.
  { induction l as [|y l IH]; intros x Hx; [by apply not_elem_of_nil in Hx|].
    apply elem_of_cons in Hx as [->|Hx]; simpl; [lia|]. specialize (IH x Hx). lia. }
  intros Hin. specialize (Hle _ Hin). lia.
Qed.

(** [x f(a) y] becomes [x (q) y], and [x f( a ) y] stays as it is. *)
Lemma aqua_parser_rewrites_witness :
  let E := ex_env in let M := zeroed_memory in
  aqua_parser ex_cat [120; 32; 102; 40; 97; 41; 32; 121] = Ok (raw_parser [120; 32; 40; 113; 41; 32; 121])
  ∧ aqua_parser ex_cat [120; 32; 102; 40; 32; 97; 32; 41; 32; 121] = Ok (raw_parser [120; 32; 102; 40; 32; 97; 32; 41; 32; 121]).
Proof.
  intros E M.
  assert (∀ node, stmt_tree (SelectStmt ex_tree) = Some node →
    tree_ok ex_cat node ∧ ∀ c, first_nudf ex_cat node = Some c → ctx_ok c) as Htree.
  { intros node [= <-]. split.
    - split; [|done]. split; [eauto|]. intros _. split; [by repeat constructor|done].
    - intros c [= <-]. split; simpl; split; done || by repeat constructor. }
  split.
  - apply (proj1 (aqua_parser_rewrites (H := E) (H0 := M) ex_cat [120; 32; 102; 40; 97; 41; 32; 121] _ []
      eq_refl ltac:(done) Htree ltac:(by repeat constructor) ltac:(done)) ex_tree (mkCtxt [102] [113] [97]) [120; 32] [32; 121]); [reflexivity|reflexivity|].
    split; [reflexivity|]. intros [|[|i]] r Hi Hr; simplify_list_eq. simpl in Hi. lia.
  - apply (proj2 (aqua_parser_rewrites (H := E) (H0 := M) ex_cat [120; 32; 102; 40; 32; 97; 32; 41; 32; 121] _ []
      eq_refl ltac:(done) Htree ltac:(by repeat constructor) ltac:(done))).
    intros node c before after [= <-] [= <-] Hq.
    apply (f_equal (λ q, strstr q [102; 40; 97; 41])) in Hq. vm_compute in Hq. symmetry in Hq.
    assert (strstr (before ++ [102; 40; 97; 41] ++ after) [102; 40; 97; 41] ≠ None) as Hne; [|by apply Hne].
    apply strstr_occurs.
Defined.

Lemma NUDFCreate_correct_witness :
  let E := ex_env in
  ∃ cat' o, NUDFCreate ex_cat [103] (Some [113; 50]) = Ok (cat', o) ∧ search_nudf cat' [103] = Some (mkNudf o [103] [113; 50]).
Proof.
  intros E. assert (cat_ok ex_cat) as Hok by (split; simpl; [apply NoDup_singleton|apply NoDup_singleton|repeat constructor]).
  destruct (NUDFCreate_correct (H := E) ex_cat [103] [113; 50] Hok) as (cat' & o & H1 & _ & H2 & _);
    [simpl; lia|exact ex_fresh|]. exists cat', o. done.
Defined.
