(* ===== verification/Im2col.v ===== *)
(** * Im2col: unfolding feature maps into patch matrices

    The image-to-column kernels of [conv.c] ([im2col_core], [im2col_core_W],
    [im2col_core_H]), of [matrix_op.c] ([im2col]) and of the stand-alone driver
    [im2col.c] ([im2col_test]).  A feature map is stored channel by channel, one
    channel a square image row by row; the patch matrix has one row per output
    position, which lists the inputs under the kernel window, channel by channel,
    zero where the window leaves the image.

    [im2col_spec] says what the patch matrix is, cell by cell; the theorems say
    that each kernel computes it, for every order in which OpenMP runs the
    iterations of the parallel loops, without leaving its buffers. *)

From S2P Require Import Prelude Float4 PgArray.

(** The index tuples of a [collapse(2)] loop nest, in program order. *)
Definition pairs (rows cols : list Z) : list (Z * Z) :=
  rows ≫= λ rn, (λ cn, (rn, cn)) <$> cols.

Lemma elem_of_pairs rows cols rn cn :
  (rn, cn) ∈ pairs rows cols ↔ rn ∈ rows ∧ cn ∈ cols.
Proof. unfold pairs. set_solver. Qed.

(** [(size + 2 * padding - kernel) / stride + 1] *)
Definition out_size (size padding kernel stride : Z) : res Z :=
  q ← idiv (i32 (size + 2 * padding - kernel)) stride; Ok (i32 (q + 1)).

(** ** conv.c: im2col_core

    [input_f] is a pointer into the data of an array: the buffer and an offset
    in elements.  [f_matrix] is updated in place. *)
Definition im2col_core `{Omp} (input_f : buf float4) (off : Z) (input_f_shape : list Z)
    (f_matrix : buf float4) (kernel_size padding stride : Z) : res (buf float4) :=
  num_channel ← lget input_f_shape 0;
  nelems_channel ← lget input_f_shape 1;
  width ← int_sqrt nelems_channel;
  let height := width in
  out_height ← out_size height padding kernel_size stride;
  out_width ← out_size width padding kernel_size stride;
  require (0 <? kernel_size) OutOfBounds (  (* the array ky_offset[kernel_size] *)
  let ky_offset := (λ i, i32 (width * i)) <$> seqZ 0 kernel_size in
  if negb (padding =? 0) then
    rows ← omp_range (i32 (- padding)) (i32 (height + padding - kernel_size + 1)) stride;
    cols ← omp_range (i32 (- padding)) (i32 (width + padding - kernel_size + 1)) stride;
    omp_for (pairs rows cols) (λ '(rn, cn) f_matrix,
      a ← idiv (i32 (rn + padding)) stride;
      b ← idiv (i32 (cn + padding)) stride;
      let res_idx_local := i32 ((a * out_width + b) * num_channel * kernel_size * kernel_size) in
      let matrix_head := i32 (rn * width + cn) in
      fi ← cfor 0 num_channel 1 (λ c,
        let matrix_head_c := i32 (matrix_head + nelems_channel * c) in
        cfor 0 kernel_size 1 (λ ky,
          cfor 0 kernel_size 1 (λ kx '(f_matrix, res_idx_local),
            if (i32 (ky + rn) <? 0) || (height <=? i32 (ky + rn))
               || (i32 (kx + cn) <? 0) || (width <=? i32 (kx + cn))
            then f_matrix ← bset f_matrix res_idx_local f4_zero;
                 Ok (f_matrix, i32 (res_idx_local + 1))
            else o ← lget ky_offset ky;
                 v ← bget input_f (off + i32 (matrix_head_c + o + kx));
                 f_matrix ← bset f_matrix res_idx_local v;
                 Ok (f_matrix, i32 (res_idx_local + 1)))))
        (f_matrix, res_idx_local);
      Ok (fst fi)) f_matrix
  else
    rows ← omp_range 0 (i32 (height - kernel_size + 1)) stride;
    cols ← omp_range 0 (i32 (width - kernel_size + 1)) stride;
    omp_for (pairs rows cols) (λ '(rn, cn) f_matrix,
      a ← idiv (i32 (rn + padding)) stride;
      b ← idiv (i32 (cn + padding)) stride;
      let res_idx_local := i32 ((a * out_width + b) * num_channel * kernel_size * kernel_size) in
      let matrix_head := i32 (rn * width + cn) in
      fi ← cfor 0 num_channel 1 (λ c,
        let matrix_head_c := i32 (matrix_head + nelems_channel * c) in
        cfor 0 kernel_size 1 (λ ky,
          cfor 0 kernel_size 1 (λ kx '(f_matrix, res_idx_local),
            o ← lget ky_offset ky;
            v ← bget input_f (off + i32 (matrix_head_c + o + kx));
            f_matrix ← bset f_matrix res_idx_local v;
            Ok (f_matrix, i32 (res_idx_local + 1)))))
        (f_matrix, res_idx_local);
      Ok (fst fi)) f_matrix).

(** ** conv.c: im2col_core_W, a kernel of one row *)
Definition im2col_core_W `{Omp} (input_f : buf float4) (off : Z) (input_f_shape : list Z)
    (f_matrix : buf float4) (kernel_W padding_W stride : Z) : res (buf float4) :=
  num_channel ← lget input_f_shape 0;
  nelems_channel ← lget input_f_shape 1;
  width ← int_sqrt nelems_channel;
  let height := width in
  out_width ← out_size width padding_W kernel_W stride;
  rows ← omp_range 0 height stride;
  cols ← omp_range (i32 (- padding_W)) (i32 (width + padding_W - kernel_W + 1)) stride;
  omp_for (pairs rows cols) (λ '(rn, cn) f_matrix,
    a ← idiv rn stride;
    b ← idiv (i32 (cn + padding_W)) stride;
    let res_idx_local := i32 ((a * out_width + b) * num_channel * kernel_W) in
    let matrix_head := i32 (rn * width + cn) in
    fi ← cfor 0 num_channel 1 (λ c,
      let matrix_head_c := i32 (matrix_head + nelems_channel * c) in
      cfor 0 kernel_W 1 (λ kx '(f_matrix, res_idx_local),
        if (i32 (kx + cn) <? 0) || (width <=? i32 (kx + cn))
        then f_matrix ← bset f_matrix res_idx_local f4_zero;
             Ok (f_matrix, i32 (res_idx_local + 1))
        else v ← bget input_f (off + i32 (matrix_head_c + kx));
             f_matrix ← bset f_matrix res_idx_local v;
             Ok (f_matrix, i32 (res_idx_local + 1))))
      (f_matrix, res_idx_local);
    Ok (fst fi)) f_matrix.

(** ** conv.c: im2col_core_H, a kernel of one column

    The row of the patch matrix is computed with [out_height], not with the
    number of output columns. *)
Definition im2col_core_H `{Omp} (input_f : buf float4) (off : Z) (input_f_shape : list Z)
    (f_matrix : buf float4) (kernel_H padding_H stride : Z) : res (buf float4) :=
  num_channel ← lget input_f_shape 0;
  nelems_channel ← lget input_f_shape 1;
  width ← int_sqrt nelems_channel;
  let height := width in
  out_height ← out_size height padding_H kernel_H stride;
  require (0 <? kernel_H) OutOfBounds (  (* the array ky_offset[kernel_H] *)
  let ky_offset := (λ i, i32 (width * i)) <$> seqZ 0 kernel_H in
  rows ← omp_range (i32 (- padding_H)) (i32 (height + padding_H - kernel_H + 1)) stride;
  cols ← omp_range 0 width stride;
  omp_for (pairs rows cols) (λ '(rn, cn) f_matrix,
    a ← idiv (i32 (rn + padding_H)) stride;
    b ← idiv cn stride;
    let res_idx_local := i32 ((a * out_height + b) * num_channel * kernel_H) in
    let matrix_head := i32 (rn * width + cn) in
    fi ← cfor 0 num_channel 1 (λ c,
      let matrix_head_c := i32 (matrix_head + nelems_channel * c) in
      cfor 0 kernel_H 1 (λ ky '(f_matrix, res_idx_local),
        if (i32 (ky + rn) <? 0) || (height <=? i32 (ky + rn))
        then f_matrix ← bset f_matrix res_idx_local f4_zero;
             Ok (f_matrix, i32 (res_idx_local + 1))
        else o ← lget ky_offset ky;
             v ← bget input_f (off + i32 (matrix_head_c + o));
             f_matrix ← bset f_matrix res_idx_local v;
             Ok (f_matrix, i32 (res_idx_local + 1))))
      (f_matrix, res_idx_local);
    Ok (fst fi)) f_matrix).

(** ** matrix_op.c: the SQL function im2col(input_f, kernel, padding, stride) *)
Definition im2col (input_f : farray) (kernel_size padding stride : Z) : res farray :=
  num_channel ← ARR_DIM input_f 0;
  nelems_channel ← ARR_DIM input_f 1;
  let data := arr_data input_f in
  width ← int_sqrt nelems_channel;
  let height := width in
  out_width ← idiv (i32 (width + 2 * padding - kernel_size + 1)) stride;
  out_height ← idiv (i32 (height + 2 * padding - kernel_size + 1)) stride;
  let out_nelems := i32 (out_width * out_height * num_channel * kernel_size * kernel_size) in
  res_data ← palloc 4 out_nelems;
  ri ← cfor (i32 (- padding)) (i32 (height + padding - kernel_size + 1)) stride (λ rn,
    cfor (i32 (- padding)) (i32 (width + padding - kernel_size + 1)) stride (λ cn,
      let matrix_head := i32 (rn * width + cn) in
      cfor 0 num_channel 1 (λ c,
        let matrix_head_c := i32 (matrix_head + nelems_channel * c) in
        cfor 0 kernel_size 1 (λ ky,
          let k_offset := i32 (ky * width) in
          cfor 0 kernel_size 1 (λ kx '(res_data, res_idx),
            if (i32 (ky + rn) <? 0) || (height <=? i32 (ky + rn))
               || (i32 (kx + cn) <? 0) || (width <=? i32 (kx + cn))
            then res_data ← bset res_data res_idx f4_zero; Ok (res_data, i32 (res_idx + 1))
            else v ← bget data (i32 (matrix_head_c + k_offset + kx));
                 res_data ← bset res_data res_idx v;
                 Ok (res_data, i32 (res_idx + 1)))))))
    (res_data, 0);
  float4construct_md_array (fst ri) out_nelems 2
    [i32 (out_width * out_height); i32 (num_channel * kernel_size * kernel_size)] [1; 1]
    (elemtype input_f).

(** ** im2col.c: the timing driver's im2col_test

    It runs over a fixed [ROWS] x [COLS] feature map and relies on [calloc]ed
    memory for the cells outside the image.  [calloc] of a negative count fails
    and the function then writes through a null pointer. *)
Definition ROWS : Z := 14.
Definition COLS : Z := 1024.

Definition im2col_test (data : buf float4) (kernel_size padding stride : Z) : res (buf float4) :=
  let num_channel := ROWS in
  let nelems_channel := COLS in
  width ← int_sqrt COLS;
  let height := width in
  out_width ← idiv (i32 (width + 2 * padding - kernel_size + 1)) stride;
  out_height ← idiv (i32 (height + 2 * padding - kernel_size + 1)) stride;
  let out_nelems := i32 (out_width * out_height * num_channel * kernel_size * kernel_size) in
  require (0 <=? out_nelems) NullDeref (
  let res_data := replicate (Z.to_nat out_nelems) (Some f4_zero) in
  let channel_offsets := (λ i, i32 (nelems_channel * i)) <$> seqZ 0 num_channel in
  ri ← cfor (i32 (- padding)) (i32 (height + padding - kernel_size + 1)) stride (λ rn,
    cfor (i32 (- padding)) (i32 (width + padding - kernel_size + 1)) stride (λ cn,
      let matrix_head := i32 (rn * width + cn) in
      cfor 0 num_channel 1 (λ c ri,
        co ← lget channel_offsets c;
        let matrix_head_c := i32 (matrix_head + co) in
        cfor 0 kernel_size 1 (λ ky,
          let k_offset := i32 (ky * width) in
          cfor 0 kernel_size 1 (λ kx '(res_data, res_idx),
            if (i32 (ky + rn) <? 0) || (height <=? i32 (ky + rn))
               || (i32 (kx + cn) <? 0) || (width <=? i32 (kx + cn))
            then Ok (res_data, i32 (res_idx + 1))
            else v ← bget data (i32 (matrix_head_c + k_offset + kx));
                 res_data ← bset res_data res_idx v;
                 Ok (res_data, i32 (res_idx + 1)))) ri)))
    (res_data, 0);
  Ok (fst ri)).

(** ** What a patch matrix is

    [inp] is the feature map as a function of the element index, [n] elements
    per channel; the kernel is [kh] x [kw], the padding [ph], [pw]; there are
    [ow] output columns.  Cell [j] belongs to output position [j / (ch*kh*kw)]. *)

Definition padded (inp : Z → float4) (n h w c y x : Z) : float4 :=
  if (0 <=? y) && (y <? h) && (0 <=? x) && (x <? w) then inp (c * n + y * w + x) else f4_zero.

Definition im2col_spec (inp : Z → float4) (n h w ch kh kw ph pw stride ow : Z) (j : Z) : float4 :=
  let len := ch * (kh * kw) in
  let pos := j / len in
  let r := j mod len in
  padded inp n h w (r / (kh * kw))
    (pos / ow * stride - ph + r mod (kh * kw) / kw)
    (pos mod ow * stride - pw + r mod kw).

(** [input] holds the [m] elements of [inp] from offset [off] on. *)
Definition reads (input : buf float4) (off m : Z) (inp : Z → float4) : Prop :=
  ∀ i, 0 <= i < m → bget input (off + i) = Ok (inp i).

Lemma reads_tabulate spec total : reads (tabulate spec total) 0 total spec.
Proof. intros i Hi. rewrite Z.add_0_l. by apply bget_tabulate. Qed.

(** The mixed-radix numbering of the cells. *)
Lemma im2col_spec_cell inp n h w ch kh kw ph pw stride ow oy ox c ky kx :
  0 < kh → 0 < kw → 0 <= oy → 0 <= ox < ow → 0 <= c < ch → 0 <= ky < kh → 0 <= kx < kw →
  im2col_spec inp n h w ch kh kw ph pw stride ow
    ((oy * ow + ox) * (ch * (kh * kw)) + (c * (kh * kw) + (ky * kw + kx)))
  = padded inp n h w c (oy * stride - ph + ky) (ox * stride - pw + kx).
Proof.
  intros. unfold im2col_spec.
  assert (0 <= ky * kw + kx < kh * kw) by nia.
  assert (0 <= c * (kh * kw) + (ky * kw + kx) < ch * (kh * kw)) by nia.
  set (r := c * (kh * kw) + (ky * kw + kx)) in *.
  assert (((oy * ow + ox) * (ch * (kh * kw)) + r) / (ch * (kh * kw)) = oy * ow + ox) as ->.
  { rewrite Z.div_add_l, Z.div_small by lia. lia. }
  assert (((oy * ow + ox) * (ch * (kh * kw)) + r) mod (ch * (kh * kw)) = r) as ->.
  { rewrite Z.add_comm, Z.mod_add, Z.mod_small by lia. done. }
  unfold r. rewrite Z.div_add_l, (Z.div_small (ky * kw + kx)) by lia.
  assert ((c * (kh * kw) + (ky * kw + kx)) mod (kh * kw) = ky * kw + kx) as ->.
  { rewrite Z.add_comm, Z.mod_add, Z.mod_small by lia. done. }
  assert ((c * (kh * kw) + (ky * kw + kx)) mod kw = kx) as ->.
  { replace (c * (kh * kw) + (ky * kw + kx)) with (kx + (c * kh + ky) * kw) by ring.
    rewrite Z.mod_add, Z.mod_small by lia. done. }
  rewrite (Z.div_add_l ky), (Z.div_small kx kw) by lia.
  rewrite Z.div_add_l, (Z.div_small ox ow) by lia.
  assert ((oy * ow + ox) mod ow = ox) as ->.
  { rewrite Z.add_comm, Z.mod_add, Z.mod_small by lia. done. }
  f_equal; lia.
Qed.

(** A strided loop over a padded axis runs once per output position. *)
Lemma trips_out size p k s :
  0 < s → 0 <= size + 2 * p - k → trips (- p) (size + p - k + 1) s = (size + 2 * p - k) / s + 1.
Proof.
  intros. unfold trips. rewrite (proj2 (Z.ltb_lt 0 s)) by lia.
  replace (size + p - k + 1 - - p + s - 1) with (size + 2 * p - k + 1 * s) by ring.
  rewrite Z.div_add by lia.
  assert (0 <= (size + 2 * p - k) / s) by (apply Z.div_pos; lia). lia.
Qed.

Lemma out_size_ok size p k s :
  0 < s → 0 <= size + 2 * p - k → size + 2 * p - k < int_max →
  out_size size p k s = Ok ((size + 2 * p - k) / s + 1).
Proof.
  intros. unfold out_size.
  assert (is_int (size + 2 * p - k)) by (unfold is_int, int_min; lia).
  rewrite i32_id, idiv_pos by done. simpl.
  assert (0 <= (size + 2 * p - k) / s <= size + 2 * p - k).
  { split; [apply Z.div_pos; lia|]. apply Z.div_le_upper_bound; nia. }
  rewrite i32_id by (unfold is_int, int_min, int_max in *; lia). done.
Qed.

Lemma mul_le_l a b : 0 < a → 0 <= b → b <= a * b.
Proof. nia. Qed.

(** [size + 2p - k] over [s], plus one, output positions along a padded axis. *)
Lemma out_pos size p k s : 0 < s → k <= size + 2 * p → 0 < (size + 2 * p - k) / s + 1.
Proof. intros. pose proof (Z.div_pos (size + 2 * p - k) s). lia. Qed.

Lemma axis_bound size p k s a :
  0 < s → 0 <= a < (size + 2 * p - k) / s + 1 → 0 <= a * s <= size + 2 * p - k.
Proof.
  intros Hs Ha. pose proof (Z.mul_div_le (size + 2 * p - k) s Hs). nia.
Qed.

(** ** Loop nests that fill consecutive cells *)
Lemma nest2_fill {E} (spec : Z → E) c1 c2 cell (f : buf E) base :
  0 <= c1 <= int_max → 0 <= c2 <= int_max →
  (∀ i j f', 0 <= i < c1 → 0 <= j < c2 → zlen f' = zlen f →
    let idx := base + (i * c2 + j) in
    cell i j (f', idx) = Ok (fill spec idx 1 f', idx + 1)) →
  cfor 0 c1 1 (λ i, cfor 0 c2 1 (λ j, cell i j)) (f, base)
  = Ok (fill spec base (c1 * c2) f, base + c1 * c2).
Proof.
  intros Hc1 Hc2 Hcell. rewrite (cfor_fill spec c1 _ f _ c2); [done|lia|lia|].
  intros i f1 Hi Hf1. cbv beta.
  rewrite (cfor_fill spec c2 _ f1 _ 1); rewrite ?Z.mul_1_r; [done|lia|lia|].
  intros j f2 Hj Hf2. rewrite Z.mul_1_r.
  specialize (Hcell i j f2 Hi Hj ltac:(lia)). cbv zeta in Hcell.
  by rewrite Z.add_assoc in Hcell.
Qed.

Lemma nest3_fill {E} (spec : Z → E) c1 c2 c3 cell (f : buf E) base :
  0 <= c1 <= int_max → 0 <= c2 <= int_max → 0 <= c3 <= int_max →
  (∀ i j k f', 0 <= i < c1 → 0 <= j < c2 → 0 <= k < c3 → zlen f' = zlen f →
    let idx := base + (i * (c2 * c3) + (j * c3 + k)) in
    cell i j k (f', idx) = Ok (fill spec idx 1 f', idx + 1)) →
  cfor 0 c1 1 (λ i, cfor 0 c2 1 (λ j, cfor 0 c3 1 (λ k, cell i j k))) (f, base)
  = Ok (fill spec base (c1 * (c2 * c3)) f, base + c1 * (c2 * c3)).
Proof.
  intros Hc1 Hc2 Hc3 Hcell. rewrite (cfor_fill spec c1 _ f _ (c2 * c3)); [done|lia|nia|].
  intros i f1 Hi Hf1. cbv beta. apply nest2_fill; [done..|].
  intros j k f2 Hj Hk Hf2. cbv zeta.
  specialize (Hcell i j k f2 Hi Hj Hk ltac:(lia)). cbv zeta in Hcell.
  by rewrite Z.add_assoc in Hcell.
Qed.

(** ** The elements under a kernel window *)
Section window.
  Context (inp : Z → float4) (n h w ch kh kw ph pw s oh ow : Z).
  Context (Hhw : 0 <= w) (Hn : h * w <= n) (Hkh : 0 < kh) (Hkw : 0 < kw).
  Context (Hin : ch * n <= int_max).

Let spec : Z → float4 := im2col_spec inp n h w ch kh kw ph pw s ow.
Let cell (a b c ky kx : Z) : Z :=
    (a * ow + b) * (ch * (kh * kw)) + (c * (kh * kw) + (ky * kw + kx)).

Lemma window_in_image input off a b c ky kx :
  reads input off (ch * n) inp →
  0 <= a → 0 <= b < ow → 0 <= c < ch → 0 <= ky < kh → 0 <= kx < kw →
  0 <= ky + (- ph + a * s) < h → 0 <= kx + (- pw + b * s) < w →
  bget input (off + i32 (c * n + (ky + (- ph + a * s)) * w + (kx + (- pw + b * s))))
  = Ok (spec (cell a b c ky kx)).
Proof.
  intros Hr Ha Hb Hc Hky Hkx Hy Hx.
  unfold spec, cell. rewrite im2col_spec_cell by lia. unfold padded.
  replace (a * s - ph + ky) with (ky + (- ph + a * s)) by ring.
  replace (b * s - pw + kx) with (kx + (- pw + b * s)) by ring.
  replace (_ && _ && _ && _) with true by lia.
  set (y := ky + (- ph + a * s)) in *. set (x := kx + (- pw + b * s)) in *.
  assert (0 <= y * w + x < h * w) by nia.
  assert (0 <= c * n + y * w + x < ch * n) by nia.
  rewrite i32_id by int_solve. by apply Hr.
Qed.

Lemma window_outside a b c ky kx :
  0 <= a → 0 <= b < ow → 0 <= c < ch → 0 <= ky < kh → 0 <= kx < kw →
  (ky + (- ph + a * s) < 0 ∨ h <= ky + (- ph + a * s)
   ∨ kx + (- pw + b * s) < 0 ∨ w <= kx + (- pw + b * s)) →
  f4_zero = spec (cell a b c ky kx).
Proof.
  intros Ha Hb Hc Hky Hkx Hout.
  unfold spec, cell. rewrite im2col_spec_cell by lia. unfold padded.
  replace (a * s - ph + ky) with (ky + (- ph + a * s)) by ring.
  replace (b * s - pw + kx) with (kx + (- pw + b * s)) by ring.
  by replace (_ && _ && _ && _) with false by lia.
Qed.

(** Storing the element under a window cell, or zero outside the image. *)
Lemma window_store input off f a b c ky kx :
  reads input off (ch * n) inp → oh * ow * (ch * (kh * kw)) <= zlen f →
  oh * ow * (ch * (kh * kw)) <= int_max →
  0 <= a < oh → 0 <= b < ow → 0 <= c < ch → 0 <= ky < kh → 0 <= kx < kw →
  let y := ky + (- ph + a * s) in
  let x := kx + (- pw + b * s) in
  (if (y <? 0) || (h <=? y) || (x <? 0) || (w <=? x)
   then f' ← bset f (cell a b c ky kx) f4_zero; Ok (f', i32 (cell a b c ky kx + 1))
   else v ← bget input (off + i32 (c * n + y * w + x));
        f' ← bset f (cell a b c ky kx) v; Ok (f', i32 (cell a b c ky kx + 1)))
  = Ok (fill spec (cell a b c ky kx) 1 f, cell a b c ky kx + 1).
Proof.
  intros Hr Hf Hmax Ha Hb Hc Hky Hkx y x.
  assert (0 <= cell a b c ky kx < oh * ow * (ch * (kh * kw))).
  { unfold cell. assert (0 <= ky * kw + kx < kh * kw) by nia.
    assert (0 <= c * (kh * kw) + (ky * kw + kx) < ch * (kh * kw)) by nia.
    assert (0 <= a * ow + b < oh * ow) by nia. nia. }
  destruct (_ || _) eqn:Hg.
  - apply store_step; [|lia..]. apply window_outside; lia.
  - unfold y, x. rewrite window_in_image by (done || lia).
    cbn [mbind res_bind]. apply store_step; [done|lia..].
Qed.

End window.

(** The sizes of a patch matrix that fits in an [int] buffer are [int]s. *)
Lemma sizes_int oh ow ch m :
  0 < oh → 0 < ow → 0 <= ch → 0 < m → oh * ow * (ch * m) <= int_max → ch * m <= int_max ∧ ch <= int_max.
Proof.
  intros ???? Hle. pose proof (mul_le_l (oh * ow) (ch * m) ltac:(nia) ltac:(nia)).
  pose proof (mul_le_l m ch ltac:(done) ltac:(done)). lia.
Qed.

(** The number of output rows (and columns) of a square convolution. *)
Definition out_dim (n k p s : Z) : Z := (Z.sqrt n + 2 * p - k) / s + 1.

(** A feature map of [ch] channels of [n] elements and a [kh] x [kw] kernel that
    fits the padded image, with the sizes of input and patch matrix inside [int]. *)
Record geometry_ok (n ch kh kw ph pw s : Z) : Prop := {
  g_n : 0 <= n;
  g_ch : 0 <= ch;
  g_kh : 0 < kh;
  g_kw : 0 < kw;
  g_ph : 0 <= ph;
  g_pw : 0 <= pw;
  g_s : 0 < s;
  g_fith : kh <= Z.sqrt n + 2 * ph;
  g_fitw : kw <= Z.sqrt n + 2 * pw;
  g_inth : Z.sqrt n + 2 * ph + s < int_max;
  g_intw : Z.sqrt n + 2 * pw + s < int_max;
  g_in : ch * n <= int_max;
  g_total : out_dim n kh ph s * out_dim n kw pw s * (ch * (kh * kw)) <= int_max
}.

Lemma out_dim_pos n k p s : 0 < s → k <= Z.sqrt n + 2 * p → 0 < out_dim n k p s.
Proof. apply out_pos. Qed.

(** [(size + 2p - k + 1) / s], which [im2col] and [group_kfm_im2col] allocate for,
    is the number of positions when the stride divides it. *)
Lemma exact_size n k p s :
  0 < s → (Z.sqrt n + 2 * p - k + 1) mod s = 0 → (Z.sqrt n + 2 * p - k + 1) / s = out_dim n k p s.
Proof.
  intros Hs Hdiv. unfold out_dim. apply Z.mod_divide in Hdiv as [q Hq]; [|lia].
  rewrite Hq, Z.div_mul by lia.
  replace (Z.sqrt n + 2 * p - k) with (q * s - 1) by lia.
  replace (q * s - 1) with (s - 1 + (q - 1) * s) by ring.
  rewrite Z.div_add, Z.div_small by lia. lia.
Qed.

(** Output positions and the loop counters that stand for them. *)
Definition position_base (ow p1 p2 s len : Z) (it : Z * Z) : Z :=
  ((it.1 + p1) / s * ow + (it.2 + p2) / s) * len.

Lemma position_base_at ow p1 p2 s len a b :
  0 < s → position_base ow p1 p2 s len (- p1 + a * s, - p2 + b * s) = (a * ow + b) * len.
Proof.
  intros. unfold position_base. simpl.
  replace (- p1 + a * s + p1) with (a * s) by ring.
  replace (- p2 + b * s + p2) with (b * s) by ring.
  by rewrite !Z.div_mul by lia.
Qed.

(** Every cell belongs to the part of some position. *)
Lemma positions_cover oh ow p1 p2 s len rows cols j :
  0 < s → 0 <= oh → 0 <= ow → 0 <= len → 0 <= j < oh * ow * len →
  (∀ a, 0 <= a < oh → - p1 + a * s ∈ rows) → (∀ b, 0 <= b < ow → - p2 + b * s ∈ cols) →
  ∃ it, it ∈ pairs rows cols ∧
    position_base ow p1 p2 s len it <= j < position_base ow p1 p2 s len it + len.
Proof.
  intros Hs Hoh How Hlen Hj Hrows Hcols.
  assert (0 < len) by nia. assert (0 < ow) by nia.
  pose proof (Z.div_mod j len ltac:(lia)) as Hjd.
  pose proof (Z.mod_pos_bound j len ltac:(lia)) as Hjm.
  assert (0 <= j / len < oh * ow) as Hpos.
  { split; [apply Z.div_pos; lia|]. apply Z.div_lt_upper_bound; lia. }
  set (pos := j / len) in *.
  pose proof (Z.div_mod pos ow ltac:(lia)) as Hpd.
  pose proof (Z.mod_pos_bound pos ow ltac:(lia)) as Hpm.
  assert (0 <= pos / ow < oh).
  { split; [apply Z.div_pos; lia|]. apply Z.div_lt_upper_bound; lia. }
  exists (- p1 + pos / ow * s, - p2 + pos mod ow * s). split.
  { apply elem_of_pairs. auto. }
  rewrite position_base_at by done.
  replace (pos / ow * ow + pos mod ow) with pos by lia. lia.
Qed.

(** The counters of a strided loop over a padded axis. *)
Definition counters (l : list Z) (p s m : Z) : Prop :=
  ∀ i, i ∈ l ↔ ∃ a, i = - p + a * s ∧ 0 <= a < m.

Lemma counters_out size p k s :
  0 < s → 0 <= size + 2 * p - k →
  counters (range (- p) (size + p - k + 1) s) p s ((size + 2 * p - k) / s + 1).
Proof. intros ?? i. by rewrite elem_of_range, trips_out. Qed.

(** A parallel loop over output positions that each fill their own cells. *)
Lemma omp_positions `{Omp} spec oh ow p1 p2 s len rows cols body (f : buf float4) :
  0 < s → 0 <= oh → 0 <= ow → 0 <= len →
  counters rows p1 s oh → counters cols p2 s ow →
  (∀ a b f', 0 <= a < oh → 0 <= b < ow → zlen f' = zlen f →
     body (- p1 + a * s, - p2 + b * s) f' = Ok (fill spec ((a * ow + b) * len) len f')) →
  omp_for (pairs rows cols) body f = Ok (fill spec 0 (oh * ow * len) f).
Proof.
  intros Hs Hoh How Hlen Hrows Hcols Hbody.
  apply (foldM_fill_region spec (position_base ow p1 p2 s len) len).
  - intros [rn cn] f' Hit Hf'. rewrite omp_order_perm in Hit. apply elem_of_pairs in Hit as [Hrn Hcn].
    apply Hrows in Hrn as (a & -> & Ha). apply Hcols in Hcn as (b & -> & Hb).
    rewrite position_base_at by done. by apply Hbody.
  - intros j. setoid_rewrite omp_order_perm. rewrite Z.add_0_l. split.
    + intros Hj. apply (positions_cover oh); try done.
      * intros a Ha. apply Hrows. by exists a.
      * intros a Ha. apply Hcols. by exists a.
    + intros ([rn cn] & [Hrn Hcn]%elem_of_pairs & Hj).
      apply Hrows in Hrn as (a & -> & Ha). apply Hcols in Hcn as (b & -> & Hb).
      rewrite position_base_at in Hj by done.
      assert (0 <= a * ow + b < oh * ow) by nia. nia.
Qed.

(** Two reads of the same element, written with different conversions. *)
Ltac same_read :=
  match goal with
  | |- bget _ (_ + ?a) ≫= _ = bget _ (_ + ?b) ≫= _ => assert (a = b) as -> by i32_ring
  end; done.

(** The body of the parallel loops of [im2col_core], with and without the test
    for the image border. *)
Lemma im2col_core_body inp input_f off n ch k p s f (cell : Z → Z → Z → buf float4 * Z → res (buf float4 * Z)) a b :
  geometry_ok n ch k k p p s →
  out_dim n k p s * out_dim n k p s * (ch * (k * k)) <= zlen f →
  reads input_f off (ch * n) inp →
  0 <= a < out_dim n k p s → 0 <= b < out_dim n k p s →
  (∀ c ky kx f' idx, 0 <= c < ch → 0 <= ky < k → 0 <= kx < k →
    let y := ky + (- p + a * s) in
    let x := kx + (- p + b * s) in
    cell c ky kx (f', idx) =
      (if (y <? 0) || (Z.sqrt n <=? y) || (x <? 0) || (Z.sqrt n <=? x)
       then f' ← bset f' idx f4_zero; Ok (f', i32 (idx + 1))
       else v ← bget input_f (off + i32 (c * n + y * Z.sqrt n + x));
            f' ← bset f' idx v; Ok (f', i32 (idx + 1)))) →
  (a' ← idiv (i32 (- p + a * s + p)) s;
   b' ← idiv (i32 (- p + b * s + p)) s;
   fi ← cfor 0 ch 1 (λ c, cfor 0 k 1 (λ ky, cfor 0 k 1 (λ kx, cell c ky kx)))
     (f, i32 ((a' * out_dim n k p s + b') * ch * k * k));
   Ok (fst fi))
  = Ok (fill (im2col_spec inp n (Z.sqrt n) (Z.sqrt n) ch k k p p s (out_dim n k p s))
          ((a * out_dim n k p s + b) * (ch * (k * k))) (ch * (k * k)) f).
Proof.
  intros [Hn Hch Hk _ Hp _ Hs Hfit _ Hint _ Hin Htot] Hf Hr Ha Hb Hcell.
  pose proof (Z.sqrt_nonneg n) as Hw0. pose proof (Z.sqrt_spec n Hn) as [Hsq _].
  pose proof (axis_bound _ _ _ _ a Hs Ha) as Hab. pose proof (axis_bound _ _ _ _ b Hs Hb) as Hbb.
  replace (- p + a * s + p) with (a * s) by ring.
  replace (- p + b * s + p) with (b * s) by ring.
  rewrite !i32_id, !idiv_pos, !Z.div_mul by int_solve. cbn [mbind res_bind].
  set (ow := out_dim n k p s) in *.
  replace ((a * ow + b) * ch * k * k) with ((a * ow + b) * (ch * (k * k))) by ring.
  destruct (sizes_int ow ow ch (k * k)); [lia|lia|done|nia|done|].
  assert (0 <= (a * ow + b) * (ch * (k * k)) <= ow * ow * (ch * (k * k))).
  { assert (0 <= a * ow + b <= ow * ow) by nia. split; [nia|].
    apply Z.mul_le_mono_nonneg_r; nia. }
  rewrite i32_id by int_solve. 
  rewrite (nest3_fill (im2col_spec inp n (Z.sqrt n) (Z.sqrt n) ch k k p p s ow));
    [done|lia|int_solve|int_solve|].
  intros c ky kx f' Hc Hky Hkx Hf'. cbv zeta. rewrite Hcell by done.
  apply (window_store inp n (Z.sqrt n) (Z.sqrt n) ch k k p p s ow ow); try done; unfold ow; lia.
Qed.

Lemma im2col_core_computes `{Omp} inp input_f off n ch k p s f_matrix :
  geometry_ok n ch k k p p s →
  reads input_f off (ch * n) inp →
  out_dim n k p s * out_dim n k p s * (ch * (k * k)) <= zlen f_matrix →
  im2col_core input_f off [ch; n] f_matrix k p s
  = Ok (fill (im2col_spec inp n (Z.sqrt n) (Z.sqrt n) ch k k p p s (out_dim n k p s))
          0 (out_dim n k p s * out_dim n k p s * (ch * (k * k))) f_matrix).
Proof.
  intros Hok Hr Hf. pose proof Hok as [Hn Hch Hk _ Hp _ Hs Hfit _ Hint _ Hin Htot].
  pose proof (out_dim_pos n k p s Hs Hfit) as How.
  pose proof (Z.sqrt_nonneg n) as Hw0. unfold im2col_core.
  change (lget [ch; n] 0) with (Ok ch). change (lget [ch; n] 1) with (Ok n).
  cbn [mbind res_bind]. unfold int_sqrt. rewrite require_true by lia. cbn [mbind res_bind].
  rewrite out_size_ok by lia. cbn [mbind res_bind]. rewrite require_true by lia.
  fold (out_dim n k p s). 
  assert (∀ a, 0 <= a < out_dim n k p s → 0 <= a * s <= Z.sqrt n + 2 * p - k) as Haxis.
  { intros a. by apply axis_bound. }
  assert (0 <= ch * (k * k)) by nia.
  destruct (Z.eqb_spec p 0) as [->|Hp0]; cbn [negb].
  - replace (Z.sqrt n - k + 1) with (Z.sqrt n + 0 - k + 1) by ring.
    rewrite !(i32_id (Z.sqrt n + 0 - k + 1)) by int_solve.
    change (omp_range 0) with (omp_range (- 0)).
    rewrite !omp_range_ok by done. cbn [mbind res_bind].
    eapply (omp_positions _ (out_dim n k 0 s) (out_dim n k 0 s) 0 0);
      [exact Hs|lia|lia| |by apply counters_out; lia..|]; [lia|].
    intros a b f' Ha Hb Hf'. eapply im2col_core_body; eauto; [lia|].
    intros c ky kx f1 idx Hc Hky Hkx. cbv zeta.
    pose proof (Haxis a Ha). pose proof (Haxis b Hb).
    rewrite lget_table by done. cbn [mbind res_bind].
    replace (_ || _) with false by lia. same_read.
  - rewrite !(i32_id (- p)), !(i32_id (Z.sqrt n + p - k + 1)) by int_solve.
    rewrite !omp_range_ok by done. cbn [mbind res_bind].
    eapply (omp_positions _ (out_dim n k p s) (out_dim n k p s) p p);
      [exact Hs|lia|lia| |by apply counters_out; lia..|]; [lia|].
    intros a b f' Ha Hb Hf'. eapply im2col_core_body; eauto; [lia|].
    intros c ky kx f1 idx Hc Hky Hkx. cbv zeta.
    pose proof (Haxis a Ha). pose proof (Haxis b Hb).
    rewrite !i32_id by int_solve.
    rewrite lget_table by done. cbn [mbind res_bind].
    destruct (_ || _); [done|]. same_read.
Qed.

(** The body of [im2col_core_W] and [im2col_core_H]: channels, then the kernel's
    one axis. *)
Lemma im2col_line_body inp n ch kh kw ph pw s oh ow m f cell a b :
  geometry_ok n ch kh kw ph pw s → kh * kw = m →
  oh = out_dim n kh ph s → ow = out_dim n kw pw s →
  oh * ow * (ch * m) <= zlen f → 0 <= a < oh → 0 <= b < ow →
  (∀ c i f', 0 <= c < ch → 0 <= i < m → zlen f' = zlen f →
     let idx := (a * ow + b) * (ch * m) + (c * m + i) in
     cell c i (f', idx) = Ok (fill (im2col_spec inp n (Z.sqrt n) (Z.sqrt n) ch kh kw ph pw s ow) idx 1 f', idx + 1)) →
  (fi ← cfor 0 ch 1 (λ c, cfor 0 m 1 (λ i, cell c i)) (f, i32 ((a * ow + b) * ch * m)); Ok (fst fi))
  = Ok (fill (im2col_spec inp n (Z.sqrt n) (Z.sqrt n) ch kh kw ph pw s ow)
          ((a * ow + b) * (ch * m)) (ch * m) f).
Proof.
  intros [Hn Hch Hkh Hkw ? ? Hs ? ? ? ? Hin Htot] Hm Hoh How Hf Ha Hb Hcell.
  rewrite <-Hoh, <-How, Hm in Htot.
  replace ((a * ow + b) * ch * m) with ((a * ow + b) * (ch * m)) by ring.
  assert (0 < m) by (rewrite <-Hm; by apply Z.mul_pos_pos).
  destruct (sizes_int oh ow ch m); [lia|lia|done|done|done|].
  assert (0 <= (a * ow + b) * (ch * m) <= oh * ow * (ch * m)).
  { assert (0 <= a * ow + b <= oh * ow) by nia. split; [nia|].
    apply Z.mul_le_mono_nonneg_r; nia. }
  rewrite i32_id by int_solve.
  destruct (decide (ch = 0)) as [->|].
  { rewrite cfor_skip by lia. simpl. unfold fill. by rewrite upd_nil by lia. }
  rewrite (nest2_fill (im2col_spec inp n (Z.sqrt n) (Z.sqrt n) ch kh kw ph pw s ow));
    [done|lia| |done]. pose proof (mul_le_l ch m). nia.
Qed.

Lemma im2col_core_W_computes `{Omp} inp input_f off n ch kw pw s f_matrix :
  geometry_ok n ch 1 kw 0 pw s →
  reads input_f off (ch * n) inp →
  out_dim n 1 0 s * out_dim n kw pw s * (ch * kw) <= zlen f_matrix →
  im2col_core_W input_f off [ch; n] f_matrix kw pw s
  = Ok (fill (im2col_spec inp n (Z.sqrt n) (Z.sqrt n) ch 1 kw 0 pw s (out_dim n kw pw s))
          0 (out_dim n 1 0 s * out_dim n kw pw s * (ch * kw)) f_matrix).
Proof.
  intros Hok Hr Hf. pose proof Hok as [Hn Hch _ Hk _ Hp Hs Hfit1 Hfit _ Hint Hin Htot].
  pose proof (out_dim_pos n 1 0 s Hs Hfit1). pose proof (out_dim_pos n kw pw s Hs Hfit).
  pose proof (Z.sqrt_nonneg n) as Hw0. pose proof (Z.sqrt_spec n Hn) as [Hsq _].
  unfold im2col_core_W.
  change (lget [ch; n] 0) with (Ok ch). change (lget [ch; n] 1) with (Ok n).
  cbn [mbind res_bind]. unfold int_sqrt. rewrite require_true by lia. cbn [mbind res_bind].
  rewrite out_size_ok by lia. fold (out_dim n kw pw s). cbn [mbind res_bind].
  rewrite !(i32_id (- pw)), !(i32_id (Z.sqrt n + pw - kw + 1)) by int_solve.
  rewrite !omp_range_ok by done. cbn [mbind res_bind].
  replace (range 0 (Z.sqrt n) s) with (range (- 0) (Z.sqrt n + 0 - 1 + 1) s) by (f_equal; lia).
  eapply (omp_positions _ (out_dim n 1 0 s)); [exact Hs| | | |by apply counters_out; lia..|]; [lia|lia|nia|].
  intros a b f' Ha Hb Hf'.
  pose proof (axis_bound _ _ _ _ a Hs Ha). pose proof (axis_bound _ _ _ _ b Hs Hb).
  replace (- 0 + a * s) with (a * s) by ring.
  replace (- pw + b * s + pw) with (b * s) by ring.
  rewrite (i32_id (b * s)), !idiv_pos, !Z.div_mul by int_solve. cbn [mbind res_bind].
  eapply (im2col_line_body inp n ch 1 kw 0 pw s (out_dim n 1 0 s)); eauto; [lia|lia|].
  intros c kx f1 Hc Hkx Hf1. cbv zeta.
  pose proof (window_store inp n (Z.sqrt n) (Z.sqrt n) ch 1 kw 0 pw s (out_dim n 1 0 s)
    (out_dim n kw pw s) Hw0 ltac:(lia) ltac:(lia) Hk Hin input_f off f1 a b c 0 kx) as Hw.
  rewrite !Z.mul_1_l in Hw. rewrite Z.mul_0_l, !Z.add_0_l in Hw. cbv zeta in Hw.
  rewrite <-Hw by (done || lia). clear Hw.
  rewrite !i32_id by int_solve.
  replace ((a * s <? 0) || (Z.sqrt n <=? a * s)) with false by lia. cbn [orb].
  destruct (_ || _); [done|]. same_read.
Qed.

(** [im2col_core_H] numbers the output positions with the output height.  It is
    correct when that is also the number of output columns, which holds for the
    padding that keeps the size of the image. *)
Lemma im2col_core_H_computes `{Omp} inp input_f off n ch kh ph s f_matrix :
  geometry_ok n ch kh 1 ph 0 s →
  out_dim n kh ph s = out_dim n 1 0 s →
  reads input_f off (ch * n) inp →
  out_dim n kh ph s * out_dim n 1 0 s * (ch * kh) <= zlen f_matrix →
  im2col_core_H input_f off [ch; n] f_matrix kh ph s
  = Ok (fill (im2col_spec inp n (Z.sqrt n) (Z.sqrt n) ch kh 1 ph 0 s (out_dim n 1 0 s))
          0 (out_dim n kh ph s * out_dim n 1 0 s * (ch * kh)) f_matrix).
Proof.
  intros Hok Hsame Hr Hf. pose proof Hok as [Hn Hch Hk _ Hp _ Hs Hfit Hfit1 Hint _ Hin Htot].
  pose proof (out_dim_pos n 1 0 s Hs Hfit1). pose proof (out_dim_pos n kh ph s Hs Hfit).
  pose proof (Z.sqrt_nonneg n) as Hw0. pose proof (Z.sqrt_spec n Hn) as [Hsq _].
  unfold im2col_core_H.
  change (lget [ch; n] 0) with (Ok ch). change (lget [ch; n] 1) with (Ok n).
  cbn [mbind res_bind]. unfold int_sqrt. rewrite require_true by lia. cbn [mbind res_bind].
  rewrite out_size_ok by lia. fold (out_dim n kh ph s). cbn [mbind res_bind].
  rewrite require_true by lia.
  rewrite !(i32_id (- ph)), !(i32_id (Z.sqrt n + ph - kh + 1)) by int_solve.
  rewrite !omp_range_ok by done. cbn [mbind res_bind].
  replace (range 0 (Z.sqrt n) s) with (range (- 0) (Z.sqrt n + 0 - 1 + 1) s) by (f_equal; lia).
  eapply (omp_positions _ (out_dim n kh ph s)); [exact Hs| | | |by apply counters_out; lia..|]; [lia|lia|nia|].
  intros a b f' Ha Hb Hf'.
  pose proof (axis_bound _ _ _ _ a Hs Ha). pose proof (axis_bound _ _ _ _ b Hs Hb).
  replace (- 0 + b * s) with (b * s) by ring.
  replace (- ph + a * s + ph) with (a * s) by ring.
  rewrite (i32_id (a * s)), !idiv_pos, !Z.div_mul by int_solve. cbn [mbind res_bind].
  rewrite Hsame.
  eapply (im2col_line_body inp n ch kh 1 ph 0 s (out_dim n kh ph s)); eauto; [lia|lia|].
  intros c ky f1 Hc Hky Hf1. cbv zeta.
  pose proof (window_store inp n (Z.sqrt n) (Z.sqrt n) ch kh 1 ph 0 s (out_dim n kh ph s)
    (out_dim n 1 0 s) Hw0 ltac:(lia) Hk ltac:(lia) Hin input_f off f1 a b c ky 0) as Hw.
  rewrite !Z.mul_1_r in Hw. rewrite Z.add_0_r, !Z.add_0_l in Hw. cbv zeta in Hw.
  rewrite <-Hw by (done || lia). clear Hw.
  rewrite lget_table by done. rewrite !i32_id by int_solve. cbn [mbind res_bind].
  replace (_ || _ || (b * s <? 0) || (Z.sqrt n <=? b * s))
    with ((ky + (- ph + a * s) <? 0) || (Z.sqrt n <=? ky + (- ph + a * s))) by lia.
  destruct (_ || _); [done|]. same_read.
Qed.

(** ** The sequential kernels *)

(** Two strided loops that fill position after position through one index. *)
Lemma seq_positions (spec : Z → float4) base lo1 hi1 lo2 hi2 s len body f :
  0 < s → 0 <= len → is_int lo1 → is_int lo2 → hi1 + s <= int_max + 1 → hi2 + s <= int_max + 1 →
  (∀ a b f', 0 <= a < trips lo1 hi1 s → 0 <= b < trips lo2 hi2 s → zlen f' = zlen f →
     let idx := base + (a * trips lo2 hi2 s + b) * len in
     body (lo1 + a * s) (lo2 + b * s) (f', idx) = Ok (fill spec idx len f', idx + len)) →
  cfor lo1 hi1 s (λ rn, cfor lo2 hi2 s (λ cn, body rn cn)) (f, base)
  = Ok (fill spec base (trips lo1 hi1 s * (trips lo2 hi2 s * len)) f,
        base + trips lo1 hi1 s * (trips lo2 hi2 s * len)).
Proof.
  intros Hs Hlen Hl1 Hl2 Hh1 Hh2 Hbody. pose proof (trips_nonneg lo2 hi2 s).
  rewrite (cfor_upd (λ j _, Some (spec j)) lo1 hi1 s _ f base (trips lo2 hi2 s * len));
    [done|done|done|done|nia|].
  intros a f1 Ha ->. cbv beta.
  rewrite (cfor_upd (λ j _, Some (spec j)) lo2 hi2 s _ _ _ len); [done..|].
  intros b f2 Hb ->.
  match goal with |- body _ _ (?f2, _) = _ =>
    specialize (Hbody a b f2 Ha Hb ltac:(by rewrite !zlen_upd)) end.
  cbv zeta in Hbody.
  replace (base + (a * trips lo2 hi2 s + b) * len) with (base + a * (trips lo2 hi2 s * len) + b * len)
    in Hbody by ring. exact Hbody.
Qed.

(** ** The kernels compute patch matrices *)

(** [m] has one row per output position; row [(oy, ox)] lists, channel by channel
    and in row-major order, the inputs under the window whose corner is
    [(oy * s - ph, ox * s - pw)]. *)
Definition is_patch_matrix (inp : Z → float4) (n ch kh kw ph pw s : Z) (m : buf float4) : Prop :=
  let oh := out_dim n kh ph s in
  let ow := out_dim n kw pw s in
  zlen m = oh * ow * (ch * (kh * kw)) ∧
  ∀ oy ox c ky kx, 0 <= oy < oh → 0 <= ox < ow → 0 <= c < ch → 0 <= ky < kh → 0 <= kx < kw →
    bget m ((oy * ow + ox) * (ch * (kh * kw)) + (c * (kh * kw) + (ky * kw + kx)))
    = Ok (padded inp n (Z.sqrt n) (Z.sqrt n) c (oy * s - ph + ky) (ox * s - pw + kx)).

Lemma tabulate_patch_matrix inp n ch kh kw ph pw s :
  geometry_ok n ch kh kw ph pw s →
  is_patch_matrix inp n ch kh kw ph pw s
    (tabulate (im2col_spec inp n (Z.sqrt n) (Z.sqrt n) ch kh kw ph pw s (out_dim n kw pw s))
       (out_dim n kh ph s * out_dim n kw pw s * (ch * (kh * kw)))).
Proof.
  intros [Hn Hch Hkh Hkw _ _ Hs Hfh Hfw _ _ _ _].
  pose proof (out_dim_pos n kh ph s Hs Hfh). pose proof (out_dim_pos n kw pw s Hs Hfw).
  unfold is_patch_matrix. set (oh := out_dim n kh ph s) in *. set (ow := out_dim n kw pw s) in *.
  assert (0 < kh * kw) by (by apply Z.mul_pos_pos).
  assert (0 <= ch * (kh * kw)) by (by apply Z.mul_nonneg_nonneg; lia).
  split; [apply zlen_tabulate; nia|]. intros oy ox c ky kx Hoy Hox Hc Hky Hkx.
  rewrite bget_tabulate; [rewrite im2col_spec_cell by lia; done|].
  assert (0 <= ky * kw + kx < kh * kw) by nia.
  assert (0 <= c * (kh * kw) + (ky * kw + kx) < ch * (kh * kw)) by nia.
  assert (0 <= oy * ow + ox < oh * ow) by nia. nia.
Qed.

(** C20: [im2col_core] (conv.c) terminates, accesses memory only inside its
    buffers, overwrites all of [f_matrix] and leaves the patch matrix of the
    feature map there, zeros where the window leaves the image, for every order
    in which OpenMP runs the iterations of the collapsed loop. *)
Theorem im2col_core_correct `{Omp} inp input_f off n ch k p s f_matrix :
  geometry_ok n ch k k p p s →
  reads input_f off (ch * n) inp →
  zlen f_matrix = out_dim n k p s * out_dim n k p s * (ch * (k * k)) →
  ∃ m, im2col_core input_f off [ch; n] f_matrix k p s = Ok m
       ∧ is_patch_matrix inp n ch k k p p s m.
Proof.
  intros Hok Hr Hf. eexists. split; [apply im2col_core_computes; [done..|lia]|].
  rewrite <-Hf, fill_all, Hf. by apply tabulate_patch_matrix.
Qed.

(** [im2col_core_W] (conv.c) computes the patch matrix of a kernel of one
    row, padded to the left and right only, under every OpenMP schedule. *)
Theorem im2col_core_W_correct `{Omp} inp input_f off n ch kw pw s f_matrix :
  geometry_ok n ch 1 kw 0 pw s →
  reads input_f off (ch * n) inp →
  zlen f_matrix = out_dim n 1 0 s * out_dim n kw pw s * (ch * kw) →
  ∃ m, im2col_core_W input_f off [ch; n] f_matrix kw pw s = Ok m
       ∧ is_patch_matrix inp n ch 1 kw 0 pw s m.
Proof.
  intros Hok Hr Hf. eexists. split; [apply im2col_core_W_computes; [done..|lia]|].
  rewrite <-Hf, fill_all, Hf. pose proof (tabulate_patch_matrix inp _ _ _ _ _ _ _ Hok) as Hm.
  by rewrite Z.mul_1_l in Hm.
Qed.

(** [im2col_core_H] (conv.c) computes the patch matrix of a kernel of one
    column under every OpenMP schedule, provided that the output has as many rows
    as columns, since it numbers the output positions with the output height. *)
Theorem im2col_core_H_correct `{Omp} inp input_f off n ch kh ph s f_matrix :
  geometry_ok n ch kh 1 ph 0 s →
  out_dim n kh ph s = out_dim n 1 0 s →
  reads input_f off (ch * n) inp →
  zlen f_matrix = out_dim n kh ph s * out_dim n 1 0 s * (ch * kh) →
  ∃ m, im2col_core_H input_f off [ch; n] f_matrix kh ph s = Ok m
       ∧ is_patch_matrix inp n ch kh 1 ph 0 s m.
Proof.
  intros Hok Hsq Hr Hf. eexists. split; [apply im2col_core_H_computes; [done..|lia]|].
  rewrite <-Hf, fill_all, Hf. pose proof (tabulate_patch_matrix inp _ _ _ _ _ _ _ Hok) as Hm.
  by rewrite Z.mul_1_r in Hm.
Qed.

(** The SQL function [im2col] sizes its result with [(size + 1) / stride] where
    the loops make [ceil((size + 1) / stride)] steps.  When the two agree it
    returns the patch matrix. *)
Theorem im2col_correct inp input_f n ch k p s :
  geometry_ok n ch k k p p s → 0 < ch →
  (Z.sqrt n + 2 * p - k + 1) mod s = 0 →
  4 * (out_dim n k p s * out_dim n k p s * (ch * (k * k))) + 32 <= MaxAllocSize →
  arr_dims input_f = [ch; n] → reads (arr_data input_f) 0 (ch * n) inp →
  im2col input_f k p s
  = Ok (matrix (out_dim n k p s * out_dim n k p s) (ch * k * k)
         (tabulate (im2col_spec inp n (Z.sqrt n) (Z.sqrt n) ch k k p p s (out_dim n k p s))
            (out_dim n k p s * out_dim n k p s * (ch * (k * k))))).
Proof.
  intros [Hn _ Hk _ Hp _ Hs Hfit _ Hint _ Hin Htot] Hch Hdiv Hmax Hdims Hr.
  pose proof (out_dim_pos n k p s Hs Hfit) as How.
  pose proof (Z.sqrt_nonneg n) as Hw0. pose proof (Z.sqrt_spec n Hn) as [Hsq _].
  unfold im2col, ARR_DIM. rewrite Hdims.
  change (lget [ch; n] 0) with (Ok ch). change (lget [ch; n] 1) with (Ok n).
  cbn [mbind res_bind]. unfold int_sqrt. rewrite require_true by lia. cbn [mbind res_bind].
  assert ((Z.sqrt n + 2 * p - k + 1) / s = out_dim n k p s) as Hsize.
  { by apply exact_size. }
  rewrite (i32_id (Z.sqrt n + 2 * p - k + 1)) by int_solve. rewrite idiv_pos by lia. rewrite Hsize. cbn [mbind res_bind].
  set (od := out_dim n k p s) in *. set (total := od * od * (ch * (k * k))) in *.
  assert (0 < k * k) by (by apply Z.mul_pos_pos).
  destruct (sizes_int od od ch (k * k)); [done|done|lia|done|done|].
  assert (od * od <= total).
  { pose proof (mul_le_l (ch * (k * k)) (od * od)). unfold total. nia. }
  replace (od * od * ch * k * k) with total by (unfold total; ring).
  rewrite (i32_id total) by int_solve.
  rewrite palloc_ok by lia. cbn [mbind res_bind].
  rewrite !(i32_id (- p)), !(i32_id (Z.sqrt n + p - k + 1)) by int_solve.
  assert (trips (- p) (Z.sqrt n + p - k + 1) s = od) as Htr by (apply trips_out; lia).
  rewrite (seq_positions (im2col_spec inp n (Z.sqrt n) (Z.sqrt n) ch k k p p s od) 0 _ _ _ _ s (ch * (k * k)));
    [|done|nia|int_solve..|].
  - cbn [mbind res_bind fst]. rewrite Htr.
    replace (od * (od * (ch * (k * k)))) with total by (unfold total; ring).
    rewrite <-(zlen_replicate total (@None float4)) at 1 by lia. rewrite fill_all, zlen_replicate by lia.
    rewrite !i32_id by int_solve.
    rewrite float4construct_md_array_2d; rewrite ?zlen_tabulate by lia; [|lia|done].
    do 2 f_equal. rewrite take_ge; [done|]. unfold tabulate. by rewrite length_fmap, length_seqZ.
  - rewrite Htr. intros a b f' Ha Hb Hf'. cbv zeta. rewrite Z.add_0_l. rewrite zlen_replicate in Hf' by lia.
    pose proof (axis_bound _ _ _ _ a Hs Ha). pose proof (axis_bound _ _ _ _ b Hs Hb).
    rewrite (nest3_fill (im2col_spec inp n (Z.sqrt n) (Z.sqrt n) ch k k p p s od));
      [done|lia|int_solve..|].
    intros c ky kx f1 Hc Hky Hkx Hf1. cbv zeta.
    pose proof (window_store inp n (Z.sqrt n) (Z.sqrt n) ch k k p p s od od Hw0 Hsq Hk Hk Hin
      (arr_data input_f) 0 f1 a b c ky kx) as Hw. cbv zeta in Hw.
    rewrite <-Hw by (done || lia). clear Hw. rewrite !i32_id by int_solve.
    destruct (_ || _); [done|]. rewrite Z.add_0_l.
    match goal with |- bget _ ?a ≫= _ = bget _ ?b ≫= _ => assert (a = b) as -> by i32_ring end.
    done.
Qed.

(** ** Witnesses: a 1 x 2 x 2 feature map *)
Definition ex_map : buf float4 := (Some ∘ f4_of_Z) <$> [1; 2; 3; 4].
Definition ex_inp (i : Z) : float4 := f4_of_Z (i + 1).

Lemma ex_map_reads : reads ex_map 0 4 ex_inp.
Proof.
  intros i Hi. rewrite Z.add_0_l.
  assert (i = 0 ∨ i = 1 ∨ i = 2 ∨ i = 3) as [->|[->|[->| ->]]] by lia; by vm_compute.
Qed.

Lemma im2col_core_correct_witness :
  ∃ m, @im2col_core omp_reverse_order ex_map 0 [1; 4] (replicate 36 None) 2 1 1 = Ok m
       ∧ is_patch_matrix ex_inp 4 1 2 2 1 1 1 m.
Proof.
  apply (@im2col_core_correct omp_reverse_order ex_inp ex_map 0 4 1 2 1 1);
    [by split; vm_compute|exact ex_map_reads|by vm_compute].
Defined.

Lemma im2col_core_W_correct_witness :
  ∃ m, @im2col_core_W omp_reverse_order ex_map 0 [1; 4] (replicate 12 None) 3 1 1 = Ok m
       ∧ is_patch_matrix ex_inp 4 1 1 3 0 1 1 m.
Proof.
  apply (@im2col_core_W_correct omp_reverse_order ex_inp ex_map 0 4 1 3 1 1);
    [by split; vm_compute|exact ex_map_reads|by vm_compute].
Defined.

Lemma im2col_core_H_correct_witness :
  ∃ m, @im2col_core_H omp_reverse_order ex_map 0 [1; 4] (replicate 12 None) 3 1 1 = Ok m
       ∧ is_patch_matrix ex_inp 4 1 3 1 1 0 1 m.
Proof.
  apply (@im2col_core_H_correct omp_reverse_order ex_inp ex_map 0 4 1 3 1 1);
    [by split; vm_compute|by vm_compute|exact ex_map_reads|by vm_compute].
Defined.

Lemma im2col_correct_witness :
  im2col (matrix 1 4 ex_map) 2 1 1
  = Ok (matrix 9 4 (tabulate (im2col_spec ex_inp 4 2 2 1 2 2 1 1 1 3) 36)).
Proof.
  apply (im2col_correct ex_inp (matrix 1 4 ex_map) 4 1 2 1 1);
    [by split; vm_compute|done|by vm_compute|by vm_compute|done|exact ex_map_reads].
Defined.
