(* ===== verification/Sgemm.v ===== *)
(** * Sgemm: matrix products and the bias epilogue

    [cblas_sgemm] belongs to OpenBLAS and is a parameter: the class [Cblas] holds
    the value a call computes for each cell, of which it only says that it is a
    sum of the products of a row and a column, added in some order, with or
    without fused multiply-add ([is_dot]).  Every call of the extension has
    [alpha = 1], [beta = 0] and row-major operands that are not transposed, but
    for the second one.

    [bias_epilogue] is the loop after each product that adds the bias of a
    channel to its row and applies the activation. *)

From Stdlib Require Import SpecFloat.
From S2P Require Import Prelude Float4 PgArray Im2col.

Open Scope Z_scope.

(** The fused multiply-add [x * y + z], rounded once. *)
Definition f4_fma (x y z : float4) : float4 :=
  match x, y, z with
  | S754_finite sx mx ex, S754_finite sy my ey, S754_finite sz mz ez =>
      let e := Z.min (ex + ey) ez in
      let p := cond_Zopp (xorb sx sy) (Zpos (mx * my)) * 2 ^ (ex + ey - e) in
      let q := cond_Zopp sz (Zpos mz) * 2 ^ (ez - e) in
      binary_normalize 24 128 (p + q) e false
  | S754_finite sx mx ex, S754_finite sy my ey, S754_zero _ =>
      binary_normalize 24 128 (cond_Zopp (xorb sx sy) (Zpos (mx * my))) (ex + ey) false
  | _, _, _ => f4_add (f4_mul x y) z
  end.

(** [is_dot ps v]: [v] is what some evaluation order of the sum of the products
    of the pairs [ps] returns. *)
Inductive is_dot : list (float4 * float4) → float4 → Prop :=
  | dot_nil : is_dot [] f4_zero
  | dot_mul a b : is_dot [(a, b)] (f4_mul a b)
  | dot_add l1 l2 l v1 v2 :
      is_dot l1 v1 → is_dot l2 v2 → l ≡ₚ l1 ++ l2 → is_dot l (f4_add v1 v2)
  | dot_fma l l' a b v : is_dot l v → l' ≡ₚ (a, b) :: l → is_dot l' (f4_fma a b v).

(** [sgemm_cell call i j ps]: the cell at row [i] and column [j] of the result of
    the product numbered [call] within one kernel. *)
Class Cblas := {
  sgemm_cell : Z → Z → Z → list (float4 * float4) → float4;
  sgemm_cell_dot : ∀ call i j ps, is_dot ps (sgemm_cell call i j ps)
}.

(** The textbook product: left to right from zero. *)
Definition ref_dot (ps : list (float4 * float4)) : float4 :=
  foldr (λ p acc, f4_add (f4_mul (fst p) (snd p)) acc) f4_zero ps.

Lemma ref_dot_is_dot ps : is_dot ps (ref_dot ps).
Proof.
  induction ps as [|[a b] ps IH]; simpl; [constructor|].
  eapply (dot_add [(a, b)] ps); [constructor|done|done].
Qed.

Definition reference_blas : Cblas :=
  {| sgemm_cell := λ _ _ _ ps, ref_dot ps; sgemm_cell_dot := λ _ _ _ ps, ref_dot_is_dot ps |}.

(** [cblas_sgemm(CblasRowMajor, CblasNoTrans, transB, m, n, k, 1.0, A + aoff, lda,
    B + boff, ldb, 0.0, C + coff, ldc)].  An illegal argument is reported on the
    standard error and the call returns. *)
Definition cblas_sgemm `{Cblas} (call : Z) (transB : bool) (m n k : Z) (A : buf float4) (aoff lda : Z)
    (B : buf float4) (boff ldb : Z) (C : buf float4) (coff ldc : Z) : res (buf float4) :=
  if (m <? 0) || (n <? 0) || (k <? 0) || (lda <? Z.max 1 k)
     || (ldb <? Z.max 1 (if transB then k else n)) || (ldc <? Z.max 1 n)
  then Ok C
  else
    foldM (λ '(i, j) C,
      ps ← readM (λ l, a ← bget A (aoff + i * lda + l);
                       b ← bget B (boff + if transB then j * ldb + l else l * ldb + j);
                       Ok (a, b)) (seqZ 0 k);
      bset C (coff + i * ldc + j) (sgemm_cell call i j ps))
      (pairs (seqZ 0 m) (seqZ 0 n)) C.

(** The pairs of row [i] of [fa] and of row (column, if not transposed) [j] of [fb]. *)
Definition dot_pairs (fa fb : Z → float4) (transB : bool) (n k i j : Z) : list (float4 * float4) :=
  (λ l, (fa (i * k + l), fb (if transB then j * k + l else l * n + j))) <$> seqZ 0 k.

Lemma cblas_sgemm_spec `{Cblas} call transB m n k A aoff B boff C coff fa fb :
  0 <= m → 0 < n → 0 < k → 0 <= coff → coff + m * n <= zlen C →
  reads A aoff (m * k) fa → reads B boff (n * k) fb →
  cblas_sgemm call transB m n k A aoff k B boff (if transB then k else n) C coff n
  = Ok (fill (λ x, sgemm_cell call ((x - coff) / n) ((x - coff) mod n)
                     (dot_pairs fa fb transB n k ((x - coff) / n) ((x - coff) mod n))) coff (m * n) C).
Proof.
  intros Hm Hn Hk Hco HC HA HB. unfold cblas_sgemm.
  replace (_ || _) with false by (destruct transB; lia).
  apply (foldM_fill_region _ (λ '(i, j), coff + i * n + j) 1).
  - intros [i j] C' [Hi Hj]%elem_of_pairs HC'. apply elem_of_seqZ in Hi, Hj.
    rewrite (readM_ok _ (λ l, (fa (i * k + l), fb (if transB then j * k + l else l * n + j)))).
    + cbn [mbind res_bind]. rewrite <-bset_fill by nia.
      replace (coff + i * n + j - coff) with (i * n + j) by ring.
      rewrite Z.div_add_l, (Z.div_small j), Z.add_0_r by lia.
      rewrite (Z.add_comm (i * n)), Z.mod_add, Z.mod_small by lia. done.
    + intros l Hl%elem_of_seqZ.
      rewrite <-Z.add_assoc, HA by nia. cbn [mbind res_bind].
      destruct transB; rewrite HB by nia; done.
  - intros x. split.
    + intros Hx. exists ((x - coff) / n, (x - coff) mod n). rewrite elem_of_pairs, !elem_of_seqZ.
      pose proof (Z.div_mod (x - coff) n ltac:(lia)). pose proof (Z.mod_pos_bound (x - coff) n ltac:(lia)).
      assert (0 <= (x - coff) / n) by (apply Z.div_pos; lia). nia.
    + intros ([i j] & [Hi Hj]%elem_of_pairs & Hx). apply elem_of_seqZ in Hi, Hj. nia.
Qed.

(** ** The bias loop

    [for (c ...) { for (i = offset; i < offset + cols; i++) { res[i] += bias[c];
    if (acti) res[i] = fmax(0, res[i]); } offset += cols; }] *)
Definition bias_epilogue (acti : bool) (res_data bias : buf float4) (rows cols : Z) : res (buf float4) :=
  ro ← cfor 0 rows 1 (λ c '(res_data, offset),
    res_data ← cfor offset (i32 (offset + cols)) 1 (λ i res_data,
      v ← bget res_data i;
      b ← bget bias c;
      let v := f4_add v b in
      bset res_data i (if acti then relu1 v else v)) res_data;
    Ok (res_data, i32 (offset + cols))) (res_data, 0);
  Ok (fst ro).

Definition with_bias (acti : bool) (fbias : Z → float4) (cols : Z) (spec : Z → float4) (x : Z) : float4 :=
  let v := f4_add (spec x) (fbias (x / cols)) in if acti then relu1 v else v.

Lemma bias_epilogue_spec acti spec bias fbias rows cols :
  0 <= rows → 0 < cols → rows * cols <= int_max → reads bias 0 rows fbias →
  bias_epilogue acti (tabulate spec (rows * cols)) bias rows cols
  = Ok (tabulate (with_bias acti fbias cols spec) (rows * cols)).
Proof.
  intros Hr Hc Hmax Hb. unfold bias_epilogue.
  set (g := λ (x : Z) (old : option float4), (λ v, let v := f4_add v (fbias (x / cols)) in
              if acti then relu1 v else v) <$> old).
  assert (rows <= int_max) by nia.
  pose proof (cfor_states (λ n, (upd g 0 (n * cols) (tabulate spec (rows * cols)), n * cols)) 0 rows 1) as Hst.
  cbv beta in Hst. rewrite Z.mul_0_l, upd_nil in Hst by lia. rewrite trips_unit, Z.sub_0_r in Hst by lia.
  rewrite Hst; [|lia|int_solve|lia|].
  - cbn [mbind res_bind fst]. f_equal. by apply upd_tabulate.
  - intros n Hn. rewrite Z.add_0_l, Z.mul_1_r. assert (0 <= n * cols) by nia.
    assert (n * cols + cols <= rows * cols) by nia. rewrite (i32_id (n * cols + cols)) by int_solve.
    rewrite (cfor_cells g); [|lia|lia|].
    + cbn [mbind res_bind]. replace (n * cols + cols - n * cols) with cols by lia.
      replace ((n + 1) * cols) with (n * cols + cols) by ring.
      rewrite <-(upd_app g 0 (n * cols) cols) by lia. by rewrite Z.add_0_l.
    + intros i l' Hi ->.
      assert (lget (upd g (n * cols) (i - n * cols) (upd g 0 (n * cols) (tabulate spec (rows * cols)))) i
              = Ok (Some (spec i))) as Hget.
      { rewrite !lget_upd_later by lia. apply lget_tabulate. lia. }
      assert (bget (upd g (n * cols) (i - n * cols) (upd g 0 (n * cols) (tabulate spec (rows * cols)))) i
              = Ok (spec i)) as -> by (unfold bget; by rewrite Hget). cbn [mbind res_bind].
      rewrite <-(Z.add_0_l n), Hb, Z.add_0_l by lia. cbn [mbind res_bind].
      eapply bset_upd; [exact Hget|]. unfold g. simpl.
      by rewrite <-(Z.div_unique_pos i cols n (i - n * cols)) by lia.
Qed.
