(* ===== verification/CString.v ===== *)
(** * CString: NUL-terminated strings

    A C string is the [string] of the bytes before its terminator.  [strlcpy]
    and [strncmp] are modelled by their effect on that string; the copy and the
    comparison of hash keys and of cache names are written with them. *)

From S2P Require Import Prelude.
From Stdlib Require Import Ascii String.
From stdpp Require Import strings.

Open Scope Z_scope.

Definition NAMEDATALEN : Z := 64.

Definition strlen (s : string) : Z := Z.of_nat (String.length s).

Fixpoint str_take (n : nat) (s : string) : string :=
  match n, s with
  | S n, String a s => String a (str_take n s)
  | _, _ => EmptyString
  end.

(** The bytes of a string as unsigned values. *)
Definition bytes_of_string (s : string) : list Z :=
  (λ a, Z.of_N (N_of_ascii a)) <$> list_ascii_of_string s.

(** What [strlcpy(dst, src, siz)] leaves in [dst], for [siz > 0]. *)
Definition strlcpy (src : string) (siz : Z) : string := str_take (Z.to_nat (siz - 1)) src.

(** [strncmp(a, b, n) == 0] *)
Definition strncmp_eq (a b : string) (n : Z) : bool :=
  bool_decide (str_take (Z.to_nat n) a = str_take (Z.to_nat n) b).

(** [strcmp(a, b) == 0] *)
Definition strcmp_eq (a b : string) : bool := bool_decide (a = b).

Lemma length_str_take n s : String.length (str_take n s) = Nat.min n (String.length s).
Proof. revert s. induction n; intros [|a s]; simpl; auto. Qed.

Lemma str_take_ge n s : (String.length s <= n)%nat → str_take n s = s.
Proof. revert s. induction n; intros [|a s] ?; simpl in *; auto with lia; try lia. f_equal. apply IHn. lia. Qed.

Lemma str_take_take n m s : str_take n (str_take m s) = str_take (Nat.min n m) s.
Proof. revert m s. induction n; intros [|m] [|a s]; simpl; auto. by rewrite IHn. Qed.

Lemma strlcpy_idemp s siz : strlcpy (strlcpy s siz) siz = strlcpy s siz.
Proof. unfold strlcpy. by rewrite str_take_take, Nat.min_id. Qed.

(** The copy is whole exactly when the string fits with its terminator. *)
Lemma strlcpy_id s siz : 0 < siz → strlcpy s siz = s ↔ strlen s < siz.
Proof.
  intros Hsiz. unfold strlcpy, strlen. split.
  - intros Heq. apply (f_equal String.length) in Heq. rewrite length_str_take in Heq. lia.
  - intros. apply str_take_ge. lia.
Qed.

Lemma strncmp_strlcpy a b siz :
  strncmp_eq a b (siz - 1) = bool_decide (strlcpy a siz = strlcpy b siz).
Proof. done. Qed.

(** Strings that agree up to [n] bytes, with a common prefix of at least [n]. *)
Lemma str_take_app_ge n s t : (n <= String.length s)%nat → str_take n (s ++ t) = str_take n s.
Proof.
  revert s. induction n; intros [|a s] ?; simpl in *; auto; [lia|]. f_equal. apply IHn. lia.
Qed.

Lemma str_take_app n s t :
  str_take n (s ++ t) = (str_take n s ++ str_take (n - String.length s) t)%string.
Proof.
  revert s. induction n; intros [|a s]; simpl; auto. by rewrite IHn.
Qed.

Lemma bytes_of_string_take n s :
  bytes_of_string (str_take n s) = take n (bytes_of_string s).
Proof.
  unfold bytes_of_string. revert s. induction n; intros [|a s]; simpl; auto.
  by rewrite <-IHn.
Qed.

Lemma length_bytes_of_string s : length (bytes_of_string s) = String.length s.
Proof. unfold bytes_of_string. rewrite length_fmap. induction s; simpl; auto. Qed.

Lemma bytes_of_string_range s : Forall (λ b, 0 <= b < 256) (bytes_of_string s).
Proof.
  unfold bytes_of_string. rewrite Forall_fmap. apply Forall_true. intros a. simpl.
  pose proof (N_ascii_bounded a). lia.
Qed.
