(* ===== verification/HashFn.v ===== *)
(** * HashFn: the hash function of string keys

    [common/hashfn.c]: Bob Jenkins' [hash_bytes] for a little-endian machine and
    [string_hash], the hash function [create_weight_pool] hands to
    [hash_create]. *)

From S2P Require Import Prelude CString.
From stdpp Require Import strings.

Open Scope Z_scope.

(** pg_bitutils.h: pg_rotate_left32 *)
Definition rot (x k : Z) : Z := Z.lor (u32 (Z.shiftl x k)) (Z.shiftr x (32 - k)).

(** One line of [mix]: [x -= z; x ^= rot(z, k); z += y]. *)
Definition mix_line (x y z k : Z) : Z * Z :=
  let x := u32 (x - z) in
  let x := Z.lxor x (rot z k) in
  let z := u32 (z + y) in
  (x, z).

Definition mix (s : Z * Z * Z) : Z * Z * Z :=
  let '(a, b, c) := s in
  let '(a, c) := mix_line a b c 4 in
  let '(b, a) := mix_line b c a 6 in
  let '(c, b) := mix_line c a b 8 in
  let '(a, c) := mix_line a b c 16 in
  let '(b, a) := mix_line b c a 19 in
  let '(c, b) := mix_line c a b 4 in
  (a, b, c).

(** One step of [final]: [x ^= y; x -= rot(y, k)]. *)
Definition final_step (x y k : Z) : Z := u32 (Z.lxor x y - rot y k).

Definition final (s : Z * Z * Z) : Z :=
  let '(a, b, c) := s in
  let c := final_step c b 14 in
  let a := final_step a c 11 in
  let b := final_step b a 25 in
  let c := final_step c b 16 in
  let a := final_step a c 4 in
  let b := final_step b a 14 in
  final_step c b 24.

(** Four bytes as the little-endian word both the aligned and the unaligned code
    path fetch. *)
Definition word (k0 k1 k2 k3 : Z) : Z :=
  k0 + Z.shiftl k1 8 + Z.shiftl k2 16 + Z.shiftl k3 24.

(** "handle the last 11 bytes": the cases of the switch fall through from [len]
    downwards, so byte [i] is added exactly when [i < len]. *)
Definition last_bytes (k : list Z) (s : Z * Z * Z) : Z * Z * Z :=
  let '(a, b, c) := s in
  let byte (i : nat) (sh : Z) := match k !! i with Some x => Z.shiftl x sh | None => 0 end in
  let c := u32 (c + byte 10%nat 24 + byte 9%nat 16 + byte 8%nat 8) in
  let b := u32 (b + byte 7%nat 24 + byte 6%nat 16 + byte 5%nat 8 + byte 4%nat 0) in
  let a := u32 (a + byte 3%nat 24 + byte 2%nat 16 + byte 1%nat 8 + byte 0%nat 0) in
  (a, b, c).

Fixpoint hash_loop (k : list Z) (s : Z * Z * Z) : Z * Z * Z :=
  match k with
  | k0 :: k1 :: k2 :: k3 :: k4 :: k5 :: k6 :: k7 :: k8 :: k9 :: k10 :: k11 :: k' =>
      let '(a, b, c) := s in
      hash_loop k' (mix (u32 (a + word k0 k1 k2 k3), u32 (b + word k4 k5 k6 k7),
                         u32 (c + word k8 k9 k10 k11)))
  | _ => last_bytes k s
  end.

Definition hash_bytes (k : list Z) : Z :=
  let i := u32 (2654435769 + zlen k + 3923095) in   (* 0x9e3779b9 + len + 3923095 *)
  final (hash_loop k (i, i, i)).

Definition string_hash (key : string) (keysize : Z) : Z :=
  let s_len := Z.min (strlen key) (keysize - 1) in
  hash_bytes (take (Z.to_nat s_len) (bytes_of_string key)).

Lemma string_hash_range key keysize : 0 <= string_hash key keysize < 4294967296.
Proof.
  unfold string_hash, hash_bytes, final. destruct (hash_loop _ _) as [[a b] c].
  apply u32_range.
Qed.

(** The hash of a key is the hash of what [strlcpy] stores of it. *)
Lemma string_hash_strlcpy key keysize :
  0 < keysize → string_hash (strlcpy key keysize) keysize = string_hash key keysize.
Proof.
  intros Hk. unfold string_hash, strlcpy, strlen. rewrite bytes_of_string_take, length_str_take, take_take.
  do 2 f_equal. lia.
Qed.
