(* ===== verification/Dynahash.v ===== *)
(** * Dynahash: PostgreSQL's extensible hash table

    [utils/hash/dynahash.c] for the tables the extension creates: not shared, not
    partitioned, string keys of [keysize] bytes with [string_hash] and the default
    comparison, copy and allocation functions.

    An element is a pointer (a [positive]) into [elems]; what follows the key in
    an element is the caller's entry of type [V].  A bucket's chain of [link]
    pointers is the list of the elements on it, and so is the free list.  The
    directory is a list of segments, [None] for NULL.

    The invariant [htab_ok] is kept by every operation, and [contents], the map
    from the stored keys to their elements, is what the operations implement: a
    lookup in [contents], an insertion, a deletion.  Splitting a bucket does not
    change it.  [represents] adds what the entries hold: a table and its caller
    together implement a finite map from keys to values. *)

From S2P Require Import Prelude CString HashFn PgArray.
From stdpp Require Import strings.

Open Scope Z_scope.

Definition DEF_SEGSIZE : Z := 256.
Definition DEF_SEGSIZE_SHIFT : Z := 8.
Definition DEF_DIRSIZE : Z := 256.
Definition MAX_SEQ_SCANS : Z := 100.

Inductive HASHACTION : Set := HASH_FIND | HASH_ENTER | HASH_REMOVE | HASH_ENTER_NULL.

Record HASHELEMENT (V : Type) := mkElement {
  hashvalue : Z;
  elem_key : string;      (* the first keysize bytes at ELEMENTKEY *)
  elem_entry : option V   (* the rest of the entry, None until the caller fills it *)
}.
Arguments mkElement {V} _ _ _.
Arguments hashvalue {V} _.
Arguments elem_key {V} _.
Arguments elem_entry {V} _.

(** HTAB and HASHHDR.  [next_elem] names the memory the allocator hands out next. *)
Record HTAB (V : Type) := mkHTAB {
  dir : list (option (list (list positive)));
  dsize : Z;
  nsegs : Z;
  max_bucket : Z;
  high_mask : Z;
  low_mask : Z;
  nentries : Z;
  freeList : list positive;
  keysize : Z;
  entrysize : Z;
  ssize : Z;
  sshift : Z;
  nelem_alloc : Z;
  frozen : bool;
  elems : gmap positive (HASHELEMENT V);
  next_elem : positive
}.
Arguments mkHTAB {V} _ _ _ _ _ _ _ _ _ _ _ _ _ _ _ _.
Arguments dir {V} _.
Arguments dsize {V} _.
Arguments nsegs {V} _.
Arguments max_bucket {V} _.
Arguments high_mask {V} _.
Arguments low_mask {V} _.
Arguments nentries {V} _.
Arguments freeList {V} _.
Arguments keysize {V} _.
Arguments entrysize {V} _.
Arguments ssize {V} _.
Arguments sshift {V} _.
Arguments nelem_alloc {V} _.
Arguments frozen {V} _.
Arguments elems {V} _.
Arguments next_elem {V} _.

Section dynahash.
  Context {V : Type}.
  Implicit Types t : HTAB V.

(** Field updates. *)
Definition set_dir t d ds ns : HTAB V :=
  mkHTAB d ds ns (max_bucket t) (high_mask t) (low_mask t) (nentries t) (freeList t)
    (keysize t) (entrysize t) (ssize t) (sshift t) (nelem_alloc t) (frozen t) (elems t) (next_elem t).
Definition set_masks t mb hm lm : HTAB V :=
  mkHTAB (dir t) (dsize t) (nsegs t) mb hm lm (nentries t) (freeList t)
    (keysize t) (entrysize t) (ssize t) (sshift t) (nelem_alloc t) (frozen t) (elems t) (next_elem t).
Definition set_free t n fl nx : HTAB V :=
  mkHTAB (dir t) (dsize t) (nsegs t) (max_bucket t) (high_mask t) (low_mask t) n fl
    (keysize t) (entrysize t) (ssize t) (sshift t) (nelem_alloc t) (frozen t) (elems t) nx.
Definition set_elems t es : HTAB V :=
  mkHTAB (dir t) (dsize t) (nsegs t) (max_bucket t) (high_mask t) (low_mask t) (nentries t)
    (freeList t) (keysize t) (entrysize t) (ssize t) (sshift t) (nelem_alloc t) (frozen t) es (next_elem t).
Definition set_frozen t b : HTAB V :=
  mkHTAB (dir t) (dsize t) (nsegs t) (max_bucket t) (high_mask t) (low_mask t) (nentries t)
    (freeList t) (keysize t) (entrysize t) (ssize t) (sshift t) (nelem_alloc t) b (elems t) (next_elem t).

(** [DynaHashAlloc]: [MemoryContextAlloc] refuses more than [MaxAllocSize]. *)
Definition DynaHashAlloc {A} (size : Z) (k : res A) : res A :=
  check (size <=? MaxAllocSize) palloc_msg k.

(** [MOD(x, y)], for [y] a power of two. *)
Definition MOD (x y : Z) : Z := Z.land x (y - 1).

(** ** Creation *)

(** pg_bitutils.h: pg_ceil_log2_64 on an unsigned [num], by the position of the
    leftmost one bit. *)
Definition pg_ceil_log2_64 (num : Z) : Z := if num <? 2 then 0 else Z.log2 (num - 1) + 1.
(** [num] is a [long]; the call converts it to [uint64]. *)
Definition my_log2 (num : Z) : Z :=
  let LONG_MAX := 9223372036854775807 in
  pg_ceil_log2_64 (u64 (if LONG_MAX / 2 <? num then LONG_MAX / 2 else num)).
Definition next_pow2_int (num : Z) : res Z :=
  let n := my_log2 (if int_max / 2 <? num then int_max / 2 else num) in
  require (n <? 32) BadShift (Ok (i32 (Z.shiftl 1 n))).

(** [elementSize = MAXALIGN(sizeof(HASHELEMENT)) + MAXALIGN(entrysize)] *)
Definition elementSize (entrysize : Z) : Z := MAXALIGN 16 + MAXALIGN entrysize.

(** The do-while loop doubles [allocSize] from 256 on; 64 rounds exceed any
    [Size]. *)
Fixpoint choose_loop (fuel : nat) (allocSize esize : Z) : res Z :=
  match fuel with
  | O => Stuck NoProgress
  | S fuel =>
      let allocSize := Z.shiftl allocSize 1 in
      n ← idiv allocSize esize;
      if n <? 32 then choose_loop fuel allocSize esize else Ok n
  end.
Definition choose_nelem_alloc (entrysize : Z) : res Z :=
  choose_loop 64 (32 * 4) (elementSize entrysize).

Definition seg_alloc t : res (list (list positive)) :=
  DynaHashAlloc (8 * ssize t) (Ok (replicate (Z.to_nat (ssize t)) [])).

(** The new block is carved into elements and linked in front of the free list,
    its last element first. *)
Definition element_alloc t (nelem : Z) : res (HTAB V) :=
  DynaHashAlloc (nelem * elementSize (entrysize t)) (
  let first := Pos.to_nat (next_elem t) in
  let block := Pos.of_nat <$> seq first (Z.to_nat nelem) in
  Ok (set_free t (nentries t) (reverse block ++ freeList t) (Pos.of_nat (first + Z.to_nat nelem)))).

Definition hdefault (keysize entrysize : Z) : HTAB V :=
  mkHTAB [] DEF_DIRSIZE 0 0 0 0 0 [] keysize entrysize DEF_SEGSIZE DEF_SEGSIZE_SHIFT 0 false ∅ 1%positive.

(** The directory is [palloc]ed, not cleared; the segments beyond [nsegs] are
    never read before they are assigned. *)
Definition init_htab t (nelem : Z) : res (HTAB V) :=
  nbuckets ← next_pow2_int nelem;
  let t := set_masks t (nbuckets - 1) (u32 (i32 (i32 (Z.shiftl nbuckets 1) - 1))) (nbuckets - 1) in
  q ← idiv (nbuckets - 1) (ssize t);
  ns ← next_pow2_int (q + 1);
  let ds := if dsize t <? ns then ns else dsize t in
  DynaHashAlloc (ds * 8) (
  seg ← seg_alloc t;
  let d := replicate (Z.to_nat ns) (Some seg) ++ replicate (Z.to_nat (ds - ns)) None in
  n ← choose_nelem_alloc (entrysize t);
  Ok (mkHTAB d ds ns (max_bucket t) (high_mask t) (low_mask t) (nentries t) (freeList t)
        (keysize t) (entrysize t) (ssize t) (sshift t) n (frozen t) (elems t) (next_elem t))).

(** [hash_create(tabname, nelem, info, HASH_ELEM | HASH_FUNCTION)]. *)
Definition hash_create (nelem keysize entrysize : Z) : res (HTAB V) :=
  t ← init_htab (hdefault keysize entrysize) nelem;
  if nelem <? nelem_alloc t
  then element_alloc t (if nelem <=? 0 then 1 else nelem)
  else Ok t.

(** ** Search *)

Definition calc_bucket t (hash_val : Z) : Z :=
  let bucket := Z.land hash_val (high_mask t) in
  if max_bucket t <? bucket then Z.land bucket (low_mask t) else bucket.

Definition corrupted_msg : string := "hash table corrupted".

(** [hashp->dir[bucket >> sshift][MOD(bucket, ssize)]] *)
Definition get_bucket t (bucket : Z) : res (list positive) :=
  seg ← lget (dir t) (Z.shiftr bucket (sshift t));
  match seg with
  | None => Stuck NullDeref
  | Some segp => lget segp (MOD bucket (ssize t))
  end.
(** The same, after the test [if (segp == NULL) hash_corrupted(hashp)]. *)
Definition find_bucket t (bucket : Z) : res (list positive) :=
  seg ← lget (dir t) (Z.shiftr bucket (sshift t));
  match seg with
  | None => Ereport corrupted_msg
  | Some _ => get_bucket t bucket
  end.
Definition put_bucket t (bucket : Z) (chain : list positive) : res (HTAB V) :=
  seg ← lget (dir t) (Z.shiftr bucket (sshift t));
  match seg with
  | None => Stuck NullDeref
  | Some segp =>
      segp ← lset segp (MOD bucket (ssize t)) chain;
      d ← lset (dir t) (Z.shiftr bucket (sshift t)) (Some segp);
      Ok (set_dir t d (dsize t) (nsegs t))
  end.

Definition get_elem t (e : positive) : res (HASHELEMENT V) :=
  match elems t !! e with Some x => Ok x | None => Stuck Uninitialised end.

(** The walk along a chain: the elements before the match and, if there is one,
    the match and the elements after it. *)
Fixpoint scan_chain t (hv : Z) (key : string) (chain : list positive)
    : res (list positive * option (positive * list positive)) :=
  match chain with
  | [] => Ok ([], None)
  | e :: rest =>
      x ← get_elem t e;
      if (hashvalue x =? hv) && strncmp_eq (elem_key x) key (keysize t - 1)
      then Ok ([], Some (e, rest))
      else '(before, r) ← scan_chain t hv key rest; Ok (e :: before, r)
  end.

(** ** Splitting a bucket *)

(** [p == NULL] cannot happen with [DynaHashAlloc], which leaves through an error
    instead. *)
Definition dir_realloc t : res (HTAB V) :=
  let new_dsize := Z.shiftl (dsize t) 1 in
  DynaHashAlloc (new_dsize * 8) (
  Ok (set_dir t (dir t ++ replicate (Z.to_nat (new_dsize - dsize t)) None) new_dsize (nsegs t))).

(** The relocation loop: which elements of the old chain stay. *)
Fixpoint relocate t (old_bucket : Z) (chain : list positive) : res (list positive * list positive) :=
  match chain with
  | [] => Ok ([], [])
  | e :: rest =>
      x ← get_elem t e;
      '(o, n) ← relocate t old_bucket rest;
      Ok (if calc_bucket t (hashvalue x) =? old_bucket then (e :: o, n) else (o, e :: n))
  end.

Definition expand_table t : res (HTAB V) :=
  let new_bucket := u32 (max_bucket t + 1) in
  let new_segnum := Z.shiftr new_bucket (sshift t) in
  t ← (if nsegs t <=? new_segnum then
         t ← (if dsize t <=? new_segnum then dir_realloc t else Ok t);
         seg ← seg_alloc t;
         d ← lset (dir t) new_segnum (Some seg);
         Ok (set_dir t d (dsize t) (nsegs t + 1))
       else Ok t);
  let old_bucket := Z.land new_bucket (low_mask t) in
  let t := set_masks t (u32 (max_bucket t + 1)) (high_mask t) (low_mask t) in
  let t := if high_mask t <? new_bucket
           then set_masks t (max_bucket t) (Z.lor new_bucket (high_mask t)) (high_mask t)
           else t in
  chain ← get_bucket t old_bucket;
  '(o, n) ← relocate t old_bucket chain;
  t ← put_bucket t old_bucket o;
  put_bucket t new_bucket n.

(** [get_hash_entry]: an element from the free list, refilled when it is empty. *)
Definition get_hash_entry t : res (HTAB V * positive) :=
  t ← (match freeList t with [] => element_alloc t (nelem_alloc t) | _ => Ok t end);
  match freeList t with
  | [] => Stuck NoProgress   (* the loop would refill for ever *)
  | e :: fl => Ok (set_free t (nentries t + 1) fl (next_elem t), e)
  end.

Definition frozen_msg : string := "cannot insert into frozen hashtable".

(** [hash_search_with_hash_value]: the element found, entered or removed, and
    [*foundPtr].  [scans] says whether a sequential scan of the table is open. *)
Definition hash_search_with_hash_value (scans : bool) t (key : string) (hv : Z)
    (action : HASHACTION) : res (HTAB V * option positive * bool) :=
  t ← (match action with
       | HASH_ENTER | HASH_ENTER_NULL =>
                       if (max_bucket t <? nentries t) && negb (frozen t) && negb scans
                       then expand_table t else Ok t
       | _ => Ok t
       end);
  let bucket := calc_bucket t hv in
  chain ← find_bucket t bucket;
  '(before, curr) ← scan_chain t hv key chain;
  match action, curr with
  | HASH_FIND, Some (e, _) => Ok (t, Some e, true)
  | HASH_FIND, None => Ok (t, None, false)
  | HASH_REMOVE, Some (e, after) =>
      t ← put_bucket t bucket (before ++ after);
      Ok (set_free t (nentries t - 1) (e :: freeList t) (next_elem t), Some e, true)
  | HASH_REMOVE, None => Ok (t, None, false)
  | (HASH_ENTER | HASH_ENTER_NULL), Some (e, _) => Ok (t, Some e, true)
  | (HASH_ENTER | HASH_ENTER_NULL), None =>
      if frozen t then Ereport frozen_msg
      else
        '(t, e) ← get_hash_entry t;
        t ← put_bucket t bucket (before ++ [e]);
        let old := elems t !! e in
        Ok (set_elems t (<[e := mkElement hv (strlcpy key (keysize t)) (old ≫= elem_entry)]> (elems t)),
            Some e, false)
  end.

Definition hash_search (scans : bool) t (key : string) (action : HASHACTION)
    : res (HTAB V * option positive * bool) :=
  hash_search_with_hash_value scans t key (string_hash key (keysize t)) action.

Definition hash_get_num_entries t : Z := nentries t.

Definition freeze_msg : string := "cannot freeze hashtable because it has active scans".
Definition hash_freeze (scans : bool) t : res (HTAB V) :=
  if negb (frozen t) && scans then Ereport freeze_msg else Ok (set_frozen t true).

(** ** Sequential scans *)

Record HASH_SEQ_STATUS := mkSeq { curBucket : Z; curEntry : list positive }.

Definition hash_seq_init : HASH_SEQ_STATUS := mkSeq 0 [].

(** The search for the next nonempty bucket; [max_bucket + 1] rounds reach the
    end of the table. *)
Fixpoint next_nonempty (fuel : nat) t (b : Z) : res (Z * list positive) :=
  match fuel with
  | O => Stuck NoProgress
  | S fuel =>
      chain ← get_bucket t b;
      match chain with
      | [] => if max_bucket t <? u32 (b + 1) then Ok (u32 (b + 1), [])
              else next_nonempty fuel t (u32 (b + 1))
      | _ => Ok (b, chain)
      end
  end.

(** [curEntry] points to the rest of a chain. *)
Definition hash_seq_search t (status : HASH_SEQ_STATUS) : res (option positive * HASH_SEQ_STATUS) :=
  match curEntry status with
  | e :: link =>
      Ok (Some e, mkSeq (match link with [] => u32 (curBucket status + 1) | _ => curBucket status end) link)
  | [] =>
      if max_bucket t <? curBucket status then Ok (None, status)
      else
        '(b, chain) ← next_nonempty (S (Z.to_nat (max_bucket t - curBucket status))) t (curBucket status);
        match chain with
        | [] => Ok (None, mkSeq b [])
        | e :: link => Ok (Some e, mkSeq (match link with [] => u32 (b + 1) | _ => b end) link)
        end
  end.
End dynahash.

(** ** Masks and buckets *)

Lemma land_mask a j : 0 <= j → Z.land a (2 ^ j - 1) = a mod 2 ^ j.
Proof.
  intros. rewrite <-Z.land_ones by done. f_equal. rewrite Z.ones_equiv. lia.
Qed.

Lemma mod_pow_mod a j : 0 <= j → (a mod 2 ^ (j + 1)) mod 2 ^ j = a mod 2 ^ j.
Proof.
  intros. apply Z.mod_mod_divide.
  exists 2. rewrite Z.pow_add_r by lia. lia.
Qed.

(** The low mask has [j] one bits, the high mask one more, and the largest bucket
    lies between them. *)
Definition masks_ok (j mb hm lm : Z) : Prop :=
  0 <= j ∧ lm = 2 ^ j - 1 ∧ hm = 2 ^ (j + 1) - 1 ∧ lm <= mb <= hm.

(** [calc_bucket] on the three numbers it depends on. *)
Definition bucket_of (mb hm lm hv : Z) : Z :=
  let bucket := Z.land hv hm in if mb <? bucket then Z.land bucket lm else bucket.

Lemma bucket_of_range j mb hm lm hv :
  masks_ok j mb hm lm → 0 <= bucket_of mb hm lm hv <= mb.
Proof.
  intros (Hj & -> & -> & Hmb). unfold bucket_of.
  rewrite land_mask by lia. pose proof (Z.mod_pos_bound hv (2 ^ (j + 1))).
  destruct (Z.ltb_spec mb (hv mod 2 ^ (j + 1))); [|lia].
  rewrite land_mask by lia. pose proof (Z.mod_pos_bound (hv mod 2 ^ (j + 1)) (2 ^ j)). lia.
Qed.

(** The masks after [expand_table] has added bucket [mb + 1]. *)
Definition grown_high (mb hm : Z) : Z := if hm <? mb + 1 then Z.lor (mb + 1) hm else hm.
Definition grown_low (mb hm lm : Z) : Z := if hm <? mb + 1 then hm else lm.

Lemma lor_pow2_mask j : 0 <= j → Z.lor (2 ^ j) (2 ^ j - 1) = 2 ^ (j + 1) - 1.
Proof.
  intros Hj.
  assert (Z.land (2 ^ j) (2 ^ j - 1) = 0) as Hdisj.
  { by rewrite land_mask, Z.mod_same by lia. }
  pose proof (Z.add_lor_land (2 ^ j) (2 ^ j - 1)) as Hsum. rewrite Hdisj in Hsum.
  rewrite Z.pow_add_r by lia. lia.
Qed.

Lemma masks_grow j mb hm lm :
  masks_ok j mb hm lm → ∃ j', masks_ok j' (mb + 1) (grown_high mb hm) (grown_low mb hm lm).
Proof.
  intros (Hj & -> & -> & Hmb). unfold grown_high, grown_low.
  assert (2 ^ (j + 1) = 2 * 2 ^ j) as Hp by (rewrite Z.pow_add_r by lia; lia).
  destruct (Z.ltb_spec (2 ^ (j + 1) - 1) (mb + 1)).
  - exists (j + 1). assert (mb + 1 = 2 ^ (j + 1)) as -> by lia.
    rewrite lor_pow2_mask by lia. split_and!; try lia.
    rewrite (Z.pow_add_r 2 (j + 1)) by lia. lia.
  - exists j. split_and!; lia.
Qed.

(** A split moves values from one bucket, [(mb + 1) & lm], to the new one, and
    leaves every other value in its bucket. *)
Lemma bucket_of_grow j mb hm lm hv :
  masks_ok j mb hm lm →
  let b := bucket_of mb hm lm hv in
  let b' := bucket_of (mb + 1) (grown_high mb hm) (grown_low mb hm lm) hv in
  b' = b ∨ (b' = mb + 1 ∧ b = Z.land (mb + 1) lm).
Proof.
  intros (Hj & -> & -> & Hmb). unfold grown_high, grown_low, bucket_of. cbv zeta.
  assert (2 ^ (j + 1) = 2 * 2 ^ j) as Hp by (rewrite Z.pow_add_r by lia; lia).
  assert (0 < 2 ^ j) as Hpos by lia.
  destruct (Z.ltb_spec (2 ^ (j + 1) - 1) (mb + 1)) as [Hc|Hc].
  - assert (mb + 1 = 2 ^ (j + 1)) as Hmb1 by lia. rewrite Hmb1, lor_pow2_mask by lia.
    rewrite !land_mask by lia.
    assert (2 ^ (j + 1 + 1) = 2 * 2 ^ (j + 1)) as Hp2 by (rewrite Z.pow_add_r by lia; lia).
    pose proof (Z.mod_pos_bound hv (2 ^ (j + 1)) ltac:(lia)).
    destruct (Z.ltb_spec mb (hv mod 2 ^ (j + 1))); [lia|].
    rewrite <-!(mod_pow_mod hv (j + 1)) by lia.
    pose proof (Z.mod_pos_bound hv (2 ^ (j + 1 + 1)) ltac:(lia)).
    set (r := hv mod 2 ^ (j + 1 + 1)) in *.
    destruct (Z.ltb_spec (2 ^ (j + 1)) r) as [|Hr]; [by left|].
    destruct (decide (r = 2 ^ (j + 1))) as [->|].
    + right. split; [done|]. rewrite Z.mod_same by lia.
      rewrite Hp, Z.mod_mul by lia. done.
    + left. rewrite Z.mod_small by lia. done.
  - rewrite !land_mask by lia. set (r := hv mod 2 ^ (j + 1)).
    destruct (Z.ltb_spec (mb + 1) r), (Z.ltb_spec mb r); try lia.
    right. assert (r = mb + 1) as -> by lia. done.
Qed.

(** ** The directory *)

Section directory.
  Context {V : Type}.
  Implicit Types t : HTAB V.

(** Segments [0 .. nsegs-1] are allocated and hold [ssize] chains each. *)
Record dir_ok t : Prop := {
  d_shift : sshift t = DEF_SEGSIZE_SHIFT;
  d_size : ssize t = DEF_SEGSIZE;
  d_len : zlen (dir t) = dsize t;
  d_nsegs : 0 <= nsegs t <= dsize t;
  d_segs : ∀ i, 0 <= i < nsegs t → ∃ seg, dir t !! Z.to_nat i = Some (Some seg) ∧ zlen seg = DEF_SEGSIZE
}.

(** The chain of a bucket. *)
Definition chain t (b : Z) : list positive :=
  match dir t !! Z.to_nat (b / 256) with
  | Some (Some seg) => default [] (seg !! Z.to_nat (b mod 256))
  | _ => []
  end.

Lemma bucket_index t b :
  dir_ok t → 0 <= b → Z.shiftr b (sshift t) = b / 256 ∧ MOD b (ssize t) = b mod 256.
Proof.
  intros [-> -> _ _ _] Hb. unfold MOD, DEF_SEGSIZE, DEF_SEGSIZE_SHIFT.
  rewrite Z.shiftr_div_pow2 by done. split; [done|]. by apply (land_mask b 8).
Qed.

Lemma bucket_segment t b :
  dir_ok t → 0 <= b < nsegs t * 256 → 0 <= b / 256 < nsegs t.
Proof.
  intros _ Hb. split; [by apply Z.div_pos; lia|]. apply Z.div_lt_upper_bound; lia.
Qed.

Lemma get_bucket_ok t b :
  dir_ok t → 0 <= b < nsegs t * 256 → get_bucket t b = Ok (chain t b).
Proof.
  intros Hok Hb. unfold get_bucket, chain.
  destruct (bucket_index t b Hok) as [-> ->]; [lia|].
  pose proof (bucket_segment t b Hok Hb) as Hs.
  destruct (d_segs t Hok _ Hs) as (seg & Hseg & Hlen).
  rewrite (lget_lookup _ _ _ (proj1 Hs) Hseg), Hseg. cbn [mbind res_bind].
  destruct (lget_in_range seg (b mod 256)) as (c & -> & ->); [|done].
  rewrite Hlen. by apply Z.mod_pos_bound.
Qed.

Lemma find_bucket_ok t b :
  dir_ok t → 0 <= b < nsegs t * 256 → find_bucket t b = Ok (chain t b).
Proof.
  intros Hok Hb. pose proof (get_bucket_ok t b Hok Hb) as Hg. unfold find_bucket.
  unfold get_bucket in Hg. apply res_bind_Ok in Hg as ([seg|] & Hs & Hg); [|done].
  rewrite Hs. cbn [mbind res_bind]. by apply get_bucket_ok.
Qed.

Lemma put_bucket_ok t b c :
  dir_ok t → 0 <= b < nsegs t * 256 →
  ∃ d, put_bucket t b c = Ok (set_dir t d (dsize t) (nsegs t))
       ∧ dir_ok (set_dir t d (dsize t) (nsegs t))
       ∧ ∀ b', 0 <= b' → chain (set_dir t d (dsize t) (nsegs t)) b'
                         = if decide (b' = b) then c else chain t b'.
Proof.
  intros Hok Hb. unfold put_bucket.
  destruct (bucket_index t b Hok) as [-> ->]; [lia|].
  pose proof (bucket_segment t b Hok Hb) as Hs.
  destruct (d_segs t Hok _ Hs) as (seg & Hseg & Hlen).
  pose proof (Z.mod_pos_bound b 256 ltac:(lia)) as Hm.
  rewrite (lget_lookup _ _ _ (proj1 Hs) Hseg). cbn [mbind res_bind].
  unfold lset. rewrite Hlen, (d_len t Hok). unfold DEF_SEGSIZE.
  pose proof (d_nsegs t Hok).
  replace ((0 <=? b mod 256) && (b mod 256 <? 256)) with true by lia. cbn [mbind res_bind].
  replace ((0 <=? b / 256) && (b / 256 <? dsize t)) with true by lia. cbn [mbind res_bind].
  eexists. split; [done|].
  pose proof (lookup_lt_Some _ _ _ Hseg) as Hlt.
  assert ((Z.to_nat (b mod 256) < length seg)%nat) by (unfold zlen, DEF_SEGSIZE in Hlen; lia).
  split.
  - destruct Hok as [Hsh Hsz Hl Hn Hsegs]. split; simpl; try done.
    { unfold zlen. by rewrite length_insert. }
    intros i Hi. destruct (decide (i = b / 256)) as [->|Hne].
    + eexists. rewrite list_lookup_insert_eq by done. split; [done|].
      unfold zlen. rewrite length_insert. done.
    + rewrite list_lookup_insert_ne by lia. by apply Hsegs.
  - intros b' Hb'. unfold chain. simpl.
    pose proof (Z.div_pos b' 256 Hb' ltac:(lia)). pose proof (Z.mod_pos_bound b' 256 ltac:(lia)).
    pose proof (Z.div_mod b' 256 ltac:(lia)). pose proof (Z.div_mod b 256 ltac:(lia)).
    destruct (decide (b' / 256 = b / 256)) as [Heq|Hne].
    + rewrite Heq, list_lookup_insert_eq, Hseg by done.
      destruct (decide (b' = b)) as [->|Hne'].
      * by rewrite list_lookup_insert_eq by done.
      * rewrite list_lookup_insert_ne by lia. done.
    + rewrite list_lookup_insert_ne by lia. by rewrite decide_False by (intros ->; lia).
Qed.

(** Elements that are in the table. *)
Definition live t : list positive := seqZ 0 (max_bucket t + 1) ≫= chain t.

Lemma elem_of_live t e : e ∈ live t ↔ ∃ b, 0 <= b <= max_bucket t ∧ e ∈ chain t b.
Proof.
  unfold live. rewrite list_elem_of_bind. setoid_rewrite elem_of_seqZ.
  split; intros (b & ?); exists b; naive_solver lia.
Qed.

(** An element stored in bucket [b] carries its hash value and a key that fits. *)
Definition elem_ok t (b : Z) (x : HASHELEMENT V) : Prop :=
  calc_bucket t (hashvalue x) = b
  ∧ hashvalue x = string_hash (elem_key x) (keysize t)
  ∧ strlcpy (elem_key x) (keysize t) = elem_key x.

(** ** The invariant *)
Record htab_ok t : Prop := {
  ok_dir : dir_ok t;
  ok_max : 0 <= max_bucket t < nsegs t * 256;
  ok_small : max_bucket t < 2147483648;
  ok_masks : ∃ j, masks_ok j (max_bucket t) (high_mask t) (low_mask t);
  ok_keysize : 0 < keysize t;
  ok_alloc : 0 < nelem_alloc t ∧ nelem_alloc t * elementSize (entrysize t) <= MaxAllocSize;
  ok_elems : ∀ b e, 0 <= b <= max_bucket t → e ∈ chain t b →
    ∃ x, elems t !! e = Some x ∧ elem_ok t b x;
  ok_nodup : ∀ b, 0 <= b <= max_bucket t → NoDup (chain t b);
  ok_keys : ∀ e1 e2 x1 x2, e1 ∈ live t → e2 ∈ live t →
    elems t !! e1 = Some x1 → elems t !! e2 = Some x2 → elem_key x1 = elem_key x2 → e1 = e2;
  ok_free : NoDup (freeList t) ∧ ∀ e, e ∈ freeList t → e ∉ live t;
  ok_fresh : ∀ e, e ∈ live t ∨ e ∈ freeList t → (e < next_elem t)%positive;
  ok_count : nentries t = zlen (live t)
}.

(** The map a table stands for. *)
Definition entry_pairs t : list (string * positive) :=
  omap (λ e, x ← elems t !! e; Some (elem_key x, e)) (live t).
Definition contents t : gmap string positive := list_to_map (entry_pairs t).

Lemma chains_nodup t :
  (∀ b e, 0 <= b <= max_bucket t → e ∈ chain t b → ∃ x, elems t !! e = Some x ∧ elem_ok t b x) →
  (∀ b, 0 <= b <= max_bucket t → NoDup (chain t b)) → NoDup (live t).
Proof.
  intros Hel Hnd. unfold live. apply NoDup_bind; [| |apply NoDup_seqZ].
  - intros b1 b2 e Hb1 Hb2 He1 He2. apply elem_of_seqZ in Hb1, Hb2.
    destruct (Hel b1 e) as (x1 & Hx1 & <- & _); [lia|done|].
    destruct (Hel b2 e) as (x2 & Hx2 & <- & _); [lia|done|]. by simplify_eq.
  - intros b Hb. apply elem_of_seqZ in Hb. apply Hnd. lia.
Qed.

Lemma live_nodup t : htab_ok t → NoDup (live t).
Proof. intros Hok. apply chains_nodup; apply Hok. Qed.

Lemma contents_lookup t k e :
  htab_ok t →
  contents t !! k = Some e ↔ e ∈ live t ∧ ∃ x, elems t !! e = Some x ∧ elem_key x = k.
Proof.
  intros Hok. unfold contents.
  assert (∀ k e, (k, e) ∈ entry_pairs t ↔ e ∈ live t ∧ ∃ x, elems t !! e = Some x ∧ elem_key x = k) as Hin.
  { intros k' e'. unfold entry_pairs. rewrite list_elem_of_omap. split.
    - intros (e0 & Hl & Heq). destruct (elems t !! e0) as [x|] eqn:Hx; simpl in Heq; naive_solver.
    - intros (Hl & x & Hx & <-). exists e'. by rewrite Hx. }
  rewrite <-Hin. symmetry. apply elem_of_list_to_map'.
  intros e' (He & x & Hx & Hk)%Hin (He' & x' & Hx' & Hk')%Hin.
  eapply (ok_keys t Hok); eauto. congruence.
Qed.

Lemma live_contents t e : htab_ok t → e ∈ live t ↔ ∃ k, contents t !! k = Some e.
Proof.
  intros Hok. setoid_rewrite contents_lookup; [|done]. split; [|naive_solver].
  intros He. apply elem_of_live in He as He'. destruct He' as (b & Hb & Hin).
  destruct (ok_elems t Hok b e Hb Hin) as (x & Hx & _). eauto 10.
Qed.
End directory.

(** ** Looking up a key *)

Section search.
  Context {V : Type}.
  Implicit Types t : HTAB V.

Lemma calc_bucket_range t hv : htab_ok t → 0 <= calc_bucket t hv <= max_bucket t.
Proof. intros Hok. destruct (ok_masks t Hok) as [j Hj]. by apply (bucket_of_range j). Qed.

(** Comparing hash value and prefix finds the element stored under the key. *)
Lemma match_key t b x key :
  0 < keysize t → elem_ok t b x →
  (hashvalue x =? string_hash key (keysize t)) && strncmp_eq (elem_key x) key (keysize t - 1)
  = bool_decide (elem_key x = strlcpy key (keysize t)).
Proof.
  intros Hk (_ & Hh & Hfit). rewrite strncmp_strlcpy, Hfit.
  case_bool_decide as Heq; [|by rewrite andb_false_r].
  rewrite Hh, Heq, string_hash_strlcpy by done. by rewrite Z.eqb_refl.
Qed.

Lemma scan_chain_spec t b key ch :
  0 < keysize t → (∀ e, e ∈ ch → ∃ x, elems t !! e = Some x ∧ elem_ok t b x) →
  ∃ before r, scan_chain t (string_hash key (keysize t)) key ch = Ok (before, r) ∧
    match r with
    | Some (e, after) => ch = before ++ e :: after
        ∧ ∃ x, elems t !! e = Some x ∧ elem_key x = strlcpy key (keysize t)
    | None => before = ch
        ∧ ∀ e x, e ∈ ch → elems t !! e = Some x → elem_key x ≠ strlcpy key (keysize t)
    end.
Proof.
  intros Hk. induction ch as [|e ch IH]; intros Hch; simpl.
  { exists [], None. repeat split; set_solver. }
  destruct (Hch e) as (x & Hx & Hok); [set_solver|].
  unfold get_elem. rewrite Hx. cbn [mbind res_bind]. rewrite (match_key t b) by done.
  case_bool_decide as Heq.
  { exists [], (Some (e, ch)). naive_solver. }
  destruct IH as (before & r & -> & Hr); [set_solver|]. cbn [mbind res_bind].
  exists (e :: before), r. split; [done|]. destruct r as [[e' after]|].
  - destruct Hr as [-> ?]. done.
  - destruct Hr as [-> Hno]. split; [done|].
    intros e' x' [->|He']%elem_of_cons Hx'; naive_solver.
Qed.

(** The bucket of a key's hash value holds the element the table maps it to. *)
Lemma search_bucket t key :
  htab_ok t →
  let b := calc_bucket t (string_hash key (keysize t)) in
  find_bucket t b = Ok (chain t b) ∧
  ∃ before r, scan_chain t (string_hash key (keysize t)) key (chain t b) = Ok (before, r) ∧
    match r with
    | Some (e, after) => chain t b = before ++ e :: after
        ∧ contents t !! strlcpy key (keysize t) = Some e
    | None => before = chain t b ∧ contents t !! strlcpy key (keysize t) = None
    end.
Proof.
  intros Hok b. pose proof (calc_bucket_range t (string_hash key (keysize t)) Hok) as Hb. fold b in Hb.
  pose proof (ok_max t Hok). split; [apply find_bucket_ok; [apply Hok|lia]|].
  destruct (scan_chain_spec t b key (chain t b)) as (before & r & -> & Hr);
    [apply Hok|intros e; by apply (ok_elems t Hok)|].
  exists before, r. split; [done|]. destruct r as [[e after]|].
  - destruct Hr as [Hch (x & Hx & Hkx)]. split; [done|].
    apply contents_lookup; [done|]. split; [|eauto].
    apply elem_of_live. exists b. split; [done|]. rewrite Hch. set_solver.
  - destruct Hr as [-> Hno]. split; [done|].
    destruct (contents t !! strlcpy key (keysize t)) as [e|] eqn:Hc; [|done].
    apply contents_lookup in Hc as (Hl & x & Hx & Hkx); [|done].
    apply elem_of_live in Hl as (b' & Hb' & He).
    destruct (ok_elems t Hok b' e Hb' He) as (x' & Hx' & Hbx & Hh & _). simplify_eq.
    exfalso. apply (Hno e x); [|done..]. unfold b.
    rewrite <-(string_hash_strlcpy key), <-Hkx, <-Hh by apply Hok. done.
Qed.

(** ** The effect of one more bucket *)

Lemma grow_dir t :
  dir_ok t → 0 <= max_bucket t < nsegs t * 256 → max_bucket t + 1 < 2147483648 →
  let new_segnum := Z.shiftr (max_bucket t + 1) (sshift t) in
  ∃ d ds ns,
    (if nsegs t <=? new_segnum then
       t ← (if dsize t <=? new_segnum then dir_realloc t else Ok t);
       seg ← seg_alloc t;
       d ← lset (dir t) new_segnum (Some seg);
       Ok (set_dir t d (dsize t) (nsegs t + 1))
     else Ok t) = Ok (set_dir t d ds ns)
    ∧ dir_ok (set_dir t d ds ns) ∧ nsegs t <= ns ∧ max_bucket t + 1 < ns * 256
    ∧ ∀ b, 0 <= b < nsegs t * 256 → chain (set_dir t d ds ns) b = chain t b.
Proof.
  intros Hok Hmb Hbig. cbv zeta.
  destruct (bucket_index t (max_bucket t + 1) Hok) as [-> _]; [lia|].
  pose proof (Z.div_mod (max_bucket t + 1) 256 ltac:(lia)).
  pose proof (Z.mod_pos_bound (max_bucket t + 1) 256 ltac:(lia)).
  set (sn := (max_bucket t + 1) / 256) in *.
  destruct (Z.leb_spec (nsegs t) sn) as [Hn|Hn].
  2:{ exists (dir t), (dsize t), (nsegs t). destruct t; simpl in *. repeat split; try done; try lia; apply Hok. }
  assert (sn = nsegs t) as -> by lia. clear Hn.
  destruct Hok as [Hsh Hsz Hl Hns Hsegs].
  set (t1 := if dsize t <=? nsegs t
             then set_dir t (dir t ++ replicate (Z.to_nat (Z.shiftl (dsize t) 1 - dsize t)) None)
                    (Z.shiftl (dsize t) 1) (nsegs t) else t).
  assert ((if dsize t <=? nsegs t then dir_realloc t else Ok t) = Ok t1) as ->.
  { unfold t1. destruct (Z.leb_spec (dsize t) (nsegs t)); [|done].
    unfold dir_realloc, DynaHashAlloc. rewrite check_true; [done|].
    rewrite Z.shiftl_mul_pow2 by done. unfold MaxAllocSize. lia. }
  cbn [mbind res_bind].
  assert (ssize t1 = 256 ∧ nsegs t1 = nsegs t ∧ zlen (dir t1) = dsize t1 ∧ nsegs t < dsize t1
    ∧ (∀ i, 0 <= i < nsegs t → dir t1 !! Z.to_nat i = dir t !! Z.to_nat i)
    ∧ ∀ d ds ns, set_dir t1 d ds ns = set_dir t d ds ns) as (Hs1 & Hn1 & Hl1 & Hlt1 & Hd1 & He1).
  { unfold t1. destruct (Z.leb_spec (dsize t) (nsegs t)); simpl; [|repeat split; auto; lia].
    rewrite Z.shiftl_mul_pow2 by done. unfold zlen in *.
    rewrite length_app, length_replicate. repeat split; try done; try lia.
    intros i Hi. rewrite lookup_app_l by lia. done. }
  clearbody t1. unfold seg_alloc, DynaHashAlloc. rewrite Hs1, check_true by done. cbn [mbind res_bind].
  unfold lset. rewrite Hl1.
  replace ((0 <=? nsegs t) && (nsegs t <? dsize t1)) with true by lia. cbn [mbind res_bind].
  rewrite He1, Hn1. eexists _, _, _. split; [done|].
  split; [|split_and!; [lia..|]].
  - split; simpl; try done; [unfold zlen in *; by rewrite length_insert|lia|].
    intros i Hi. destruct (decide (i = nsegs t)) as [->|].
    + rewrite list_lookup_insert_eq by (unfold zlen in *; lia). eexists. split; [done|].
      by vm_compute.
    + rewrite list_lookup_insert_ne, Hd1 by lia. apply Hsegs. lia.
  - intros b Hb. unfold chain. simpl.
    assert (0 <= b / 256 < nsegs t) by (split; [apply Z.div_pos; lia|apply Z.div_lt_upper_bound; lia]).
    rewrite list_lookup_insert_ne, Hd1 by lia. done.
Qed.
End search.

Section expand.
  Context {V : Type}.
  Implicit Types t : HTAB V.

(** Whether an element stays in the bucket that is split. *)
Definition stays t (old_bucket : Z) (e : positive) : Prop :=
  match elems t !! e with
  | Some x => calc_bucket t (hashvalue x) = old_bucket
  | None => False
  end.

#[local] Instance stays_dec t ob e : Decision (stays t ob e).
Proof. unfold stays. destruct (elems t !! e); apply _. Defined.

Lemma relocate_spec t ob ch :
  (∀ e, e ∈ ch → is_Some (elems t !! e)) →
  relocate t ob ch = Ok (filter (stays t ob) ch, filter (λ e, ¬ stays t ob e) ch).
Proof.
  induction ch as [|e ch IH]; intros Hch; [done|]. simpl.
  destruct (Hch e) as [x Hx]; [set_solver|].
  unfold get_elem at 1. rewrite Hx. cbn [mbind res_bind]. rewrite IH by set_solver. cbn [mbind res_bind].
  assert (stays t ob e ↔ calc_bucket t (hashvalue x) = ob) as Hst by (unfold stays; by rewrite Hx).
  rewrite !filter_cons.
  destruct (Z.eqb_spec (calc_bucket t (hashvalue x)) ob); repeat case_decide; naive_solver.
Qed.

(** Two tables with the same elements, of which one has one more bucket. *)
Record split_of t t' : Prop := {
  sp_elems : elems t' = elems t;
  sp_free : freeList t' = freeList t;
  sp_next : next_elem t' = next_elem t;
  sp_nentries : nentries t' = nentries t;
  sp_keysize : keysize t' = keysize t;
  sp_frozen : frozen t' = frozen t;
  sp_alloc : nelem_alloc t' = nelem_alloc t ∧ entrysize t' = entrysize t;
  sp_max : max_bucket t' = max_bucket t + 1;
  sp_calc : ∀ hv, calc_bucket t' hv
    = bucket_of (max_bucket t + 1) (grown_high (max_bucket t) (high_mask t))
        (grown_low (max_bucket t) (high_mask t) (low_mask t)) hv;
  sp_chain : ∀ b, 0 <= b <= max_bucket t + 1 →
    let ob := Z.land (max_bucket t + 1) (low_mask t) in
    chain t' b = if decide (b = max_bucket t + 1) then filter (λ e, ¬ stays t' ob e) (chain t ob)
                 else if decide (b = ob) then filter (stays t' ob) (chain t ob) else chain t b
}.

Lemma old_bucket_range j mb hm lm : masks_ok j mb hm lm → 0 <= Z.land (mb + 1) lm <= mb.
Proof.
  intros (Hj & -> & _ & Hmb). rewrite land_mask by done.
  pose proof (Z.mod_pos_bound (mb + 1) (2 ^ j)). lia.
Qed.

Lemma expand_table_split t :
  htab_ok t → max_bucket t + 1 < 2147483648 →
  ∃ t', expand_table t = Ok t' ∧ split_of t t' ∧ dir_ok t' ∧ max_bucket t' < nsegs t' * 256
        ∧ ∃ j, masks_ok j (max_bucket t') (high_mask t') (low_mask t').
Proof.
  intros Hok Hbig. pose proof (ok_max t Hok) as Hmax.
  destruct (ok_masks t Hok) as [j Hj]. pose proof (old_bucket_range _ _ _ _ Hj) as Hob.
  unfold expand_table. rewrite u32_id by lia.
  destruct (grow_dir t (ok_dir t Hok) Hmax Hbig) as (d & ds & ns & -> & Hd1 & Hns & Hmb & Hch1).
  cbn [mbind res_bind]. set (t1 := set_dir t d ds ns) in *.
  change (low_mask t1) with (low_mask t). change (max_bucket t1) with (max_bucket t).
  rewrite (u32_id (max_bucket t + 1)) by lia.
  set (ob := Z.land (max_bucket t + 1) (low_mask t)) in *.
  set (t2 := if high_mask _ <? _ then _ else _).
  assert (t2 = set_masks t1 (max_bucket t + 1) (grown_high (max_bucket t) (high_mask t))
    (grown_low (max_bucket t) (high_mask t) (low_mask t))) as ->.
  { unfold t2, grown_high, grown_low. simpl. by destruct (_ <? _). }
  set (t2 := set_masks _ _ _ _).
  assert (dir_ok t2) as Hd2 by (destruct Hd1; by split).
  assert (nsegs t2 = ns) as Hn2 by done.
  rewrite (get_bucket_ok t2 ob Hd2) by (rewrite Hn2; lia). cbn [mbind res_bind].
  change (chain t2 ob) with (chain t1 ob). rewrite Hch1 by lia.
  rewrite relocate_spec.
  2:{ intros e He. destruct (ok_elems t Hok ob e) as (x & Hx & _); [lia|done|]. exists x. done. }
  cbn [mbind res_bind].
  destruct (put_bucket_ok t2 ob (filter (stays t2 ob) (chain t ob)) Hd2) as (d3 & -> & Hd3 & Hc3);
    [rewrite Hn2; lia|]. cbn [mbind res_bind].
  destruct (put_bucket_ok (set_dir t2 d3 (dsize t2) (nsegs t2)) (max_bucket t + 1)
    (filter (λ e, ¬ stays t2 ob e) (chain t ob)) Hd3) as (d4 & -> & Hd4 & Hc4);
    [simpl; lia|].
  eexists. split; [done|]. split; [|split; [done|split; [done|by eapply masks_grow]]].
  split; try done. intros b Hb. cbv zeta. rewrite Hc4 by lia.
  destruct (decide (b = max_bucket t + 1)); [done|].
  rewrite Hc3 by lia. fold ob. destruct (decide (b = ob)); [done|].
  change (chain t2 b) with (chain t1 b). apply Hch1. lia.
Qed.

Lemma split_live t t' e : htab_ok t → split_of t t' → e ∈ live t' ↔ e ∈ live t.
Proof.
  intros Hok Hsp. destruct (ok_masks t Hok) as [j Hj]. pose proof (old_bucket_range _ _ _ _ Hj) as Hob.
  rewrite !elem_of_live, (sp_max _ _ Hsp). split.
  - intros (b & Hb & He). rewrite (sp_chain _ _ Hsp b Hb) in He. cbv zeta in He.
    destruct (decide _); [|destruct (decide _)];
      try (apply list_elem_of_filter in He as [_ He]; by eauto).
    exists b. split; [lia|done].
  - intros (b & Hb & He). pose proof (sp_chain _ _ Hsp) as Hc. cbv zeta in Hc.
    set (ob := Z.land _ _) in *.
    destruct (decide (b = ob)) as [->|].
    + destruct (decide (stays t' ob e)).
      * exists ob. split; [lia|]. rewrite Hc by lia. rewrite decide_False, decide_True by lia.
        by apply list_elem_of_filter.
      * exists (max_bucket t + 1). split; [lia|]. rewrite Hc by lia. rewrite decide_True by lia.
        by apply list_elem_of_filter.
    + exists b. split; [lia|]. rewrite Hc by lia. by rewrite !decide_False by lia.
Qed.

Lemma split_elems t t' b e :
  htab_ok t → split_of t t' → 0 <= b <= max_bucket t' → e ∈ chain t' b →
  ∃ x, elems t' !! e = Some x ∧ elem_ok t' b x.
Proof.
  intros Hok Hsp Hb He. destruct (ok_masks t Hok) as [j Hj].
  pose proof (old_bucket_range _ _ _ _ Hj) as Hob.
  rewrite (sp_max _ _ Hsp) in Hb. rewrite (sp_chain _ _ Hsp b Hb) in He. cbv zeta in He.
  set (ob := Z.land _ _) in *.
  assert (∀ b0, 0 <= b0 <= max_bucket t → e ∈ chain t b0 → ∃ x, elems t' !! e = Some x ∧
    string_hash (elem_key x) (keysize t') = hashvalue x ∧ strlcpy (elem_key x) (keysize t') = elem_key x ∧
    (calc_bucket t' (hashvalue x) = b0 ∨ calc_bucket t' (hashvalue x) = max_bucket t + 1 ∧ b0 = ob)) as Hgrow.
  { intros b0 Hb0 He0. destruct (ok_elems t Hok b0 e Hb0 He0) as (x & Hx & Hcx & Hh & Hf).
    exists x. rewrite (sp_elems _ _ Hsp), (sp_keysize _ _ Hsp), (sp_calc _ _ Hsp).
    split_and!; try done. subst b0. by apply (bucket_of_grow j). }
  unfold elem_ok. destruct (decide (b = max_bucket t + 1)) as [->|Hb1]; [|destruct (decide (b = ob)) as [->|Hb2]].
  - apply list_elem_of_filter in He as [Hst He].
    destruct (Hgrow ob) as (x & Hx & Hh & Hf & Hc); [lia|done|]. exists x.
    unfold stays in Hst. rewrite Hx in Hst. naive_solver.
  - apply list_elem_of_filter in He as [Hst He].
    destruct (Hgrow ob) as (x & Hx & Hh & Hf & Hc); [lia|done|]. exists x.
    unfold stays in Hst. rewrite Hx in Hst. naive_solver.
  - destruct (Hgrow b) as (x & Hx & Hh & Hf & Hc); [lia|done|]. exists x. naive_solver.
Qed.

Lemma split_nodup t t' b :
  htab_ok t → split_of t t' → 0 <= b <= max_bucket t' → NoDup (chain t' b).
Proof.
  intros Hok Hsp Hb. destruct (ok_masks t Hok) as [j Hj].
  pose proof (old_bucket_range _ _ _ _ Hj) as Hob. rewrite (sp_max _ _ Hsp) in Hb.
  rewrite (sp_chain _ _ Hsp b Hb). cbv zeta.
  repeat case_decide; try apply NoDup_filter; apply (ok_nodup t Hok); lia.
Qed.

(** Splitting a bucket keeps the invariant and the elements. *)
Lemma expand_table_ok t :
  htab_ok t → max_bucket t + 1 < 2147483648 →
  ∃ t', expand_table t = Ok t' ∧ htab_ok t' ∧ split_of t t'.
Proof.
  intros Hok Hbig.
  destruct (expand_table_split t Hok Hbig) as (t' & Ht' & Hsp & Hd & Hmx & Hm).
  exists t'. split; [done|]. split; [|done].
  pose proof (λ e, split_live t t' e Hok Hsp) as Hlive.
  assert (∀ b e, 0 <= b <= max_bucket t' → e ∈ chain t' b →
    ∃ x, elems t' !! e = Some x ∧ elem_ok t' b x) as Hel by eauto using split_elems.
  assert (NoDup (live t')) as Hnd by eauto using chains_nodup, split_nodup.
  split; try done.
  - pose proof (ok_max t Hok). rewrite (sp_max _ _ Hsp) in *. lia.
  - rewrite (sp_max _ _ Hsp). lia.
  - rewrite (sp_keysize _ _ Hsp). apply Hok.
  - destruct (sp_alloc _ _ Hsp) as [-> ->]. apply Hok.
  - intros b Hb. by eapply split_nodup.
  - intros e1 e2 x1 x2. rewrite !Hlive, (sp_elems _ _ Hsp). apply (ok_keys t Hok).
  - rewrite (sp_free _ _ Hsp). setoid_rewrite Hlive. apply Hok.
  - intros e. rewrite Hlive, (sp_free _ _ Hsp), (sp_next _ _ Hsp). apply Hok.
  - rewrite (sp_nentries _ _ Hsp), (ok_count t Hok). unfold zlen. f_equal. apply Permutation_length.
    apply NoDup_Permutation; [by apply live_nodup|done|]. intros e. by rewrite Hlive.
Qed.

Lemma split_contents t t' : htab_ok t → htab_ok t' → split_of t t' → contents t' = contents t.
Proof.
  intros Hok Hok' Hsp. apply map_eq. intros k. apply option_eq. intros e.
  rewrite !contents_lookup, (split_live t t' e Hok Hsp), (sp_elems _ _ Hsp) by done. done.
Qed.
End expand.

(** ** Entering and removing *)

Section update.
  Context {V : Type}.
  Implicit Types t : HTAB V.

(** A new block of elements. *)
Lemma element_alloc_ok t n :
  htab_ok t → 0 <= n → n * elementSize (entrysize t) <= MaxAllocSize →
  ∃ fl nx, element_alloc t n = Ok (set_free t (nentries t) fl nx)
    ∧ htab_ok (set_free t (nentries t) fl nx) ∧ (0 < n → fl ≠ []) ∧ (next_elem t <= nx)%positive.
Proof.
  intros Hok Hn Hmax. destruct (ok_free t Hok) as [Hnd Hnl]. pose proof (ok_fresh t Hok) as Hfr.
  unfold element_alloc, DynaHashAlloc. rewrite check_true by lia. cbv zeta.
  set (block := Pos.of_nat <$> seq _ _). set (nx := Pos.of_nat _).
  assert (∀ e, e ∈ block → (next_elem t <= e)%positive ∧ (e < nx)%positive) as Hin.
  { intros e (i & -> & Hi%elem_of_seq)%list_elem_of_fmap. lia. }
  assert (next_elem t <= nx)%positive by lia.
  exists (reverse block ++ freeList t), nx. split; [done|]. split; [|split; [|done]].
  - split; try done; try apply Hok; simpl.
    + by destruct (ok_dir t Hok); split.
    + split.
      * apply NoDup_app. rewrite reverse_Permutation. split_and!; [| |done].
        { apply NoDup_fmap_2_strong, NoDup_seq. intros i j Hi%elem_of_seq Hj%elem_of_seq. lia. }
        intros e Hr He. rewrite elem_of_reverse in Hr. apply Hin in Hr as [Hlo _]. specialize (Hfr e (or_intror He)). lia.
      * intros e [He|He]%elem_of_app Hl; [|by apply (Hnl e)].
        rewrite elem_of_reverse in He. apply Hin in He as [Hlo _]. specialize (Hfr e (or_introl Hl)). lia.
    + intros e [Hl|[He|He]%elem_of_app].
      * specialize (Hfr e (or_introl Hl)). lia.
      * rewrite elem_of_reverse in He. by apply Hin.
      * specialize (Hfr e (or_intror He)). lia.
  - intros Hpos Hnil. apply (f_equal length) in Hnil.
    rewrite length_app, length_reverse in Hnil. unfold block in Hnil.
    rewrite length_fmap, length_seq in Hnil. simpl in Hnil. lia.
Qed.

(** A free element, in a table that is the same but for its free list. *)
Lemma get_hash_entry_ok t :
  htab_ok t →
  ∃ e fl nx, get_hash_entry t = Ok (set_free t (nentries t + 1) fl nx, e)
    ∧ NoDup (e :: fl) ∧ (∀ e', e' ∈ (e :: fl) → (e' ∉ live t) ∧ (e' < nx)%positive)
    ∧ (next_elem t <= nx)%positive.
Proof.
  intros Hok. unfold get_hash_entry.
  assert (∃ fl nx, match freeList t with [] => element_alloc t (nelem_alloc t) | _ => Ok t end
    = Ok (set_free t (nentries t) fl nx) ∧ htab_ok (set_free t (nentries t) fl nx)
      ∧ fl ≠ [] ∧ (next_elem t <= nx)%positive) as (fl & nx & -> & Hok1 & Hfl & Hnx).
  { destruct (freeList t) as [|e fl] eqn:Hfl.
    - destruct (ok_alloc t Hok) as [Hpos Hmax].
      destruct (element_alloc_ok t (nelem_alloc t)) as (fl & nx & ? & ? & ? & ?); [done|lia|done|].
      exists fl, nx. auto.
    - exists (e :: fl), (next_elem t). rewrite <-Hfl. destruct t; simpl in *. subst. done. }
  cbn [mbind res_bind]. simpl. destruct fl as [|e fl]; [done|].
  destruct (ok_free _ Hok1) as [Hnd Hnl]. simpl in Hnd, Hnl.
  eexists e, fl, nx. split; [done|]. split; [done|]. split; [|done].
  intros e' He'. split; [by apply Hnl|]. apply (ok_fresh _ Hok1). by right.
Qed.

(** Adding a free element to the end of a chain. *)
Section enter.
  Context t (Hok : htab_ok t) (key : string).
  Context (Hnew : contents t !! strlcpy key (keysize t) = None).
  Context (e : positive) (fl : list positive) (nx : positive) (y : option V).
  Context (Hnd : NoDup (e :: fl)) (Hfree : ∀ e', e' ∈ (e :: fl) → (e' ∉ live t) ∧ (e' < nx)%positive).
  Context (Hnx : (next_elem t <= nx)%positive).
  Context (d : list (option (list (list positive)))).

Let hv := string_hash key (keysize t).
Let b0 := calc_bucket t hv.
Let x0 := mkElement hv (strlcpy key (keysize t)) y.
Let t' := set_elems (set_dir (set_free t (nentries t + 1) fl nx) d (dsize t) (nsegs t))
            (<[e := x0]> (elems t)).

  Context (Hdir : dir_ok (set_dir (set_free t (nentries t + 1) fl nx) d (dsize t) (nsegs t))).
  Context (Hch : ∀ b, 0 <= b → chain t' b = if decide (b = b0) then chain t b0 ++ [e] else chain t b).

Lemma enter_live e' : e' ∈ live t' ↔ e' = e ∨ e' ∈ live t.
Proof.
  pose proof (calc_bucket_range t hv Hok) as Hb. fold b0 in Hb.
  rewrite !elem_of_live. change (max_bucket t') with (max_bucket t). split.
  - intros (b & Hb' & He). rewrite Hch in He by lia. case_decide; set_solver.
  - intros [->|(b & Hb' & He)].
    + exists b0. split; [done|]. rewrite Hch, decide_True by lia. set_solver.
    + exists b. split; [done|]. rewrite Hch by lia. case_decide; set_solver.
Qed.

Lemma enter_elems b e' :
  0 <= b <= max_bucket t → e' ∈ chain t' b → ∃ x, elems t' !! e' = Some x ∧ elem_ok t' b x.
Proof.
  intros Hb He. rewrite Hch in He by lia.
  destruct (decide (e' = e)) as [->|Hne].
  - exists x0. split; [apply lookup_insert_eq|].
    case_decide as Hbb; [|exfalso; apply (Hfree e); [set_solver|apply elem_of_live; eauto]].
    subst b. split; [done|]. simpl. rewrite strlcpy_idemp, string_hash_strlcpy by apply Hok. done.
  - assert (e' ∈ chain t b) as He' by (case_decide; set_solver).
    destruct (ok_elems t Hok b e' Hb He') as (x & Hx & Hxok). exists x.
    split; [|done]. simpl. by rewrite lookup_insert_ne by done.
Qed.

Lemma enter_nodup b : 0 <= b <= max_bucket t → NoDup (chain t' b).
Proof.
  intros Hb. pose proof (ok_nodup t Hok b Hb). rewrite Hch by lia.
  case_decide as Hbb; [|done]. rewrite <-Hbb. apply NoDup_app. split; [done|]. split; [|apply NoDup_singleton].
  intros e' He' ->%list_elem_of_singleton. apply (Hfree e); [set_solver|]. apply elem_of_live. eauto.
Qed.

Lemma enter_ok : htab_ok t'.
Proof.
  assert (NoDup (live t')) as Hndl by (apply chains_nodup; [apply enter_elems|apply enter_nodup]).
  split; try done; try apply Hok.
  - by destruct Hdir; split.
  - apply enter_elems.
  - apply enter_nodup.
  - intros e1 e2 x1 x2 He1%enter_live He2%enter_live Hx1 Hx2 Hk. simpl in Hx1, Hx2.
    assert (∀ e' x', e' ∈ live t → elems t !! e' = Some x' → elem_key x' = strlcpy key (keysize t) → False) as Hno.
    { intros e' x' He' Hx' Hk'. assert (contents t !! strlcpy key (keysize t) = Some e') by
        (apply contents_lookup; eauto). congruence. }
    destruct (decide (e1 = e)) as [->|], (decide (e2 = e)) as [->|]; [done|..];
      rewrite ?lookup_insert_eq in *; rewrite ?lookup_insert_ne in * by done; simplify_eq.
    + destruct He2 as [|He2]; [done|]. exfalso. eapply (Hno e2); eauto.
    + destruct He1 as [|He1]; [done|]. exfalso. eapply (Hno e1); eauto.
    + destruct He1, He2; try done. eapply (ok_keys t Hok); eauto.
  - simpl. pose proof Hnd as [Hnin Hnd']%NoDup_cons. split; [done|].
    intros e' He' [->|Hl]%enter_live; [done|]. by apply (Hfree e'); [set_solver|].
  - intros e'. rewrite enter_live. simpl. pose proof (ok_fresh t Hok e') as Hf.
    intros [[->|Hl]|Hf']; [apply (Hfree e); set_solver| |apply (Hfree e'); set_solver].
    specialize (Hf (or_introl Hl)). lia.
  - simpl. rewrite (ok_count t Hok). unfold zlen.
    assert (live t' ≡ₚ e :: live t) as ->%Permutation_length.
    { apply NoDup_Permutation; [done| |].
      - apply NoDup_cons. split; [apply Hfree; set_solver|by apply live_nodup].
      - intros e'. rewrite enter_live. set_solver. }
    simpl. lia.
Qed.

Lemma enter_contents : contents t' = <[strlcpy key (keysize t) := e]> (contents t).
Proof.
  pose proof enter_ok as Hok'. apply map_eq. intros k. apply option_eq. intros e'.
  rewrite contents_lookup, enter_live by done. simpl. split.
  - intros ([->|Hl] & x & Hx & <-).
    + rewrite lookup_insert_eq in Hx. simplify_eq. simpl. apply lookup_insert_eq.
    + assert (e' ≠ e) by (intros ->; by apply (Hfree e); [set_solver|]).
      rewrite lookup_insert_ne in Hx by done.
      assert (contents t !! elem_key x = Some e') as Hc by (apply contents_lookup; eauto).
      rewrite lookup_insert_ne; [done|congruence].
  - intros [[<- <-]|[Hne Hc]]%lookup_insert_Some.
    + split; [by left|]. exists x0. by rewrite lookup_insert_eq.
    + apply contents_lookup in Hc as (Hl & x & Hx & <-); [|done]. split; [by right|].
      exists x. rewrite lookup_insert_ne; [done|]. intros ->. by apply (Hfree e'); [set_solver|].
Qed.
End enter.
End update.

(** Unlinking an element and putting it on the free list. *)
Section remove.
  Context {V : Type} (t : HTAB V) (Hok : htab_ok t) (k : string).
  Context (b0 : Z) (Hb0 : 0 <= b0 <= max_bucket t).
  Context (before after : list positive) (e : positive) (Hb : chain t b0 = before ++ e :: after).
  Context (He : contents t !! k = Some e).
  Context (d : list (option (list (list positive)))).

Let t' := set_free (set_dir t d (dsize t) (nsegs t)) (nentries t - 1) (e :: freeList t) (next_elem t).

  Context (Hdir : dir_ok (set_dir t d (dsize t) (nsegs t))).
  Context (Hch : ∀ b, 0 <= b → chain t' b = if decide (b = b0) then before ++ after else chain t b).

Lemma remove_chain b e' : 0 <= b <= max_bucket t → e' ∈ chain t' b ↔ e' ∈ chain t b ∧ e' ≠ e.
Proof.
  intros Hb'. rewrite Hch by lia. case_decide as Hbb.
  - subst b. rewrite Hb. pose proof (ok_nodup t Hok b0 Hb') as Hnd. rewrite Hb in Hnd.
    apply NoDup_app in Hnd as (_ & Hni & [Hna _]%NoDup_cons). set_solver.
  - split; [|by intros [? _]]. intros He'. split; [done|]. intros ->.
    destruct (ok_elems t Hok b e Hb' He') as (x & Hx & Hc & _).
    destruct (ok_elems t Hok b0 e Hb0) as (x' & Hx' & Hc' & _); [rewrite Hb; set_solver|].
    simplify_eq.
Qed.

Lemma remove_live e' : e' ∈ live t' ↔ e' ∈ live t ∧ e' ≠ e.
Proof.
  rewrite !elem_of_live. change (max_bucket t') with (max_bucket t). split.
  - intros (b & Hb' & [? ?]%remove_chain); eauto.
  - intros [(b & Hb' & He') Hne]. exists b. split; [done|]. by apply remove_chain.
Qed.

Lemma remove_elems b e' :
  0 <= b <= max_bucket t → e' ∈ chain t' b → ∃ x, elems t' !! e' = Some x ∧ elem_ok t' b x.
Proof. intros Hb' [He' _]%remove_chain; [|done]. by apply (ok_elems t Hok). Qed.

Lemma remove_nodup b : 0 <= b <= max_bucket t → NoDup (chain t' b).
Proof.
  intros Hb'. pose proof (ok_nodup t Hok b Hb') as Hnd. rewrite Hch by lia. case_decide; [|done].
  subst b. rewrite Hb in Hnd. rewrite <-Permutation_middle in Hnd. by apply NoDup_cons in Hnd as [_ ?].
Qed.

Lemma removed_live : e ∈ live t.
Proof. by apply contents_lookup in He as [? _]. Qed.

Lemma remove_ok : htab_ok t'.
Proof.
  assert (NoDup (live t')) as Hndl by (apply chains_nodup; [apply remove_elems|apply remove_nodup]).
  split; try done; try apply Hok.
  - by destruct Hdir; split.
  - apply remove_elems.
  - apply remove_nodup.
  - intros e1 e2 x1 x2 [He1 _]%remove_live [He2 _]%remove_live. by apply (ok_keys t Hok).
  - destruct (ok_free t Hok) as [Hnd Hfree]. split.
    + apply NoDup_cons. split; [|done]. intros Hin. apply (Hfree e Hin), removed_live.
    + intros e' He' [Hl Hne]%remove_live. apply (Hfree e'); set_solver.
  - intros e'. rewrite remove_live. simpl. pose proof removed_live.
    intros [[? ?]|[->|?]%elem_of_cons]; apply (ok_fresh t Hok); auto.
  - simpl. rewrite (ok_count t Hok). unfold zlen.
    assert (live t ≡ₚ e :: live t') as ->%Permutation_length.
    { apply NoDup_Permutation; [by apply live_nodup| |].
      - apply NoDup_cons. split; [|done]. rewrite remove_live. naive_solver.
      - intros e'. rewrite elem_of_cons, remove_live. pose proof removed_live.
        destruct (decide (e' = e)); naive_solver. }
    simpl. lia.
Qed.

Lemma remove_contents : contents t' = delete k (contents t).
Proof.
  pose proof remove_ok as Hok'. apply map_eq. intros k'. apply option_eq. intros e'.
  rewrite lookup_delete_Some, !contents_lookup, remove_live by done. simpl.
  apply contents_lookup in He as (Hl & x & Hx & Hk); [|done].
  split.
  - intros ((Hl' & Hne) & x' & Hx' & <-). split; [|eauto]. intros Heq. apply Hne.
    eapply (ok_keys t Hok); eauto. congruence.
  - intros (Hne & Hl' & x' & Hx' & <-). split; [|eauto]. split; [done|]. intros ->. congruence.
Qed.
End remove.

(** ** What a search does to the map *)

Section hash_search.
  Context {V : Type}.
  Implicit Types t : HTAB V.

Lemma hash_search_find t scans key :
  htab_ok t →
  let r := contents t !! strlcpy key (keysize t) in
  hash_search scans t key HASH_FIND = Ok (t, r, bool_decide (is_Some r)).
Proof.
  intros Hok r. unfold hash_search, hash_search_with_hash_value. cbn [mbind res_bind].
  destruct (search_bucket t key Hok) as (-> & before & found & Hscan & Hr).
  cbn [mbind res_bind]. rewrite Hscan. cbn [mbind res_bind].
  destruct found as [[e after]|]; destruct Hr as [_ Hr]; subst r; by rewrite Hr.
Qed.

(** The split a [HASH_ENTER] may start with. *)
Lemma enter_expand t scans :
  htab_ok t → nentries t < 2147483647 →
  ∃ t', (if (max_bucket t <? nentries t) && negb (frozen t) && negb scans
         then expand_table t else Ok t) = Ok t'
        ∧ htab_ok t' ∧ contents t' = contents t ∧ elems t' = elems t ∧ frozen t' = frozen t
        ∧ keysize t' = keysize t ∧ (∀ e, e ∈ live t' ↔ e ∈ live t).
Proof.
  intros Hok Hn. destruct (_ && _ && _) eqn:Hc.
  - destruct (expand_table_ok t Hok) as (t' & Ht' & Hok' & Hsp); [lia|].
    exists t'. split; [done|]. destruct (split_contents t t' Hok Hok' Hsp).
    split_and!; try done; try apply Hsp. intros e. by apply split_live.
  - exists t. done.
Qed.

Lemma hash_search_enter t scans key :
  htab_ok t → frozen t = false → nentries t < 2147483647 →
  let k := strlcpy key (keysize t) in
  ∃ t' e, hash_search scans t key HASH_ENTER
          = Ok (t', Some e, bool_decide (is_Some (contents t !! k)))
    ∧ htab_ok t' ∧ frozen t' = false ∧ keysize t' = keysize t
    ∧ contents t' = <[k := e]> (contents t) ∧ (∀ e0, contents t !! k = Some e0 → e0 = e)
    ∧ (∀ e', e' ∈ live t → elems t' !! e' = elems t !! e').
Proof.
  intros Hok Hfr Hn k. unfold hash_search, hash_search_with_hash_value.
  destruct (enter_expand t scans Hok Hn) as (t1 & -> & Hok1 & Hc1 & He1 & Hf1 & Hk1 & Hl1).
  cbn [mbind res_bind]. rewrite <-Hk1.
  destruct (search_bucket t1 key Hok1) as (-> & before & found & Hscan & Hr).
  cbn [mbind res_bind]. rewrite Hscan. cbn [mbind res_bind].
  assert (contents t !! k = contents t1 !! strlcpy key (keysize t1)) as Hk by (unfold k; by rewrite Hc1, Hk1).
  rewrite Hk. destruct found as [[e after]|]; destruct Hr as [Hch Hr]; rewrite Hr in Hk |- *.
  { exists t1, e. rewrite Hc1, insert_id by done. split_and!; congruence || done. }
  rewrite Hf1, Hfr.
  destruct (get_hash_entry_ok t1 Hok1) as (e & fl & nx & -> & Hnd & Hfree & Hnx).
  cbn [mbind res_bind].
  destruct (put_bucket_ok (set_free t1 (nentries t1 + 1) fl nx)
    (calc_bucket t1 (string_hash key (keysize t1))) (before ++ [e])) as (d & -> & Hd & Hch').
  { by destruct (ok_dir t1 Hok1); split. }
  { pose proof (calc_bucket_range t1 (string_hash key (keysize t1)) Hok1).
    pose proof (ok_max t1 Hok1). simpl. lia. }
  subst before. cbn [mbind res_bind]. eexists _, e. split; [done|].
  split; [by refine (enter_ok t1 Hok1 key Hr e fl nx _ Hnd Hfree Hnx d Hd Hch')|].
  split; [by rewrite <-Hfr, <-Hf1|]. split; [done|]. split; [|split; [done|]].
  - unfold k. rewrite <-Hk1, <-Hc1.
    exact (enter_contents t1 Hok1 key Hr e fl nx _ Hnd Hfree Hnx d Hd Hch').
  - intros e' He'. simpl. rewrite lookup_insert_ne, He1; [done|].
    intros ->. rewrite <-Hl1 in He'. by apply (Hfree e'); [set_solver|].
Qed.

Lemma hash_search_remove t scans key :
  htab_ok t →
  let k := strlcpy key (keysize t) in
  ∃ t', hash_search scans t key HASH_REMOVE
        = Ok (t', contents t !! k, bool_decide (is_Some (contents t !! k)))
    ∧ htab_ok t' ∧ frozen t' = frozen t ∧ keysize t' = keysize t
    ∧ contents t' = delete k (contents t) ∧ elems t' = elems t.
Proof.
  intros Hok k. unfold hash_search, hash_search_with_hash_value. cbn [mbind res_bind].
  pose proof (calc_bucket_range t (string_hash key (keysize t)) Hok) as Hb.
  destruct (search_bucket t key Hok) as (-> & before & found & Hscan & Hr).
  cbn [mbind res_bind]. rewrite Hscan. cbn [mbind res_bind]. fold k in Hr.
  destruct found as [[e after]|]; destruct Hr as [Hch Hr]; rewrite Hr.
  2:{ exists t. rewrite delete_id by done. done. }
  destruct (put_bucket_ok t (calc_bucket t (string_hash key (keysize t))) (before ++ after))
    as (d & -> & Hd & Hch'); [apply Hok|pose proof (ok_max t Hok); lia|].
  cbn [mbind res_bind]. eexists. split; [done|].
  split; [exact (remove_ok t Hok k _ Hb before after e Hch Hr d Hd Hch')|].
  do 2 (split; [done|]). split; [|done].
  exact (remove_contents t Hok k _ Hb before after e Hch Hr d Hd Hch').
Qed.

(** The number of entries is the size of the map. *)
Lemma num_entries_contents t : htab_ok t → hash_get_num_entries t = Z.of_nat (size (contents t)).
Proof.
  intros Hok. unfold hash_get_num_entries, contents. rewrite (ok_count t Hok).
  assert (NoDup (entry_pairs t).*1 ∧ length (entry_pairs t) = length (live t)) as [Hnd Hlen].
  { unfold entry_pairs. pose proof (live_nodup t Hok) as Hl.
    assert (∀ e, e ∈ live t → ∃ x, elems t !! e = Some x) as Hx.
    { intros e (b & Hb & He)%elem_of_live. destruct (ok_elems t Hok b e Hb He) as (x & ? & _). eauto. }
    pose proof (ok_keys t Hok) as Hk. revert Hl Hx Hk. generalize (live t) as l.
    induction l as [|e l IH]; intros Hl Hx Hk; simpl; [split; [apply NoDup_nil_2|done]|].
    apply NoDup_cons in Hl as [Hel Hl]. destruct (Hx e) as [x Hex]; [set_solver|].
    rewrite Hex. simpl. destruct IH as [IH1 IH2]; [done|set_solver|intros; eapply Hk; eauto; set_solver|].
    split; [|by f_equal]. apply NoDup_cons. split; [|done].
    intros ([k e'] & Heq & (e0 & He0 & Hp)%list_elem_of_omap)%list_elem_of_fmap. simpl in *. subst k.
    destruct (elems t !! e0) as [x0|] eqn:Hx0; simplify_eq/=.
    apply Hel. rewrite (Hk e e' x x0); eauto; set_solver. }
  unfold zlen. rewrite <-Hlen. f_equal.
  rewrite <-length_map_to_list. symmetry. apply Permutation_length, map_to_list_to_map, Hnd.
Qed.
End hash_search.

(** ** Sequential scans visit every element once *)

Section seq_scan.
  Context {V : Type}.
  Implicit Types t : HTAB V.

(** The caller's loop [while ((entry = hash_seq_search(&status)) != NULL)]. *)
Fixpoint hash_seq_loop (fuel : nat) t (status : HASH_SEQ_STATUS) : res (list positive) :=
  match fuel with
  | O => Stuck NoProgress
  | S fuel =>
      '(r, status) ← hash_seq_search t status;
      match r with
      | None => Ok []
      | Some e => es ← hash_seq_loop fuel t status; Ok (e :: es)
      end
  end.
Definition hash_seq_all t : res (list positive) :=
  hash_seq_loop (S (Z.to_nat (nentries t))) t hash_seq_init.

(** The elements from bucket [b] on, and those a scan still has to return. *)
Definition remaining t (b : Z) : list positive := seqZ b (max_bucket t + 1 - b) ≫= chain t.
Definition pending t (s : HASH_SEQ_STATUS) : list positive :=
  match curEntry s with
  | [] => remaining t (curBucket s)
  | l => l ++ remaining t (curBucket s + 1)
  end.
Definition seq_ok t (s : HASH_SEQ_STATUS) : Prop :=
  0 <= curBucket s <= max_bucket t + 1 ∧ (curEntry s ≠ [] → curBucket s <= max_bucket t).

Lemma remaining_cons t b : b <= max_bucket t → remaining t b = chain t b ++ remaining t (b + 1).
Proof.
  intros. unfold remaining. rewrite seqZ_cons by lia. simpl.
  replace (Z.pred (max_bucket t + 1 - b)) with (max_bucket t + 1 - (b + 1)) by lia. done.
Qed.
Lemma remaining_end t : remaining t (max_bucket t + 1) = [].
Proof. unfold remaining. by rewrite seqZ_nil by lia. Qed.

Section scan.
  Context t (Hok : htab_ok t).

Lemma next_nonempty_spec fuel b :
  0 <= b <= max_bucket t → max_bucket t - b < Z.of_nat fuel →
  ∃ b' ch, next_nonempty fuel t b = Ok (b', ch) ∧
    (ch = [] ∧ b' = max_bucket t + 1 ∧ remaining t b = []
     ∨ ch ≠ [] ∧ b <= b' <= max_bucket t ∧ remaining t b = ch ++ remaining t (b' + 1)).
Proof.
  pose proof (ok_small t Hok). revert b. induction fuel as [|fuel IH]; intros b Hb Hf; [lia|]. simpl.
  pose proof (ok_max t Hok). rewrite get_bucket_ok by (apply Hok || lia). cbn [mbind res_bind].
  rewrite remaining_cons, u32_id by lia.
  destruct (chain t b) as [|e link] eqn:Hch.
  - destruct (Z.ltb_spec (max_bucket t) (b + 1)).
    + exists (b + 1), []. split; [done|]. left. assert (b = max_bucket t) as -> by lia.
      by rewrite remaining_end.
    + destruct (IH (b + 1)) as (b' & ch & -> & Hr); [lia..|]. exists b', ch. split; [done|].
      destruct Hr as [?|(? & ? & ?)]; [by left|right]. split_and!; try done; lia.
  - exists b, (e :: link). split; [done|]. right. split_and!; try done; lia.
Qed.

Lemma hash_seq_search_spec s :
  seq_ok t s → ∃ s', hash_seq_search t s = Ok (head (pending t s), s')
    ∧ pending t s' = tail (pending t s) ∧ seq_ok t s'.
Proof.
  intros [Hb Hc]. pose proof (ok_small t Hok). unfold hash_seq_search, pending. destruct (curEntry s) as [|e link] eqn:He.
  - destruct (Z.ltb_spec (max_bucket t) (curBucket s)).
    { assert (curBucket s = max_bucket t + 1) as Heq by lia. exists s.
      rewrite He, Heq, remaining_end. split; [done|]. split; [done|]. by split; [lia|rewrite He]. }
    destruct (next_nonempty_spec (S (Z.to_nat (max_bucket t - curBucket s))) (curBucket s))
      as (b' & ch & -> & [(-> & -> & ->)|(Hne & Hb' & ->)]); [lia..| |]; cbn [mbind res_bind].
    + eexists. split; [done|]. simpl. rewrite remaining_end. split; [done|]. split; simpl; [lia|done].
    + destruct ch as [|e link]; [done|]. eexists. split; [done|]. rewrite u32_id by lia.
      destruct link; simpl; split; try done; split; simpl; done || lia.
  - specialize (Hc ltac:(done)). eexists. split; [done|]. rewrite u32_id by lia.
    destruct link; simpl; split; try done; split; simpl; done || lia.
Qed.

Lemma hash_seq_loop_spec fuel s :
  seq_ok t s → (length (pending t s) < fuel)%nat → hash_seq_loop fuel t s = Ok (pending t s).
Proof.
  revert s. induction fuel as [|fuel IH]; intros s Hs Hf; [lia|]. simpl.
  destruct (hash_seq_search_spec s Hs) as (s' & -> & Hp & Hs'). cbn [mbind res_bind].
  destruct (pending t s) as [|e l]; simpl; [done|]. simpl in Hp, Hf.
  rewrite IH by (done || rewrite Hp; lia). cbn [mbind res_bind]. by rewrite Hp.
Qed.

Lemma hash_seq_all_live : hash_seq_all t = Ok (live t).
Proof.
  unfold hash_seq_all. pose proof (ok_max t Hok) as Hm.
  assert (pending t hash_seq_init = live t) as Hp.
  { unfold pending, remaining, live. simpl. f_equal. f_equal. lia. }
  rewrite hash_seq_loop_spec; [by rewrite Hp|split; simpl; [lia|done]|].
  rewrite Hp, (ok_count t Hok). unfold zlen. lia.
Qed.
End scan.
End seq_scan.

(** ** A new table *)

Section create.
  Context {V : Type}.

(** The shift count of [next_pow2_int]. *)
Definition pow2_shift (num : Z) : Z := pg_ceil_log2_64 (if 1073741823 <? num then 1073741823 else num).

Lemma next_pow2_int_pow num :
  0 <= num → next_pow2_int num = Ok (2 ^ pow2_shift num) ∧ 0 <= pow2_shift num <= 30.
Proof.
  intros Hnum. unfold next_pow2_int. cbv zeta. change (int_max / 2) with 1073741823.
  set (n := if 1073741823 <? num then 1073741823 else num).
  assert (0 <= n <= 1073741823) as Hn by (unfold n; destruct (Z.ltb_spec 1073741823 num); lia).
  assert (my_log2 n = pow2_shift num) as ->.
  { unfold my_log2, pow2_shift. fold n. cbv zeta. change (9223372036854775807 / 2) with 4611686018427387903.
    replace (4611686018427387903 <? n) with false by lia. unfold u64. by rewrite Z.mod_small by lia. }
  assert (0 <= pow2_shift num <= 30) as Hs.
  { unfold pow2_shift. fold n. unfold pg_ceil_log2_64. destruct (Z.ltb_spec n 2); [lia|].
    pose proof (Z.log2_nonneg (n - 1)). pose proof (Z.log2_lt_pow2 (n - 1) 30 ltac:(lia)) as [Hl _].
    change (2 ^ 30) with 1073741824 in Hl. lia. }
  split; [|done]. unfold require. replace (pow2_shift num <? 32) with true by lia. rewrite Z.shiftl_1_l.
  pose proof (Z.pow_le_mono_r 2 _ 30 ltac:(lia) (proj2 Hs)). change (2 ^ 30) with 1073741824 in *.
  pose proof (Z.pow_pos_nonneg 2 (pow2_shift num) ltac:(lia) ltac:(lia)).
  set (p := 2 ^ pow2_shift num) in *. clearbody p. by rewrite i32_id by int_solve.
Qed.

Lemma pow2_shift_bounds num :
  1 <= num <= 1073741823 → num <= 2 ^ pow2_shift num <= 2 * num.
Proof.
  intros Hnum. unfold pow2_shift, pg_ceil_log2_64. replace (1073741823 <? num) with false by lia.
  destruct (Z.ltb_spec num 2); [rewrite Z.pow_0_r; lia|].
  pose proof (Z.log2_spec (num - 1) ltac:(lia)) as [Hlo Hhi].
  rewrite <-Z.add_1_r in Hhi. rewrite Z.pow_add_r in * by (apply Z.log2_nonneg || lia). lia.
Qed.

(** A negative number becomes a large one: the shift is not defined. *)
Lemma next_pow2_int_negative num : -9223372036854775808 <= num < 0 → next_pow2_int num = Stuck BadShift.
Proof.
  intros Hnum. unfold next_pow2_int. cbv zeta. change (int_max / 2) with 1073741823.
  replace (1073741823 <? num) with false by lia.
  unfold my_log2. cbv zeta. change (9223372036854775807 / 2) with 4611686018427387903.
  replace (4611686018427387903 <? num) with false by lia.
  assert (u64 num = num + 18446744073709551616) as ->.
  { unfold u64. symmetry. apply (Z.mod_unique_pos _ _ (-1)); lia. }
  unfold pg_ceil_log2_64. replace (_ <? 2) with false by lia.
  pose proof (Z.log2_le_mono (2 ^ 62) (num + 18446744073709551616 - 1)) as Hl.
  rewrite Z.log2_pow2 in Hl by lia. change (2 ^ 62) with 4611686018427387904 in Hl.
  unfold require. by replace (_ <? 32) with false by lia.
Qed.

(** The mask of a table of [n] buckets. *)
Lemma high_mask_ok n : 1 <= n <= 1073741824 → u32 (i32 (i32 (Z.shiftl n 1) - 1)) = n * 2 - 1.
Proof.
  intros Hn. rewrite Z.shiftl_mul_pow2 by lia. change (2 ^ 1) with 2.
  destruct (Z.eq_dec n 1073741824) as [->|Hne]; [done|]. rewrite (i32_id (n * 2)), i32_id by int_solve.
  unfold u32. rewrite Z.mod_small; lia.
Qed.

Lemma choose_loop_ok fuel a e :
  0 < a → 0 < e → 32 * e <= a * 2 ^ Z.of_nat fuel → (0 < fuel)%nat →
  ∃ n, choose_loop fuel a e = Ok n ∧ 32 <= n ∧ n * e <= Z.max (2 * a) (64 * e).
Proof.
  revert a. induction fuel as [|fuel IH]; intros a Ha He Hf Hp; [lia|]. simpl.
  rewrite Z.shiftl_mul_pow2 by done. change (2 ^ 1) with 2.
  rewrite idiv_pos by lia. cbn [mbind res_bind].
  pose proof (Z.mul_div_le (a * 2) e He).
  destruct (Z.ltb_spec (a * 2 / e) 32) as [Hlt|Hge].
  - assert (a * 2 < 32 * e).
    { pose proof (Z.mod_pos_bound (a * 2) e He). pose proof (Z.div_mod (a * 2) e). nia. }
    rewrite Nat2Z.inj_succ, Z.pow_succ_r in Hf by lia.
    assert (0 < fuel)%nat by (destruct fuel; [simpl in Hf; lia|lia]).
    destruct (IH (a * 2)) as (n & -> & Hn & Hm); [lia|done|lia|done|].
    exists n. split; [done|]. lia.
  - eexists. split; [done|]. split; [done|]. lia.
Qed.

Lemma MAXALIGN_bounds n : 0 <= n → n <= MAXALIGN n <= n + 7.
Proof.
  intros. unfold MAXALIGN. pose proof (Z.div_mod (n + 7) 8 ltac:(lia)).
  pose proof (Z.mod_pos_bound (n + 7) 8 ltac:(lia)). lia.
Qed.

(** An empty table: every chain, the free list and the element store are empty. *)
Lemma empty_table_ok (t : HTAB V) :
  dir_ok t → 0 <= max_bucket t < nsegs t * 256 → max_bucket t < 2147483648 →
  (∃ j, masks_ok j (max_bucket t) (high_mask t) (low_mask t)) → 0 < keysize t →
  0 < nelem_alloc t ∧ nelem_alloc t * elementSize (entrysize t) <= MaxAllocSize →
  (∀ b, chain t b = []) → freeList t = [] → nentries t = 0 →
  htab_ok t ∧ contents t = ∅.
Proof.
  intros ?????? Hch Hfl Hn.
  assert (live t = []) as Hl.
  { unfold live. induction (seqZ _ _) as [|b l IH]; simpl; [done|]. by rewrite Hch. }
  split.
  - split; try done; rewrite ?Hl, ?Hfl; setoid_rewrite Hch || idtac; try set_solver.
    + intros. apply NoDup_nil_2.
    + split; [apply NoDup_nil_2|set_solver].
  - unfold contents, entry_pairs. by rewrite Hl.
Qed.

Lemma hash_create_ok nelem ks es :
  0 <= nelem → 0 < ks → 0 <= es <= 1048576 →
  ∃ t : HTAB V, hash_create nelem ks es = Ok t ∧ htab_ok t ∧ contents t = ∅
    ∧ frozen t = false ∧ keysize t = ks.
Proof.
  intros Hnel Hks Hes. unfold hash_create, init_htab.
  destruct (next_pow2_int_pow nelem Hnel) as [-> Hj]. cbn [mbind res_bind]. set (j := pow2_shift nelem) in *. clearbody j.
  assert (1 <= 2 ^ j <= 1073741824) as Hpj.
  { split; [pose proof (Z.pow_pos_nonneg 2 j); lia|]. change 1073741824 with (2 ^ 30).
    apply Z.pow_le_mono_r; lia. }
  simpl ssize. unfold DEF_SEGSIZE. rewrite idiv_pos by lia. cbn [mbind res_bind].
  pose proof (Z.div_mod (2 ^ j - 1) 256 ltac:(lia)).
  pose proof (Z.mod_pos_bound (2 ^ j - 1) 256 ltac:(lia)).
  set (q := (2 ^ j - 1) / 256) in *.
  destruct (next_pow2_int_pow (q + 1) ltac:(lia)) as [-> _]. cbn [mbind res_bind].
  pose proof (pow2_shift_bounds (q + 1) ltac:(lia)) as Hns. set (ns := 2 ^ pow2_shift (q + 1)) in *.
  clearbody q ns. simpl dsize. unfold DEF_DIRSIZE.
  set (ds := if 256 <? ns then ns else 256).
  assert (ns <= ds <= 8388608) by (unfold ds; destruct (Z.ltb_spec 256 ns); lia).
  clearbody ds. unfold DynaHashAlloc at 1, seg_alloc, DynaHashAlloc. simpl ssize. unfold DEF_SEGSIZE.
  rewrite !check_true by (unfold MaxAllocSize; lia). cbn [mbind res_bind].
  set (seg := replicate (Z.to_nat 256) []).
  assert (zlen seg = 256) as Hseg by (unfold seg; by rewrite zlen_replicate).
  assert (∀ i l, seg !! i = Some l → l = []) as Hnil by (intros i l Hl; by apply lookup_replicate_1 in Hl as [-> _]).
  clearbody seg. pose proof (MAXALIGN_bounds es ltac:(lia)).
  assert (16 <= elementSize es <= 1048600) by (unfold elementSize; change (MAXALIGN 16) with 16; lia).
  destruct (choose_loop_ok 64 (32 * 4) (elementSize es)) as (n & Hn & Hn32 & Hne);
    [lia|lia|change (2 ^ Z.of_nat 64) with 18446744073709551616; lia|lia|].
  unfold choose_nelem_alloc. simpl entrysize. rewrite Hn. cbn [mbind res_bind]. simpl.
  set (t := mkHTAB _ _ _ _ _ _ _ _ _ _ _ _ _ _ _ _).
  assert (htab_ok t ∧ contents t = ∅) as [Hok Hc].
  { apply empty_table_ok; simpl; try done.
    - split; simpl; try done; [|lia|].
      + unfold zlen. rewrite length_app, !length_replicate. lia.
      + intros i Hi. rewrite lookup_app_l by (rewrite length_replicate; lia).
        exists seg. split; [by apply lookup_replicate; split; [done|lia]|done].
    - lia.
    - lia.
    - exists j. unfold masks_ok. rewrite high_mask_ok, Z.pow_add_r by lia. split_and!; lia.
    - split; [lia|]. unfold MaxAllocSize. lia.
    - intros b. unfold chain. simpl. destruct (_ !! Z.to_nat (b / 256)) as [[seg'|]|] eqn:Hl; try done.
      apply lookup_app_Some in Hl as [[Hl _]%lookup_replicate_1|[_ [Hl _]%lookup_replicate_1]]; [|done].
      simplify_eq. destruct (_ !! Z.to_nat (b mod 256)) as [l|] eqn:Hb; [|done]. simpl. by eapply Hnil. }
  destruct (Z.ltb_spec nelem n); [|by exists t].
  set (ne := if nelem <=? 0 then 1 else nelem).
  assert (0 < ne <= n) by (unfold ne; destruct (Z.leb_spec nelem 0); lia).
  destruct (element_alloc_ok t ne Hok) as (fl & nx & -> & Hok' & _); [lia| |].
  { unfold MaxAllocSize. simpl. nia. }
  eexists. split; [done|]. done.
Qed.
End create.

(** ** The table implements a finite map *)

Section refinement.
  Context {V : Type}.
  Implicit Types t : HTAB V.

(** The entry behind a pointer the table returned: its bytes, read and assigned
    by the caller.  They have no value before the first assignment. *)
Definition entry_at t (e : positive) : option V := elems t !! e ≫= elem_entry.
Definition read_entry t (e : positive) : res V :=
  match entry_at t e with Some v => Ok v | None => Stuck Uninitialised end.
Definition elem_assign (name : string) (v : V) (x : HASHELEMENT V) : HASHELEMENT V :=
  mkElement (hashvalue x) name (Some v).
Definition write_entry t (e : positive) (v : V) : HTAB V :=
  set_elems t (alter (λ x, elem_assign (elem_key x) v x) e (elems t)).

(** Assignments to an element that keep its hash value and its key. *)
Lemma alter_elem_ok t f e :
  htab_ok t →
  (∀ x, elems t !! e = Some x → hashvalue (f x) = hashvalue x ∧ elem_key (f x) = elem_key x) →
  htab_ok (set_elems t (alter f e (elems t))) ∧ contents (set_elems t (alter f e (elems t))) = contents t.
Proof.
  intros Hok Hf. set (t' := set_elems _ _).
  assert (∀ e', elems t' !! e' = (if decide (e' = e) then f else id) <$> elems t !! e') as He.
  { intros e'. simpl. destruct (decide (e' = e)) as [->|Hne]; [by rewrite lookup_alter_eq|].
    by rewrite lookup_alter_ne, option_fmap_id by done. }
  assert (∀ e' x', elems t' !! e' = Some x' → ∃ x0, elems t !! e' = Some x0
            ∧ hashvalue x' = hashvalue x0 ∧ elem_key x' = elem_key x0) as Hsame.
  { intros e' x'. rewrite He. case_decide; subst; [|rewrite option_fmap_id; eauto].
    intros (x0 & Hx0 & ->)%fmap_Some. exists x0. split; [done|]. by apply Hf. }
  assert (htab_ok t') as Hok'.
  { destruct Hok as [Hdir Hmax Hsm Hm Hks Hal Hel Hnd Hkeys Hfree Hfresh Hc]. split; try done.
    - by destruct Hdir; split.
    - intros b e' Hb He'. destruct (Hel b e' Hb He') as (x0 & Hx0 & Hc0 & Hh0 & Hf0).
      destruct (elems t' !! e') as [x'|] eqn:Hx'; [|by rewrite He, Hx0 in Hx'].
      exists x'. split; [done|]. apply Hsame in Hx' as (x1 & Hx1 & Hv & Hkk). simplify_eq.
      unfold elem_ok. rewrite Hv, Hkk. done.
    - intros e1 e2 x1 x2 He1 He2 (y1 & Hy1 & _ & ->)%Hsame (y2 & Hy2 & _ & ->)%Hsame. by eapply Hkeys. }
  split; [done|]. apply map_eq. intros k'. apply option_eq. intros e'.
  rewrite !contents_lookup by done. change (live t') with (live t).
  split; intros (Hl' & x' & Hx' & <-); split; try done.
  - apply Hsame in Hx' as (x0 & Hx0 & _ & ->). eauto.
  - destruct (elems t' !! e') as [x1|] eqn:Hx1; [|by rewrite He, Hx' in Hx1].
    exists x1. split; [done|]. apply Hsame in Hx1 as (x0 & Hx0 & _ & ->). by simplify_eq.
Qed.

(** [represents t m]: the table stores the keys of [m], and the entry of each
    holds its value. *)
Definition represents t (m : gmap string V) : Prop :=
  ∀ k, entry_at t <$> contents t !! k = Some <$> m !! k.

Lemma represents_none t m k : represents t m → contents t !! k = None ↔ m !! k = None.
Proof. intros Hr. specialize (Hr k). by destruct (contents t !! k), (m !! k). Qed.

Lemma represents_some t m k e : represents t m → contents t !! k = Some e → m !! k = entry_at t e.
Proof. intros Hr He. specialize (Hr k). rewrite He in Hr. by destruct (m !! k); simplify_eq/=. Qed.

Lemma represents_found t m k : represents t m → bool_decide (is_Some (contents t !! k)) = bool_decide (is_Some (m !! k)).
Proof.
  intros Hr. apply bool_decide_ext. rewrite <-!not_eq_None_Some. by rewrite (represents_none t m).
Qed.

Lemma represents_size t m : htab_ok t → represents t m → hash_get_num_entries t = Z.of_nat (size m).
Proof.
  intros Hok Hr. rewrite num_entries_contents by done. f_equal.
  rewrite <-!size_dom. f_equal. apply set_eq. intros k. rewrite !elem_of_dom, <-!not_eq_None_Some.
  by rewrite (represents_none t m).
Qed.

(** A search by a caller that may read the entry it gets: [None] for a pointer
    that is NULL, and after [HASH_ENTER] for an entry that is new. *)
Definition returned_entry t (a : HASHACTION) (r : option positive) (found : bool) : res (option V) :=
  match a, r with
  | (HASH_FIND | HASH_REMOVE), None => Ok None
  | (HASH_ENTER | HASH_ENTER_NULL), None => Stuck NullDeref
  | (HASH_FIND | HASH_REMOVE), Some e => v ← read_entry t e; Ok (Some v)
  | (HASH_ENTER | HASH_ENTER_NULL), Some e => if found then v ← read_entry t e; Ok (Some v) else Ok None
  end.

(** One use of the table: an action on a key, what the caller assigns to the
    entry it has entered, given the value that was there, and whether a
    sequential scan is open. *)
Definition op : Type := HASHACTION * string * (option V → V) * bool.

(** The caller's view of a sequence of uses: [*foundPtr] and the value it read. *)
Fixpoint run_table t (ops : list op) : res (HTAB V * list (bool * option V)) :=
  match ops with
  | [] => Ok (t, [])
  | (a, key, upd, scans) :: ops =>
      '(t, r, found) ← hash_search scans t key a;
      old ← returned_entry t a r found;
      let t := match a, r with
               | (HASH_ENTER | HASH_ENTER_NULL), Some e => write_entry t e (upd old)
               | _, _ => t
               end in
      '(t, rs) ← run_table t ops; Ok (t, (found, old) :: rs)
  end.

(** The same sequence on a finite map, the keys cut to [ks - 1] bytes. *)
Fixpoint run_map (ks : Z) (m : gmap string V) (ops : list op) : gmap string V * list (bool * option V) :=
  match ops with
  | [] => (m, [])
  | (a, key, upd, _) :: ops =>
      let k := strlcpy key ks in
      let m' := match a with HASH_FIND => m
                           | HASH_ENTER | HASH_ENTER_NULL => <[k := upd (m !! k)]> m
                           | HASH_REMOVE => delete k m end in
      let r := run_map ks m' ops in (fst r, (bool_decide (is_Some (m !! k)), m !! k) :: snd r)
  end.

(** Reading the entry of a stored key, in a table with the same elements. *)
Lemma read_represented t t' m k :
  represents t m → (∀ e, contents t !! k = Some e → elems t' !! e = elems t !! e) →
  match contents t !! k with Some e => v ← read_entry t' e; Ok (Some v) | None => Ok None end = Ok (m !! k).
Proof.
  intros Hr He. specialize (Hr k). destruct (contents t !! k) as [e|]; [|by destruct (m !! k)].
  unfold read_entry, entry_at. rewrite (He e eq_refl). fold (entry_at t e). simpl in Hr.
  destruct (m !! k) as [v|]; [|done]. by injection Hr as ->.
Qed.

Lemma enter_null_enter t scans key :
  hash_search scans t key HASH_ENTER_NULL = hash_search scans t key HASH_ENTER.
Proof. done. Qed.

(** After an entry is entered and assigned. *)
Lemma represents_enter t t' m k e v :
  htab_ok t → htab_ok t' → represents t m → contents t' = <[k := e]> (contents t) →
  (∀ e', e' ∈ live t → elems t' !! e' = elems t !! e') → (∀ e0, contents t !! k = Some e0 → e0 = e) →
  htab_ok (write_entry t' e v) ∧ represents (write_entry t' e v) (<[k := v]> m).
Proof.
  intros Hok Hok' Hr Hc He He0. destruct (alter_elem_ok t' (λ x, elem_assign (elem_key x) v x) e) as [Hok2 Hc2]; [done|done|].
  split; [done|]. intros k'. unfold write_entry. rewrite Hc2.
  assert (contents t' !! k = Some e) as Hk by (by rewrite Hc, lookup_insert_eq).
  pose proof Hk as (_ & x & Hx & Hxk)%contents_lookup; [|done]. unfold entry_at. simpl elems.
  destruct (decide (k' = k)) as [->|Hne].
  - rewrite Hk, lookup_insert_eq. simpl. by rewrite lookup_alter_eq, Hx.
  - rewrite Hc, !lookup_insert_ne by done. rewrite <-(Hr k').
    destruct (contents t !! k') as [e'|] eqn:Hk'; [|done]. simpl. f_equal.
    assert (e' ≠ e) as Hee.
    { intros ->. assert (contents t' !! k' = Some e) as Hk2 by (by rewrite Hc, lookup_insert_ne by done).
      apply contents_lookup in Hk2 as (_ & x' & Hx' & Hxk'); [|done]. congruence. }
    rewrite lookup_alter_ne by done. unfold entry_at. apply contents_lookup in Hk' as [Hl _]; [|done]. by rewrite He.
Qed.

Lemma run_enter t m key scans upd :
  htab_ok t → frozen t = false → nentries t < 2147483647 → represents t m →
  let k := strlcpy key (keysize t) in
  ∃ t' e, hash_search scans t key HASH_ENTER = Ok (t', Some e, bool_decide (is_Some (m !! k)))
    ∧ returned_entry t' HASH_ENTER (Some e) (bool_decide (is_Some (m !! k))) = Ok (m !! k)
    ∧ htab_ok (write_entry t' e (upd (m !! k))) ∧ frozen t' = false ∧ keysize t' = keysize t
    ∧ represents (write_entry t' e (upd (m !! k))) (<[k := upd (m !! k)]> m).
Proof.
  intros Hok Hfr Hn Hr k. destruct (hash_search_enter t scans key Hok Hfr Hn) as (t' & e & Hrun & Hok' & ? & ? & Hc & He0 & He).
  rewrite (represents_found t m) in Hrun by done. exists t', e. fold k in Hrun, Hc, He0. split; [exact Hrun|].
  destruct (represents_enter t t' m k e (upd (m !! k))) as [? ?]; try done. split_and!; try done.
  assert (∀ e, contents t !! k = Some e → elems t' !! e = elems t !! e) as Hsame.
  { intros e' Hk. apply He. apply contents_lookup in Hk as [Hl _]; done. }
  pose proof (read_represented t t' m k Hr Hsame) as Hread. unfold returned_entry.
  rewrite <-(represents_found t m) by done.
  destruct (contents t !! k) as [e1|] eqn:Hk; [|exact Hread]. rewrite <-(He0 e1 eq_refl). exact Hread.
Qed.

Lemma run_step t m a key upd scans :
  htab_ok t → frozen t = false → nentries t < 2147483647 → represents t m →
  let k := strlcpy key (keysize t) in
  ∃ t' r, hash_search scans t key a = Ok (t', r, bool_decide (is_Some (m !! k)))
    ∧ returned_entry t' a r (bool_decide (is_Some (m !! k))) = Ok (m !! k)
    ∧ let t2 := match a, r with
                | (HASH_ENTER | HASH_ENTER_NULL), Some e => write_entry t' e (upd (m !! k))
                | _, _ => t'
                end in
      htab_ok t2 ∧ frozen t2 = false ∧ keysize t2 = keysize t
      ∧ represents t2 match a with HASH_FIND => m
                                 | HASH_ENTER | HASH_ENTER_NULL => <[k := upd (m !! k)]> m
                                 | HASH_REMOVE => delete k m end.
Proof.
  intros Hok Hfr Hn Hr k. destruct (run_enter t m key scans upd Hok Hfr Hn Hr) as (t1 & e & Henter).
  destruct a; [|by exists t1, (Some e)| |rewrite enter_null_enter; by exists t1, (Some e)].
  - exists t, (contents t !! k). rewrite hash_search_find, (represents_found t m) by done. split; [done|].
    pose proof (read_represented t t m k Hr (λ _ _, eq_refl)) as Hread. split; [|done].
    by destruct (contents t !! k).
  - destruct (hash_search_remove t scans key Hok) as (t' & Hrun & Hok' & ? & ? & Hc & He). fold k in Hrun, Hc.
    rewrite (represents_found t m) in Hrun by done.
    exists t', (contents t !! k). split; [exact Hrun|].
    assert (∀ e, contents t !! k = Some e → elems t' !! e = elems t !! e) as Hsame by (intros ? _; by rewrite He).
    pose proof (read_represented t t' m k Hr Hsame) as Hread. split; [by destruct (contents t !! k)|].
    split; [done|]. split; [congruence|]. split; [done|]. intros k'. unfold entry_at. rewrite Hc, He.
    destruct (decide (k' = k)) as [->|Hne]; [by rewrite !lookup_delete_eq|]. rewrite !lookup_delete_ne by done. apply Hr.
Qed.

Lemma run_table_ok ops t m :
  htab_ok t → frozen t = false → represents t m → Z.of_nat (size m) + zlen ops < 2147483647 →
  ∃ t', run_table t ops = Ok (t', snd (run_map (keysize t) m ops))
    ∧ htab_ok t' ∧ represents t' (fst (run_map (keysize t) m ops)).
Proof.
  revert t m. induction ops as [|[[[a key] upd] scans] ops IH]; intros t m Hok Hfr Hr Hn; [by exists t|].
  cbn [run_table run_map]. unfold zlen in Hn. cbn [length] in Hn.
  pose proof (represents_size t m Hok Hr) as Hsz. unfold hash_get_num_entries in Hsz.
  destruct (run_step t m a key upd scans Hok Hfr ltac:(lia) Hr) as (t' & r & -> & Hret & Hok2 & Hfr2 & Hk2 & Hr2).
  cbn [mbind res_bind]. rewrite Hret. cbn [mbind res_bind]. cbv zeta. set (k := strlcpy key (keysize t)) in *.
  set (t2 := match a with HASH_FIND => _ | _ => _ end) in *. set (m2 := match a with HASH_FIND => m | _ => _ end) in *.
  assert (Z.of_nat (size m2) <= Z.of_nat (size m) + 1) as Hm2.
  { unfold m2. destruct a; rewrite ?map_size_delete, ?map_size_insert; unfold id; repeat case_match; lia. }
  destruct (IH t2 m2) as (t3 & -> & Hok3 & Hr3); [done..|unfold zlen; lia|].
  cbn [mbind res_bind]. rewrite Hk2 in *. by exists t3.
Qed.


(** C19: [expand_table], the linear-hashing split of one bucket, succeeds on every
    table of fewer than 2^31 buckets, adds a bucket, keeps the invariant (every
    element in the bucket [calc_bucket] computes for it) and does not change the
    map the table stands for nor any element. *)
Theorem expand_table_preserves t :
  htab_ok t → max_bucket t + 1 < 2147483648 →
  ∃ t', expand_table t = Ok t' ∧ htab_ok t' ∧ max_bucket t' = max_bucket t + 1
        ∧ contents t' = contents t ∧ elems t' = elems t.
Proof.
  intros Hok Hbig. destruct (expand_table_ok t Hok Hbig) as (t' & Ht' & Hok' & Hsp).
  exists t'. split_and!; try done; [apply Hsp|by apply split_contents|apply Hsp].
Qed.

(** C23: The loop over [hash_seq_init]/[hash_seq_search] terminates and returns
    every element of the table exactly once. *)
Theorem hash_seq_visits_once t :
  htab_ok t →
  ∃ l, hash_seq_all t = Ok l ∧ NoDup l ∧ ∀ e, e ∈ l ↔ ∃ k, contents t !! k = Some e.
Proof.
  intros Hok. exists (live t). split; [by apply hash_seq_all_live|]. split; [by apply live_nodup|].
  intros e. by apply live_contents.
Qed.
End refinement.

(** A run that enters two keys, one of them too long, updates the first and
    removes it. *)
Definition ex_ops : list (op (V := Z)) :=
  [(HASH_ENTER, "abcd", λ _, 10, false); (HASH_ENTER, "x", λ _, 20, false);
   (HASH_ENTER_NULL, "abc", λ old, default 0 old + 1, true); (HASH_FIND, "abcx", λ _, 0, false);
   (HASH_REMOVE, "abc", λ _, 0, true); (HASH_FIND, "abc", λ _, 0, true)].


(** A table with two entries. *)
Lemma ex_table : ∃ t : HTAB Z, htab_ok t ∧ represents t {["x" := 20; "abc" := 10]}
  ∧ max_bucket t = 1 ∧ hash_get_num_entries t = 2.
Proof.
  destruct (hash_create_ok (V := Z) 1 4 8) as (t0 & Ht0 & Hok & Hc & Hfr & Hk); [done..|].
  assert (represents t0 ∅) as Hr by (intros k; by rewrite Hc, !lookup_empty).
  destruct (run_table_ok (take 2 ex_ops) t0 ∅ Hok Hfr Hr) as (t & Ht & Hok' & Hr'); [done|].
  rewrite Hk in Hr'. exists t. split; [done|]. split; [exact Hr'|].
  assert ((t0 ← hash_create (V := Z) 1 4 8; '(t, _) ← run_table t0 (take 2 ex_ops); Ok (max_bucket t, nentries t)) = Ok (1, 2))
    as Hm by (vm_compute; reflexivity).
  rewrite Ht0 in Hm. cbn [mbind res_bind] in Hm. rewrite Ht in Hm. by injection Hm.
Qed.

Lemma expand_table_preserves_witness :
  ∃ t t' : HTAB Z, represents t {["x" := 20; "abc" := 10]} ∧ hash_get_num_entries t = 2
    ∧ expand_table t = Ok t' ∧ max_bucket t' = 2 ∧ contents t' = contents t ∧ elems t' = elems t.
Proof.
  destruct ex_table as (t & Hok & Hr & Hm & Hn).
  destruct (expand_table_preserves t Hok) as (t' & Ht' & _ & Hm' & Hc & He); [lia|].
  exists t, t'. split_and!; done || lia.
Defined.

Lemma hash_seq_visits_once_witness :
  ∃ (t : HTAB Z) l, represents t {["x" := 20; "abc" := 10]} ∧ hash_seq_all t = Ok l ∧ NoDup l
    ∧ ∀ e, e ∈ l ↔ ∃ k, contents t !! k = Some e.
Proof.
  destruct ex_table as (t & Hok & Hr & _). destruct (hash_seq_visits_once t Hok) as (l & Hl). by exists t, l.
Defined.
