(* ===== verification/HashTable.v ===== *)
(** * HashTable: what the weight pool relies on of a hash table

    The class [HashTable] lists the operations of [utils/hsearch.h] that
    [model_buffer.c] calls, together with the client's own access to the entry
    behind a returned pointer.  [HashTableLaws] states what they promise, in
    terms of the map from stored keys to entries.  The theorems on the pool are
    proved against the laws; [dynahash_laws] discharges them with the lemmas of
    [Dynahash]. *)

From S2P Require Import Prelude CString HashFn Dynahash.
From stdpp Require Import strings.

Open Scope Z_scope.

Class HashTable (V : Type) := {
  htab : Type;
  (** the bytes of a key the table stores *)
  ht_key : string → string;
  ht_create : res htab;
  ht_search : bool → htab → string → HASHACTION → res (htab * option positive * bool);
  (** the entry behind a pointer, [None] while its fields are not assigned *)
  ht_entry : htab → positive → option V;
  (** assignment to the name and the other fields of an entry *)
  ht_store : htab → positive → string → V → htab;
  ht_seq_all : htab → res (list positive);
  ht_num : htab → Z
}.

Class HashTableLaws (V : Type) `{HashTable V} := {
  ht_ok : htab → Prop;
  ht_map : htab → gmap string positive;
  ht_create_ok : ∃ t, ht_create = Ok t ∧ ht_ok t ∧ ht_map t = ∅;
  ht_find_ok : ∀ s t k, ht_ok t →
    ht_search s t k HASH_FIND
    = Ok (t, ht_map t !! ht_key k, bool_decide (is_Some (ht_map t !! ht_key k)));
  ht_enter_ok : ∀ s t k, ht_ok t → ht_num t < 2147483647 →
    ∃ t' e, ht_search s t k HASH_ENTER
            = Ok (t', Some e, bool_decide (is_Some (ht_map t !! ht_key k)))
      ∧ ht_ok t' ∧ ht_map t' = <[ht_key k := e]> (ht_map t)
      ∧ (∀ e0, ht_map t !! ht_key k = Some e0 → e0 = e)
      ∧ ∀ k' e', ht_map t !! k' = Some e' → ht_entry t' e' = ht_entry t e';
  ht_inj : ∀ t k1 k2 e, ht_ok t → ht_map t !! k1 = Some e → ht_map t !! k2 = Some e → k1 = k2;
  ht_store_ok : ∀ t k e v, ht_ok t → ht_map t !! ht_key k = Some e →
    ht_ok (ht_store t e (ht_key k) v) ∧ ht_map (ht_store t e (ht_key k) v) = ht_map t
    ∧ ht_entry (ht_store t e (ht_key k) v) e = Some v
    ∧ ∀ e', e' ≠ e → ht_entry (ht_store t e (ht_key k) v) e' = ht_entry t e';
  ht_seq_ok : ∀ t, ht_ok t →
    ∃ l, ht_seq_all t = Ok l ∧ NoDup l ∧ ∀ e, e ∈ l ↔ ∃ k, ht_map t !! k = Some e;
  ht_num_ok : ∀ t, ht_ok t → ht_num t = Z.of_nat (size (ht_map t))
}.

(** ** The instance

    [nelem], [keysize] and [entrysize] are the arguments of [hash_create]. *)
Section instance.
  Context {V : Type} (nelem ks es : Z).

Definition dynahash : HashTable V := {|
  htab := HTAB V;
  ht_key := λ k, strlcpy k ks;
  ht_create := hash_create nelem ks es;
  ht_search := hash_search;
  ht_entry := entry_at;
  ht_store := λ t e name v, set_elems t (alter (elem_assign name v) e (elems t));
  ht_seq_all := hash_seq_all;
  ht_num := hash_get_num_entries
|}.

(** Assigning the name an entry already has and its other fields. *)
Lemma store_ok (t : HTAB V) k e v :
  htab_ok t → contents t !! k = Some e →
  htab_ok (set_elems t (alter (elem_assign k v) e (elems t)))
  ∧ contents (set_elems t (alter (elem_assign k v) e (elems t))) = contents t.
Proof.
  intros Hok (_ & x & Hx & Hkx)%contents_lookup; [|done]. apply alter_elem_ok; [done|].
  intros x' Hx'. by simplify_eq.
Qed.

Definition dynahash_laws (Hnel : 0 <= nelem) (Hks : 0 < ks) (Hes : 0 <= es <= 1048576) : @HashTableLaws V dynahash.
Proof.
  refine (@Build_HashTableLaws V dynahash (λ t : HTAB V, htab_ok t ∧ frozen t = false ∧ keysize t = ks)
            (λ t : HTAB V, contents t) _ _ _ _ _ _ _); simpl.
  - destruct (hash_create_ok (V := V) nelem ks es Hnel Hks Hes) as (t & ? & ? & ? & ? & ?). eauto 10.
  - intros s t k (Hok & Hfr & Hk). rewrite <-Hk. by apply hash_search_find.
  - intros s t k (Hok & Hfr & Hk) Hn. rewrite <-Hk.
    destruct (hash_search_enter t s k Hok Hfr Hn) as (t' & e & Hr & Hok' & Hfr' & Hk' & Hc & He0 & He).
    exists t', e. split; [exact Hr|]. split; [split; [done|split; congruence]|]. do 2 (split; [done|]).
    intros k' e' Hk'e. unfold entry_at. rewrite He; [done|]. by apply contents_lookup in Hk'e as [? _].
  - intros t k1 k2 e (Hok & _) (_ & x1 & Hx1 & <-)%contents_lookup (_ & x2 & Hx2 & <-)%contents_lookup; [|done..].
    by simplify_eq.
  - intros t k e v (Hok & Hfr & Hk) Hc. destruct (store_ok t (strlcpy k ks) e v Hok Hc) as [Hok' Hc'].
    split; [done|]. split; [done|].
    apply contents_lookup in Hc as (_ & x & Hx & _); [|done]. unfold entry_at. simpl. split.
    + by rewrite lookup_alter_eq, Hx.
    + intros e' Hne. by rewrite lookup_alter_ne by done.
  - intros t (Hok & _). exists (live t). split; [by apply hash_seq_all_live|]. split; [by apply live_nodup|].
    intros e. by apply live_contents.
  - intros t (Hok & _). by apply num_entries_contents.
Defined.
End instance.
