(* ===== verification/LruCache.v ===== *)
(** * LruCache: the doubly linked cache of weight entries

    The cache of [model_buffer.c]: [create_lru_cache], [put_lru_cache],
    [get_lru_cache], [lru_cache_move_to_head], [destroy_lru_cache].  Its entries
    live in a heap of nodes linked through [prev] and [next]; the functions
    update the links one assignment at a time.

    [lru_rep] relates the heap to the list of its entries, the most recently used
    first.  Each operation is proved to implement an operation on that list
    ([lru_get], [lru_put]) that needs no pointers. *)

From S2P Require Import Prelude CString.
From stdpp Require Import strings.

Open Scope Z_scope.

Abbreviation loc := positive.

Record LRUCacheEntry := mkLRUCacheEntry {
  name : string;
  entry : loc;            (* the WeightEntry it points to *)
  prev : option loc;
  next : option loc
}.

(** The cache and the heap its entries are allocated in; [fresh] is the address
    the allocator returns next. *)
Record LRUCache := mkLRUCache {
  head : option loc;
  tail : option loc;
  capacity : Z;
  size : Z;
  context : Z;
  nodes : gmap loc LRUCacheEntry;
  fresh : loc
}.

Definition set_head (c : LRUCache) h :=
  mkLRUCache h (tail c) (capacity c) (size c) (context c) (nodes c) (fresh c).
Definition set_tail (c : LRUCache) t :=
  mkLRUCache (head c) t (capacity c) (size c) (context c) (nodes c) (fresh c).
Definition set_size (c : LRUCache) s :=
  mkLRUCache (head c) (tail c) (capacity c) s (context c) (nodes c) (fresh c).
Definition set_nodes (c : LRUCache) ns fr :=
  mkLRUCache (head c) (tail c) (capacity c) (size c) (context c) ns fr.

Definition deref (c : LRUCache) (l : loc) : res LRUCacheEntry :=
  match nodes c !! l with Some n => Ok n | None => Stuck UseAfterFree end.
(** [l->next = q], [l->prev = p], [l->entry = e] *)
Definition store_next (c : LRUCache) (l : loc) (q : option loc) : res LRUCache :=
  n ← deref c l; Ok (set_nodes c (<[l := mkLRUCacheEntry (name n) (entry n) (prev n) q]> (nodes c)) (fresh c)).
Definition store_prev (c : LRUCache) (l : loc) (p : option loc) : res LRUCache :=
  n ← deref c l; Ok (set_nodes c (<[l := mkLRUCacheEntry (name n) (entry n) p (next n)]> (nodes c)) (fresh c)).
Definition store_entry (c : LRUCache) (l : loc) (e : loc) : res LRUCache :=
  n ← deref c l; Ok (set_nodes c (<[l := mkLRUCacheEntry (name n) e (prev n) (next n)]> (nodes c)) (fresh c)).
Definition pfree_node (c : LRUCache) (l : loc) : res LRUCache :=
  _ ← deref c l; Ok (set_nodes c (delete l (nodes c)) (fresh c)).

(** [if (p) p->...], the null tests of the code. *)
Definition if_nonnull (p : option loc) (c : LRUCache) (f : loc → res LRUCache) : res LRUCache :=
  match p with Some l => f l | None => Ok c end.

Definition ptr_eq (l : loc) (p : option loc) : bool := bool_decide (p = Some l).

Definition lru_cache_move_to_head (c : LRUCache) (e : loc) : res LRUCache :=
  if ptr_eq e (head c) then Ok c
  else
    (* Remove from current position *)
    n ← deref c e;
    c ← if_nonnull (prev n) c (λ p, n ← deref c e; store_next c p (next n));
    n ← deref c e;
    c ← if_nonnull (next n) c (λ q, n ← deref c e; store_prev c q (prev n));
    n ← deref c e;
    let c := if ptr_eq e (tail c) then set_tail c (prev n) else c in
    (* Insert at head *)
    c ← store_next c e (head c);
    c ← store_prev c e None;
    c ← if_nonnull (head c) c (λ h, store_prev c h (Some e));
    let c := set_head c (Some e) in
    Ok (match tail c with None => set_tail c (Some e) | Some _ => c end).

Definition create_lru_cache (cap cxt : Z) : LRUCache := mkLRUCache None None cap 0 cxt ∅ 1%positive.

(** The walk [while (current != NULL)] along [next]: the first entry with the
    given name.  A list of [n] nodes needs [n + 1] rounds. *)
Fixpoint lru_find (fuel : nat) (c : LRUCache) (current : option loc) (nm : string) : res (option loc) :=
  match fuel with
  | O => Stuck NoProgress
  | S fuel =>
      match current with
      | None => Ok None
      | Some l =>
          n ← deref c l;
          if strcmp_eq (name n) nm then Ok (Some l) else lru_find fuel c (next n) nm
      end
  end.
Definition lru_lookup (c : LRUCache) (nm : string) : res (option loc) :=
  lru_find (S (stdpp.base.size (nodes c))) c (head c) nm.

(** [put_lru_cache] returns the cache and the current memory context, which it
    leaves at the cache's own when it finds the name. *)
Definition put_lru_cache (c : LRUCache) (cur : Z) (nm : string) (e : loc) : res (LRUCache * Z) :=
  let old_context := cur in
  let cur := context c in
  found ← lru_lookup c nm;
  match found with
  | Some l =>
      c ← store_entry c l e;
      c ← lru_cache_move_to_head c l;
      Ok (c, cur)
  | None =>
      c ← (if capacity c <=? size c then
             if_nonnull (tail c) c (λ t,
               n ← deref c t;
               c ← if_nonnull (prev n) c (λ p, store_next c p None);
               n ← deref c t;
               let c := set_tail c (prev n) in
               let c := if ptr_eq t (head c) then set_head c None else c in
               c ← pfree_node c t;
               Ok (set_size c (i32 (size c - 1))))
           else Ok c);
      let new_entry := fresh c in
      let c := set_nodes c (<[new_entry := mkLRUCacheEntry (strlcpy nm NAMEDATALEN) e None (head c)]> (nodes c))
                 (fresh c + 1)%positive in
      c ← if_nonnull (head c) c (λ h, store_prev c h (Some new_entry));
      let c := set_head c (Some new_entry) in
      let c := match tail c with None => set_tail c (Some new_entry) | Some _ => c end in
      Ok (set_size c (i32 (size c + 1)), old_context)
  end.

Definition get_lru_cache (c : LRUCache) (nm : string) : res (LRUCache * option loc) :=
  found ← lru_lookup c nm;
  match found with
  | Some l =>
      c ← lru_cache_move_to_head c l;
      n ← deref c l;
      Ok (c, Some (entry n))
  | None => Ok (c, None)
  end.

(** The loop of [destroy_lru_cache]; what is left of the heap. *)
Fixpoint free_nodes (fuel : nat) (c : LRUCache) (current : option loc) : res LRUCache :=
  match fuel with
  | O => Stuck NoProgress
  | S fuel =>
      match current with
      | None => Ok c
      | Some l =>
          n ← deref c l;
          c ← pfree_node c l;
          free_nodes fuel c (next n)
      end
  end.
Definition destroy_lru_cache (c : LRUCache) : res (gmap loc LRUCacheEntry) :=
  c ← free_nodes (S (stdpp.base.size (nodes c))) c (head c); Ok (nodes c).

(** ** Doubly linked segments *)

(** [l] is linked from [p] to [q]: each node points back to its predecessor and on
    to its successor. *)
Fixpoint dlseg (ns : gmap loc LRUCacheEntry) (p : option loc) (l : list loc) (q : option loc) : Prop :=
  match l with
  | [] => True
  | x :: l' => ∃ n, ns !! x = Some n ∧ prev n = p
                 ∧ next n = match l' with [] => q | y :: _ => Some y end
                 ∧ dlseg ns (Some x) l' q
  end.

(** First and last address of a segment, or the given ones when it is empty. *)
Definition first_or (l : list loc) (q : option loc) : option loc :=
  match l with [] => q | y :: _ => Some y end.
Definition last_or (l : list loc) (p : option loc) : option loc :=
  match last l with None => p | Some y => Some y end.

Lemma last_or_snoc l x p : last_or (l ++ [x]) p = Some x.
Proof. unfold last_or. by rewrite last_snoc. Qed.
Lemma last_or_cons x l p : last_or (x :: l) p = last_or l (Some x).
Proof. unfold last_or. rewrite last_cons. by destruct (last l). Qed.

Section dlseg.
  Implicit Types ns : gmap loc LRUCacheEntry.

Lemma dlseg_app ns p l1 l2 q :
  dlseg ns p (l1 ++ l2) q ↔ dlseg ns p l1 (first_or l2 q) ∧ dlseg ns (last_or l1 p) l2 q.
Proof.
  revert p. induction l1 as [|x l1 IH]; intros p; simpl; [tauto|].
  rewrite last_or_cons. setoid_rewrite IH. destruct l1; simpl; naive_solver.
Qed.

(** Nodes outside a segment do not matter to it. *)
Lemma dlseg_frame ns ns' p l q :
  (∀ x, x ∈ l → ns' !! x = ns !! x) → dlseg ns p l q → dlseg ns' p l q.
Proof.
  revert p. induction l as [|x l IH]; intros p Hs; simpl; [done|].
  intros (n & Hx & Hp & Hn & Hl). exists n. rewrite Hs by set_solver.
  split_and!; try done. apply IH; [set_solver|done].
Qed.

Lemma dlseg_insert ns p l q x n : x ∉ l → dlseg ns p l q → dlseg (<[x := n]> ns) p l q.
Proof. intros Hx. apply dlseg_frame. intros y Hy. apply lookup_insert_ne. set_solver. Qed.
Lemma dlseg_delete ns p l q x : x ∉ l → dlseg ns p l q → dlseg (delete x ns) p l q.
Proof. intros Hx. apply dlseg_frame. intros y Hy. apply lookup_delete_ne. set_solver. Qed.

Lemma dlseg_lookup ns p l q x : dlseg ns p l q → x ∈ l → is_Some (ns !! x).
Proof.
  revert p. induction l as [|y l IH]; intros p; simpl; [set_solver|].
  intros (n & Hy & _ & _ & Hl) [->|Hx]%elem_of_cons; eauto.
Qed.

(** Redirecting the last node of a segment, or its first. *)
Lemma dlseg_set_next ns p l y q q' n :
  NoDup (l ++ [y]) → dlseg ns p (l ++ [y]) q → ns !! y = Some n →
  dlseg (<[y := mkLRUCacheEntry (name n) (entry n) (prev n) q']> ns) p (l ++ [y]) q'.
Proof.
  intros Hnd Hl Hy. apply dlseg_app in Hl as [Hl Hyq]. apply dlseg_app. split.
  - apply dlseg_insert; [|done]. apply NoDup_app in Hnd as (_ & Hni & _). set_solver.
  - simpl in *. destruct Hyq as (n' & Hn' & Hp & _ & _). simplify_eq.
    eexists. rewrite lookup_insert_eq. done.
Qed.
Lemma dlseg_set_prev ns p p' x l q n :
  NoDup (x :: l) → dlseg ns p (x :: l) q → ns !! x = Some n →
  dlseg (<[x := mkLRUCacheEntry (name n) (entry n) p' (next n)]> ns) p' (x :: l) q.
Proof.
  intros [Hx _]%NoDup_cons (n' & Hn' & _ & Hnx & Hl) Hn. simplify_eq.
  eexists. rewrite lookup_insert_eq. split_and!; try done. by apply dlseg_insert.
Qed.
End dlseg.

(** ** The list a cache stands for *)

Definition view (ns : gmap loc LRUCacheEntry) (x : loc) : string * loc :=
  match ns !! x with Some n => (name n, entry n) | None => (EmptyString, 1%positive) end.

(** [c] is a well-formed cache whose entries, the most recently used first, are
    at the addresses [l]. *)
Record lru_ok (c : LRUCache) (l : list loc) : Prop := {
  l_seg : dlseg (nodes c) None l None;
  l_head : head c = first_or l None;
  l_tail : tail c = last_or l None;
  l_nodup : NoDup l;
  l_dom : ∀ x, is_Some (nodes c !! x) ↔ x ∈ l;
  l_size : size c = zlen l;
  l_cap : 0 < capacity c <= int_max;
  l_fit : zlen l <= capacity c;
  l_fresh : ∀ x, x ∈ l → (x < fresh c)%positive
}.

Definition lru_view (c : LRUCache) (l : list loc) : list (string * loc) := view (nodes c) <$> l.
Definition lru_rep (c : LRUCache) (ents : list (string * loc)) : Prop :=
  ∃ l, lru_ok c l ∧ ents = lru_view c l.

(** ** The operations on lists *)

(** The first entry under a name, and the others. *)
Fixpoint extract (nm : string) (ents : list (string * loc)) : option (loc * list (string * loc)) :=
  match ents with
  | [] => None
  | (k, e) :: rest =>
      if strcmp_eq k nm then Some (e, rest)
      else r ← extract nm rest; Some (fst r, (k, e) :: snd r)
  end.

Definition lru_get (nm : string) (ents : list (string * loc)) : list (string * loc) * option loc :=
  match extract nm ents with
  | Some (e, rest) => ((nm, e) :: rest, Some e)
  | None => (ents, None)
  end.

Definition lru_put (cap : Z) (nm : string) (e : loc) (ents : list (string * loc)) : list (string * loc) :=
  match extract nm ents with
  | Some (_, rest) => (nm, e) :: rest
  | None => (strlcpy nm NAMEDATALEN, e)
            :: (if cap <=? zlen ents then take (length ents - 1) ents else ents)
  end.

Lemma lru_create_ok cap cxt : 0 < cap <= int_max → lru_rep (create_lru_cache cap cxt) [].
Proof.
  intros. exists []. split; [|done]. split; simpl; try done; try set_solver.
  - apply NoDup_nil_2.
  - intros x. rewrite lookup_empty. split; [by intros [??]|set_solver].
  - unfold zlen. simpl. lia.
Qed.

(** Walking the list finds the first entry with the name. *)
Lemma lru_find_spec c nm fuel p l :
  dlseg (nodes c) p l None → (length l < fuel)%nat →
  ∃ r, lru_find fuel c (first_or l None) nm = Ok r ∧
    match r with
    | Some x => ∃ l1 l2 e, l = l1 ++ x :: l2 ∧ view (nodes c) x = (nm, e)
        ∧ extract nm (view (nodes c) <$> l) = Some (e, view (nodes c) <$> l1 ++ l2)
    | None => extract nm (view (nodes c) <$> l) = None
    end.
Proof.
  revert p fuel. induction l as [|x l IH]; intros p fuel Hl Hf.
  { destruct fuel; [simpl in Hf; lia|]. exists None. done. }
  destruct fuel as [|fuel]; [simpl in Hf; lia|]. simpl in Hl, Hf.
  rewrite fmap_cons. cbn [lru_find first_or].
  destruct Hl as (n & Hx & Hp & Hn & Hl). unfold deref. rewrite Hx. cbn [mbind res_bind].
  assert (view (nodes c) x = (name n, entry n)) as Hv by (unfold view; by rewrite Hx).
  rewrite Hv. cbn [extract]. unfold strcmp_eq. case_bool_decide as Heq.
  { exists (Some x). split; [done|]. exists [], l, (entry n). rewrite Hv, Heq. done. }
  rewrite Hn. fold (first_or l None).
  destruct (IH (Some x) fuel Hl ltac:(lia)) as (r & Hr & Hspec). exists r. split; [done|].
  destruct r as [y|].
  - destruct Hspec as (l1 & l2 & e & -> & Hvy & Hex). exists (x :: l1), l2, e. split; [done|].
    split; [done|]. rewrite Hex. simpl. by rewrite Hv.
  - by rewrite Hspec.
Qed.

Lemma nodes_size c l : lru_ok c l → stdpp.base.size (nodes c) = length l.
Proof.
  intros Hok. rewrite <-(size_dom (D := gset loc)).
  assert (dom (nodes c) = list_to_set l) as ->.
  { apply set_eq. intros x. rewrite elem_of_dom, elem_of_list_to_set. apply Hok. }
  apply size_list_to_set, Hok.
Qed.

Lemma lru_lookup_spec c l nm :
  lru_ok c l →
  ∃ r, lru_lookup c nm = Ok r ∧
    match r with
    | Some x => ∃ l1 l2 e, l = l1 ++ x :: l2 ∧ view (nodes c) x = (nm, e)
        ∧ extract nm (lru_view c l) = Some (e, view (nodes c) <$> l1 ++ l2)
    | None => extract nm (lru_view c l) = None
    end.
Proof.
  intros Hok. unfold lru_lookup. rewrite (nodes_size c l Hok), (l_head c l Hok).
  eapply lru_find_spec; [apply Hok|lia].
Qed.

(** ** Changing links *)

(** Two heaps with the same nodes, up to their links. *)
Definition same_views (ns ns' : gmap loc LRUCacheEntry) : Prop :=
  ∀ x, (is_Some (ns' !! x) ↔ is_Some (ns !! x)) ∧ view ns' x = view ns x.

#[global] Instance same_views_refl : Reflexive same_views.
Proof. by intros ns x. Qed.
#[global] Instance same_views_trans : Transitive same_views.
Proof. intros a b c Hab Hbc x. destruct (Hab x) as [H1 H2], (Hbc x) as [H3 H4]. split; [tauto|congruence]. Qed.

Lemma same_views_links ns y n p q :
  ns !! y = Some n → same_views ns (<[y := mkLRUCacheEntry (name n) (entry n) p q]> ns).
Proof.
  intros Hy x. unfold view. destruct (decide (x = y)) as [->|].
  - rewrite lookup_insert_eq, Hy. split; [split; eauto|done].
  - by rewrite lookup_insert_ne by done.
Qed.

Lemma store_next_ok c y q n :
  nodes c !! y = Some n →
  store_next c y q = Ok (set_nodes c (<[y := mkLRUCacheEntry (name n) (entry n) (prev n) q]> (nodes c)) (fresh c)).
Proof. intros Hy. unfold store_next, deref. by rewrite Hy. Qed.
Lemma store_prev_ok c y p n :
  nodes c !! y = Some n →
  store_prev c y p = Ok (set_nodes c (<[y := mkLRUCacheEntry (name n) (entry n) p (next n)]> (nodes c)) (fresh c)).
Proof. intros Hy. unfold store_prev, deref. by rewrite Hy. Qed.

(** [if (p) p->next = q] for the node before a gap, [if (p) p->prev = q] for the
    one after it. *)
Lemma relink_next c l p q q' :
  dlseg (nodes c) p l q → NoDup l →
  ∃ ns, if_nonnull (last_or l None) c (λ y, store_next c y q') = Ok (set_nodes c ns (fresh c))
        ∧ dlseg ns p l q' ∧ same_views (nodes c) ns ∧ ∀ x, x ∉ l → ns !! x = nodes c !! x.
Proof.
  intros Hl Hnd. destruct l as [|y l _] using rev_ind.
  { exists (nodes c). destruct c. done. }
  rewrite last_or_snoc. simpl. destruct (dlseg_lookup _ _ _ _ y Hl) as [n Hn]; [set_solver|].
  rewrite (store_next_ok c y q' n Hn). eexists. split; [done|].
  split; [by eapply dlseg_set_next|]. split; [by apply same_views_links|].
  intros x Hx. apply lookup_insert_ne. set_solver.
Qed.
Lemma relink_prev c l p p' q :
  dlseg (nodes c) p l q → NoDup l →
  ∃ ns, if_nonnull (first_or l None) c (λ y, store_prev c y p') = Ok (set_nodes c ns (fresh c))
        ∧ dlseg ns p' l q ∧ same_views (nodes c) ns ∧ ∀ x, x ∉ l → ns !! x = nodes c !! x.
Proof.
  intros Hl Hnd. destruct l as [|y l].
  { exists (nodes c). destruct c. done. }
  simpl. destruct (dlseg_lookup _ _ _ _ y Hl) as [n Hn]; [set_solver|].
  rewrite (store_prev_ok c y p' n Hn). eexists. split; [done|].
  split; [by eapply dlseg_set_prev|]. split; [by apply same_views_links|].
  intros x Hx. apply lookup_insert_ne. set_solver.
Qed.

(** Putting a node whose links are set in front of a list. *)
Lemma push_front c x l n :
  dlseg (nodes c) None l None → NoDup (x :: l) → nodes c !! x = Some n →
  prev n = None → next n = first_or l None →
  ∃ ns, if_nonnull (first_or l None) c (λ h, store_prev c h (Some x)) = Ok (set_nodes c ns (fresh c))
        ∧ dlseg ns None (x :: l) None ∧ same_views (nodes c) ns.
Proof.
  intros Hl Hnd Hx Hp Hn. pose proof Hnd as [Hxl Hnd']%NoDup_cons.
  destruct (relink_prev c l None (Some x) None Hl Hnd') as (ns & -> & Hl' & Hv & Hout).
  exists ns. split; [done|]. split; [|done]. simpl. exists n. rewrite Hout by done. done.
Qed.

(** Taking the node [x] out of the middle of a list. *)
Lemma unlink c l1 x l2 n :
  dlseg (nodes c) None (l1 ++ x :: l2) None → NoDup (l1 ++ x :: l2) → nodes c !! x = Some n →
  ∃ c1 ns2,
    if_nonnull (last_or l1 None) c (λ p, store_next c p (next n)) = Ok c1
    ∧ nodes c1 !! x = Some n
    ∧ if_nonnull (first_or l2 None) c1 (λ q, store_prev c1 q (prev n)) = Ok (set_nodes c ns2 (fresh c))
    ∧ ns2 !! x = Some n ∧ prev n = last_or l1 None ∧ next n = first_or l2 None
    ∧ dlseg ns2 None (l1 ++ l2) None ∧ same_views (nodes c) ns2.
Proof.
  intros Hl Hnd Hx. apply dlseg_app in Hl as [Hl1 Hl2]. simpl in Hl2.
  destruct Hl2 as (n' & Hn' & Hp & Hnx & Hl2). assert (n' = n) as -> by congruence.
  fold (first_or l2 None) in Hnx.
  apply NoDup_app in Hnd as (Hnd1 & Hdis & [Hx2 Hnd2]%NoDup_cons).
  destruct (relink_next c l1 None (Some x) (next n) Hl1 Hnd1) as (ns1 & Hc1 & Hl1' & Hv1 & Ho1).
  assert (ns1 !! x = Some n) as Hx1 by (rewrite Ho1; set_solver).
  assert (dlseg ns1 (Some x) l2 None) as Hl2'.
  { eapply dlseg_frame; [|done]. intros y Hy. apply Ho1. set_solver. }
  destruct (relink_prev (set_nodes c ns1 (fresh c)) l2 (Some x) (prev n) None Hl2' Hnd2)
    as (ns2 & Hc2 & Hl2'' & Hv2 & Ho2).
  exists (set_nodes c ns1 (fresh c)), ns2. split; [exact Hc1|]. split; [done|].
  split; [exact Hc2|]. simpl in *. rewrite Ho2 by done. split_and!; try done; [|by etrans].
  apply dlseg_app. rewrite <-Hp, <-Hnx. split; [|done].
  eapply dlseg_frame; [|done]. intros y Hy. apply Ho2. set_solver.
Qed.

Lemma last_or_app l1 l2 p : last_or (l1 ++ l2) p = last_or l2 (last_or l1 p).
Proof. unfold last_or. rewrite last_app. by destruct (last l2). Qed.
Lemma first_or_app l1 l2 q : l1 ≠ [] → first_or (l1 ++ l2) q = first_or l1 q.
Proof. by destruct l1. Qed.

(** [entry->next = q; entry->prev = NULL;] *)
Lemma store_links c x q n (k : LRUCache → res LRUCache) :
  nodes c !! x = Some n →
  (c ← store_next c x q; c ← store_prev c x None; k c)
  = k (set_nodes c (<[x := mkLRUCacheEntry (name n) (entry n) None q]> (nodes c)) (fresh c)).
Proof.
  intros Hx. rewrite (store_next_ok c x q n Hx). cbn [mbind res_bind].
  erewrite store_prev_ok by (simpl; apply lookup_insert_eq). cbn [mbind res_bind]. simpl.
  by rewrite insert_insert_eq.
Qed.

(** The new tail once [x] is out: [if (entry == cache->tail) cache->tail = entry->prev]. *)
Lemma unlinked_tail l1 x l2 :
  NoDup (l1 ++ x :: l2) →
  (if ptr_eq x (last_or (l1 ++ x :: l2) None) then last_or l1 None else last_or (l1 ++ x :: l2) None)
  = last_or (l1 ++ l2) None.
Proof.
  intros (_ & _ & [Hx _]%NoDup_cons)%NoDup_app. rewrite !last_or_app, last_or_cons.
  unfold ptr_eq. destruct l2 as [|z l2 _] using rev_ind.
  - by rewrite bool_decide_true.
  - rewrite !last_or_snoc, bool_decide_false; [done|]. set_solver.
Qed.

Lemma move_to_head_ok c l1 x l2 :
  lru_ok c (l1 ++ x :: l2) →
  ∃ c', lru_cache_move_to_head c x = Ok c' ∧ lru_ok c' (x :: l1 ++ l2)
        ∧ same_views (nodes c) (nodes c') ∧ context c' = context c ∧ capacity c' = capacity c.
Proof.
  intros Hok. unfold lru_cache_move_to_head. rewrite (l_head c _ Hok).
  destruct (decide (l1 = [])) as [->|Hne].
  { exists c. unfold ptr_eq. rewrite bool_decide_true by done. done. }
  rewrite first_or_app by done. pose proof (l_nodup c _ Hok) as Hnd.
  assert ((x ∉ l1) ∧ NoDup (x :: l1 ++ l2)) as [Hx1 Hnd'].
  { rewrite Permutation_middle. split; [|done]. apply NoDup_app in Hnd as (_ & Hd & _). set_solver. }
  assert (ptr_eq x (first_or l1 None) = false) as ->.
  { unfold ptr_eq. apply bool_decide_false. destruct l1; [done|]. simpl. set_solver. }
  assert (is_Some (nodes c !! x)) as [n Hn] by (apply (l_dom c _ Hok); set_solver).
  destruct (unlink c l1 x l2 n (l_seg c _ Hok) Hnd Hn) as (c1 & ns2 & Hc1 & Hn1 & Hc2 & Hn2 & Hp & Hnx & Hseg & Hv).
  unfold deref. rewrite Hn. cbn [mbind res_bind]. rewrite Hp, Hc1. cbn [mbind res_bind].
  rewrite Hn1. cbn [mbind res_bind]. rewrite Hnx, Hc2. cbn [mbind res_bind]. simpl nodes. rewrite Hn2. cbn [mbind res_bind].
  set (c3 := if ptr_eq _ _ then _ else _).
  assert (c3 = set_tail (set_nodes c ns2 (fresh c)) (last_or (l1 ++ l2) None)) as ->.
  { unfold c3. rewrite <-(unlinked_tail l1 x l2), <-(l_tail c _ Hok), Hp by done. simpl.
    destruct (ptr_eq x (tail c)); [done|]. by destruct c. }
  set (c3 := set_tail _ _).
  rewrite (store_links c3 x _ n) by done. change (head c3) with (head c).
  set (n4 := mkLRUCacheEntry _ _ _ _). set (c4 := set_nodes _ _ _).
  change (head c4) with (head c).
  assert (head c = first_or (l1 ++ l2) None) as Hh by (rewrite (l_head c _ Hok); by destruct l1).
  assert (nodes c4 !! x = Some n4) as Hx4 by apply lookup_insert_eq.
  assert (same_views (nodes c) (nodes c4)) as Hv4.
  { etrans; [exact Hv|]. by apply same_views_links. }
  destruct (push_front c4 x (l1 ++ l2) n4) as (ns5 & Hc5 & Hseg5 & Hv5); [|done..|].
  { apply NoDup_cons in Hnd' as [? _]. by apply dlseg_insert. }
  rewrite Hh, Hc5. cbn [mbind res_bind]. simpl tail.
  assert (∃ t, last_or (l1 ++ l2) None = Some t) as [t Ht].
  { rewrite last_or_app. unfold last_or. destruct (last l2); [eauto|]. destruct (last l1) eqn:Hl; [eauto|].
    by apply last_None in Hl. }
  rewrite Ht. eexists. split; [done|].
  split; [|split; [by etrans|done]].
  assert (zlen (x :: l1 ++ l2) = zlen (l1 ++ x :: l2)) as Hlen by (unfold zlen; by rewrite Permutation_middle).
  split; simpl; rewrite ?Hlen; try apply Hok; try done.
  - rewrite last_or_cons. unfold last_or in *. by destruct (last (l1 ++ l2)).
  - intros y. destruct (Hv4 y) as [H1 _], (Hv5 y) as [H2 _]. rewrite H2, H1, (l_dom c _ Hok). by rewrite Permutation_middle.
  - intros y Hy. apply (l_fresh c _ Hok). by rewrite <-Permutation_middle.
Qed.

(** ** The operations refine those on lists *)

Lemma lru_view_same c c' l : same_views (nodes c) (nodes c') → lru_view c' l = lru_view c l.
Proof. intros Hv. apply list_fmap_ext. intros i x _. apply Hv. Qed.

Lemma dlseg_set_entry ns p l q x n e :
  ns !! x = Some n → dlseg ns p l q →
  dlseg (<[x := mkLRUCacheEntry (name n) e (prev n) (next n)]> ns) p l q.
Proof.
  intros Hx. revert p. induction l as [|y l IH]; intros p; simpl; [done|].
  intros (m & Hm & Hp & Hn & Hl). destruct (decide (y = x)) as [->|].
  - simplify_eq. eexists. rewrite lookup_insert_eq. split_and!; try done. by apply IH.
  - exists m. rewrite lookup_insert_ne by done. split_and!; try done. by apply IH.
Qed.

(** [current->entry = entry] *)
Lemma store_entry_ok c l x e :
  lru_ok c l → x ∈ l →
  ∃ c', store_entry c x e = Ok c' ∧ lru_ok c' l ∧ context c' = context c ∧ capacity c' = capacity c
        ∧ view (nodes c') x = (fst (view (nodes c) x), e)
        ∧ ∀ y, y ≠ x → view (nodes c') y = view (nodes c) y.
Proof.
  intros Hok Hx. assert (is_Some (nodes c !! x)) as [n Hn] by (by apply (l_dom c _ Hok)).
  unfold store_entry, deref. rewrite Hn. cbn [mbind res_bind]. eexists. split; [done|].
  split; [|split; [done|split; [done|split]]].
  - destruct Hok as [Hseg ? ? ? Hdom ? ? ? ?]. split; simpl; try done.
    + by apply dlseg_set_entry.
    + intros y. rewrite <-Hdom. destruct (decide (y = x)) as [->|];
        [rewrite lookup_insert_eq, Hn|rewrite lookup_insert_ne by done]; split; eauto.
  - unfold view. simpl. by rewrite lookup_insert_eq, Hn.
  - intros y Hy. unfold view. simpl. by rewrite lookup_insert_ne.
Qed.

(** Dropping the last entry of a full cache. *)
Lemma evict_ok c l t :
  lru_ok c (l ++ [t]) →
  ∃ c', if_nonnull (tail c) c (λ t,
          n ← deref c t;
          c ← if_nonnull (prev n) c (λ p, store_next c p None);
          n ← deref c t;
          let c := set_tail c (prev n) in
          let c := if ptr_eq t (head c) then set_head c None else c in
          c ← pfree_node c t;
          Ok (set_size c (i32 (size c - 1)))) = Ok c'
    ∧ lru_ok c' l ∧ context c' = context c ∧ capacity c' = capacity c ∧ lru_view c' l = lru_view c l.
Proof.
  intros Hok. pose proof (l_nodup c _ Hok) as Hnd.
  apply NoDup_app in Hnd as (Hnd & Hdis & _). assert (t ∉ l) as Ht by set_solver.
  rewrite (l_tail c _ Hok), last_or_snoc. simpl.
  pose proof (l_seg c _ Hok) as [Hl1 (n & Hn & Hp & _ & _)]%dlseg_app.
  unfold deref. rewrite Hn. cbn [mbind res_bind]. rewrite Hp.
  destruct (relink_next c l None (Some t) None Hl1 Hnd) as (ns & -> & Hseg & Hv & Hout).
  cbn [mbind res_bind]. simpl nodes. rewrite Hout, Hn by done. cbn [mbind res_bind]. rewrite Hp.
  set (c2 := if ptr_eq _ _ then _ else _).
  assert (c2 = mkLRUCache (first_or l None) (last_or l None) (capacity c) (size c) (context c) ns (fresh c)) as ->.
  { unfold c2, set_tail, set_head, set_nodes. simpl. rewrite (l_head c _ Hok). unfold ptr_eq. destruct l as [|y l]; simpl.
    - by rewrite bool_decide_true.
    - rewrite bool_decide_false; [done|]. intros [= ->]. set_solver. }
  unfold pfree_node, deref. simpl nodes. rewrite Hout, Hn by done. cbn [mbind res_bind].
  assert (zlen (l ++ [t]) = zlen l + 1) as Hlen by (unfold zlen; rewrite length_app; simpl; lia).
  pose proof (l_fit c _ Hok). pose proof (l_cap c _ Hok). pose proof (zlen_nonneg l).
  eexists. split; [done|]. split; [|split; [done|split; [done|]]].
  - split; simpl; try done; try lia.
    + by apply dlseg_delete.
    + intros x. destruct (decide (x = t)) as [->|].
      * rewrite lookup_delete_eq. split; [by intros [??]|done].
      * rewrite lookup_delete_ne by done. destruct (Hv x) as [-> _]. rewrite (l_dom c _ Hok). set_solver.
    + rewrite (l_size c _ Hok), i32_id by int_solve. lia.
    + intros x Hx. apply (l_fresh c _ Hok). set_solver.
  - apply list_fmap_ext. intros i x Hx%list_elem_of_lookup_2. simpl.
    rewrite <-(proj2 (Hv x)). unfold view. rewrite lookup_delete_ne; [done|]. by intros ->.
Qed.

(** Inserting a new entry at the head of a cache with room. *)
Lemma insert_head_ok c l nm e :
  lru_ok c l → zlen l < capacity c →
  let new_entry := fresh c in
  let c1 := set_nodes c (<[new_entry := mkLRUCacheEntry nm e None (head c)]> (nodes c)) (fresh c + 1)%positive in
  ∃ c', (c ← if_nonnull (head c1) c1 (λ h, store_prev c1 h (Some new_entry));
         let c := set_head c (Some new_entry) in
         let c := match tail c with None => set_tail c (Some new_entry) | Some _ => c end in
         Ok (set_size c (i32 (size c + 1)))) = Ok c'
    ∧ lru_ok c' (new_entry :: l) ∧ capacity c' = capacity c
    ∧ lru_view c' (new_entry :: l) = (nm, e) :: lru_view c l.
Proof.
  intros Hok Hroom x c1. simpl. rewrite (l_head c _ Hok).
  assert (x ∉ l) as Hx by (intros Hx; pose proof (l_fresh c _ Hok x Hx); unfold x in *; lia).
  assert (NoDup (x :: l)) as Hnd by (apply NoDup_cons; split; [done|apply Hok]).
  set (n := mkLRUCacheEntry nm e None (head c)).
  assert (nodes c1 !! x = Some n) as Hn by apply lookup_insert_eq.
  destruct (push_front c1 x l n) as (ns & Hc & Hseg & Hv); [|done|done|done|apply Hok|].
  { apply dlseg_insert; [done|]. apply Hok. }
  rewrite Hc. cbn [mbind res_bind]. simpl. rewrite (l_tail c _ Hok).
  assert (zlen (x :: l) = zlen l + 1) as Hlen by (unfold zlen; simpl; lia).
  pose proof (l_cap c _ Hok). pose proof (zlen_nonneg l).
  eexists. split; [done|].
  match goal with |- lru_ok ?c' _ ∧ _ => assert (nodes c' = ns ∧ head c' = Some x
    ∧ tail c' = last_or (x :: l) None ∧ capacity c' = capacity c ∧ size c' = zlen l + 1
    ∧ fresh c' = (fresh c + 1)%positive) as (En & Eh & Et & Ec & Es & Ef) end.
  { pose proof (l_tail c _ Hok) as Htl. rewrite last_or_cons. unfold last_or in *.
    destruct (last l); simpl; rewrite (l_size c _ Hok), i32_id by int_solve; done. }
  split; [|split; [done|]].
  - split; rewrite ?En, ?Eh, ?Et, ?Ec, ?Es, ?Ef, ?Hlen; try done; try lia.
    + intros y. destruct (Hv y) as [-> _]. simpl. rewrite elem_of_cons.
      destruct (decide (y = x)) as [->|]; [rewrite lookup_insert_eq; naive_solver|].
      rewrite lookup_insert_ne, (l_dom c _ Hok) by done. naive_solver.
    + intros y [->|Hy]%elem_of_cons; [unfold x; lia|]. pose proof (l_fresh c _ Hok y Hy). lia.
  - unfold lru_view. rewrite En. simpl. f_equal.
    + rewrite (proj2 (Hv x)). unfold view. by rewrite Hn.
    + apply list_fmap_ext. intros i y Hy%list_elem_of_lookup_2. rewrite (proj2 (Hv y)). unfold view.
      simpl. rewrite lookup_insert_ne; [done|]. by intros ->.
Qed.

(** The front of the list after a hit. *)
Lemma move_view c c' l1 x l2 nm e :
  same_views (nodes c) (nodes c') → view (nodes c) x = (nm, e) →
  lru_view c' (x :: l1 ++ l2) = (nm, e) :: lru_view c (l1 ++ l2).
Proof. intros Hv Hx. rewrite (lru_view_same c c') by done. unfold lru_view. simpl. by rewrite Hx. Qed.

(** C25: [get_lru_cache] returns the entry stored under a name, or NULL, and makes
    a found entry the most recently used one; it follows only valid pointers and
    leaves a well-formed doubly linked list. *)
Theorem get_lru_cache_refines c ents nm :
  lru_rep c ents →
  ∃ c', get_lru_cache c nm = Ok (c', snd (lru_get nm ents)) ∧ lru_rep c' (fst (lru_get nm ents)).
Proof.
  intros (l & Hok & ->). unfold get_lru_cache, lru_get.
  destruct (lru_lookup_spec c l nm Hok) as (r & -> & Hr). cbn [mbind res_bind].
  destruct r as [x|]; [|exists c; rewrite Hr; split; [done|by exists l]].
  destruct Hr as (l1 & l2 & e & -> & Hv & ->).
  destruct (move_to_head_ok c l1 x l2 Hok) as (c' & -> & Hok' & Hsame & _). cbn [mbind res_bind].
  assert (is_Some (nodes c' !! x)) as [n Hn] by (apply (l_dom c' _ Hok'); set_solver).
  unfold deref. rewrite Hn. cbn [mbind res_bind].
  assert (entry n = e) as ->.
  { pose proof (proj2 (Hsame x)) as Hx. rewrite Hv in Hx. unfold view in Hx. rewrite Hn in Hx. by simplify_eq. }
  exists c'. split; [done|]. exists (x :: l1 ++ l2). split; [done|]. symmetry. by apply move_view.
Qed.

(** The two ways through [put_lru_cache]. *)
Lemma put_present c cur l1 x l2 nm e0 e :
  lru_ok c (l1 ++ x :: l2) → lru_lookup c nm = Ok (Some x) → view (nodes c) x = (nm, e0) →
  ∃ c', put_lru_cache c cur nm e = Ok (c', context c) ∧ lru_ok c' (x :: l1 ++ l2) ∧ capacity c' = capacity c
        ∧ lru_view c' (x :: l1 ++ l2) = (nm, e) :: lru_view c (l1 ++ l2).
Proof.
  intros Hok Hfind Hv. unfold put_lru_cache. rewrite Hfind. cbn [mbind res_bind].
  pose proof (l_nodup c _ Hok) as (_ & Hd & [Hx2 _]%NoDup_cons)%NoDup_app.
  destruct (store_entry_ok c _ x e Hok) as (c1 & -> & Hok1 & Hc1 & Hcap1 & Hx1 & Hne); [set_solver|].
  cbn [mbind res_bind].
  destruct (move_to_head_ok c1 l1 x l2 Hok1) as (c' & -> & Hok' & Hsame & Hc' & Hcap'). cbn [mbind res_bind].
  exists c'. split; [by rewrite <-Hc1, <-Hc'|]. split; [done|]. split; [congruence|]. rewrite (move_view c1 c' l1 x l2 nm e) by (done || by rewrite Hx1, Hv).
  f_equal. apply list_fmap_ext. intros i y Hy%list_elem_of_lookup_2. apply Hne. set_solver.
Qed.

Lemma put_absent c cur l nm e :
  lru_ok c l → lru_lookup c nm = Ok None →
  ∃ c' l', put_lru_cache c cur nm e = Ok (c', cur) ∧ lru_ok c' l' ∧ capacity c' = capacity c
    ∧ lru_view c' l' = (strlcpy nm NAMEDATALEN, e)
        :: (if capacity c <=? zlen l then take (length l - 1) (lru_view c l) else lru_view c l).
Proof.
  intros Hok Hfind. unfold put_lru_cache. rewrite Hfind. cbn [mbind res_bind].
  rewrite (l_size c _ Hok). pose proof (l_cap c _ Hok). pose proof (l_fit c _ Hok).
  match goal with |- ∃ _ _, (_ ← ?ev; _) = _ ∧ _ => assert (∃ c1 l1, ev = Ok c1 ∧ lru_ok c1 l1 ∧ capacity c1 = capacity c
    ∧ zlen l1 < capacity c ∧ lru_view c1 l1
      = if capacity c <=? zlen l then take (length l - 1) (lru_view c l) else lru_view c l)
    as (c1 & l1 & -> & Hok1 & Hcap1 & Hroom & Hview1) end.
  { destruct (Z.leb_spec (capacity c) (zlen l)); [|by exists c, l].
    destruct l as [|t l _] using rev_ind; [unfold zlen in *; simpl in *; lia|].
    destruct (evict_ok c l t Hok) as (c1 & Hev & Hok1 & _ & Hcap1 & Hv1). exists c1, l.
    split; [exact Hev|]. split; [done|]. split; [done|]. unfold zlen in *. rewrite length_app in *. simpl in *.
    split; [lia|]. rewrite Hv1. unfold lru_view. rewrite fmap_app, take_app_length'; [done|].
    rewrite length_fmap. lia. }
  cbn [mbind res_bind]. rewrite <-Hcap1 in Hroom.
  destruct (insert_head_ok c1 l1 (strlcpy nm NAMEDATALEN) e Hok1 Hroom) as (c' & Hins & Hok' & Hcap' & Hv').
  cbv zeta in Hins. apply res_bind_Ok in Hins as (c2 & Hc2 & [= <-]). rewrite Hc2. cbn [mbind res_bind].
  eexists _, _. split; [done|]. split; [exact Hok'|]. rewrite <-Hview1, <-Hcap1. split; [exact Hcap'|exact Hv'].
Qed.

(** C15: [put_lru_cache] stores an entry under a name as the most recently used
    one: it replaces the entry of a name that is present, and otherwise evicts the
    least recently used entry of a full cache before it inserts.  The cache never
    holds more than [capacity] entries.  The current memory context is restored
    only when the name was not present. *)
Theorem put_lru_cache_refines c cur ents nm e :
  lru_rep c ents →
  ∃ c', put_lru_cache c cur nm e
        = Ok (c', match extract nm ents with Some _ => context c | None => cur end)
        ∧ lru_rep c' (lru_put (capacity c) nm e ents)
        ∧ zlen (lru_put (capacity c) nm e ents) <= capacity c.
Proof.
  intros (l & Hok & ->).
  assert (∀ c' l', lru_ok c' l' → capacity c' = capacity c →
    lru_put (capacity c) nm e (lru_view c l) = lru_view c' l' →
    lru_rep c' (lru_put (capacity c) nm e (lru_view c l))
    ∧ zlen (lru_put (capacity c) nm e (lru_view c l)) <= capacity c) as Hfin.
  { intros c' l' Hok' Hcap ->. split; [by exists l'|]. rewrite <-Hcap.
    unfold zlen, lru_view. rewrite length_fmap. apply Hok'. }
  destruct (lru_lookup_spec c l nm Hok) as (r & Hfind & Hr). destruct r as [x|].
  - destruct Hr as (l1 & l2 & e0 & -> & Hv & Hex).
    destruct (put_present c cur l1 x l2 nm e0 e Hok Hfind Hv) as (c' & Hput & Hok' & Hcap & Hview).
    exists c'. split; [by rewrite Hex|]. apply (Hfin c' (x :: l1 ++ l2)); [done..|].
    unfold lru_put. rewrite Hex, Hview. done.
  - destruct (put_absent c cur l nm e Hok Hfind) as (c' & l' & Hput & Hok' & Hcap & Hview).
    exists c'. split; [by rewrite Hr|]. apply (Hfin c' l'); [done..|].
    unfold lru_put. rewrite Hr, Hview. unfold zlen, lru_view. by rewrite length_fmap.
Qed.

Lemma free_nodes_ok c fuel p l :
  dlseg (nodes c) p l None → NoDup l → (∀ x, is_Some (nodes c !! x) ↔ x ∈ l) → (length l < fuel)%nat →
  ∃ c', free_nodes fuel c (first_or l None) = Ok c' ∧ nodes c' = ∅.
Proof.
  revert c p fuel. induction l as [|x l IH]; intros c p fuel Hl Hnd Hdom Hf; (destruct fuel; [simpl in Hf; lia|]).
  - exists c. split; [done|]. apply map_eq. intros x. rewrite lookup_empty.
    destruct (nodes c !! x) eqn:Hx; [|done]. exfalso. assert (x ∈ []) as He by (apply Hdom; eauto). set_solver.
  - destruct Hl as (n & Hx & _ & Hn & Hl). apply NoDup_cons in Hnd as [Hxl Hnd].
    simpl. unfold pfree_node, deref. rewrite Hx. cbn [mbind res_bind]. rewrite Hn.
    apply (IH _ (Some x)); [by apply dlseg_delete|done| |simpl in Hf; lia].
    intros y. simpl. destruct (decide (y = x)) as [->|].
    + rewrite lookup_delete_eq. split; [by intros [??]|done].
    + rewrite lookup_delete_ne, Hdom by done. set_solver.
Qed.

(** [destroy_lru_cache] releases every entry of the cache exactly once and
    leaves none behind. *)
Theorem destroy_lru_cache_frees_all c ents :
  lru_rep c ents → destroy_lru_cache c = Ok ∅.
Proof.
  intros (l & Hok & ->). unfold destroy_lru_cache. rewrite (nodes_size c l Hok), (l_head c l Hok).
  destruct (free_nodes_ok c (S (length l)) None l) as (c' & -> & Hc'); [apply Hok..|lia|].
  simpl. by rewrite Hc'.
Qed.

(** ** Witnesses *)
(** A full cache of two entries. *)
Definition ex_cache : LRUCache :=
  mkLRUCache (Some 2%positive) (Some 1%positive) 2 2 7
    {[1%positive := mkLRUCacheEntry "v" 4%positive (Some 2%positive) None;
      2%positive := mkLRUCacheEntry "w" 5%positive None (Some 1%positive)]} 3%positive.

Lemma ex_cache_rep : lru_rep ex_cache [("w", 5%positive); ("v", 4%positive)].
Proof.
  exists [2%positive; 1%positive]. split; [|done]. split; try done.
  - simpl. eauto 10.
  - repeat constructor; set_solver.
  - intros x. rewrite <-elem_of_dom. change (dom (nodes ex_cache)) with (dom ({[1%positive := tt; 2%positive := tt]} : gmap loc unit)).
    set_solver.
  - apply Forall_forall. repeat constructor.
Qed.

(** Using the older entry makes it the first. *)
Lemma get_lru_cache_refines_witness :
  ∃ c', get_lru_cache ex_cache "v" = Ok (c', Some 4%positive) ∧ lru_rep c' [("v", 4%positive); ("w", 5%positive)].
Proof. exact (get_lru_cache_refines ex_cache _ "v" ex_cache_rep). Defined.

(** A new entry evicts the older one. *)
Lemma put_lru_cache_refines_witness :
  ∃ c', put_lru_cache ex_cache 3 "u" 6%positive = Ok (c', 3) ∧ lru_rep c' [("u", 6%positive); ("w", 5%positive)].
Proof.
  destruct (put_lru_cache_refines ex_cache 3 _ "u" 6%positive ex_cache_rep) as (c' & H1 & H2 & _).
  exists c'. split; [exact H1|exact H2].
Defined.

Lemma destroy_lru_cache_frees_all_witness : destroy_lru_cache ex_cache = Ok ∅.
Proof. exact (destroy_lru_cache_frees_all ex_cache _ ex_cache_rep). Defined.
