(* ===== verification/ModelBuffer.v ===== *)
(** * ModelBuffer: the weight pool

    [model_buffer.c] and [model_buffer.h]: [create_weight_pool], [insert_weight],
    [get_weight], [destroy_weight_pool], over a hash table that keeps the laws of
    [HashTable].  [check_weight_pool] of [aqua.c] reads the number of entries.

    The pool is allocated from a memory context; [chunks] records which addresses
    are allocated and from which context, [blocks] what the data blocks hold.  The
    weights are arrays of [float4], so a block is a list of floats and a size in
    bytes is four times a number of floats.

    [weights] is the map from names to weights a pool stands for.  [pool_ok] says
    that no two entries share a block and that [current_memory_usage] is the size
    of the blocks plus the share set aside for the cache. *)

From S2P Require Import Prelude Float4 CString PgArray Dynahash HashTable LruCache.
From stdpp Require Import strings.

Open Scope Z_scope.

Definition MAX_DIMS : Z := 4.
Definition LRU_CACHE_SIZE : Z := 128 * 1024 * 1024.
Definition POOL_SIZE : Z := 1024 * 1024 * 1024.

(** The fields of a WeightEntry after its name; [dims] has [MAX_DIMS] cells. *)
Record WeightEntry := mkWeightEntry {
  data : option loc;
  data_size : Z;
  ndims : Z;
  dims : list (option Z);
  element_type : Z
}.

Section pool.
  Context `{HashTable WeightEntry}.

Record WeightPool := mkWeightPool {
  self : loc;                      (* where the WeightPool itself is allocated *)
  entries : htab;
  pool_context : Z;
  current_memory_usage : Z;
  weight_cache : option LRUCache;
  chunks : gmap loc Z;             (* allocated addresses and their contexts *)
  blocks : gmap loc (buf float4);  (* contents of the data blocks *)
  next_chunk : loc
}.

Definition pool_limit_msg : string := "weight pool memory limit exceeded".

(** [palloc] in the current context [cur]; a new chunk, not initialised. *)
Definition pool_palloc (p : WeightPool) (cur bytes : Z) : res (WeightPool * loc) :=
  check (bytes <=? MaxAllocSize) palloc_msg
    (let l := next_chunk p in
     Ok (mkWeightPool (self p) (entries p) (pool_context p) (current_memory_usage p) (weight_cache p)
           (<[l := cur]> (chunks p)) (<[l := replicate (Z.to_nat (bytes / 4)) None]> (blocks p)) (l + 1)%positive, l)).

Definition pool_pfree (p : WeightPool) (l : loc) : res WeightPool :=
  match chunks p !! l with
  | Some _ => Ok (mkWeightPool (self p) (entries p) (pool_context p) (current_memory_usage p) (weight_cache p)
                    (delete l (chunks p)) (delete l (blocks p)) (next_chunk p))
  | None => Stuck UseAfterFree
  end.

Definition set_entries (p : WeightPool) t :=
  mkWeightPool (self p) t (pool_context p) (current_memory_usage p) (weight_cache p)
    (chunks p) (blocks p) (next_chunk p).
Definition set_usage (p : WeightPool) n :=
  mkWeightPool (self p) (entries p) (pool_context p) n (weight_cache p)
    (chunks p) (blocks p) (next_chunk p).
Definition set_block (p : WeightPool) l b :=
  mkWeightPool (self p) (entries p) (pool_context p) (current_memory_usage p) (weight_cache p)
    (chunks p) (<[l := b]> (blocks p)) (next_chunk p).

(** [create_weight_pool]: [cxt] is the new memory context. *)
Definition create_weight_pool (cxt : Z) : res WeightPool :=
  t ← ht_create;
  Ok (mkWeightPool 1%positive t cxt LRU_CACHE_SIZE (Some (create_lru_cache 32 cxt))
        {[1%positive := cxt]} ∅ 2%positive).

(** [memcpy(entry->dims, dims, sizeof(int) * ndims)] into an array of [MAX_DIMS]. *)
Definition copy_dims (old : list (option Z)) (ds : list Z) (nd : Z) : res (list (option Z)) :=
  lcopy old 0 (Some <$> ds) 0 nd.

(** [if (entry->data) { pool->current_memory_usage -= entry->data_size; pfree(entry->data); }] *)
Definition release_old (p : WeightPool) (old : option WeightEntry) : res WeightPool :=
  match old ≫= data with
  | Some l => pool_pfree (set_usage p (u64 (current_memory_usage p - from_option data_size 0 old))) l
  | None => Ok p
  end.

(** [insert_weight] returns [true] or leaves through an error; the caller's
    current context [cur] is restored. *)
Definition insert_weight (p : WeightPool) (cur : Z) (nm : string) (src : buf float4) (size nd : Z)
    (ds : list Z) (elmtype : Z) : res (WeightPool * bool) :=
  if POOL_SIZE <? u64 (current_memory_usage p + size) then Ereport pool_limit_msg
  else
    let cxt := pool_context p in
    '(t, e, found) ← ht_search false (entries p) nm HASH_ENTER;
    match e with
    | None => Stuck NullDeref
    | Some e =>
        let p := set_entries p t in
        old ← (if found : bool
               then match ht_entry t e with Some w => Ok (Some w) | None => Stuck Uninitialised end
               else Ok None);
        p ← release_old p old;
        '(p, l) ← pool_palloc p cxt size;
        let dst := replicate (Z.to_nat (size / 4)) None in
        b ← lcopy dst 0 src 0 (size / 4);
        let p := set_block p l b in
        ds ← copy_dims (from_option dims (replicate 4 None) old) ds nd;
        let p := set_entries p (ht_store (entries p) e (ht_key nm) (mkWeightEntry (Some l) size nd ds elmtype)) in
        Ok (set_usage p (u64 (current_memory_usage p + size)), true)
    end.

Definition pool_null_msg : string := "[get_weight] pool is NULL".

(** [get_weight] returns a pointer to the entry, or NULL, and the current memory
    context, which stays the pool's own when the name is not found. *)
Definition get_weight (pool : option WeightPool) (cur : Z) (nm : string) : res (option loc * Z) :=
  match pool with
  | None => Ereport pool_null_msg
  | Some p =>
      '(_, e, found) ← ht_search false (entries p) nm HASH_FIND;
      if found : bool then Ok (e, cur) else Ok (None, pool_context p)
  end.

(** Reading the fields and the data behind a returned pointer. *)
Definition entry_of (p : WeightPool) (e : loc) : res WeightEntry :=
  match ht_entry (entries p) e with Some w => Ok w | None => Stuck Uninitialised end.
Definition entry_data (p : WeightPool) (w : WeightEntry) : res (buf float4) :=
  match data w with
  | None => Stuck NullDeref
  | Some l => match blocks p !! l with Some b => Ok b | None => Stuck UseAfterFree end
  end.
Definition entry_dim (w : WeightEntry) (i : Z) : res Z := bget (dims w) i.

(** [MemoryContextDelete] releases every chunk of the context. *)
Definition MemoryContextDelete (cxt : Z) (p : WeightPool) : WeightPool :=
  let live := filter (λ '(_, c), c ≠ cxt) (chunks p) in
  mkWeightPool (self p) (entries p) (pool_context p) (current_memory_usage p) (weight_cache p)
    live (filter (λ '(l, _), is_Some (live !! l)) (blocks p)) (next_chunk p).

Definition free_entry (e : loc) (p : WeightPool) : res WeightPool :=
  w ← entry_of p e;
  match data w with Some l => pool_pfree p l | None => Ok p end.

(** [hash_destroy] deletes the table's own context, which holds no chunk of the
    pool. *)
Definition destroy_weight_pool (p : WeightPool) : res WeightPool :=
  es ← ht_seq_all (entries p);
  p ← foldM free_entry es p;
  _ ← (match weight_cache p with Some c => destroy_lru_cache c | None => Ok ∅ end);
  let p := MemoryContextDelete (pool_context p) p in
  pool_pfree p (self p).

(** aqua.c: the notices of [check_weight_pool]. *)
Definition check_weight_pool (pool : option WeightPool) : list string * option Z :=
  match pool with
  | None => (["Weight pool is not initialized"], None)
  | Some p => (["Weight pool is initialized"; "Number of entries: %ld"], Some (ht_num (entries p)))
  end.
End pool.

(** ** The map a pool stands for *)

Record weight := mkWeight {
  w_data : buf float4;
  w_size : Z;
  w_dims : list (option Z);
  w_type : Z
}.

Section pool_spec.
  Context `{HashTableLaws WeightEntry}.
  Implicit Types p : WeightPool.

Definition weight_of p (e : loc) : option weight :=
  w ← ht_entry (entries p) e; l ← data w; b ← blocks p !! l;
  Some (mkWeight b (data_size w) (take (Z.to_nat (ndims w)) (dims w)) (element_type w)).

Definition weights p : gmap string weight := omap (weight_of p) (ht_map (entries p)).

(** Bytes in all the blocks. *)
Definition total (m : gmap string weight) : Z := map_fold (λ _ w n, w_size w + n) 0 m.

Lemma total_insert m k w : m !! k = None → total (<[k := w]> m) = w_size w + total m.
Proof. intros. unfold total. rewrite map_fold_insert_L; [done|intros; lia|done]. Qed.
Lemma total_delete m k w : m !! k = Some w → total m = w_size w + total (delete k m).
Proof. intros. rewrite <-(total_insert _ k) by apply lookup_delete_eq. by rewrite insert_delete_id. Qed.

(** An entry whose block is allocated, of the recorded size and not the pool. *)
Definition entry_ok p (e : loc) : Prop :=
  ∃ w l b, ht_entry (entries p) e = Some w ∧ data w = Some l ∧ blocks p !! l = Some b
    ∧ data_size w = 4 * zlen b ∧ 0 <= data_size w <= POOL_SIZE ∧ zlen (dims w) = MAX_DIMS
    ∧ chunks p !! l = Some (pool_context p) ∧ l ≠ self p.

Definition same_block p (e1 e2 : loc) : Prop :=
  ∃ l, (ht_entry (entries p) e1 ≫= data) = Some l ∧ (ht_entry (entries p) e2 ≫= data) = Some l.

(** The invariant, but for the entries of the keys in [gap]. *)
Record pool_inv (gap : gset string) p : Prop := {
  p_table : ht_ok (entries p);
  p_entries : ∀ k e, ht_map (entries p) !! k = Some e → k ∉ gap → entry_ok p e;
  p_inj : ∀ k1 k2 e1 e2, ht_map (entries p) !! k1 = Some e1 → ht_map (entries p) !! k2 = Some e2 →
    k1 ∉ gap → k2 ∉ gap → same_block p e1 e2 → e1 = e2;
  p_self : chunks p !! self p = Some (pool_context p);
  p_fresh : ∀ l c, chunks p !! l = Some c → (l < next_chunk p)%positive;
  p_usage : current_memory_usage p
            = LRU_CACHE_SIZE + total (filter (λ '(k, _), k ∉ gap) (weights p));
  p_limit : LRU_CACHE_SIZE <= current_memory_usage p <= POOL_SIZE;
  p_cache : ∃ c ents, weight_cache p = Some c ∧ lru_rep c ents
}.
Definition pool_ok : WeightPool → Prop := pool_inv ∅.

Lemma create_weight_pool_ok cxt :
  ∃ p, create_weight_pool cxt = Ok p ∧ pool_ok p ∧ weights p = ∅ ∧ pool_context p = cxt
       ∧ ht_num (entries p) = 0 ∧ current_memory_usage p = LRU_CACHE_SIZE.
Proof.
  destruct ht_create_ok as (t & Ht & Hok & Hm). unfold create_weight_pool. rewrite Ht.
  cbn [mbind res_bind]. eexists. split; [done|].
  match goal with |- pool_ok ?p ∧ _ => assert (weights p = ∅) as Hw end.
  { unfold weights. simpl. rewrite Hm. apply omap_empty. }
  split; [|split_and!; try done; simpl; by rewrite ht_num_ok, Hm, map_size_empty].
  split; simpl; rewrite ?Hm; try done.
  - intros l c Hl. apply lookup_singleton_Some in Hl as [<- _]. lia.
  - rewrite Hw, map_filter_empty. unfold total. rewrite map_fold_empty. lia.
  - exists (create_lru_cache 32 cxt), []. split; [done|]. by apply lru_create_ok.
Qed.

Lemma weights_lookup p k :
  pool_ok p → weights p !! k = (ht_map (entries p) !! k ≫= weight_of p).
Proof. intros _. unfold weights. by rewrite lookup_omap. Qed.

Lemma weight_of_ok p e : entry_ok p e → is_Some (weight_of p e).
Proof.
  intros (w & l & b & Hw & Hl & Hb & _). unfold weight_of. rewrite Hw. simpl. rewrite Hl. simpl. rewrite Hb. done.
Qed.

(** ** Lookup *)
Lemma get_weight_spec p cur nm :
  pool_ok p →
  get_weight (Some p) cur nm
  = Ok (match ht_map (entries p) !! ht_key nm with Some e => (Some e, cur) | None => (None, pool_context p) end).
Proof.
  intros Hok. unfold get_weight. rewrite ht_find_ok by apply Hok. cbn [mbind res_bind].
  by destruct (ht_map (entries p) !! ht_key nm).
Qed.

(** ** Insertion *)

(** Two pools that agree on every entry but the one of [k]. *)
Definition agree_off (k : string) p p' : Prop :=
  (∀ k', k' ≠ k → ht_map (entries p') !! k' = ht_map (entries p) !! k')
  ∧ ∀ k' e', k' ≠ k → ht_map (entries p) !! k' = Some e' →
      ht_entry (entries p') e' = ht_entry (entries p) e'
      ∧ weight_of p' e' = weight_of p e' ∧ (entry_ok p e' → entry_ok p' e').

Lemma agree_off_weights k p p' :
  agree_off k p p' → filter (λ '(k', _), k' ∉ ({[k]} : gset string)) (weights p') = delete k (weights p).
Proof.
  intros [Hm He]. apply map_eq. intros k'. destruct (decide (k' = k)) as [->|Hne].
  - rewrite lookup_delete_eq. apply map_lookup_filter_None. right. set_solver.
  - rewrite lookup_delete_ne, map_lookup_filter by done. unfold weights. rewrite !lookup_omap, Hm by done.
    destruct (ht_map (entries p) !! k') as [e'|] eqn:Hk'; simpl; [|done].
    destruct (He k' e' Hne Hk') as (_ & -> & _). destruct (weight_of p e') as [w|]; simpl; [|done].
    rewrite option_guard_True by set_solver. done.
Qed.

Lemma agree_off_inv k p p' :
  pool_ok p → agree_off k p p' → ht_ok (entries p') →
  self p' = self p → chunks p' !! self p' = Some (pool_context p') → weight_cache p' = weight_cache p →
  (∀ l c, chunks p' !! l = Some c → (l < next_chunk p')%positive) →
  current_memory_usage p' = LRU_CACHE_SIZE + total (delete k (weights p)) →
  LRU_CACHE_SIZE <= current_memory_usage p' <= POOL_SIZE →
  pool_inv {[k]} p'.
Proof.
  intros Hok Hag Ht Hs Hself Hc Hf Hu Hl. pose proof Hag as [Hm He]. split; try done.
  - intros k' e' Hk' Hne. assert (k' ≠ k) by set_solver. rewrite Hm in Hk' by done.
    apply (He k' e'); [done..|]. apply (p_entries _ _ Hok k' e'); [done|set_solver].
  - intros k1 k2 e1 e2 Hk1 Hk2 Hn1 Hn2 (l & Hl1 & Hl2). rewrite Hm in Hk1, Hk2 by set_solver.
    destruct (He k1 e1 ltac:(set_solver) Hk1) as (Eq1 & _). destruct (He k2 e2 ltac:(set_solver) Hk2) as (Eq2 & _).
    apply (p_inj _ _ Hok k1 k2); [done..|set_solver|set_solver|]. exists l. by rewrite <-Eq1, <-Eq2.
  - by rewrite (agree_off_weights k p p' Hag).
  - rewrite Hc. apply Hok.
Qed.

Lemma total_nonneg p : pool_ok p → ∀ m, m ⊆ weights p → 0 <= total m.
Proof.
  intros Hok m. induction m as [|k w m Hk IH] using map_ind; intros Hsub.
  { unfold total. rewrite map_fold_empty. lia. }
  rewrite total_insert by done.
  assert (m ⊆ weights p) as Hm by (etrans; [by apply insert_subseteq|done]).
  specialize (IH Hm). assert (weights p !! k = Some w) as Hw by (eapply (lookup_weaken (<[k:=w]> m)); [apply lookup_insert_eq|done]).
  rewrite weights_lookup in Hw by done. destruct (ht_map (entries p) !! k) as [e|] eqn:He; [|done]. simpl in Hw.
  destruct (p_entries _ _ Hok k e He) as (w' & l & b & Hw' & Hl & Hb & Hsz & Hr & _); [set_solver|].
  unfold weight_of in Hw. rewrite Hw' in Hw. simpl in Hw. rewrite Hl in Hw. simpl in Hw. rewrite Hb in Hw.
  simplify_eq/=. lia.
Qed.

(** A new entry in the table, its old block released if it had one. *)
Lemma enter_release p nm :
  pool_ok p → ht_num (entries p) < 2147483647 →
  let k := ht_key nm in
  ∃ t e old p',
    ht_search false (entries p) nm HASH_ENTER
    = Ok (t, Some e, bool_decide (is_Some (ht_map (entries p) !! k)))
    ∧ (if bool_decide (is_Some (ht_map (entries p) !! k))
       then match ht_entry t e with Some w => Ok (Some w) | None => Stuck Uninitialised end
       else Ok None) = Ok old
    ∧ release_old (set_entries p t) old = Ok p'
    ∧ pool_inv {[k]} p' ∧ ht_map (entries p') !! k = Some e
    ∧ filter (λ '(k', _), k' ∉ ({[k]} : gset string)) (weights p') = delete k (weights p)
    ∧ zlen (from_option dims (replicate 4 None) old) = MAX_DIMS
    ∧ pool_context p' = pool_context p ∧ current_memory_usage p' <= current_memory_usage p.
Proof.
  intros Hok Hn k. pose proof (p_table _ _ Hok) as Htab.
  destruct (ht_enter_ok false (entries p) nm Htab Hn) as (t & e & Hs & Ht & Hm & He0 & Hent).
  fold k in Hm, He0, Hs. pose proof (p_limit _ _ Hok) as Hlim. pose proof (p_usage _ _ Hok) as Hus.
  rewrite (map_filter_id _ (weights p)) in Hus by set_solver.
  assert (∀ k', k' ≠ k → ht_map t !! k' = ht_map (entries p) !! k') as Hoff.
  { intros k' Hne. by rewrite Hm, lookup_insert_ne by done. }
  destruct (ht_map (entries p) !! k) as [e0|] eqn:Hk.
  - assert (e0 = e) as -> by (by apply He0).
    destruct (p_entries _ _ Hok k e Hk) as (w & l & b & Hw & Hl & Hb & Hsz & Hr & Hd & Hc & Hls); [set_solver|].
    rewrite bool_decide_true in * by done.
    exists t, e, (Some w). rewrite (Hent k e), Hw by done. unfold release_old. simpl. rewrite Hl. unfold pool_pfree. simpl. rewrite Hc.
    assert (weights p !! k = Some (mkWeight b (data_size w) (take (Z.to_nat (ndims w)) (dims w)) (element_type w))) as Hwk.
    { rewrite weights_lookup, Hk by done. simpl. unfold weight_of. rewrite Hw. simpl. rewrite Hl. simpl. by rewrite Hb. }
    pose proof (total_delete _ _ _ Hwk) as Htot. simpl in Htot.
    pose proof (total_nonneg p Hok (delete k (weights p)) ltac:(apply delete_subseteq)).
    set (p' := mkWeightPool _ _ _ _ _ _ _ _).
    assert (agree_off k p p') as Hag.
    { split; [done|]. intros k' e' Hne Hk'. simpl. rewrite (Hent k' e') by done. split; [done|].
      assert (∀ w' l', ht_entry (entries p) e' = Some w' → data w' = Some l' → l' ≠ l) as Hdiff.
      { intros w' l' Hw' Hl' ->. apply Hne. apply (ht_inj (entries p) k' k e'); [done..|].
        rewrite (p_inj _ _ Hok k' k e' e); [done..|set_solver|set_solver|].
        exists l. by rewrite Hw, Hw'. }
      split.
      - unfold weight_of. simpl. rewrite (Hent k' e') by done. destruct (ht_entry (entries p) e') as [w'|] eqn:Hw'; [|done].
        simpl. destruct (data w') as [l'|] eqn:Hl'; [|done]. simpl. rewrite lookup_delete_ne; [done|].
        intros ->. by eapply (Hdiff w' l').
      - intros (w' & l' & b' & Hw' & Hl' & Hrest). exists w', l', b'. simpl.
        assert (l ≠ l') by (intros ->; by eapply (Hdiff w' l')).
        rewrite (Hent k' e'), !lookup_delete_ne by done. tauto. }
    exists p'. split; [exact Hs|]. do 2 (split; [done|]).
    assert (u64 (current_memory_usage p - data_size w) = LRU_CACHE_SIZE + total (delete k (weights p))) as Hu'.
    { unfold u64. rewrite Z.mod_small; [lia|]. unfold LRU_CACHE_SIZE, POOL_SIZE in *. lia. }
    split_and!; try done.
    + eapply (agree_off_inv k p p'); try done.
      * simpl. rewrite lookup_delete_ne by done. apply Hok.
      * intros l' c'. simpl. intros [_ Hl']%lookup_delete_Some. by eapply (p_fresh _ _ Hok).
      * simpl. rewrite Hu'. lia.
    + simpl. rewrite Hm. apply lookup_insert_eq.
    + by apply agree_off_weights.
    + simpl. rewrite Hu'. lia.
  - rewrite bool_decide_false in * by (by intros [??]).
    assert (agree_off k p (set_entries p t)) as Hag.
    { split; [done|]. intros k' e' Hne Hk'. simpl. rewrite (Hent k' e') by done. split; [done|].
      split; [unfold weight_of; simpl; by rewrite (Hent k' e')|].
      intros (w' & l' & b' & Hw' & Hrest). exists w', l', b'. simpl. by rewrite (Hent k' e'). }
    assert (weights p !! k = None) as Hwk by (by rewrite weights_lookup, Hk).
    exists t, e, None, (set_entries p t). split; [exact Hs|]. do 2 (split; [done|]). split_and!; try done.
    + eapply (agree_off_inv k p); try done; try apply Hok. simpl. by rewrite delete_id.
    + simpl. rewrite Hm. apply lookup_insert_eq.
    + by apply agree_off_weights.
Qed.
(** Filling the entry of [k] with a new block. *)
Section fill_entry.
  Context p (nm : string) (e : loc) (b : buf float4) (size nd ty : Z) (ds : list (option Z)).
Let k := ht_key nm.
  Context (Hok : pool_inv {[k]} p) (He : ht_map (entries p) !! k = Some e).
  Context (Hsize : size = 4 * zlen b) (Hlim : current_memory_usage p + size <= POOL_SIZE).
  Context (Hds : zlen ds = MAX_DIMS).
Let l := next_chunk p.
Let w := mkWeightEntry (Some l) size nd ds ty.
Let p' := mkWeightPool (self p) (ht_store (entries p) e k w) (pool_context p)
            (current_memory_usage p + size) (weight_cache p)
            (<[l := pool_context p]> (chunks p)) (<[l := b]> (blocks p)) (l + 1)%positive.

Lemma filled_map : ht_ok (entries p') ∧ ht_map (entries p') = ht_map (entries p)
  ∧ ht_entry (entries p') e = Some w ∧ ∀ e', e' ≠ e → ht_entry (entries p') e' = ht_entry (entries p) e'.
Proof. apply (ht_store_ok (entries p) nm e w); [apply Hok|done]. Qed.

Lemma filled_other k' e' :
  ht_map (entries p) !! k' = Some e' → k' ≠ k →
  ht_entry (entries p') e' = ht_entry (entries p) e' ∧ weight_of p' e' = weight_of p e' ∧ entry_ok p' e'
  ∧ (∀ w' l', ht_entry (entries p) e' = Some w' → data w' = Some l' → l' ≠ l).
Proof.
  intros Hk' Hne. destruct filled_map as (_ & _ & _ & Hother).
  assert (e' ≠ e) as Hee by (intros ->; apply Hne; by apply (ht_inj (entries p) k' k e); [apply Hok|..]).
  destruct (p_entries _ _ Hok k' e' Hk') as (w' & l' & b' & Hw' & Hl' & Hb' & Hsz' & Hr' & Hd' & Hc' & Hs'); [set_solver|].
  assert (l' ≠ l) as Hll by (intros ->; pose proof (p_fresh _ _ Hok _ _ Hc'); unfold l in *; lia).
  rewrite Hother by done. split; [done|]. split_and!.
  - unfold weight_of. rewrite Hother, Hw' by done. simpl. rewrite Hl'. simpl. by rewrite lookup_insert_ne.
  - exists w', l', b'. rewrite Hother by done. simpl. rewrite !lookup_insert_ne by done. done.
  - intros w'' l''. congruence.
Qed.

Lemma filled_weights :
  weights p' = <[k := mkWeight b size (take (Z.to_nat nd) ds) ty]>
                 (filter (λ '(k', _), k' ∉ ({[k]} : gset string)) (weights p)).
Proof.
  destruct filled_map as (_ & Hm & Hw & _). apply map_eq. intros k'.
  unfold weights at 1. rewrite lookup_omap, Hm. destruct (decide (k' = k)) as [->|Hne].
  - rewrite lookup_insert_eq, He. simpl. unfold weight_of. rewrite Hw. simpl. by rewrite lookup_insert_eq.
  - rewrite lookup_insert_ne, map_lookup_filter by done. unfold weights. rewrite lookup_omap.
    destruct (ht_map (entries p) !! k') as [e'|] eqn:Hk'; simpl; [|done].
    destruct (filled_other k' e' Hk' Hne) as (_ & -> & _). destruct (weight_of p e'); simpl; [|done].
    rewrite option_guard_True by set_solver. done.
Qed.

Lemma filled_ok : pool_ok p'.
Proof.
  destruct filled_map as (Ht & Hm & Hw & Hother). pose proof (zlen_nonneg b) as Hb0.
  pose proof (p_limit _ _ Hok) as Hlim0.
  assert (self p ≠ l) as Hsl by (intros Hs; pose proof (p_fresh _ _ Hok _ _ (p_self _ _ Hok)); unfold l in *; lia).
  split; try done.
  - intros k' e' Hk' _. rewrite Hm in Hk'. destruct (decide (k' = k)) as [->|Hne]; [|by apply (filled_other k')].
    assert (e' = e) as -> by congruence. exists w, l, b. rewrite Hw. simpl. rewrite !lookup_insert_eq.
    split_and!; try done; unfold LRU_CACHE_SIZE, POOL_SIZE in *; lia.
  - intros k1 k2 e1 e2 Hk1 Hk2 _ _ (l0 & Hl1 & Hl2). rewrite Hm in Hk1, Hk2.
    destruct (decide (k1 = k)) as [->|Hn1], (decide (k2 = k)) as [->|Hn2]; [congruence|..].
    + destruct (filled_other k2 e2 Hk2 Hn2) as (Heq & _ & _ & Hd). rewrite Heq in Hl2.
      assert (e1 = e) as -> by congruence. rewrite Hw in Hl1. simplify_eq/=.
      destruct (ht_entry (entries p) e2) as [w2|]; [|done]. exfalso. by eapply Hd.
    + destruct (filled_other k1 e1 Hk1 Hn1) as (Heq & _ & _ & Hd). rewrite Heq in Hl1.
      assert (e2 = e) as -> by congruence. rewrite Hw in Hl2. simplify_eq/=.
      destruct (ht_entry (entries p) e1) as [w1|]; [|done]. exfalso. by eapply Hd.
    + apply (p_inj _ _ Hok k1 k2); [done..|set_solver|set_solver|]. exists l0.
      destruct (filled_other k1 e1 Hk1 Hn1) as (Eq1 & _), (filled_other k2 e2 Hk2 Hn2) as (Eq2 & _).
      by rewrite <-Eq1, <-Eq2.
  - simpl. rewrite lookup_insert_ne by done. apply Hok.
  - intros l' c'. simpl. intros [[<- _]|[_ Hl']]%lookup_insert_Some; [lia|].
    pose proof (p_fresh _ _ Hok _ _ Hl'). unfold l. lia.
  - rewrite map_filter_id by set_solver. rewrite filled_weights, total_insert.
    + simpl. rewrite (p_usage _ _ Hok). lia.
    + apply map_lookup_filter_None. right. set_solver.
  - simpl. lia.
  - apply Hok.
Qed.
End fill_entry.

Lemma lcopy_prefix {A} (dst src : list A) n :
  0 <= n <= zlen src → n <= zlen dst →
  lcopy dst 0 src 0 n = Ok (take (Z.to_nat n) src ++ drop (Z.to_nat n) dst).
Proof. intros. unfold lcopy. rewrite require_true by lia. done. Qed.

(** [insert_weight] on a pool with room for the new block. *)
Lemma insert_weight_spec p cur nm src n nd ds ty :
  pool_ok p → ht_num (entries p) < 2147483647 →
  0 <= n <= zlen src → current_memory_usage p + 4 * n <= POOL_SIZE →
  0 <= nd <= MAX_DIMS → nd <= zlen ds →
  ∃ p', insert_weight p cur nm src (4 * n) nd ds ty = Ok (p', true)
    ∧ pool_ok p' ∧ pool_context p' = pool_context p
    ∧ weights p' = <[ht_key nm := mkWeight (take (Z.to_nat n) src) (4 * n)
                       (Some <$> take (Z.to_nat nd) ds) ty]> (weights p).
Proof.
  intros Hok Hnum Hn Hroom Hnd Hds. unfold insert_weight.
  pose proof (p_limit _ _ Hok) as Hlim.
  assert (u64 (current_memory_usage p + 4 * n) = current_memory_usage p + 4 * n) as ->.
  { unfold u64. apply Z.mod_small. unfold LRU_CACHE_SIZE, POOL_SIZE in *. lia. }
  replace (POOL_SIZE <? _) with false by lia.
  destruct (enter_release p nm Hok Hnum) as (t & e & old & p1 & -> & Hold & Hrel & Hinv & He & Hw1 & Hd & Hc & Hu).
  cbn [mbind res_bind]. rewrite Hold. cbn [mbind res_bind]. rewrite Hrel. cbn [mbind res_bind].
  unfold pool_palloc. rewrite check_true by (unfold LRU_CACHE_SIZE, POOL_SIZE, MaxAllocSize in *; lia).
  cbn [mbind res_bind]. replace (4 * n / 4) with n by (rewrite Z.mul_comm, Z.div_mul; lia).
  rewrite lcopy_prefix by (rewrite ?zlen_replicate; lia). cbn [mbind res_bind].
  rewrite drop_ge, app_nil_r by (rewrite length_replicate; lia).
  assert (zlen (Some <$> ds) = zlen ds) as Hzd by (unfold zlen; by rewrite length_fmap).
  unfold copy_dims. rewrite lcopy_prefix by (rewrite ?Hzd, ?Hd; lia). cbn [mbind res_bind].
  set (b := take (Z.to_nat n) src). set (ds' := take _ _ ++ drop _ _).
  assert (zlen b = n) as Hb by (unfold b, zlen in *; rewrite length_take; lia).
  assert (zlen ds' = MAX_DIMS) as Hds'.
  { unfold ds', zlen, MAX_DIMS in *. rewrite length_app, length_take, length_drop, length_fmap. lia. }
  assert (take (Z.to_nat nd) ds' = Some <$> take (Z.to_nat nd) ds) as Htk.
  { unfold ds'. rewrite fmap_take, take_app_le by (rewrite length_take, length_fmap; unfold zlen in *; lia).
    by rewrite take_take, Nat.min_id. }
  pose proof (p_limit _ _ Hinv) as Hlim1.
  assert (u64 (current_memory_usage p1 + 4 * n) = current_memory_usage p1 + 4 * n) as Hu64.
  { unfold u64. apply Z.mod_small. unfold LRU_CACHE_SIZE, POOL_SIZE in *. lia. }
  eexists. split; [done|]. unfold set_usage, set_entries, set_block. simpl. rewrite Hu64, <-Hc, insert_insert_eq.
  split; [apply (filled_ok p1 nm e b); try done; lia|]. split; [done|].
  rewrite (filled_weights p1 nm e b (4 * n) nd ty ds'), Hw1, Htk by (done || lia).
  apply insert_delete_eq.
Qed.

(** C9: On a well-formed pool with room, [insert_weight] succeeds, keeps the pool
    well formed, and [get_weight] under the same name then returns an entry with
    the element type, the dimensions and exactly the bytes that were passed; the
    weights under all other names (that differ in their first 63 bytes) are
    unchanged and the current memory context is restored. *)
Theorem insert_then_get p cur nm src n nd ds ty :
  pool_ok p → ht_num (entries p) < 2147483647 →
  0 <= n <= zlen src → current_memory_usage p + 4 * n <= POOL_SIZE →
  0 <= nd <= MAX_DIMS → nd <= zlen ds →
  ∃ p' e, insert_weight p cur nm src (4 * n) nd ds ty = Ok (p', true)
    ∧ pool_ok p'
    ∧ get_weight (Some p') cur nm = Ok (Some e, cur)
    ∧ weight_of p' e = Some (mkWeight (take (Z.to_nat n) src) (4 * n) (Some <$> take (Z.to_nat nd) ds) ty)
    ∧ ∀ nm', ht_key nm' ≠ ht_key nm → weights p' !! ht_key nm' = weights p !! ht_key nm'.
Proof.
  intros Hok Hnum Hn Hroom Hnd Hds.
  destruct (insert_weight_spec p cur nm src n nd ds ty) as (p' & Hins & Hok' & _ & Hw); [done..|].
  assert (weights p' !! ht_key nm = Some (mkWeight (take (Z.to_nat n) src) (4 * n)
            (Some <$> take (Z.to_nat nd) ds) ty)) as Hk by (rewrite Hw; apply lookup_insert_eq).
  rewrite weights_lookup in Hk by done.
  destruct (ht_map (entries p') !! ht_key nm) as [e|] eqn:He; [|done].
  exists p', e. split; [done|]. split; [done|]. rewrite get_weight_spec, He by done.
  split; [done|]. split; [done|]. intros nm' Hne. rewrite Hw. by rewrite lookup_insert_ne.
Qed.

(** [insert_weight] reports the memory limit exactly when the block does not
    fit into [POOL_SIZE] next to what is already used; the test counts the bytes
    of an entry of the same name that the insertion would release. *)
Theorem insert_weight_limit p cur nm src n nd ds ty :
  pool_ok p → ht_num (entries p) < 2147483647 →
  0 <= n <= zlen src → n <= MaxArraySize → 0 <= nd <= MAX_DIMS → nd <= zlen ds →
  insert_weight p cur nm src (4 * n) nd ds ty = Ereport pool_limit_msg
  ↔ POOL_SIZE < LRU_CACHE_SIZE + total (weights p) + 4 * n.
Proof.
  intros Hok Hnum Hn Hbig Hnd Hds. pose proof (p_limit _ _ Hok) as Hlim.
  pose proof (p_usage _ _ Hok) as Hu. rewrite map_filter_id in Hu by set_solver. rewrite <-Hu.
  split; intros Hl.
  - destruct (decide (current_memory_usage p + 4 * n <= POOL_SIZE)) as [Hroom|]; [|lia].
    destruct (insert_weight_spec p cur nm src n nd ds ty) as (p' & Hins & _); [done..|]. congruence.
  - unfold insert_weight, u64. unfold LRU_CACHE_SIZE, POOL_SIZE in *.
    change MaxArraySize with 134217727 in *. rewrite Z.mod_small by lia.
    by replace (1024 * 1024 * 1024 <? _) with true by lia.
Qed.

(** ** Every pool the extension can build *)

Inductive reachable (cxt : Z) : WeightPool → Prop :=
  | reach_create p : create_weight_pool cxt = Ok p → reachable cxt p
  | reach_insert p p' cur nm src n nd ds ty :
      reachable cxt p → ht_num (entries p) < 2147483647 → 0 <= n <= zlen src →
      0 <= n <= MaxArraySize → 0 <= nd <= MAX_DIMS → nd <= zlen ds →
      insert_weight p cur nm src (4 * n) nd ds ty = Ok (p', true) → reachable cxt p'.

Lemma reachable_ok cxt p : reachable cxt p → pool_ok p ∧ pool_context p = cxt.
Proof.
  induction 1 as [p Hp|p p' cur nm src n nd ds ty _ [IH Hcx] Hnum Hn Hbig Hnd Hds Hins].
  - destruct (create_weight_pool_ok cxt) as (p' & Hp' & Hok & _ & Hc & _). by assert (p = p') as -> by congruence.
  - destruct (decide (current_memory_usage p + 4 * n <= POOL_SIZE)) as [Hroom|Hover].
    + destruct (insert_weight_spec p cur nm src n nd ds ty) as (p1 & Hins1 & Hok1 & Hc1 & _); [done..|].
      assert (p' = p1) as -> by congruence. by rewrite Hc1.
    + exfalso. pose proof (p_limit _ _ IH) as Hlim. revert Hins.
      unfold insert_weight, u64. unfold LRU_CACHE_SIZE, POOL_SIZE in *.
      change MaxArraySize with 134217727 in *. rewrite Z.mod_small by lia.
      by replace (1024 * 1024 * 1024 <? _) with true by lia.
Qed.

Lemma weights_dom p : pool_ok p → dom (weights p) = dom (ht_map (entries p)).
Proof.
  intros Hok. apply set_eq. intros k. rewrite !elem_of_dom, weights_lookup by done.
  destruct (ht_map (entries p) !! k) as [e|] eqn:He; simpl; [|done].
  split; [done|]. intros _. apply weight_of_ok, (p_entries _ _ Hok k e He). set_solver.
Qed.

Lemma ht_num_weights p : pool_ok p → ht_num (entries p) = Z.of_nat (stdpp.base.size (weights p)).
Proof.
  intros Hok. rewrite ht_num_ok by apply Hok. f_equal.
  by rewrite <-!(size_dom (D := gset string)), weights_dom.
Qed.

Lemma usage_weights p : pool_ok p → current_memory_usage p = LRU_CACHE_SIZE + total (weights p).
Proof. intros Hok. rewrite (p_usage _ _ Hok), map_filter_id by set_solver. done. Qed.

(** C22: In every pool built by [create_weight_pool] and successful insertions,
    [current_memory_usage] is the 128 MB set aside for the cache plus the bytes of
    the stored weights and stays within [POOL_SIZE]; every entry owns a block of
    its own of the recorded size, so that no insertion can overwrite or free the
    data of another weight. *)
Theorem pool_memory_accounting cxt p :
  reachable cxt p →
  current_memory_usage p = LRU_CACHE_SIZE + total (weights p)
  ∧ current_memory_usage p <= POOL_SIZE
  ∧ dom (weights p) = dom (ht_map (entries p))
  ∧ ∀ k1 k2 e1 e2, ht_map (entries p) !! k1 = Some e1 → ht_map (entries p) !! k2 = Some e2 →
      entry_ok p e1 ∧ (same_block p e1 e2 → k1 = k2).
Proof.
  intros [Hok _]%reachable_ok. pose proof (p_usage _ _ Hok) as Hu. rewrite map_filter_id in Hu by set_solver.
  split; [done|]. split; [apply (p_limit _ _ Hok)|]. split; [by apply weights_dom|].
  intros k1 k2 e1 e2 H1 H2. split; [apply (p_entries _ _ Hok k1 e1 H1); set_solver|].
  intros Hs. assert (e1 = e2) as -> by (apply (p_inj _ _ Hok k1 k2); done || set_solver).
  by apply (ht_inj (entries p) k1 k2 e2); [apply Hok|..].
Qed.

(** ** Destruction *)
Lemma free_entries_ok es p :
  NoDup es →
  (∀ e, e ∈ es → ∃ w l, ht_entry (entries p) e = Some w ∧ data w = Some l
                   ∧ is_Some (chunks p !! l) ∧ l ≠ self p) →
  (∀ e1 e2, e1 ∈ es → e2 ∈ es → same_block p e1 e2 → e1 = e2) →
  ∃ p', foldM free_entry es p = Ok p' ∧ self p' = self p ∧ pool_context p' = pool_context p
        ∧ weight_cache p' = weight_cache p ∧ chunks p' !! self p = chunks p !! self p.
Proof.
  revert p. induction es as [|e es IH]; intros p Hnd Hes Hinj; [by exists p|].
  apply NoDup_cons in Hnd as [He Hnd].
  destruct (Hes e) as (w & l & Hw & Hl & [c Hc] & Hs); [set_solver|].
  set (p1 := mkWeightPool (self p) (entries p) (pool_context p) (current_memory_usage p) (weight_cache p)
               (delete l (chunks p)) (delete l (blocks p)) (next_chunk p)).
  assert (free_entry e p = Ok p1) as Hfree.
  { unfold free_entry, entry_of. rewrite Hw. simpl. rewrite Hl. unfold pool_pfree. by rewrite Hc. }
  simpl. rewrite Hfree. cbn [mbind res_bind].
  destruct (IH p1) as (p' & Hp' & H1 & H2 & H3 & H4); [done| | |].
  3:{ exists p'. split; [exact Hp'|]. simpl in *. rewrite lookup_delete_ne in H4 by done. done. }
  - intros e' He'. destruct (Hes e') as (w' & l' & Hw' & Hl' & Hc' & Hs'); [set_solver|].
    exists w', l'. simpl. split_and!; try done. rewrite lookup_delete_ne; [done|]. intros ->.
    assert (e = e') as -> by (apply Hinj; [set_solver..|]; exists l'; by rewrite Hw, Hw'). done.
  - intros e1 e2 H1 H2 H3. apply Hinj; [set_solver..|done].
Qed.

(** [destroy_weight_pool] releases the block of every entry and the cache, but
    then runs into undefined behaviour on every pool: it deletes the memory
    context the pool itself is allocated in and passes the pool to [pfree]. *)
Theorem destroy_weight_pool_use_after_free cxt p :
  reachable cxt p → destroy_weight_pool p = Stuck UseAfterFree.
Proof.
  intros [Hok _]%reachable_ok. unfold destroy_weight_pool.
  destruct (ht_seq_ok (entries p)) as (es & -> & Hnd & Hes); [apply Hok|]. cbn [mbind res_bind].
  destruct (free_entries_ok es p Hnd) as (p1 & -> & Hs & Hc & Hw & Hself).
  - intros e [k Hk]%Hes. destruct (p_entries _ _ Hok k e Hk) as (w & l & b & Hw & Hl & _ & _ & _ & _ & Hc & Hs); [set_solver|].
    exists w, l. eauto.
  - intros e1 e2 [k1 H1]%Hes [k2 H2]%Hes. apply (p_inj _ _ Hok k1 k2); done || set_solver.
  - cbn [mbind res_bind]. rewrite Hw. destruct (p_cache _ _ Hok) as (c & ents & -> & Hrep).
    destruct Hrep as (l & Hlru & ->). unfold destroy_lru_cache. rewrite (nodes_size c l Hlru), (l_head c l Hlru).
    destruct (free_nodes_ok c (S (length l)) None l) as (c' & -> & _); [apply Hlru..|lia|].
    cbn [mbind res_bind]. unfold pool_pfree, MemoryContextDelete. simpl.
    rewrite Hs, Hc. rewrite map_lookup_filter, Hself, (p_self _ _ Hok). simpl.
    by rewrite option_guard_False by naive_solver.
Qed.

(** [insert_weight] copies [ndims] dimensions into the four of a
    [WeightEntry]: an array of five or six dimensions writes past the field. *)
Theorem insert_weight_dims_overflow p cur nm src n nd ds ty :
  pool_ok p → ht_num (entries p) < 2147483647 →
  0 <= n <= zlen src → current_memory_usage p + 4 * n <= POOL_SIZE →
  MAX_DIMS < nd →
  insert_weight p cur nm src (4 * n) nd ds ty = Stuck OutOfBounds.
Proof.
  intros Hok Hnum Hn Hroom Hnd. unfold insert_weight. pose proof (p_limit _ _ Hok) as Hlim.
  assert (u64 (current_memory_usage p + 4 * n) = current_memory_usage p + 4 * n) as ->.
  { unfold u64. apply Z.mod_small. unfold LRU_CACHE_SIZE, POOL_SIZE in *. lia. }
  replace (POOL_SIZE <? _) with false by lia.
  destruct (enter_release p nm Hok Hnum) as (t & e & old & p1 & -> & Hold & Hrel & _ & _ & _ & Hd & _ & _).
  cbn [mbind res_bind]. rewrite Hold. cbn [mbind res_bind]. rewrite Hrel. cbn [mbind res_bind].
  unfold pool_palloc. rewrite check_true by (unfold LRU_CACHE_SIZE, POOL_SIZE, MaxAllocSize in *; lia).
  cbn [mbind res_bind]. replace (4 * n / 4) with n by (rewrite Z.mul_comm, Z.div_mul; lia).
  rewrite lcopy_prefix by (rewrite ?zlen_replicate; lia). cbn [mbind res_bind].
  unfold copy_dims, lcopy, require. by replace (_ && _) with false by (rewrite Hd; lia).
Qed.
End pool_spec.

(** ** The table the pool is built on *)

Definition sizeof_WeightEntry : Z := 104.
#[global] Instance weight_table : HashTable WeightEntry := dynahash 512 NAMEDATALEN sizeof_WeightEntry.
#[global] Instance weight_table_laws : HashTableLaws WeightEntry.
Proof. by apply dynahash_laws. Defined.

(** ** Witnesses *)

Lemma ex_pool : ∃ p, create_weight_pool 7 = Ok p ∧ pool_ok p ∧ weights p = ∅
  ∧ ht_num (entries p) = 0 ∧ current_memory_usage p = LRU_CACHE_SIZE.
Proof. destruct (create_weight_pool_ok 7) as (p & ? & ? & ? & _ & ? & ?). eauto 10. Qed.

Definition ex_kernel : buf float4 := (Some ∘ f4_of_Z) <$> [1; -1; 2].

Lemma insert_then_get_witness :
  ∃ p p' e, create_weight_pool 7 = Ok p
    ∧ insert_weight p 3 "conv1_val" ex_kernel (4 * 3) 2 [3; 1] FLOAT4OID = Ok (p', true)
    ∧ get_weight (Some p') 3 "conv1_val" = Ok (Some e, 3)
    ∧ weight_of p' e = Some (mkWeight ex_kernel 12 [Some 3; Some 1] FLOAT4OID).
Proof.
  destruct ex_pool as (p & Hp & Hok & _ & Hn & Hu).
  destruct (insert_then_get p 3 "conv1_val" ex_kernel 3 2 [3; 1] FLOAT4OID) as (p' & e & H1 & _ & H2 & H3 & _);
    [by_eval|rewrite Hn; by_eval|by_eval|rewrite Hu; by_eval|by_eval|by_eval|].
  exists p, p', e. split_and!; by_eval.
Defined.

Lemma insert_weight_limit_witness :
  ∃ p, create_weight_pool 7 = Ok p ∧
    (insert_weight p 3 "w" ex_kernel (4 * 3) 1 [3] FLOAT4OID = Ereport pool_limit_msg
     ↔ POOL_SIZE < LRU_CACHE_SIZE + total (weights p) + 4 * 3).
Proof.
  destruct ex_pool as (p & Hp & Hok & _ & Hn & Hu). exists p. split; [exact Hp|].
  apply (insert_weight_limit p 3 "w" ex_kernel 3 1 [3] FLOAT4OID); [by_eval|rewrite Hn; by_eval|by_eval..].
Defined.

(** A pool in which a weight of 12 bytes has been replaced by one of 8. *)
Lemma ex_filled_pool : ∃ p, reachable 7 p ∧ total (weights p) = 8.
Proof.
  destruct ex_pool as (p & Hp & Hok & Hw & Hn & Hu).
  destruct (insert_weight_spec p 3 "w" ex_kernel 3 1 [3] FLOAT4OID) as (p1 & Hi1 & Hok1 & _ & Hw1);
    [by_eval|rewrite Hn; by_eval|by_eval|rewrite Hu; by_eval|by_eval|by_eval|].
  assert (reachable 7 p1) as Hr1 by
    (refine (reach_insert 7 p p1 3 "w" ex_kernel 3 1 [3] FLOAT4OID _ _ _ _ _ _ Hi1); first [by_eval|by apply reach_create|rewrite Hn; by_eval]).
  rewrite Hw in Hw1. pose proof (usage_weights p1 Hok1) as Hu1. rewrite Hw1 in Hu1.
  assert (ht_num (entries p1) < 2147483647) as Hn1.
  { rewrite (ht_num_ok _ (p_table _ _ Hok1)), <-size_dom, <-weights_dom, Hw1 by done. vm_compute. done. }
  destruct (insert_weight_spec p1 3 "w" ex_kernel 2 1 [2] FLOAT4OID) as (p2 & Hi2 & Hok2 & _ & Hw2);
    [by_eval|by_eval|by_eval|rewrite Hu1; by_eval|by_eval|by_eval|].
  exists p2. split; [refine (reach_insert 7 p1 p2 3 "w" ex_kernel 2 1 [2] FLOAT4OID _ _ _ _ _ _ Hi2); by_eval|]. rewrite Hw2, Hw1. vm_compute. done.
Qed.

Lemma pool_memory_accounting_witness :
  ∃ p, reachable 7 p ∧ total (weights p) = 8 ∧ current_memory_usage p = LRU_CACHE_SIZE + total (weights p).
Proof.
  destruct ex_filled_pool as (p & Hp & Ht). exists p. split; [exact Hp|]. split; [done|].
  by apply (pool_memory_accounting 7 p).
Defined.

Lemma destroy_weight_pool_use_after_free_witness :
  ∃ p, create_weight_pool 7 = Ok p ∧ destroy_weight_pool p = Stuck UseAfterFree.
Proof.
  destruct ex_pool as (p & Hp & _). exists p. split; [exact Hp|].
  apply (destroy_weight_pool_use_after_free 7 p). by apply reach_create.
Defined.

Lemma insert_weight_dims_overflow_witness :
  ∃ p, create_weight_pool 7 = Ok p ∧
    insert_weight p 3 "w" ex_kernel (4 * 3) 5 [3; 1; 1; 1; 1] FLOAT4OID = Stuck OutOfBounds.
Proof.
  destruct ex_pool as (p & Hp & Hok & _ & Hn & Hu). exists p. split; [exact Hp|].
  apply (insert_weight_dims_overflow p 3 "w" ex_kernel 3 5); [by_eval|rewrite Hn; by_eval|by_eval|rewrite Hu; by_eval|by_eval].
Defined.
