(* ===== verification/MatrixOps.v ===== *)
(** * MatrixOps: the matrix functions of matrix_op.c

    The SQL functions [relu], [kfm], [kfm_nt], [mvm], [mat_mul] and [madd].  A
    function that writes into the data of an argument in place ([relu], [madd])
    also returns that argument as it leaves it: an array argument that is not
    toasted is not copied.

    Weights are fetched from the pool by name: [load_weight] is the call of
    [get_weight] with the test for NULL that follows it. *)

From Stdlib Require Import SpecFloat.
From S2P Require Import Prelude Float4 CString PgArray Im2col Sgemm Dynahash HashTable LruCache ModelBuffer.
From stdpp Require Import strings.

Open Scope Z_scope.

Definition cols_msg : string := "The number of matrix columns must equal the number of vector elements".

(** [psprintf("%s_val", name)], [psprintf("%s_bias", name)] *)
Definition val_name (nm : string) : string := nm +:+ "_val".
Definition bias_name (nm : string) : string := nm +:+ "_bias".

Section matrix_ops.
  Context `{Omp} `{Cblas} `{HashTable WeightEntry}.

(** [entry = get_weight(WEIGHT_POOL, nm); if (entry == NULL) elog(ERROR, msg)],
    and the fields behind [entry]. *)
Definition load_weight (pool : option WeightPool) (cur : Z) (nm msg : string)
    : res (WeightEntry * buf float4) :=
  '(e, _) ← get_weight pool cur nm;
  match pool, e with
  | Some p, Some e => w ← entry_of p e; b ← entry_data p w; Ok (w, b)
  | _, _ => Ereport msg
  end.

Definition relu (input_f : farray) : res (farray * farray) :=
  num_channel ← ARR_DIM input_f 0;
  nelems_channel ← ARR_DIM input_f 1;
  let size := i32 (num_channel * nelems_channel) in
  data ← cfor 0 size 1 (λ i data, v ← bget data i; bset data i (fmax f4_zero v)) (arr_data input_f);
  feature_map ← float4construct_md_array data size 2 [num_channel; nelems_channel] [1; 1] (elemtype input_f);
  Ok (feature_map, set_data input_f data).

Definition kfm (kmatrix fmatrix bias_vec : farray) : res farray :=
  out_channel ← ARR_DIM kmatrix 0;
  klen ← ARR_DIM kmatrix 1;
  flen ← ARR_DIM fmatrix 0;
  fklen ← ARR_DIM fmatrix 1;
  let res_rows := out_channel in
  let res_cols := flen in
  let size := i32 (res_rows * res_cols) in
  if negb (klen =? fklen) then Ereport cols_msg
  else
    res_data ← palloc 4 size;
    res_data ← cblas_sgemm 0 true res_rows res_cols klen (arr_data kmatrix) 0 klen
                 (arr_data fmatrix) 0 klen res_data 0 res_cols;
    bd ← ARR_DIM bias_vec 0;
    res_data ← (if bd =? out_channel
                then bias_epilogue true res_data (arr_data bias_vec) out_channel flen
                else Ok res_data);
    float4construct_md_array res_data size 2 [res_rows; res_cols] [1; 1] FLOAT4OID.

Definition kfm_nt (pool : option WeightPool) (cur : Z) (kmatrix_name : string) (fmatrix : farray)
    (acti : bool) : res farray :=
  '(kmatrix_entry, kmatrix_data) ← load_weight pool cur (val_name kmatrix_name) "[kfm_nt] %s_val not found";
  out_channel ← entry_dim kmatrix_entry 0;
  klen ← entry_dim kmatrix_entry 1;
  fklen ← ARR_DIM fmatrix 0;
  flen ← ARR_DIM fmatrix 1;
  let res_rows := out_channel in
  let res_cols := flen in
  let size := i32 (res_rows * res_cols) in
  if negb (klen =? fklen) then Ereport cols_msg
  else
    res_data ← palloc0 f4_zero 4 (out_channel * flen);
    res_data ← cblas_sgemm 0 false res_rows res_cols klen kmatrix_data 0 klen
                 (arr_data fmatrix) 0 flen res_data 0 res_cols;
    '(bias_entry, bias) ← load_weight pool cur (bias_name kmatrix_name) "[kfm_nt] %s_bias not found";
    bd ← entry_dim bias_entry 0;
    res_data ← (if bd =? out_channel then bias_epilogue acti res_data bias out_channel flen else Ok res_data);
    float4construct_md_array res_data size 2 [res_rows; res_cols] [1; 1] FLOAT4OID.

(** The result cells are [Datum]s of eight bytes. *)
Definition mvm (pool : option WeightPool) (cur : Z) (matrix_name : string) (vector : farray) : res farray :=
  match pool with
  | None => Ereport "[mvm] WEIGHT POOL is NULL"
  | Some _ =>
      '(matrix_entry, matrix_data) ← load_weight pool cur (val_name matrix_name) "[mvm] %s_val not found";
      vector_nelems ← ARR_DIM vector 0;
      matrix_rows ← entry_dim matrix_entry 0;
      matrix_cols ← entry_dim matrix_entry 1;
      let res_nelems := matrix_rows in
      res_data ← palloc 8 res_nelems;
      if negb (matrix_cols =? vector_nelems) then Ereport cols_msg
      else
        '(bias_entry, bias) ← load_weight pool cur (bias_name matrix_name) "[mvm] %s_bias not found";
        bd ← entry_dim bias_entry 0;
        let bias_flag := bd =? matrix_rows in
        res_data ← omp_for (seqZ 0 matrix_rows) (λ i res_data,
          sum ← cfor 0 matrix_cols 1 (λ j sum,
            a ← bget matrix_data (i32 (i * matrix_cols + j));
            x ← bget (arr_data vector) j;
            Ok (f4_add sum (f4_mul a x))) f4_zero;
          sum ← (if bias_flag then b ← bget bias i; Ok (f4_add sum b) else Ok sum);
          bset res_data i sum) res_data;
        construct_array (Some f4_zero) res_data res_nelems FLOAT4OID
  end.

Definition mat_mul (pool : option WeightPool) (cur : Z) (array_input_f : farray) (kmatrix_name : string)
    : res farray :=
  f_height ← ARR_DIM array_input_f 0;
  f_width ← ARR_DIM array_input_f 1;
  '(kmatrix_entry, k_matrix) ← load_weight pool cur (val_name kmatrix_name) "[mat_mul] %s_val not found";
  k_height ← entry_dim kmatrix_entry 0;
  k_width ← entry_dim kmatrix_entry 1;
  if negb (f_width =? k_height) then Ereport "[mat_mul] The number of f_width does not match k_height!"
  else
    let res_rows := f_height in
    let res_cols := k_width in
    let res_size := i32 (res_rows * res_cols) in
    res_data ← palloc 4 res_size;
    res_data ← cblas_sgemm 0 false res_rows res_cols f_width (arr_data array_input_f) 0 f_width
                 k_matrix 0 k_width res_data 0 res_cols;
    float4construct_md_array res_data res_size 2 [res_rows; res_cols] [1; 1] FLOAT4OID.

Definition madd (matrix1 matrix2 : farray) : res (farray * farray) :=
  res_rows ← ARR_DIM matrix1 0;
  res_cols ← ARR_DIM matrix1 1;
  let size := i32 (res_rows * res_cols) in
  data ← omp_for (seqZ 0 size) (λ i data,
    a ← bget data i; b ← bget (arr_data matrix2) i; bset data i (f4_add a b)) (arr_data matrix1);
  res ← float4construct_md_array data size 2 [res_rows; res_cols] [1; 1] FLOAT4OID;
  Ok (res, set_data matrix1 data).
End matrix_ops.

(** ** Weights in the pool *)

Section weights.
  Context `{HashTableLaws WeightEntry}.

(** The pool holds, under [nm], a weight whose first dimensions are [ds] and
    whose data start with the [m] values of [f]. *)
Definition has_weight (p : WeightPool) (nm : string) (ds : list Z) (m : Z) (f : Z → float4) : Prop :=
  ∃ w, weights p !! ht_key nm = Some w ∧ take (length ds) (w_dims w) = Some <$> ds
       ∧ reads (w_data w) 0 m f.

Lemma load_weight_ok p cur nm msg ds m f :
  pool_ok p → has_weight p nm ds m f →
  ∃ ent b, load_weight (Some p) cur nm msg = Ok (ent, b) ∧ reads b 0 m f
    ∧ ∀ i d, 0 <= i → ds !! Z.to_nat i = Some d → entry_dim ent i = Ok d.
Proof.
  intros Hok (w & Hw & Hds & Hr). rewrite weights_lookup in Hw by done.
  unfold load_weight. rewrite get_weight_spec by done.
  destruct (ht_map (entries p) !! ht_key nm) as [e|]; [|done]. simpl in Hw. cbn [mbind res_bind].
  unfold weight_of in Hw. unfold entry_of.
  destruct (ht_entry (entries p) e) as [ent|]; [|done]. simpl in Hw. cbn [mbind res_bind].
  unfold entry_data. destruct (data ent) as [l|]; [|done]. simpl in Hw.
  destruct (blocks p !! l) as [b|]; [|done]. simpl in Hw. injection Hw as <-. simpl in *.
  exists ent, b. split; [done|]. split; [done|]. intros i d Hi0 Hi.
  assert (dims ent !! Z.to_nat i = Some (Some d)) as Hd.
  { pose proof (f_equal (λ l, l !! Z.to_nat i) Hds) as Hi'. cbv beta in Hi'. rewrite list_lookup_fmap, Hi in Hi'. simpl in Hi'.
    apply lookup_take_Some in Hi' as [Hi' _]. by apply lookup_take_Some in Hi' as [? _]. }
  unfold entry_dim, bget. by rewrite (lget_lookup _ _ _ Hi0 Hd).
Qed.

(** Looking up a weight that is not in the pool ends in the caller's error
    message; the kernels never work on a missing weight. *)
Theorem load_weight_missing p cur nm msg :
  pool_ok p → weights p !! ht_key nm = None → load_weight (Some p) cur nm msg = Ereport msg.
Proof.
  intros Hok Hw. rewrite weights_lookup in Hw by done.
  unfold load_weight. rewrite get_weight_spec by done.
  destruct (ht_map (entries p) !! ht_key nm) as [e|] eqn:He; [|done].
  destruct (weight_of_ok p e) as [w Hwe]; [apply (p_entries _ _ Hok _ _ He); set_solver|].
  simpl in Hw. congruence.
Qed.
End weights.

(** [reads] a whole array. *)
Lemma reads_ext b off m f g : reads b off m f → (∀ i, 0 <= i < m → f i = g i) → reads b off m g.
Proof. intros Hr Hfg i Hi. rewrite Hr by done. by rewrite Hfg. Qed.

Lemma reads_lget b m f i : reads b 0 m f → 0 <= i < m → lget b i = Ok (Some (f i)).
Proof.
  intros Hr Hi. specialize (Hr i Hi). rewrite Z.add_0_l in Hr. unfold bget in Hr.
  destruct (lget b i) as [[v|]| |]; simpl in Hr; congruence.
Qed.

Lemma reads_zlen b m f : 0 <= m → reads b 0 m f → m <= zlen b.
Proof.
  intros Hm Hr. destruct (decide (m = 0)) as [->|]; [apply zlen_nonneg|].
  pose proof (reads_lget b m f (m - 1) Hr ltac:(lia)) as [_ Hl%lookup_lt_Some]%lget_Ok.
  unfold zlen. lia.
Qed.

(** The first [m] cells of a buffer that is rewritten cell by cell. *)
Lemma take_upd_reads b m f (g : Z → option float4 → option float4) h :
  0 <= m → reads b 0 m f → (∀ i, 0 <= i < m → g i (Some (f i)) = Some (h i)) →
  take (Z.to_nat m) (upd g 0 m b) = tabulate h m.
Proof.
  intros Hm Hr Hg. apply list_eq. intros j. destruct (decide (j < m)) as [Hj|Hj].
  - rewrite lookup_take_lt by lia. rewrite lookup_tabulate, lookup_upd by lia.
    pose proof (reads_lget b m f j Hr ltac:(lia)) as [_ Hl]%lget_Ok. rewrite Nat2Z.id in Hl. rewrite Hl. simpl.
    replace ((0 <=? j) && (j <? 0 + m)) with true by lia. by rewrite Hg by lia.
  - rewrite !lookup_ge_None_2; [done|..]; [unfold tabulate; rewrite length_fmap, length_seqZ; lia|].
    rewrite length_take. lia.
Qed.

(** ** Elementwise functions *)

Lemma fmax_rectifier x : fmax f4_zero x = rectifier x.
Proof. by destruct x as [[]|[]| |[] m e]. Qed.

(** [relu] returns the matrix with the rectifier applied to every element and
    leaves its argument overwritten with the same values. *)
Theorem relu_correct inp input_f r c :
  arr_dims input_f = [r; c] → reads (arr_data input_f) 0 (r * c) inp →
  0 <= r * c → 4 * (r * c) + 32 <= MaxAllocSize →
  ∃ arg, relu input_f = Ok (matrix r c (tabulate (rectifier ∘ inp) (r * c)), arg)
    ∧ arr_dims arg = [r; c] ∧ reads (arr_data arg) 0 (r * c) (rectifier ∘ inp).
Proof.
  intros Hd Hr H0 Hmax. unfold relu, ARR_DIM. rewrite Hd.
  change (lget [r; c] 0) with (Ok r). change (lget [r; c] 1) with (Ok c). cbn [mbind res_bind].
  unfold MaxAllocSize in Hmax. rewrite (i32_id (r * c)) by int_solve.
  set (g := λ (_ : Z) (old : option float4), fmax f4_zero <$> old).
  rewrite (cfor_cells g); [|lia|int_solve|].
  - rewrite Z.sub_0_r. cbn [mbind res_bind].
    pose proof (reads_zlen _ _ _ H0 Hr).
    rewrite float4construct_md_array_2d by (rewrite ?zlen_upd; unfold MaxAllocSize; lia). cbn [mbind res_bind].
    pose proof (take_upd_reads _ (r * c) inp g (rectifier ∘ inp) H0 Hr) as Ht.
    rewrite Ht by (intros; unfold g; simpl; by rewrite fmax_rectifier).
    eexists. split; [done|]. split; [done|]. simpl. intros i Hi. rewrite Z.add_0_l.
    pose proof (reads_lget _ _ _ i Hr Hi) as [Hi0 Hl]%lget_Ok. unfold bget, lget.
    rewrite (proj2 (Z.leb_le 0 i)), lookup_upd, Hl, Z2Nat.id by lia. simpl.
    replace ((0 <=? i) && (i <? 0 + r * c)) with true by lia. cbn. by rewrite fmax_rectifier.
  - intros i l' Hi ->. rewrite Z.sub_0_r.
    assert (lget (upd g 0 i (arr_data input_f)) i = Ok (Some (inp i))) as Hg.
    { rewrite lget_upd_later by lia. eapply reads_lget; [done|lia]. }
    unfold bget. rewrite Hg. cbn [mbind res_bind]. by eapply bset_upd.
Qed.

(** [madd] returns the elementwise sum of two matrices of the same size under
    every OpenMP schedule, and leaves its first argument overwritten with it. *)
Theorem madd_correct `{Omp} f1 f2 matrix1 matrix2 r c :
  arr_dims matrix1 = [r; c] →
  reads (arr_data matrix1) 0 (r * c) f1 → reads (arr_data matrix2) 0 (r * c) f2 →
  0 <= r * c → 4 * (r * c) + 32 <= MaxAllocSize →
  ∃ arg, madd matrix1 matrix2 = Ok (matrix r c (tabulate (λ i, f4_add (f1 i) (f2 i)) (r * c)), arg)
    ∧ arr_dims arg = [r; c] ∧ zlen (arr_data arg) = zlen (arr_data matrix1).
Proof.
  intros Hd H1 H2 H0 Hmax. unfold madd, ARR_DIM. rewrite Hd.
  change (lget [r; c] 0) with (Ok r). change (lget [r; c] 1) with (Ok c). cbn [mbind res_bind].
  unfold MaxAllocSize in Hmax. rewrite (i32_id (r * c)) by int_solve.
  set (g := λ (i : Z) (old : option float4), (λ v, f4_add v (f2 i)) <$> old).
  rewrite (omp_for_cells g).
  - cbn [mbind res_bind]. pose proof (reads_zlen _ _ _ H0 H1).
    rewrite float4construct_md_array_2d by (rewrite ?zlen_upd; unfold MaxAllocSize; lia). cbn [mbind res_bind].
    rewrite (take_upd_reads _ (r * c) f1 g (λ i, f4_add (f1 i) (f2 i))) by done.
    eexists. split; [done|]. split; [done|]. apply zlen_upd.
  - intros i l' Hi Hl Hg. pose proof (reads_lget _ _ _ i H1 Hi) as Hi1.
    rewrite (bget_lget l' i (f1 i)) by (by rewrite Hg). cbn [mbind res_bind].
    specialize (H2 i Hi). rewrite Z.add_0_l in H2. rewrite H2. cbn [mbind res_bind].
    eapply bset_upd; [by rewrite Hg|done].
Qed.

(** ** Products with weights *)

(** A cell of a product, and what the bias and the activation make of it. *)
Definition gemm_value `{Cblas} (fa fb : Z → float4) (transB : bool) (n k x : Z) : float4 :=
  sgemm_cell 0 (x / n) (x mod n) (dot_pairs fa fb transB n k (x / n) (x mod n)).
Definition biased (present acti : bool) (fbias : Z → float4) (cols : Z) (spec : Z → float4) : Z → float4 :=
  if present then with_bias acti fbias cols spec else spec.

(** The cell at row [i] and column [j] of a product with its bias. *)
Definition is_product_cell (fa fb fbias : Z → float4) (present acti transB : bool) (n k i j : Z) (v : float4) : Prop :=
  ∃ d, is_dot (dot_pairs fa fb transB n k i j) d
       ∧ v = if present then (let s := f4_add d (fbias i) in if acti then relu1 s else s) else d.

Lemma biased_cell `{Cblas} fa fb fbias present acti transB m n k i j :
  0 <= i < m → 0 <= j < n →
  ∃ v, bget (tabulate (biased present acti fbias n (gemm_value fa fb transB n k)) (m * n)) (i * n + j) = Ok v
       ∧ is_product_cell fa fb fbias present acti transB n k i j v.
Proof.
  intros Hi Hj. eexists. split; [apply bget_tabulate; nia|].
  exists (sgemm_cell 0 i j (dot_pairs fa fb transB n k i j)). split; [apply sgemm_cell_dot|].
  assert ((i * n + j) / n = i) as Hd by (rewrite Z.div_add_l, Z.div_small by lia; lia).
  assert ((i * n + j) mod n = j) as Hm by (rewrite Z.add_comm, Z.mod_add, Z.mod_small by lia; done).
  unfold biased, with_bias, gemm_value. destruct present; by rewrite Hd, Hm.
Qed.

(** The product, into fresh or cleared memory, followed by the bias loop. *)
Lemma gemm_with_bias `{Cblas} transB m n k A B C fa fb (present acti : bool) bias fbias :
  0 <= m → 0 < n → 0 < k → m * n <= int_max → zlen C = m * n →
  reads A 0 (m * k) fa → reads B 0 (n * k) fb → (present = true → reads bias 0 m fbias) →
  (C ← cblas_sgemm 0 transB m n k A 0 k B 0 (if transB then k else n) C 0 n;
   if present then bias_epilogue acti C bias m n else Ok C)
  = Ok (tabulate (biased present acti fbias n (gemm_value fa fb transB n k)) (m * n)).
Proof.
  intros Hm Hn Hk Hmax HC HA HB Hb.
  rewrite (cblas_sgemm_spec 0 transB m n k A 0 B 0 C 0 fa fb) by (done || lia). cbn [mbind res_bind].
  assert (∀ g, fill g 0 (m * n) C = tabulate g (m * n)) as -> by (intros g; by rewrite <-HC, fill_all).
  rewrite (tabulate_ext _ (gemm_value fa fb transB n k))
    by (intros i Hi; unfold gemm_value; by rewrite Z.sub_0_r).
  destruct present; [|done]. rewrite (bias_epilogue_spec acti _ bias fbias) by auto. done.
Qed.

Lemma kfm_computes `{Cblas} kmatrix fmatrix bias_vec m k n fk ff bd fbias :
  arr_dims kmatrix = [m; k] → arr_dims fmatrix = [n; k] → head (arr_dims bias_vec) = Some bd →
  0 < m → 0 < n → 0 < k → 4 * (m * n) + 32 <= MaxAllocSize →
  reads (arr_data kmatrix) 0 (m * k) fk → reads (arr_data fmatrix) 0 (n * k) ff →
  reads (arr_data bias_vec) 0 bd fbias →
  kfm kmatrix fmatrix bias_vec
  = Ok (matrix m n (tabulate (biased (bd =? m) true fbias n (gemm_value fk ff true n k)) (m * n))).
Proof.
  intros Hkd Hfd Hbd Hm Hn Hk Hmax HK HF HB. unfold kfm, ARR_DIM. rewrite Hkd, Hfd.
  change (lget [m; k] 0) with (Ok m). change (lget [m; k] 1) with (Ok k).
  change (lget [n; k] 0) with (Ok n). change (lget [n; k] 1) with (Ok k). cbn [mbind res_bind].
  rewrite Z.eqb_refl. cbn [negb]. assert (0 < m * n) by (by apply Z.mul_pos_pos).
  rewrite (i32_id (m * n)) by (unfold MaxAllocSize in Hmax; int_solve).
  rewrite palloc_ok by lia. cbn [mbind res_bind].
  assert (lget (arr_dims bias_vec) 0 = Ok bd) as Hb0 by (destruct (arr_dims bias_vec); simplify_eq/=; done).
  rewrite Hb0.
  pose proof (gemm_with_bias true m n k (arr_data kmatrix) (arr_data fmatrix)
    (replicate (Z.to_nat (m * n)) None) fk ff (bd =? m) true (arr_data bias_vec) fbias) as Hg.
  apply res_bind_Ok in Hg as (C & HC & Hbias); [|try lia; try done..];
    [|unfold int_max, MaxAllocSize in *; lia|rewrite zlen_replicate; lia|intros ->%Z.eqb_eq; done].
  rewrite HC. cbn [mbind res_bind]. rewrite Hbias. cbn [mbind res_bind].
  rewrite float4construct_md_array_2d by (rewrite ?zlen_tabulate; lia). by rewrite take_tabulate.
Qed.

(** [kfm] (kernel matrix times transposed patch matrix): when the number of
    columns agree it returns an [m] x [n] matrix whose cell [(i, j)] is the dot
    product of row [i] of the kernels with row [j] of the patches, in some
    evaluation order, plus the bias of row [i], rectified, if the bias vector has
    [m] elements, and the bare product otherwise. *)
Theorem kfm_correct `{Cblas} kmatrix fmatrix bias_vec m k n fk ff bd fbias :
  arr_dims kmatrix = [m; k] → arr_dims fmatrix = [n; k] → head (arr_dims bias_vec) = Some bd →
  0 < m → 0 < n → 0 < k → 4 * (m * n) + 32 <= MaxAllocSize →
  reads (arr_data kmatrix) 0 (m * k) fk → reads (arr_data fmatrix) 0 (n * k) ff →
  reads (arr_data bias_vec) 0 bd fbias →
  ∃ r, kfm kmatrix fmatrix bias_vec = Ok (matrix m n r) ∧ zlen r = m * n ∧
    ∀ i j, 0 <= i < m → 0 <= j < n → ∃ v, bget r (i * n + j) = Ok v
      ∧ is_product_cell fk ff fbias (bd =? m) true true n k i j v.
Proof.
  intros. eexists. split; [by eapply kfm_computes|]. split; [apply zlen_tabulate; nia|].
  intros i j Hi Hj. by apply biased_cell.
Qed.

Section pool_products.
  Context `{Omp} `{Cblas} `{HashTableLaws WeightEntry}.

Lemma kfm_nt_computes p cur nm fmatrix acti m k n fk ff bd fbias :
  pool_ok p →
  has_weight p (val_name nm) [m; k] (m * k) fk → has_weight p (bias_name nm) [bd] bd fbias →
  arr_dims fmatrix = [k; n] → reads (arr_data fmatrix) 0 (n * k) ff →
  0 < m → 0 < n → 0 < k → 4 * (m * n) + 32 <= MaxAllocSize →
  kfm_nt (Some p) cur nm fmatrix acti
  = Ok (matrix m n (tabulate (biased (bd =? m) acti fbias n (gemm_value fk ff false n k)) (m * n))).
Proof.
  intros Hok Hkw Hbw Hfd HF Hm Hn Hk Hmax. unfold kfm_nt.
  destruct (load_weight_ok p cur _ "[kfm_nt] %s_val not found" _ _ _ Hok Hkw) as (ke & kb & -> & HK & Hkd).
  destruct (load_weight_ok p cur _ "[kfm_nt] %s_bias not found" _ _ _ Hok Hbw) as (be & bb & Hl & HB & Hbd).
  cbn [mbind res_bind]. rewrite (Hkd 0 m), (Hkd 1 k) by done. cbn [mbind res_bind].
  unfold ARR_DIM. rewrite Hfd. change (lget [k; n] 0) with (Ok k). change (lget [k; n] 1) with (Ok n).
  cbn [mbind res_bind]. rewrite Z.eqb_refl. cbn [negb]. assert (0 < m * n) by (by apply Z.mul_pos_pos).
  rewrite (i32_id (m * n)) by (unfold MaxAllocSize in Hmax; int_solve).
  rewrite palloc0_ok by lia. cbn [mbind res_bind]. rewrite Hl.
  pose proof (gemm_with_bias false m n k kb (arr_data fmatrix)
    (tabulate (λ _, f4_zero) (m * n)) fk ff (bd =? m) acti bb fbias) as Hg.
  apply res_bind_Ok in Hg as (C & HC & Hbias); [|try lia; try done..];
    [|unfold int_max, MaxAllocSize in *; lia|rewrite zlen_tabulate; lia|intros ->%Z.eqb_eq; done].
  rewrite HC. cbn [mbind res_bind]. rewrite (Hbd 0 bd) by done. cbn [mbind res_bind].
  rewrite Hbias. cbn [mbind res_bind].
  rewrite float4construct_md_array_2d by (rewrite ?zlen_tabulate; lia). by rewrite take_tabulate.
Qed.

(** C32: [kfm_nt] multiplies the weight matrix stored under [name_val] with a
    matrix that is not transposed and adds the bias stored under [name_bias],
    with the activation exactly when it is asked for. *)
Theorem kfm_nt_correct p cur nm fmatrix acti m k n fk ff bd fbias :
  pool_ok p →
  has_weight p (val_name nm) [m; k] (m * k) fk → has_weight p (bias_name nm) [bd] bd fbias →
  arr_dims fmatrix = [k; n] → reads (arr_data fmatrix) 0 (n * k) ff →
  0 < m → 0 < n → 0 < k → 4 * (m * n) + 32 <= MaxAllocSize →
  ∃ r, kfm_nt (Some p) cur nm fmatrix acti = Ok (matrix m n r) ∧ zlen r = m * n ∧
    ∀ i j, 0 <= i < m → 0 <= j < n → ∃ v, bget r (i * n + j) = Ok v
      ∧ is_product_cell fk ff fbias (bd =? m) acti false n k i j v.
Proof.
  intros. eexists. split; [by eapply kfm_nt_computes|]. split; [apply zlen_tabulate; nia|].
  intros i j Hi Hj. by apply biased_cell.
Qed.

(** [mat_mul] multiplies its argument with the weight matrix of a name, on the
    right and without a bias. *)
Theorem mat_mul_correct p cur nm input_f m k n ff fk :
  pool_ok p → has_weight p (val_name nm) [k; n] (n * k) fk →
  arr_dims input_f = [m; k] → reads (arr_data input_f) 0 (m * k) ff →
  0 < m → 0 < n → 0 < k → 4 * (m * n) + 32 <= MaxAllocSize →
  ∃ r, mat_mul (Some p) cur input_f nm = Ok (matrix m n r) ∧ zlen r = m * n ∧
    ∀ i j, 0 <= i < m → 0 <= j < n → ∃ v, bget r (i * n + j) = Ok v
      ∧ is_product_cell ff fk (λ _, f4_zero) false false false n k i j v.
Proof.
  intros Hok Hkw Hfd HF Hm Hn Hk Hmax. unfold mat_mul, ARR_DIM. rewrite Hfd.
  change (lget [m; k] 0) with (Ok m). change (lget [m; k] 1) with (Ok k). cbn [mbind res_bind].
  destruct (load_weight_ok p cur _ "[mat_mul] %s_val not found" _ _ _ Hok Hkw) as (ke & kb & -> & HK & Hkd).
  cbn [mbind res_bind]. rewrite (Hkd 0 k), (Hkd 1 n) by done. cbn [mbind res_bind].
  rewrite Z.eqb_refl. cbn [negb]. assert (0 < m * n) by (by apply Z.mul_pos_pos).
  rewrite (i32_id (m * n)) by (unfold MaxAllocSize in Hmax; int_solve).
  rewrite palloc_ok by lia. cbn [mbind res_bind].
  pose proof (gemm_with_bias false m n k (arr_data input_f) kb
    (replicate (Z.to_nat (m * n)) None) ff fk false false [] (λ _, f4_zero)) as Hg.
  apply res_bind_Ok in Hg as (C & HC & [= ->]); [|try lia; try done..];
    [|unfold int_max, MaxAllocSize in *; lia|rewrite zlen_replicate; lia].
  rewrite HC. cbn [mbind res_bind].
  rewrite float4construct_md_array_2d by (rewrite ?zlen_tabulate; lia). rewrite take_tabulate.
  eexists. split; [done|]. split; [apply zlen_tabulate; lia|].
  intros i j Hi Hj. exact (biased_cell ff fk (λ _, f4_zero) false false false m n k i j Hi Hj).
Qed.

(** The sum [mvm] forms for row [i], from left to right. *)
Definition row_sum (fa fx : Z → float4) (cols i n : Z) : float4 :=
  foldl (λ s j, f4_add s (f4_mul (fa (i * cols + j)) (fx j))) f4_zero (seqZ 0 n).

Lemma row_sum_S fa fx cols i n :
  0 <= n → row_sum fa fx cols i (n + 1) = f4_add (row_sum fa fx cols i n) (f4_mul (fa (i * cols + n)) (fx n)).
Proof. intros. unfold row_sum. rewrite seqZ_app, foldl_app by lia. simpl. by rewrite Z.add_0_l. Qed.

Lemma row_sum_is_dot fa fx cols i n :
  0 <= n → is_dot ((λ j, (fa (i * cols + j), fx j)) <$> seqZ 0 n) (row_sum fa fx cols i n).
Proof.
  revert n. apply natlike_ind; [constructor|]. intros n Hn IH. rewrite <-Z.add_1_r, row_sum_S, seqZ_app by lia.
  rewrite fmap_app. eapply dot_add; [exact IH|apply dot_mul|]. simpl. by rewrite Z.add_0_l.
Qed.

(** C33: [mvm] returns, under every OpenMP schedule, the vector whose element [i] is
    the dot product of row [i] of the stored matrix with the argument, plus the
    stored bias when that has as many elements as the matrix has rows. *)
Theorem mvm_correct p cur nm vector rows cols fa fx bd fbias :
  pool_ok p →
  has_weight p (val_name nm) [rows; cols] (rows * cols) fa → has_weight p (bias_name nm) [bd] bd fbias →
  head (arr_dims vector) = Some cols → reads (arr_data vector) 0 cols fx →
  0 < rows <= MaxArraySize → 0 < cols → rows * cols <= int_max →
  ∃ r, mvm (Some p) cur nm vector = Ok (mkArrayType 1 0 FLOAT4OID [rows] [1] [] r) ∧ zlen r = rows ∧
    ∀ i, 0 <= i < rows → ∃ s, is_dot ((λ j, (fa (i * cols + j), fx j)) <$> seqZ 0 cols) s
      ∧ bget r i = Ok (if bd =? rows then f4_add s (fbias i) else s).
Proof.
  intros Hok Hkw Hbw Hvd Hx Hrows Hcols Hmax. unfold mvm.
  destruct (load_weight_ok p cur _ "[mvm] %s_val not found" _ _ _ Hok Hkw) as (ke & kb & -> & HK & Hkd).
  destruct (load_weight_ok p cur _ "[mvm] %s_bias not found" _ _ _ Hok Hbw) as (be & bb & Hl & HB & Hbd).
  cbn [mbind res_bind]. assert (ARR_DIM vector 0 = Ok cols) as -> by
    (unfold ARR_DIM; destruct (arr_dims vector); simplify_eq/=; done).
  cbn [mbind res_bind]. rewrite (Hkd 0 rows), (Hkd 1 cols) by done. cbn [mbind res_bind].
  change MaxArraySize with 134217727 in *.
  rewrite palloc_ok by (unfold MaxAllocSize; lia). cbn [mbind res_bind]. rewrite Z.eqb_refl. cbn [negb].
  rewrite Hl. cbn [mbind res_bind]. rewrite (Hbd 0 bd) by done. cbn [mbind res_bind].
  set (spec := λ i, let s := row_sum fa fx cols i cols in if bd =? rows then f4_add s (fbias i) else s).
  rewrite (omp_for_fill spec id 1).
  - cbn [mbind res_bind]. rewrite zlen_replicate by lia. rewrite construct_array_tabulate by done.
    eexists. split; [done|]. split; [apply zlen_tabulate; lia|].
    intros i Hi. exists (row_sum fa fx cols i cols). split; [apply row_sum_is_dot; lia|by apply bget_tabulate].
  - intros i r' Hi%elem_of_seqZ Hr'. rewrite zlen_replicate in Hr' by lia.
    pose proof (cfor_states (λ n, row_sum fa fx cols i n) 0 cols 1) as Hst. cbv beta in Hst.
    rewrite trips_unit, Z.sub_0_r in Hst by lia. change (row_sum fa fx cols i 0) with f4_zero in Hst.
    rewrite Hst; [|lia|int_solve|nia|].
    + cbn [mbind res_bind]. unfold spec, id.
      rewrite <-bset_fill by lia. destruct (Z.eqb_spec bd rows) as [->|]; [|done].
      specialize (HB i Hi). rewrite Z.add_0_l in HB. by rewrite HB.
    + intros n Hn. rewrite Z.add_0_l, Z.mul_1_r, row_sum_S by lia.
      assert (0 <= i * cols + n < rows * cols) by nia. rewrite i32_id by int_solve.
      rewrite <-(Z.add_0_l (i * cols + n)), HK, Z.add_0_l by done. cbn [mbind res_bind].
      rewrite <-(Z.add_0_l n), Hx, Z.add_0_l by done. done.
  - intros j Hj. rewrite zlen_replicate in Hj by lia. exists j. rewrite elem_of_seqZ. unfold id. lia.
Qed.
End pool_products.

(** ** Witnesses: a loaded 2 x 2 layer *)

Definition ex_f (l : list Z) (i : Z) : float4 := f4_of_Z (nth (Z.to_nat i) l 0).
Definition ex_buf (l : list Z) : buf float4 := (Some ∘ f4_of_Z) <$> l.

Lemma ex_reads l : reads (ex_buf l) 0 (zlen l) (ex_f l).
Proof.
  intros i Hi. rewrite Z.add_0_l. apply bget_lget, lget_lookup; [lia|].
  unfold ex_buf. rewrite list_lookup_fmap.
  destruct (lookup_lt_is_Some_2 l (Z.to_nat i)) as [x Hx]; [unfold zlen in Hi; lia|].
  rewrite Hx. simpl. unfold ex_f. by rewrite (nth_lookup_Some _ _ _ _ Hx).
Qed.

Definition ex_matrix (r c : Z) (l : list Z) : farray := matrix r c (ex_buf l).

(** A pool into which the layer [fc] has been loaded. *)
Lemma ex_loaded (nm : string) (ds : list Z) (l : list Z) (bl : list Z) :
  zlen ds <= 4 → zlen l <= 1000 → zlen bl <= 1000 →
  strlcpy (val_name nm) NAMEDATALEN ≠ strlcpy (bias_name nm) NAMEDATALEN →
  ∃ p, pool_ok p ∧ has_weight p (val_name nm) ds (zlen l) (ex_f l)
       ∧ has_weight p (bias_name nm) [zlen bl] (zlen bl) (ex_f bl).
Proof.
  intros Hds Hl Hbl Hne. destruct ex_pool as (p0 & _ & Hok0 & Hw0 & _ & _).
  pose proof (zlen_nonneg ds). pose proof (zlen_nonneg l). pose proof (zlen_nonneg bl).
  assert (∀ l, zlen (ex_buf l) = zlen l) as Hzb by (intros; unfold ex_buf, zlen; by rewrite length_fmap).
  assert (∀ l, take (Z.to_nat (zlen l)) (ex_buf l) = ex_buf l) as Htk.
  { intros l'. apply take_ge. unfold ex_buf, zlen. rewrite length_fmap. lia. }
  assert (∀ l : list Z, take (Z.to_nat (zlen l)) l = l) as Htl by (intros; apply take_ge; unfold zlen; lia).
  assert (ModelBuffer.total (weights p0) = 0) as Ht0 by (rewrite Hw0; unfold ModelBuffer.total; by rewrite map_fold_empty).
  destruct (insert_weight_spec p0 0 (val_name nm) (ex_buf l) (zlen l) (zlen ds) ds FLOAT4OID)
    as (p1 & _ & Hok1 & _ & Hw1); try done.
  { rewrite ht_num_weights, Hw0 by done. done. }
  { rewrite Hzb. lia. }
  { rewrite usage_weights, Ht0 by done. unfold LRU_CACHE_SIZE, POOL_SIZE. lia. }
  rewrite Htk, Htl, Hw0 in Hw1.
  destruct (insert_weight_spec p1 0 (bias_name nm) (ex_buf bl) (zlen bl) 1 [zlen bl] FLOAT4OID)
    as (p2 & _ & Hok2 & _ & Hw2); try done.
  { rewrite ht_num_weights, Hw1 by done. rewrite map_size_insert_None by done. done. }
  { rewrite Hzb. lia. }
  { rewrite usage_weights, Hw1, total_insert by done. rewrite <-Hw0, Ht0. simpl.
    unfold LRU_CACHE_SIZE, POOL_SIZE. lia. }
  rewrite Htk, Hw1 in Hw2. exists p2. split; [done|]. split.
  - eexists. rewrite Hw2, lookup_insert_ne, lookup_insert_eq by (intros Heq; by apply Hne).
    split; [done|]. simpl. split; [|apply ex_reads]. by rewrite take_ge by (rewrite length_fmap; lia).
  - eexists. rewrite Hw2, lookup_insert_eq. split; [done|]. split; [done|]. apply ex_reads.
Qed.

Lemma load_weight_missing_witness :
  ∃ p, pool_ok p ∧ load_weight (Some p) 0 "conv1_val" "missing" = Ereport "missing".
Proof.
  destruct ex_pool as (p & _ & Hok & Hw & _). exists p. split; [done|].
  apply (load_weight_missing p 0 "conv1_val" "missing" Hok). by rewrite Hw.
Defined.

Lemma relu_correct_witness :
  ∃ arg, relu (ex_matrix 2 2 [1; -2; 0; 3])
         = Ok (matrix 2 2 (tabulate (rectifier ∘ ex_f [1; -2; 0; 3]) 4), arg) ∧ arr_dims arg = [2; 2].
Proof.
  destruct (relu_correct (ex_f [1; -2; 0; 3]) (ex_matrix 2 2 [1; -2; 0; 3]) 2 2)
    as (arg & H1 & H2 & _); [done|exact (ex_reads [1; -2; 0; 3])|done|done|].
  exists arg. done.
Defined.

Lemma madd_correct_witness :
  ∃ arg, @madd omp_reverse_order (ex_matrix 1 2 [1; 2]) (ex_matrix 1 2 [3; 4])
         = Ok (matrix 1 2 (tabulate (λ i, f4_add (ex_f [1; 2] i) (ex_f [3; 4] i)) 2), arg).
Proof.
  destruct (@madd_correct omp_reverse_order (ex_f [1; 2]) (ex_f [3; 4]) (ex_matrix 1 2 [1; 2])
    (ex_matrix 1 2 [3; 4]) 1 2) as (arg & H1 & _);
    [done|exact (ex_reads [1; 2])|exact (ex_reads [3; 4])|done|done|].
  exists arg. exact H1.
Defined.

Lemma kfm_correct_witness :
  ∃ r, @kfm reference_blas (ex_matrix 1 2 [1; 2]) (ex_matrix 2 2 [3; 4; 5; 6])
         (mkArrayType 1 0 FLOAT4OID [1] [1] [] (ex_buf [7])) = Ok (matrix 1 2 r) ∧ zlen r = 2.
Proof.
  destruct (@kfm_correct reference_blas (ex_matrix 1 2 [1; 2]) (ex_matrix 2 2 [3; 4; 5; 6])
    (mkArrayType 1 0 FLOAT4OID [1] [1] [] (ex_buf [7])) 1 2 2 (ex_f [1; 2]) (ex_f [3; 4; 5; 6]) 1 (ex_f [7]))
    as (r & H1 & H2 & _);
    [done|done|done|done|done|done|done|exact (ex_reads [1; 2])|exact (ex_reads [3; 4; 5; 6])|exact (ex_reads [7])|].
  exists r. done.
Defined.

Lemma kfm_nt_correct_witness :
  ∃ p r, @kfm_nt reference_blas _ (Some p) 0 "fc" (ex_matrix 2 2 [3; 4; 5; 6]) true = Ok (matrix 1 2 r) ∧ zlen r = 2.
Proof.
  destruct (ex_loaded "fc" [1; 2] [1; 2] [7]) as (p & Hok & Hv & Hb); [done..|].
  destruct (@kfm_nt_correct reference_blas _ _ p 0 "fc" (ex_matrix 2 2 [3; 4; 5; 6]) true 1 2 2
    (ex_f [1; 2]) (ex_f [3; 4; 5; 6]) 1 (ex_f [7]) Hok Hv Hb) as (r & H1 & H2 & _);
    [done|exact (ex_reads [3; 4; 5; 6])|done|done|done|done|].
  exists p, r. done.
Defined.

Lemma mat_mul_correct_witness :
  ∃ p r, @mat_mul reference_blas _ (Some p) 0 (ex_matrix 1 2 [3; 4]) "fc" = Ok (matrix 1 1 r) ∧ zlen r = 1.
Proof.
  destruct (ex_loaded "fc" [2; 1] [1; 2] [7]) as (p & Hok & Hv & _); [done..|].
  destruct (@mat_mul_correct reference_blas _ _ p 0 "fc" (ex_matrix 1 2 [3; 4]) 1 2 1
    (ex_f [3; 4]) (ex_f [1; 2]) Hok Hv) as (r & H1 & H2 & _);
    [done|exact (ex_reads [3; 4])|done|done|done|done|].
  exists p, r. done.
Defined.

Lemma mvm_correct_witness :
  ∃ p r, @mvm omp_reverse_order _ (Some p) 0 "fc" (mkArrayType 1 0 FLOAT4OID [2] [1] [] (ex_buf [3; 4]))
         = Ok (mkArrayType 1 0 FLOAT4OID [1] [1] [] r) ∧ zlen r = 1.
Proof.
  destruct (ex_loaded "fc" [1; 2] [1; 2] [7]) as (p & Hok & Hv & Hb); [done..|].
  destruct (@mvm_correct omp_reverse_order _ _ p 0 "fc" (mkArrayType 1 0 FLOAT4OID [2] [1] [] (ex_buf [3; 4]))
    1 2 (ex_f [1; 2]) (ex_f [3; 4]) 1 (ex_f [7]) Hok Hv Hb) as (r & H1 & H2 & _);
    [done|exact (ex_reads [3; 4])|done|done|done|].
  exists p, r. done.
Defined.
