(* ===== verification/Conv.v ===== *)
(** * Conv: the convolutions of conv.c

    The SQL functions [kfm_im2col] (square kernels), [kfm_im2col_ns] (kernels of
    one row or one column) and [group_kfm_im2col] (grouped convolutions): each
    unfolds its argument into a patch matrix, multiplies the kernels of the
    weight pool with it and adds the bias.

    All three overwrite the first dimension of their argument with the number of
    channels they work on, so each returns the argument as it leaves it along
    with its result.

    The theorems say what every cell of the result is, in terms of the feature
    map and the kernels: a convolution over the padded image. *)

From Stdlib Require Import SpecFloat.
From S2P Require Import Prelude Float4 CString PgArray Im2col Sgemm Dynahash HashTable LruCache ModelBuffer MatrixOps.
From stdpp Require Import strings.

Open Scope Z_scope.

(** A call that is handed the pointer [b + off]. *)
Definition with_slice {E} (b : buf E) (off : Z) (k : buf E → res (buf E)) : res (buf E) :=
  require ((0 <=? off) && (off <=? zlen b)) OutOfBounds
    (d ← k (drop (Z.to_nat off) b); Ok (take (Z.to_nat off) b ++ d)).

Lemma with_slice_fill {E} (spec g : Z → E) (b : buf E) off w k :
  0 <= off <= zlen b → (∀ x, off <= x < off + w → g (x - off) = spec x) →
  k (drop (Z.to_nat off) b) = Ok (fill g 0 w (drop (Z.to_nat off) b)) →
  with_slice b off k = Ok (fill spec off w b).
Proof.
  intros Hoff Hg Hk. unfold with_slice. rewrite require_true by lia. rewrite Hk. cbn [mbind res_bind]. f_equal.
  unfold zlen in Hoff. apply list_eq. intros j. unfold fill. rewrite lookup_upd.
  destruct (decide (j < Z.to_nat off)%nat) as [Hj|Hj].
  - rewrite lookup_app_l by (rewrite length_take; lia). rewrite lookup_take_lt by done.
    replace ((off <=? j) && (j <? off + w)) with false by lia. by destruct (b !! j).
  - rewrite lookup_app_r by (rewrite length_take; lia). rewrite length_take, lookup_upd, lookup_drop.
    replace (Z.to_nat off + (j - Z.to_nat off `min` length b))%nat with j by lia.
    destruct (b !! j); simpl; [|done].
    replace (Z.of_nat (j - Z.to_nat off `min` length b)) with (j - off) by lia.
    destruct (decide (off <= j < off + w)) as [Hw|Hw].
    + replace ((0 <=? j - off) && (j - off <? 0 + w)) with true by lia.
      replace ((off <=? j) && (j <? off + w)) with true by lia. by rewrite Hg.
    + replace ((0 <=? j - off) && (j - off <? 0 + w)) with false by lia.
      by replace ((off <=? j) && (j <? off + w)) with false by lia.
Qed.

Section conv.
  Context `{Omp} `{Cblas} `{HashTable WeightEntry}.

(** The [offset] argument of [kfm_im2col] and [kfm_im2col_ns], a range of
    channels counted from one: the argument with its new first dimension and the
    offset of the first element. *)
Definition handle_offset (array_input_f : farray) (offset : option (ArrayType Z)) : res (farray * Z) :=
  num_channel ← ARR_DIM array_input_f 0;
  nelems_channel ← ARR_DIM array_input_f 1;
  match offset with
  | None => Ok (array_input_f, 0)
  | Some offset_array =>
      two ← (if ndim offset_array =? 1 then d ← ARR_DIM offset_array 0; Ok (d =? 2) else Ok false);
      check two "Offset must be an array of two integers" (
      o0 ← lget (arr_data offset_array) 0;
      o1 ← lget (arr_data offset_array) 1;
      let start_index := i32 (o0 - 1) in
      let end_index := o1 in
      check (negb ((start_index <? 0) || (num_channel <? end_index) || (end_index <=? start_index)))
        "Invalid offset range" (
      dims ← lset (arr_dims array_input_f) 0 (i32 (end_index - start_index));
      Ok (set_dims array_input_f dims, i32 (start_index * nelems_channel))))
  end.

Definition kfm_im2col_ns (pool : option WeightPool) (cur : Z) (kmatrix_name : string) (array_input_f : farray)
    (kernel_H kernel_W padding_H padding_W stride : Z) (offset : option (ArrayType Z)) : res (farray * farray) :=
  '(array_input_f, input_off) ← handle_offset array_input_f offset;
  num_channel ← ARR_DIM array_input_f 0;
  nelems_channel ← ARR_DIM array_input_f 1;
  width ← int_sqrt nelems_channel;
  let height := width in
  out_width ← out_size width padding_W kernel_W stride;
  out_height ← out_size height padding_H kernel_H stride;
  let out_nelems := i32 (out_width * out_height * num_channel * kernel_W * kernel_H) in
  f_matrix ← palloc 4 out_nelems;
  f_matrix ← (if kernel_H =? 1
              then im2col_core_W (arr_data array_input_f) input_off (arr_dims array_input_f) f_matrix
                     kernel_W padding_W stride
              else im2col_core_H (arr_data array_input_f) input_off (arr_dims array_input_f) f_matrix
                     kernel_H padding_H stride);
  let f_dims0 := i32 (out_width * out_height) in
  let f_dims1 := i32 (num_channel * kernel_H * kernel_W) in
  '(kmatrix_entry, k_matrix) ← load_weight pool cur (val_name kmatrix_name) "[kfm_im2col_ns] %s_val not found";
  k_channel ← entry_dim kmatrix_entry 0;
  klen ← entry_dim kmatrix_entry 1;
  let res_rows := k_channel in
  let res_cols := f_dims0 in
  let res_size := i32 (res_rows * res_cols) in
  if negb (klen =? f_dims1) then Ereport cols_msg
  else
    res ← float4construct_md_array_ncpy res_size 2 [res_rows; res_cols] [1; 1] FLOAT4OID;
    res_data ← cblas_sgemm 0 true res_rows res_cols klen k_matrix 0 klen f_matrix 0 klen (arr_data res) 0 res_cols;
    '(bias_entry, bias) ← load_weight pool cur (bias_name kmatrix_name) "[kfm_im2col] %s_bias not found";
    bd ← entry_dim bias_entry 0;
    res_data ← (if bd =? k_channel then bias_epilogue true res_data bias k_channel res_cols else Ok res_data);
    Ok (set_data res res_data, array_input_f).

Definition kfm_im2col (pool : option WeightPool) (cur : Z) (kmatrix_name : string) (array_input_f : farray)
    (kernel_size padding stride : Z) (offset : option (ArrayType Z)) : res (farray * farray) :=
  '(array_input_f, input_off) ← handle_offset array_input_f offset;
  num_channel ← ARR_DIM array_input_f 0;
  nelems_channel ← ARR_DIM array_input_f 1;
  width ← int_sqrt nelems_channel;
  let height := width in
  out_width ← out_size width padding kernel_size stride;
  out_height ← out_size height padding kernel_size stride;
  let out_nelems := i32 (out_width * out_height * num_channel * kernel_size * kernel_size) in
  f_matrix ← palloc 4 out_nelems;
  f_matrix ← im2col_core (arr_data array_input_f) input_off (arr_dims array_input_f) f_matrix
               kernel_size padding stride;
  let f_dims0 := i32 (out_width * out_height) in
  let f_dims1 := i32 (num_channel * kernel_size * kernel_size) in
  match pool with
  | None => Ereport "[kfm_im2col] WEIGHT POOL is NULL"
  | Some _ =>
      '(kmatrix_entry, k_matrix) ← load_weight pool cur (val_name kmatrix_name) "[kfm_im2col] %s_val not found";
      k_channel ← entry_dim kmatrix_entry 0;
      klen ← entry_dim kmatrix_entry 1;
      let res_rows := k_channel in
      let res_cols := f_dims0 in
      let res_size := i32 (res_rows * res_cols) in
      if negb (klen =? f_dims1) then Ereport cols_msg
      else
        res_data ← palloc 4 res_size;
        res_data ← cblas_sgemm 0 true res_rows res_cols klen k_matrix 0 klen f_matrix 0 klen res_data 0 res_cols;
        '(bias_entry, bias) ← load_weight pool cur (bias_name kmatrix_name) "[kfm_im2col] %s_bias not found";
        bd ← entry_dim bias_entry 0;
        res_data ← (if bd =? k_channel then bias_epilogue true res_data bias k_channel res_cols else Ok res_data);
        res ← float4construct_md_array res_data res_size 2 [res_rows; res_cols] [1; 1] FLOAT4OID;
        Ok (res, array_input_f)
  end.

(** [Assert] is off in the builds the extension ships with. *)
Definition group_kfm_im2col (pool : option WeightPool) (cur : Z) (kmatrix_name : string) (array_input_f : farray)
    (kernel_size padding stride split_num : Z) : res (farray * farray) :=
  total_num_channel ← ARR_DIM array_input_f 0;
  nelems_channel ← ARR_DIM array_input_f 1;
  rest ← imod total_num_channel split_num;
  if negb (rest =? 0)
  then Ereport "The number of rows in the input array is not evenly divisible by split_num"
  else
    sub_num_channel ← idiv total_num_channel split_num;
    dims ← lset (arr_dims array_input_f) 0 sub_num_channel;
    let array_input_f := set_dims array_input_f dims in
    width ← int_sqrt nelems_channel;
    let height := width in
    out_width ← idiv (i32 (width + 2 * padding - kernel_size + 1)) stride;
    out_height ← idiv (i32 (height + 2 * padding - kernel_size + 1)) stride;
    let out_nelems := i32 (out_width * out_height * sub_num_channel * kernel_size * kernel_size) in
    let f_dims0 := i32 (out_width * out_height) in
    let f_dims1 := i32 (sub_num_channel * kernel_size * kernel_size) in
    '(kmatrix_entry, k_matrix) ← load_weight pool cur (val_name kmatrix_name) "[group_kfm_im2col] %s_val not found";
    k_channel ← entry_dim kmatrix_entry 1;
    klen ← entry_dim kmatrix_entry 2;
    let res_rows := k_channel in
    let res_cols := f_dims0 in
    let res_size := i32 (res_rows * res_cols) in
    if negb (klen =? f_dims1) then Ereport cols_msg
    else
      res_data ← palloc 4 (res_size * split_num);
      f_matrix_all ← palloc 4 (out_nelems * split_num);
      require (0 <? split_num) OutOfBounds (  (* the array f_matrix[split_num] *)
      let f_matrix := (λ gn, i32 (gn * out_nelems)) <$> seqZ 0 split_num in
      f_matrix_all ← cfor 0 split_num 1 (λ gn f_matrix_all,
        fo ← lget f_matrix gn;
        with_slice f_matrix_all fo (λ slice,
          im2col_core (arr_data array_input_f) (i32 (gn * nelems_channel * sub_num_channel)) dims slice
            kernel_size padding stride)) f_matrix_all;
      res_data ← cfor 0 split_num 1 (λ gn res_data,
        fo ← lget f_matrix gn;
        cblas_sgemm gn true res_rows res_cols klen k_matrix (i32 (gn * k_channel * klen)) klen
          f_matrix_all fo klen res_data (i32 (gn * res_size)) res_cols) res_data;
      '(bias_entry, bias) ← load_weight pool cur (bias_name kmatrix_name) "[group_kfm_im2col] %s_bias not found";
      bd ← entry_dim bias_entry 0;
      res_data ← (if bd =? i32 (split_num * k_channel)
                  then bias_epilogue true res_data bias (i32 (split_num * k_channel)) res_cols
                  else Ok res_data);
      res ← float4construct_md_array res_data (i32 (res_size * split_num)) 2
              [i32 (res_rows * split_num); res_cols] [1; 1] FLOAT4OID;
      Ok (res, array_input_f)).
End conv.

(** ** What a convolution is

    Output channel [oc] at row [oy] and column [ox]: the kernel's weights, each
    paired with the element of the padded image under it.  [l] runs over the
    weights of the kernel, channel by channel and row by row. *)
Definition conv_pairs (fk inp : Z → float4) (n ch kh kw ph pw s oc oy ox : Z) : list (float4 * float4) :=
  (λ l, (fk (oc * (ch * (kh * kw)) + l),
         padded inp n (Z.sqrt n) (Z.sqrt n) (l / (kh * kw))
           (oy * s - ph + l mod (kh * kw) / kw) (ox * s - pw + l mod kw))) <$> seqZ 0 (ch * (kh * kw)).

(** The sum, plus the bias of the channel and rectified if there is one. *)
Definition is_conv_cell (fk inp fbias : Z → float4) (present : bool) (n ch kh kw ph pw s oc oy ox : Z)
    (v : float4) : Prop :=
  ∃ d, is_dot (conv_pairs fk inp n ch kh kw ph pw s oc oy ox) d
       ∧ v = if present then relu1 (f4_add d (fbias oc)) else d.

Lemma conv_dot_pairs fk inp n ch kh kw ph pw s oh ow oc oy ox :
  0 < kh → 0 < kw → 0 <= oy < oh → 0 <= ox < ow →
  dot_pairs fk (im2col_spec inp n (Z.sqrt n) (Z.sqrt n) ch kh kw ph pw s ow) true (oh * ow) (ch * (kh * kw))
    oc (oy * ow + ox)
  = conv_pairs fk inp n ch kh kw ph pw s oc oy ox.
Proof.
  intros Hkh Hkw Hy Hx. unfold dot_pairs, conv_pairs. apply list_fmap_ext.
  intros i l [Hl Hi]%lookup_seqZ. cbv beta. assert (0 <= l < ch * (kh * kw)) by lia. f_equal. unfold im2col_spec.
  assert (((oy * ow + ox) * (ch * (kh * kw)) + l) / (ch * (kh * kw)) = oy * ow + ox) as ->.
  { rewrite Z.div_add_l, Z.div_small by lia. lia. }
  assert (((oy * ow + ox) * (ch * (kh * kw)) + l) mod (ch * (kh * kw)) = l) as ->.
  { rewrite Z.add_comm, Z.mod_add, Z.mod_small by lia. done. }
  rewrite Z.div_add_l, (Z.div_small ox), Z.add_0_r by lia.
  rewrite (Z.add_comm (oy * ow)), Z.mod_add, (Z.mod_small ox) by lia. done.
Qed.

(** A cell of the product of the kernels with a patch matrix. *)
Lemma conv_cell `{Cblas} fk inp fbias present m n ch kh kw ph pw s oh ow oc oy ox :
  0 < kh → 0 < kw → 0 <= oc < m → 0 <= oy < oh → 0 <= ox < ow →
  ∃ v, bget (tabulate (biased present true fbias (oh * ow)
               (gemm_value fk (im2col_spec inp n (Z.sqrt n) (Z.sqrt n) ch kh kw ph pw s ow) true
                  (oh * ow) (ch * (kh * kw)))) (m * (oh * ow)))
         (oc * (oh * ow) + (oy * ow + ox)) = Ok v
    ∧ is_conv_cell fk inp fbias present n ch kh kw ph pw s oc oy ox v.
Proof.
  intros Hkh Hkw Hoc Hy Hx.
  destruct (biased_cell fk (im2col_spec inp n (Z.sqrt n) (Z.sqrt n) ch kh kw ph pw s ow) fbias present true true
              m (oh * ow) (ch * (kh * kw)) oc (oy * ow + ox) Hoc ltac:(nia)) as (v & Hv & d & Hd & ->).
  eexists. split; [exact Hv|]. exists d. split; [|done].
  by rewrite <-(conv_dot_pairs fk inp n ch kh kw ph pw s oh ow oc oy ox).
Qed.

(** [offset] selects the [cnt] channels from [start] on, out of [tot]. *)
Definition offset_selects (offset : option (ArrayType Z)) (tot start cnt : Z) : Prop :=
  match offset with
  | None => start = 0 ∧ cnt = tot
  | Some o => ndim o = 1 ∧ arr_dims o = [2] ∧ arr_data o = [start + 1; start + cnt]
              ∧ 0 <= start ∧ 0 < cnt ∧ start + cnt <= tot
  end.

Lemma handle_offset_ok array_input_f offset tot n start cnt :
  arr_dims array_input_f = [tot; n] → offset_selects offset tot start cnt →
  0 <= tot <= int_max → 0 <= n → tot * n <= int_max →
  handle_offset array_input_f offset = Ok (set_dims array_input_f [cnt; n], start * n).
Proof.
  intros Hd Hsel Ht Hn Htn. unfold handle_offset, ARR_DIM. rewrite Hd.
  change (lget [tot; n] 0) with (Ok tot). change (lget [tot; n] 1) with (Ok n). cbn [mbind res_bind].
  destruct offset as [o|]; simpl in Hsel.
  - destruct Hsel as (-> & -> & -> & Hst & Hc & Hle).
    change (lget [2] 0) with (Ok 2). cbn [mbind res_bind Z.eqb Pos.eqb]. rewrite check_true by done.
    change (lget [start + 1; start + cnt] 0) with (Ok (start + 1)).
    change (lget [start + 1; start + cnt] 1) with (Ok (start + cnt)). cbn [mbind res_bind].
    rewrite (i32_id (start + 1 - 1)) by int_solve. rewrite check_true by lia.
    change (lset [tot; n] 0 (i32 (start + cnt - (start + 1 - 1))))
      with (Ok [i32 (start + cnt - (start + 1 - 1)); n]). cbn [mbind res_bind].
    rewrite !i32_id by int_nsolve. do 2 f_equal; [|lia]. do 2 f_equal. lia.
  - destruct Hsel as [-> ->]. rewrite <-Hd. by destruct array_input_f.
Qed.

(** The patch matrix in freshly allocated memory. *)
Lemma fill_fresh (spec : Z → float4) n : 0 <= n → fill spec 0 n (replicate (Z.to_nat n) None) = tabulate spec n.
Proof.
  intros Hn. pose proof (fill_all spec (replicate (Z.to_nat n) None)) as Hf. by rewrite zlen_replicate in Hf.
Qed.

(** The product of the kernels with one patch matrix. *)
Section one_image.
  Context `{Cblas} (n ch kh kw ph pw s m bd : Z) (fk fbias inp : Z → float4).
  Context (Hgeo : geometry_ok n ch kh kw ph pw s) (Hch : 0 < ch) (Hm : 0 < m).
Let oh := out_dim n kh ph s.
Let ow := out_dim n kw pw s.
  Context (Hmax2 : 4 * (m * (oh * ow)) + 32 <= MaxAllocSize).

Definition conv_result : buf float4 :=
  tabulate (biased (bd =? m) true fbias (oh * ow)
    (gemm_value fk (im2col_spec inp n (Z.sqrt n) (Z.sqrt n) ch kh kw ph pw s ow) true (oh * ow) (ch * (kh * kw))))
    (m * (oh * ow)).

Lemma one_image_pos : 0 < oh ∧ 0 < ow ∧ 0 < ch * (kh * kw) ∧ 0 < oh * ow ∧ 0 < m * (oh * ow).
Proof.
  destruct Hgeo as [_ _ Hkh Hkw' _ _ Hs Hfh Hfw _ _ _ _].
  pose proof (out_dim_pos n kh ph s Hs Hfh : 0 < oh). pose proof (out_dim_pos n kw pw s Hs Hfw : 0 < ow).
  assert (0 < oh * ow) by (by apply Z.mul_pos_pos). repeat split; try done; repeat apply Z.mul_pos_pos; done.
Qed.

(** The product and the bias, into memory that was just allocated. *)
Lemma one_image_product (C : buf float4) kb bb :
  reads kb 0 (m * (ch * (kh * kw))) fk → reads bb 0 bd fbias → zlen C = m * (oh * ow) →
  (C ← cblas_sgemm 0 true m (oh * ow) (ch * (kh * kw)) kb 0 (ch * (kh * kw))
         (tabulate (im2col_spec inp n (Z.sqrt n) (Z.sqrt n) ch kh kw ph pw s ow) (oh * ow * (ch * (kh * kw)))) 0
         (ch * (kh * kw)) C 0 (oh * ow);
   if bd =? m then bias_epilogue true C bb m (oh * ow) else Ok C)
  = Ok conv_result.
Proof.
  intros HK HB HC. destruct one_image_pos as (? & ? & ? & ? & ?).
  apply (gemm_with_bias true); [lia|done|done| |done|done|apply reads_tabulate|].
  - unfold MaxAllocSize, int_max in *. lia.
  - by intros <-%Z.eqb_eq.
Qed.
End one_image.

Section convolutions.
  Context `{Omp} `{Cblas} `{HashTableLaws WeightEntry}.

Lemma kfm_im2col_computes p cur nm input_f offset tot start n ch k pd s m bd fk fbias inp :
  pool_ok p →
  has_weight p (val_name nm) [m; ch * (k * k)] (m * (ch * (k * k))) fk →
  has_weight p (bias_name nm) [bd] bd fbias →
  arr_dims input_f = [tot; n] → offset_selects offset tot start ch →
  0 <= tot <= int_max → tot * n <= int_max →
  reads (arr_data input_f) (start * n) (ch * n) inp →
  geometry_ok n ch k k pd pd s → 0 < ch → 0 < m →
  4 * (out_dim n k pd s * out_dim n k pd s * (ch * (k * k))) <= MaxAllocSize →
  4 * (m * (out_dim n k pd s * out_dim n k pd s)) + 32 <= MaxAllocSize →
  kfm_im2col (Some p) cur nm input_f k pd s offset
  = Ok (matrix m (out_dim n k pd s * out_dim n k pd s) (conv_result n ch k k pd pd s m bd fk fbias inp),
        set_dims input_f [ch; n]).
Proof.
  intros Hok Hkw Hbw Hd Hsel Ht Htn Hr Hgeo Hch Hm Hmax1 Hmax2.
  pose proof (one_image_pos n ch k k pd pd s m Hgeo Hch Hm) as (Hoh & How & Hlen & Hpos & Hres).
  pose proof Hgeo as [Hn _ Hk _ Hp _ Hs Hfit _ Hint _ _ Htotal].
  unfold kfm_im2col. rewrite (handle_offset_ok _ _ tot n start ch) by done. cbn [mbind res_bind].
  unfold ARR_DIM. change (arr_dims (set_dims input_f [ch; n])) with [ch; n].
  change (arr_data (set_dims input_f [ch; n])) with (arr_data input_f).
  change (lget [ch; n] 0) with (Ok ch). change (lget [ch; n] 1) with (Ok n). cbn [mbind res_bind].
  unfold int_sqrt. rewrite require_true by lia. cbn [mbind res_bind].
  rewrite !out_size_ok by (done || lia). cbn [mbind res_bind]. fold (out_dim n k pd s).
  set (o := out_dim n k pd s) in *.
  replace (o * o * ch * k * k) with (o * o * (ch * (k * k))) by ring.
  replace (ch * k * k) with (ch * (k * k)) by ring.
  assert (ch * (k * k) <= o * o * (ch * (k * k))) by (apply mul_le_l; lia).
  assert (o * o <= m * (o * o)) by (apply mul_le_l; lia).
  unfold MaxAllocSize in Hmax1, Hmax2.
  rewrite !i32_id by int_solve. rewrite palloc_ok by (unfold MaxAllocSize; lia). cbn [mbind res_bind].
  rewrite (im2col_core_computes inp) by (done || rewrite zlen_replicate; fold o; lia). cbn [mbind res_bind].
  fold o. rewrite fill_fresh by lia.
  destruct (load_weight_ok p cur _ "[kfm_im2col] %s_val not found" _ _ _ Hok Hkw) as (ke & kb & -> & HK & Hkd).
  destruct (load_weight_ok p cur _ "[kfm_im2col] %s_bias not found" _ _ _ Hok Hbw) as (be & bb & Hl & HB & Hbd).
  cbn [mbind res_bind]. rewrite (Hkd 0 m), (Hkd 1 (ch * (k * k))) by done. cbn [mbind res_bind].
  rewrite Z.eqb_refl. cbn [negb]. rewrite (i32_id (m * (o * o))) by int_solve.
  rewrite palloc_ok by (unfold MaxAllocSize; lia). cbn [mbind res_bind]. rewrite Hl.
  pose proof (one_image_product n ch k k pd pd s m bd fk fbias inp Hgeo Hch Hm Hmax2
                (replicate (Z.to_nat (m * (o * o))) None) kb bb HK HB) as Hg.
  fold o in Hg. apply res_bind_Ok in Hg as (C & HC & Hbias); [|rewrite zlen_replicate; lia].
  rewrite HC. cbn [mbind res_bind]. rewrite (Hbd 0 bd) by done. cbn [mbind res_bind].
  rewrite Hbias. cbn [mbind res_bind]. unfold conv_result. fold o.
  rewrite float4construct_md_array_2d by (rewrite ?zlen_tabulate; unfold MaxAllocSize; lia). by rewrite take_tabulate.
Qed.

(** The kernels [kfm_im2col_ns] is meant for: one row without vertical padding,
    or one column without horizontal padding and as many output rows as columns. *)
Definition ns_shape (n kh kw ph pw s : Z) : Prop :=
  (kh = 1 ∧ ph = 0) ∨ (kh ≠ 1 ∧ kw = 1 ∧ pw = 0 ∧ out_dim n kh ph s = out_dim n kw pw s).

Lemma unfold_ns inp input_f off n ch kh kw ph pw s :
  ns_shape n kh kw ph pw s → geometry_ok n ch kh kw ph pw s → reads input_f off (ch * n) inp →
  let total := out_dim n kh ph s * out_dim n kw pw s * (ch * (kh * kw)) in
  (if kh =? 1 then im2col_core_W input_f off [ch; n] (replicate (Z.to_nat total) None) kw pw s
   else im2col_core_H input_f off [ch; n] (replicate (Z.to_nat total) None) kh ph s)
  = Ok (tabulate (im2col_spec inp n (Z.sqrt n) (Z.sqrt n) ch kh kw ph pw s (out_dim n kw pw s)) total).
Proof.
  intros Hshape Hgeo Hr total.
  assert (0 <= total).
  { destruct Hgeo as [_ ? ? ? _ _ Hs Hfh Hfw _ _ _ _].
    pose proof (out_dim_pos n kh ph s Hs Hfh). pose proof (out_dim_pos n kw pw s Hs Hfw). unfold total.
    repeat apply Z.mul_nonneg_nonneg; lia. }
  destruct Hshape as [[-> ->]|(Hk & -> & -> & Heq)].
  - change (1 =? 1) with true. cbv iota.
    rewrite (im2col_core_W_computes inp) by (done || rewrite zlen_replicate; unfold total; lia).
    f_equal. rewrite <-fill_fresh by done. unfold total. by rewrite Z.mul_1_l.
  - rewrite (proj2 (Z.eqb_neq kh 1)) by done.
    rewrite (im2col_core_H_computes inp) by (done || rewrite zlen_replicate; unfold total; lia).
    f_equal. rewrite <-fill_fresh by done. unfold total. by rewrite Z.mul_1_r.
Qed.

Lemma kfm_im2col_ns_computes p cur nm input_f offset tot start n ch kh kw ph pw s m bd fk fbias inp :
  pool_ok p →
  has_weight p (val_name nm) [m; ch * (kh * kw)] (m * (ch * (kh * kw))) fk →
  has_weight p (bias_name nm) [bd] bd fbias →
  arr_dims input_f = [tot; n] → offset_selects offset tot start ch →
  0 <= tot <= int_max → tot * n <= int_max →
  reads (arr_data input_f) (start * n) (ch * n) inp →
  ns_shape n kh kw ph pw s → geometry_ok n ch kh kw ph pw s → 0 < ch → 0 < m →
  4 * (out_dim n kh ph s * out_dim n kw pw s * (ch * (kh * kw))) <= MaxAllocSize →
  4 * (m * (out_dim n kh ph s * out_dim n kw pw s)) + 32 <= MaxAllocSize →
  kfm_im2col_ns (Some p) cur nm input_f kh kw ph pw s offset
  = Ok (matrix m (out_dim n kh ph s * out_dim n kw pw s) (conv_result n ch kh kw ph pw s m bd fk fbias inp),
        set_dims input_f [ch; n]).
Proof.
  intros Hok Hkw Hbw Hd Hsel Ht Htn Hr Hshape Hgeo Hch Hm Hmax1 Hmax2.
  pose proof (one_image_pos n ch kh kw ph pw s m Hgeo Hch Hm) as (Hoh & How & Hlen & Hpos & Hres).
  pose proof Hgeo as [Hn _ Hkh0 Hkw0 Hph Hpw Hs Hfith Hfitw Hinth Hintw _ Htotal].
  unfold kfm_im2col_ns. rewrite (handle_offset_ok _ _ tot n start ch) by done. cbn [mbind res_bind].
  unfold ARR_DIM. change (arr_dims (set_dims input_f [ch; n])) with [ch; n].
  change (arr_data (set_dims input_f [ch; n])) with (arr_data input_f).
  change (lget [ch; n] 0) with (Ok ch). change (lget [ch; n] 1) with (Ok n). cbn [mbind res_bind].
  unfold int_sqrt. rewrite require_true by lia. cbn [mbind res_bind].
  rewrite !out_size_ok by (done || lia). cbn [mbind res_bind]. fold (out_dim n kh ph s) (out_dim n kw pw s).
  replace (out_dim n kw pw s * out_dim n kh ph s * ch * kw * kh)
    with (out_dim n kh ph s * out_dim n kw pw s * (ch * (kh * kw))) by ring.
  rewrite (Z.mul_comm (out_dim n kw pw s)).
  replace (ch * kh * kw) with (ch * (kh * kw)) by ring. unfold MaxAllocSize in Hmax1, Hmax2.
  assert (ch * (kh * kw) <= out_dim n kh ph s * out_dim n kw pw s * (ch * (kh * kw))) by (apply mul_le_l; lia).
  assert (out_dim n kh ph s * out_dim n kw pw s <= m * (out_dim n kh ph s * out_dim n kw pw s))
    by (apply mul_le_l; lia).
  rewrite !i32_id by int_solve. rewrite palloc_ok by (unfold MaxAllocSize; lia). cbn [mbind res_bind].
  rewrite (unfold_ns inp) by done. cbn [mbind res_bind].
  set (oh := out_dim n kh ph s) in *. set (ow := out_dim n kw pw s) in *.
  destruct (load_weight_ok p cur _ "[kfm_im2col_ns] %s_val not found" _ _ _ Hok Hkw) as (ke & kb & -> & HK & Hkd).
  destruct (load_weight_ok p cur _ "[kfm_im2col] %s_bias not found" _ _ _ Hok Hbw) as (be & bb & Hl & HB & Hbd).
  cbn [mbind res_bind]. rewrite (Hkd 0 m), (Hkd 1 (ch * (kh * kw))) by done. cbn [mbind res_bind].
  rewrite Z.eqb_refl. cbn [negb]. rewrite (i32_id (m * (oh * ow))) by int_solve.
  rewrite float4construct_md_array_ncpy_2d by (unfold MaxAllocSize; lia). cbn [mbind res_bind]. rewrite Hl.
  match goal with |- context [arr_data ?a] => set (C0 := arr_data a) end.
  assert (zlen C0 = m * (oh * ow)) as HC0 by (subst C0; simpl; rewrite ?zlen_replicate, ?zlen_tabulate; lia).
  pose proof (one_image_product n ch kh kw ph pw s m bd fk fbias inp Hgeo Hch Hm Hmax2 C0 kb bb HK HB HC0) as Hg.
  apply res_bind_Ok in Hg as (C & HC & Hbias). fold oh ow in HC, Hbias. rewrite HC.
  cbn [mbind res_bind]. rewrite (Hbd 0 bd) by done. cbn [mbind res_bind]. by rewrite Hbias.
Qed.
End convolutions.

(** ** Grouped convolutions *)
Section group.
  Context `{Omp} `{Cblas}.
  Context (g n ch k pd s m : Z) (fk inp : Z → float4).
  Context (Hgeo : geometry_ok n ch k k pd pd s) (Hg : 0 < g <= int_max) (Hch : 0 < ch) (Hm : 0 < m).
Let o := out_dim n k pd s.
Let len := ch * (k * k).
  Context (Hin : g * (ch * n) <= int_max) (Hmax1 : g * (o * o * len) <= int_max) (Hmax2 : g * (m * (o * o)) <= int_max).

(** The feature map and the kernels of group [gn]. *)
Definition group_inp (gn i : Z) : float4 := inp (gn * (ch * n) + i).
Definition group_kernel (gn i : Z) : float4 := fk (gn * (m * len) + i).
Definition group_patches (gn : Z) : Z → float4 :=
  im2col_spec (group_inp gn) n (Z.sqrt n) (Z.sqrt n) ch k k pd pd s o.

Definition all_patches (x : Z) : float4 := group_patches (x / (o * o * len)) (x mod (o * o * len)).
Definition all_products (x : Z) : float4 :=
  let gn := x / (m * (o * o)) in
  let y := x mod (m * (o * o)) in
  sgemm_cell gn (y / (o * o)) (y mod (o * o))
    (dot_pairs (group_kernel gn) (group_patches gn) true (o * o) len (y / (o * o)) (y mod (o * o))).

Lemma group_pos : 0 < o ∧ 0 < len ∧ 0 < o * o ∧ 0 < o * o * len ∧ 0 < m * (o * o).
Proof.
  destruct (one_image_pos n ch k k pd pd s m Hgeo Hch Hm) as (? & _ & ? & ? & ?).
  repeat split; try done. by apply Z.mul_pos_pos.
Qed.

Lemma block_index a w x : 0 <= x < w → (a * w + x) / w = a ∧ (a * w + x) mod w = x.
Proof.
  intros. split; [rewrite Z.div_add_l, Z.div_small by lia; lia|].
  rewrite Z.add_comm, Z.mod_add, Z.mod_small by lia. done.
Qed.

(** A shifted index inside block [a]. *)
Lemma block_shift a w x : 0 < w → a * w <= x < a * w + w → x / w = a ∧ x mod w = x - a * w.
Proof. intros. destruct (block_index a w (x - a * w)); [lia|]. by replace (a * w + (x - a * w)) with x in * by ring. Qed.

Lemma group_unfold (input : buf float4) (F : buf float4) :
  reads input 0 (g * (ch * n)) inp → zlen F = g * (o * o * len) →
  cfor 0 g 1 (λ gn F,
    fo ← lget ((λ gn, i32 (gn * (o * o * len))) <$> seqZ 0 g) gn;
    with_slice F fo (λ slice, im2col_core input (i32 (gn * n * ch)) [ch; n] slice k pd s)) F
  = Ok (tabulate all_patches (g * (o * o * len))).
Proof.
  intros Hr HF. destruct group_pos as (Ho & Hlen & Hoo & HT & _).
  rewrite (cfor_blocks all_patches (o * o * len)); [|lia|lia|].
  - rewrite <-HF. by rewrite fill_all.
  - intros gn F' Hgn HF'. rewrite lget_table by done. cbn [mbind res_bind].
    assert (gn * (o * o * len) + o * o * len <= g * (o * o * len)) by nia.
    assert (0 <= gn * (o * o * len)) by nia.
    rewrite (i32_id (gn * (o * o * len))) by int_solve.
    apply (with_slice_fill _ (group_patches gn)); [lia| |].
    + intros x Hx. unfold all_patches. by destruct (block_shift gn (o * o * len) x) as [-> ->].
    + rewrite (im2col_core_computes (group_inp gn)); [done|done| |].
      * intros i Hi. assert (0 <= gn * (ch * n) + i < g * (ch * n)) by nia.
        replace (gn * n * ch) with (gn * (ch * n)) by ring.
        assert (0 <= gn * (ch * n)) by nia. rewrite i32_id by int_solve.
        rewrite <-(Z.add_0_l (gn * (ch * n) + i)) at 1. by rewrite Hr.
      * unfold zlen. rewrite length_drop. fold o len. unfold zlen in *. lia.
Qed.

Lemma group_products (K : buf float4) (C : buf float4) :
  reads K 0 (g * (m * len)) fk → g * (m * len) <= int_max → zlen C = g * (m * (o * o)) →
  cfor 0 g 1 (λ gn C,
    fo ← lget ((λ gn, i32 (gn * (o * o * len))) <$> seqZ 0 g) gn;
    cblas_sgemm gn true m (o * o) len K (i32 (gn * m * len)) len
      (tabulate all_patches (g * (o * o * len))) fo len C (i32 (gn * (m * (o * o)))) (o * o)) C
  = Ok (tabulate all_products (g * (m * (o * o)))).
Proof.
  intros HK HKmax HC. destruct group_pos as (Ho & Hlen & Hoo & HT & HR).
  rewrite (cfor_blocks all_products (m * (o * o))); [|lia|lia|].
  - rewrite <-HC. by rewrite fill_all.
  - intros gn C' Hgn HC'. rewrite lget_table by done. cbn [mbind res_bind].
    assert (0 <= gn * (m * (o * o)) ∧ gn * (m * (o * o)) + m * (o * o) <= g * (m * (o * o))) as [? ?] by nia.
    assert (0 <= gn * (o * o * len) ∧ gn * (o * o * len) + o * o * len <= g * (o * o * len)) as [? ?] by nia.
    assert (0 <= gn * (m * len) ∧ gn * (m * len) + m * len <= g * (m * len)) as [? ?] by nia.
    replace (gn * m * len) with (gn * (m * len)) by ring.
    rewrite (i32_id (gn * (m * (o * o)))), (i32_id (gn * (o * o * len))), (i32_id (gn * (m * len))) by int_solve.
    rewrite (cblas_sgemm_spec gn true m (o * o) len _ _ _ _ _ _ (group_kernel gn) (group_patches gn)); try lia.
    + f_equal. apply upd_ext. intros x y Hx. f_equal. unfold all_products. cbv zeta.
      by destruct (block_shift gn (m * (o * o)) x) as [-> ->].
    + intros i Hi. rewrite <-(Z.add_0_l (gn * (m * len) + i)). by rewrite HK by lia.
    + intros i Hi. rewrite bget_tabulate by lia. unfold all_patches.
      by destruct (block_index gn (o * o * len) i) as [-> ->].
Qed.

(** A cell of the result of all groups. *)
Lemma group_cell present fbias gn oc oy ox :
  0 <= gn < g → 0 <= oc < m → 0 <= oy < o → 0 <= ox < o →
  ∃ v, bget (tabulate (biased present true fbias (o * o) all_products) (g * m * (o * o)))
         ((gn * m + oc) * (o * o) + (oy * o + ox)) = Ok v
    ∧ is_conv_cell (group_kernel gn) (group_inp gn) (λ c, fbias (gn * m + c)) present n ch k k pd pd s oc oy ox v.
Proof.
  intros Hgn Hoc Hy Hx. destruct group_pos as (Ho & Hlen & Hoo & HT & HR).
  pose proof Hgeo as [_ _ Hk _ _ _ _ _ _ _ _ _ _].
  assert (0 <= oy * o + ox < o * o) as Hq by nia.
  assert (0 <= oc * (o * o) + (oy * o + ox) < m * (o * o)) as Hp by nia.
  eexists. split; [apply bget_tabulate; nia|].
  exists (sgemm_cell gn oc (oy * o + ox) (conv_pairs (group_kernel gn) (group_inp gn) n ch k k pd pd s oc oy ox)).
  split; [apply sgemm_cell_dot|].
  assert (all_products ((gn * m + oc) * (o * o) + (oy * o + ox))
    = sgemm_cell gn oc (oy * o + ox) (conv_pairs (group_kernel gn) (group_inp gn) n ch k k pd pd s oc oy ox)) as Heq.
  { unfold all_products.
    replace ((gn * m + oc) * (o * o) + (oy * o + ox)) with (gn * (m * (o * o)) + (oc * (o * o) + (oy * o + ox))) by ring.
    destruct (block_index gn (m * (o * o)) _ Hp) as [-> ->]. destruct (block_index oc (o * o) _ Hq) as [-> ->].
    f_equal. by apply conv_dot_pairs. }
  destruct (block_index (gn * m + oc) (o * o) _ Hq) as [Hd _].
  unfold biased, with_bias. destruct present; by rewrite ?Hd, Heq.
Qed.
End group.

Section group_conv.
  Context `{Omp} `{Cblas} `{HashTableLaws WeightEntry}.

Lemma group_kfm_im2col_computes p cur nm input_f g n ch k pd s m bd fk fbias inp :
  pool_ok p →
  has_weight p (val_name nm) [g; m; ch * (k * k)] (g * (m * (ch * (k * k)))) fk →
  has_weight p (bias_name nm) [bd] bd fbias →
  arr_dims input_f = [g * ch; n] → reads (arr_data input_f) 0 (g * (ch * n)) inp →
  geometry_ok n ch k k pd pd s → (Z.sqrt n + 2 * pd - k + 1) mod s = 0 →
  0 < g → 0 < ch → 0 < m → g * (ch * n) <= int_max → g * (m * (ch * (k * k))) <= int_max →
  4 * (g * (out_dim n k pd s * out_dim n k pd s * (ch * (k * k)))) <= MaxAllocSize →
  4 * (g * (m * (out_dim n k pd s * out_dim n k pd s))) + 32 <= MaxAllocSize →
  group_kfm_im2col (Some p) cur nm input_f k pd s g
  = Ok (matrix (g * m) (out_dim n k pd s * out_dim n k pd s)
          (tabulate (biased (bd =? g * m) true fbias (out_dim n k pd s * out_dim n k pd s)
                       (all_products n ch k pd s m fk inp)) (g * m * (out_dim n k pd s * out_dim n k pd s))),
        set_dims input_f [ch; n]).
Proof.
  intros Hok Hkw Hbw Hd Hr Hgeo Hdiv Hg Hch Hm Hin Hkmax Hmax1 Hmax2.
  pose proof (group_pos n ch k pd s m Hgeo Hch Hm) as (Ho & Hlen & Hoo & HT & HR).
  pose proof Hgeo as [Hn _ Hk _ Hp _ Hs Hfit _ Hint _ _ Htotal].
  unfold group_kfm_im2col, ARR_DIM. rewrite Hd.
  change (lget [g * ch; n] 0) with (Ok (g * ch)). change (lget [g * ch; n] 1) with (Ok n). cbn [mbind res_bind].
  rewrite imod_pos, idiv_pos by nia. rewrite (Z.mul_comm g ch), Z.mod_mul, Z.div_mul by lia.
  cbn [mbind res_bind Z.eqb negb].
  change (lset [ch * g; n] 0 ch) with (Ok [ch; n]). cbn [mbind res_bind].
  unfold int_sqrt. rewrite require_true by lia. cbn [mbind res_bind].
  rewrite (i32_id (Z.sqrt n + 2 * pd - k + 1)) by int_solve. rewrite idiv_pos, exact_size by lia.
  cbn [mbind res_bind]. set (o := out_dim n k pd s) in *.
  replace (o * o * ch * k * k) with (o * o * (ch * (k * k))) by ring.
  replace (ch * k * k) with (ch * (k * k)) by ring. set (len := ch * (k * k)) in *.
  assert (len <= o * o * len) by (apply mul_le_l; lia). assert (o * o <= m * (o * o)) by (apply mul_le_l; lia).
  assert (o * o * len <= g * (o * o * len)) by (apply mul_le_l; lia).
  assert (m * (o * o) <= g * (m * (o * o))) by (apply mul_le_l; lia).
  assert (g <= g * (o * o * len)) by nia. assert (g * m <= g * m * (o * o)) by nia.
  unfold MaxAllocSize in Hmax1, Hmax2.
  destruct (load_weight_ok p cur _ "[group_kfm_im2col] %s_val not found" _ _ _ Hok Hkw) as (ke & kb & -> & HK & Hkd).
  destruct (load_weight_ok p cur _ "[group_kfm_im2col] %s_bias not found" _ _ _ Hok Hbw) as (be & bb & Hl & HB & Hbd).
  cbn [mbind res_bind]. rewrite (Hkd 1 m), (Hkd 2 len) by done. cbn [mbind res_bind].
  rewrite !(i32_id (o * o)), !(i32_id (o * o * len)), !(i32_id len), !(i32_id (m * (o * o))) by int_solve.
  rewrite Z.eqb_refl. cbn [negb]. rewrite (Z.mul_comm (m * (o * o))), (Z.mul_comm (o * o * len)).
  rewrite !palloc_ok by (unfold MaxAllocSize; lia). cbn [mbind res_bind]. rewrite require_true by lia.
  change (arr_data (set_dims input_f [ch; n])) with (arr_data input_f).
  rewrite (group_unfold g n ch k pd s m inp) by (fold o len; rewrite ?zlen_replicate; first [done | lia | int_solve]).
  cbn [mbind res_bind]. fold o len.
  pose proof (group_products g n ch k pd s m fk inp Hgeo) as Hprod. cbv zeta in Hprod. fold o len in Hprod.
  rewrite Hprod by (rewrite ?zlen_replicate; first [done | lia | int_solve]). clear Hprod. cbn [mbind res_bind]. rewrite Hl.
  cbn [mbind res_bind]. rewrite (Hbd 0 bd) by done. cbn [mbind res_bind].
  rewrite (Z.mul_comm m g), (i32_id (g * m)), (i32_id (g * (m * (o * o)))) by int_solve.
  rewrite (Z.mul_assoc g m).
  assert ((if bd =? g * m then bias_epilogue true (tabulate (all_products n ch k pd s m fk inp) (g * m * (o * o))) bb (g * m) (o * o)
           else Ok (tabulate (all_products n ch k pd s m fk inp) (g * m * (o * o))))
    = Ok (tabulate (biased (bd =? g * m) true fbias (o * o) (all_products n ch k pd s m fk inp)) (g * m * (o * o)))) as ->.
  { destruct (Z.eqb_spec bd (g * m)) as [->|]; [|done]. apply bias_epilogue_spec; [nia|lia|int_solve|done]. }
  cbn [mbind res_bind].
  rewrite float4construct_md_array_2d by (rewrite ?zlen_tabulate; unfold MaxAllocSize; lia). by rewrite take_tabulate.
Qed.
End group_conv.

Section conv_theorems.
  Context `{Omp} `{Cblas} `{HashTableLaws WeightEntry}.

(** C1: [kfm_im2col] is a convolution.  For the weights and the bias stored under
    a name, a feature map of square channels and a range of its channels, the
    cell of output channel [oc] at row [oy] and column [ox] is the sum, in some
    evaluation order, of the kernel's weights times the elements of the padded
    image under them, plus the bias of the channel and rectified if the bias has
    one element per channel.  This holds for every schedule of the parallel
    loops; the argument's first dimension is left overwritten. *)
Theorem kfm_im2col_correct p cur nm input_f offset tot start n ch k pd s m bd fk fbias inp :
  pool_ok p →
  has_weight p (val_name nm) [m; ch * (k * k)] (m * (ch * (k * k))) fk →
  has_weight p (bias_name nm) [bd] bd fbias →
  arr_dims input_f = [tot; n] → offset_selects offset tot start ch →
  0 <= tot <= int_max → tot * n <= int_max →
  reads (arr_data input_f) (start * n) (ch * n) inp →
  geometry_ok n ch k k pd pd s → 0 < ch → 0 < m →
  4 * (out_dim n k pd s * out_dim n k pd s * (ch * (k * k))) <= MaxAllocSize →
  4 * (m * (out_dim n k pd s * out_dim n k pd s)) + 32 <= MaxAllocSize →
  let o := out_dim n k pd s in
  ∃ r, kfm_im2col (Some p) cur nm input_f k pd s offset = Ok (matrix m (o * o) r, set_dims input_f [ch; n]) ∧
    ∀ oc oy ox, 0 <= oc < m → 0 <= oy < o → 0 <= ox < o →
      ∃ v, bget r (oc * (o * o) + (oy * o + ox)) = Ok v
        ∧ is_conv_cell fk inp fbias (bd =? m) n ch k k pd pd s oc oy ox v.
Proof.
  intros. eexists. split; [by eapply kfm_im2col_computes|].
  intros oc oy ox Hoc Hy Hx. apply conv_cell; [by eapply g_kh..|done|done|done].
Qed.

(** C21: [kfm_im2col_ns] is a convolution with a kernel of one row, or of one
    column if the output is square. *)
Theorem kfm_im2col_ns_correct p cur nm input_f offset tot start n ch kh kw ph pw s m bd fk fbias inp :
  pool_ok p →
  has_weight p (val_name nm) [m; ch * (kh * kw)] (m * (ch * (kh * kw))) fk →
  has_weight p (bias_name nm) [bd] bd fbias →
  arr_dims input_f = [tot; n] → offset_selects offset tot start ch →
  0 <= tot <= int_max → tot * n <= int_max →
  reads (arr_data input_f) (start * n) (ch * n) inp →
  ns_shape n kh kw ph pw s → geometry_ok n ch kh kw ph pw s → 0 < ch → 0 < m →
  4 * (out_dim n kh ph s * out_dim n kw pw s * (ch * (kh * kw))) <= MaxAllocSize →
  4 * (m * (out_dim n kh ph s * out_dim n kw pw s)) + 32 <= MaxAllocSize →
  let oh := out_dim n kh ph s in let ow := out_dim n kw pw s in
  ∃ r, kfm_im2col_ns (Some p) cur nm input_f kh kw ph pw s offset
       = Ok (matrix m (oh * ow) r, set_dims input_f [ch; n]) ∧
    ∀ oc oy ox, 0 <= oc < m → 0 <= oy < oh → 0 <= ox < ow →
      ∃ v, bget r (oc * (oh * ow) + (oy * ow + ox)) = Ok v
        ∧ is_conv_cell fk inp fbias (bd =? m) n ch kh kw ph pw s oc oy ox v.
Proof.
  intros. eexists. split; [by eapply kfm_im2col_ns_computes|].
  intros oc oy ox Hoc Hy Hx. apply conv_cell; [by eapply g_kh|by eapply g_kw|done..].
Qed.

(** C14: [group_kfm_im2col] convolves each group of channels with the kernels of
    its group when the stride divides the size it allocates for: row [gn * m + oc]
    of the result is output channel [oc] of group [gn]. *)
Theorem group_kfm_im2col_correct p cur nm input_f g n ch k pd s m bd fk fbias inp :
  pool_ok p →
  has_weight p (val_name nm) [g; m; ch * (k * k)] (g * (m * (ch * (k * k)))) fk →
  has_weight p (bias_name nm) [bd] bd fbias →
  arr_dims input_f = [g * ch; n] → reads (arr_data input_f) 0 (g * (ch * n)) inp →
  geometry_ok n ch k k pd pd s → (Z.sqrt n + 2 * pd - k + 1) mod s = 0 →
  0 < g → 0 < ch → 0 < m → g * (ch * n) <= int_max → g * (m * (ch * (k * k))) <= int_max →
  4 * (g * (out_dim n k pd s * out_dim n k pd s * (ch * (k * k)))) <= MaxAllocSize →
  4 * (g * (m * (out_dim n k pd s * out_dim n k pd s))) + 32 <= MaxAllocSize →
  let o := out_dim n k pd s in
  ∃ r, group_kfm_im2col (Some p) cur nm input_f k pd s g
       = Ok (matrix (g * m) (o * o) r, set_dims input_f [ch; n]) ∧
    ∀ gn oc oy ox, 0 <= gn < g → 0 <= oc < m → 0 <= oy < o → 0 <= ox < o →
      ∃ v, bget r ((gn * m + oc) * (o * o) + (oy * o + ox)) = Ok v
        ∧ is_conv_cell (λ l, fk (gn * (m * (ch * (k * k))) + l)) (λ i, inp (gn * (ch * n) + i))
            (λ c, fbias (gn * m + c)) (bd =? g * m) n ch k k pd pd s oc oy ox v.
Proof.
  intros. eexists. split; [by eapply group_kfm_im2col_computes|].
  intros gn oc oy ox Hgn Hoc Hy Hx.
  assert (g <= g * (out_dim n k pd s * out_dim n k pd s * (ch * (k * k)))).
  { pose proof (group_pos n ch k pd s m) as (? & ? & ? & ? & ?); [done..|]. nia. }
  unfold MaxAllocSize in *.
  eapply (group_cell g n ch k pd s m fk inp); [done| |done..]; int_solve.
Qed.

(** A range of channels that is empty, starts before the first channel or ends
    after the last one is refused with an error before any memory is touched. *)
Theorem kfm_im2col_bad_range p cur nm input_f k pd s o a b tot n :
  arr_dims input_f = [tot; n] → ndim o = 1 → arr_dims o = [2] → arr_data o = [a; b] →
  is_int a → is_int b → ¬ (1 <= a <= b ∧ b <= tot) →
  kfm_im2col p cur nm input_f k pd s (Some o) = Ereport "Invalid offset range".
Proof.
  intros Hd Hnd Hod Hdata Ha Hb Hbad. unfold kfm_im2col, handle_offset, ARR_DIM. rewrite Hd, Hnd, Hod, Hdata.
  change (lget [tot; n] 0) with (Ok tot). change (lget [tot; n] 1) with (Ok n). cbn [mbind res_bind].
  change (lget [2] 0) with (Ok 2). cbn [mbind res_bind Z.eqb Pos.eqb]. rewrite check_true by done.
  change (lget [a; b] 0) with (Ok a). change (lget [a; b] 1) with (Ok b). cbn [mbind res_bind].
  assert ((i32 (a - 1) <? 0) || (tot <? b) || (b <=? i32 (a - 1)) = true) as ->; [|done].
  destruct (decide (a = int_min)) as [->|]; [|rewrite i32_id by int_solve; lia].
  change (i32 (int_min - 1)) with int_max. unfold is_int in Hb. lia.
Qed.
End conv_theorems.

(** ** Witnesses: two channels of two by two elements *)
Definition ex_channels : list Z := [1; 2; 3; 4; 5; 6; 7; 8].

Lemma ex_channel_reads : reads (ex_buf ex_channels) 4 4 (ex_f [5; 6; 7; 8]).
Proof.
  intros i Hi. assert (i = 0 ∨ i = 1 ∨ i = 2 ∨ i = 3) as [->|[->|[->| ->]]] by lia; by vm_compute.
Qed.

Definition ex_second : ArrayType Z := mkArrayType 1 0 INT4OID [2] [1] [] [2; 2].

Lemma kfm_im2col_correct_witness :
  ∃ p r, @kfm_im2col omp_reverse_order reference_blas _ (Some p) 0 "conv" (ex_matrix 2 4 ex_channels) 2 0 1 (Some ex_second)
         = Ok (matrix 1 1 r, set_dims (ex_matrix 2 4 ex_channels) [1; 4]) ∧ ∃ v, bget r 0 = Ok v.
Proof.
  destruct (ex_loaded "conv" [1; 4] [1; 2; 3; 4] [7]) as (p & Hok & Hv & Hb); [done..|].
  destruct (@kfm_im2col_correct omp_reverse_order reference_blas _ _ p 0 "conv" (ex_matrix 2 4 ex_channels)
    (Some ex_second) 2 1 4 1 2 0 1 1 1 _ _ (ex_f [5; 6; 7; 8]) Hok Hv Hb) as (r & H1 & H2);
    [done|by vm_compute|done|done|exact ex_channel_reads|by split; vm_compute|done|done|done|done|].
  exists p, r. split; [exact H1|]. destruct (H2 0 0 0) as (v & Hr & _); [done..|]. by exists v.
Defined.

Lemma kfm_im2col_ns_correct_witness :
  ∃ p r, @kfm_im2col_ns omp_reverse_order reference_blas _ (Some p) 0 "conv" (ex_matrix 2 4 ex_channels) 1 2 0 0 1 (Some ex_second)
         = Ok (matrix 1 2 r, set_dims (ex_matrix 2 4 ex_channels) [1; 4]) ∧ ∃ v, bget r 1 = Ok v.
Proof.
  destruct (ex_loaded "conv" [1; 2] [1; 2] [7]) as (p & Hok & Hv & Hb); [done..|].
  destruct (@kfm_im2col_ns_correct omp_reverse_order reference_blas _ _ p 0 "conv" (ex_matrix 2 4 ex_channels)
    (Some ex_second) 2 1 4 1 1 2 0 0 1 1 1 _ _ (ex_f [5; 6; 7; 8]) Hok Hv Hb) as (r & H1 & H2);
    [done|by vm_compute|done|done|exact ex_channel_reads|by left|by split; vm_compute|done|done|done|done|].
  exists p, r. split; [exact H1|]. destruct (H2 0 1 0) as (v & Hr & _); [done..|]. by exists v.
Defined.

Lemma group_kfm_im2col_correct_witness :
  ∃ p r, @group_kfm_im2col omp_reverse_order reference_blas _ (Some p) 0 "conv" (ex_matrix 2 4 ex_channels) 2 0 1 2
         = Ok (matrix 2 1 r, set_dims (ex_matrix 2 4 ex_channels) [1; 4]) ∧ ∃ v, bget r 1 = Ok v.
Proof.
  destruct (ex_loaded "conv" [2; 1; 4] [1; 2; 3; 4; 5; 6; 7; 8] [7]) as (p & Hok & Hv & Hb); [done..|].
  destruct (@group_kfm_im2col_correct omp_reverse_order reference_blas _ _ p 0 "conv" (ex_matrix 2 4 ex_channels)
    2 4 1 2 0 1 1 1 _ _ (ex_f ex_channels) Hok Hv Hb) as (r & H1 & H2);
    [done|exact (ex_reads ex_channels)|by split; vm_compute|done..|].
  exists p, r. split; [exact H1|]. destruct (H2 1 0 0 0) as (v & Hr & _); [done..|]. by exists v.
Defined.

Lemma kfm_im2col_bad_range_witness :
  @kfm_im2col omp_reverse_order reference_blas _ None 0 "conv" (ex_matrix 2 4 ex_channels) 2 0 1
    (Some (mkArrayType 1 0 INT4OID [2] [1] [] [2; 3])) = Ereport "Invalid offset range".
Proof.
  apply (@kfm_im2col_bad_range omp_reverse_order reference_blas _ None 0 "conv" (ex_matrix 2 4 ex_channels) 2 0 1
    _ 2 3 2 4); [done..|lia].
Defined.
