(* ===== verification/Pool.v ===== *)
(** * Pool: the pooling functions of pool.c

    [maxpool], [avgpool] and [avgpool_conv], the shared loop [avgpool_core] and
    the variant [avgpool_core_optimized_3x3_sse], which is not called.

    A pooled cell is a fold over the elements of the image under the window; the
    elements outside the image are left out.  [avgpool_core] steps from channel
    to channel by [width * height], [maxpool] by the array's second dimension. *)

From Stdlib Require Import SpecFloat.
From S2P Require Import Prelude Float4 PgArray Im2col Sgemm MatrixOps.

Open Scope Z_scope.

Section pool.
  Context `{Omp} `{Cblas}.

Definition maxpool (input_f : farray) (kernel_size padding stride : Z) : res farray :=
  num_channel ← ARR_DIM input_f 0;
  nelems_channel ← ARR_DIM input_f 1;
  let data := arr_data input_f in
  width ← int_sqrt nelems_channel;
  let height := width in
  out_width ← out_size width padding kernel_size stride;
  out_height ← out_size height padding kernel_size stride;
  let out_nelems := i32 (out_width * out_height * num_channel) in
  let out_nelems_channel := i32 (out_width * out_height) in
  feature_map ← float4construct_md_array_ncpy out_nelems 2 [num_channel; i32 (out_width * out_height)] [1; 1]
                  (elemtype input_f);
  res_data ←
    (if padding =? 0 then
       omp_for (seqZ 0 num_channel) (λ c res_data,
         let matrix_head_c := i32 (nelems_channel * c) in
         let res_idx_local := i32 (c * out_nelems_channel) in
         ri ← cfor 0 (i32 (height - kernel_size + 1)) stride (λ rn,
           cfor 0 (i32 (width - kernel_size + 1)) stride (λ cn '(res_data, res_idx_local),
             let matrix_head := i32 (matrix_head_c + rn * width + cn) in
             pool_max ← cfor 0 kernel_size 1 (λ ky,
               cfor 0 kernel_size 1 (λ kx pool_max,
                 v ← bget data (i32 (matrix_head + ky * width + kx));
                 Ok (fmax pool_max v))) f4_neg_inf;
             res_data ← bset res_data res_idx_local pool_max;
             Ok (res_data, i32 (res_idx_local + 1)))) (res_data, res_idx_local);
         Ok (fst ri)) (arr_data feature_map)
     else
       omp_for (seqZ 0 num_channel) (λ c res_data,
         let matrix_head_c := i32 (nelems_channel * c) in
         let res_idx_local := i32 (c * out_nelems_channel) in
         ri ← cfor (i32 (- padding)) (i32 (height + padding - kernel_size + 1)) stride (λ rn,
           cfor (i32 (- padding)) (i32 (width + padding - kernel_size + 1)) stride (λ cn '(res_data, res_idx_local),
             let matrix_head := i32 (matrix_head_c + rn * width + cn) in
             pool_max ← cfor 0 kernel_size 1 (λ ky,
               cfor 0 kernel_size 1 (λ kx pool_max,
                 if (0 <=? i32 (ky + rn)) && (i32 (ky + rn) <? height)
                    && (0 <=? i32 (kx + cn)) && (i32 (kx + cn) <? width)
                 then v ← bget data (i32 (matrix_head + ky * width + kx)); Ok (fmax pool_max v)
                 else Ok pool_max)) f4_neg_inf;
             res_data ← bset res_data res_idx_local pool_max;
             Ok (res_data, i32 (res_idx_local + 1)))) (res_data, res_idx_local);
         Ok (fst ri)) (arr_data feature_map));
  Ok (set_data feature_map res_data).

(** [1.0 / (kernel_size * kernel_size) * 1.0], computed in double and stored in a
    [float4]. *)
Definition div_kernel_size_2 (kernel_size : Z) : float4 :=
  demote (f8_mul (f8_div (f8_of_Z 1) (f8_of_Z (i32 (kernel_size * kernel_size)))) (f8_of_Z 1)).

Definition avgpool_core (input_data avg_data : buf float4)
    (out_nelems_channel width height num_channel kernel_size padding stride : Z) : res (buf float4) :=
  let nelems_channel := i32 (width * height) in
  omp_for (seqZ 0 num_channel) (λ c avg_data,
    let matrix_head_c := i32 (nelems_channel * c) in
    let res_idx_local := i32 (c * out_nelems_channel) in
    ri ← cfor (i32 (- padding)) (i32 (height + padding - kernel_size + 1)) stride (λ rn,
      cfor (i32 (- padding)) (i32 (width + padding - kernel_size + 1)) stride (λ cn '(avg_data, res_idx_local),
        let matrix_head := i32 (matrix_head_c + rn * width + cn) in
        avg_sum ← cfor 0 kernel_size 1 (λ ky,
          cfor 0 kernel_size 1 (λ kx avg_sum,
            if (0 <=? i32 (ky + rn)) && (i32 (ky + rn) <? height)
               && (0 <=? i32 (kx + cn)) && (i32 (kx + cn) <? width)
            then v ← bget input_data (i32 (matrix_head + ky * width + kx)); Ok (f4_add avg_sum v)
            else Ok avg_sum)) f4_zero;
        avg_data ← bset avg_data res_idx_local (f4_mul avg_sum (div_kernel_size_2 kernel_size));
        Ok (avg_data, i32 (res_idx_local + 1)))) (avg_data, res_idx_local);
    Ok (fst ri)) avg_data.

Definition avgpool (input_f : farray) (kernel_size padding stride : Z) : res farray :=
  num_channel ← ARR_DIM input_f 0;
  nelems_channel ← ARR_DIM input_f 1;
  width ← int_sqrt nelems_channel;
  let height := width in
  out_width ← out_size width padding kernel_size stride;
  out_height ← out_size height padding kernel_size stride;
  let out_nelems_channel := i32 (out_width * out_height) in
  res_data ← palloc 4 (out_nelems_channel * num_channel);
  res_data ← avgpool_core (arr_data input_f) res_data out_nelems_channel width height num_channel
               kernel_size padding stride;
  float4construct_md_array res_data (i32 (out_nelems_channel * num_channel)) 2
    [num_channel; i32 (out_width * out_height)] [1; 1] (elemtype input_f).

Definition avgpool_conv (kmatrix fmatrix bias_vec : farray) (kernel_size padding stride : Z) : res farray :=
  f_num_channel ← ARR_DIM fmatrix 0;
  f_nelems_channel ← ARR_DIM fmatrix 1;
  out_channel ← ARR_DIM kmatrix 0;
  klen ← ARR_DIM kmatrix 1;
  width ← int_sqrt f_nelems_channel;
  let height := width in
  out_width ← out_size width padding kernel_size stride;
  out_height ← out_size height padding kernel_size stride;
  let f_out_nelems_channel := i32 (out_width * out_height) in
  f_avg_data ← palloc 4 (f_out_nelems_channel * f_num_channel);
  f_avg_data ← avgpool_core (arr_data fmatrix) f_avg_data f_out_nelems_channel width height f_num_channel
                 kernel_size padding stride;
  if negb (klen =? f_num_channel)
  then Ereport "[avgpool_conv] The number of matrix columns must equal the number of vector elements"
  else
    res_data ← palloc0 f4_zero 4 (out_channel * f_out_nelems_channel);
    res_data ← cblas_sgemm 0 false out_channel f_out_nelems_channel klen (arr_data kmatrix) 0 klen
                 f_avg_data 0 f_out_nelems_channel res_data 0 f_out_nelems_channel;
    bd ← ARR_DIM bias_vec 0;
    res_data ← (if bd =? out_channel
                then bias_epilogue true res_data (arr_data bias_vec) out_channel f_out_nelems_channel
                else Ok res_data);
    float4construct_md_array res_data (i32 (f_out_nelems_channel * out_channel)) 2
      [out_channel; f_out_nelems_channel] [1; 1] FLOAT4OID.

(** Four consecutive floats, as [_mm_loadu_ps] loads them. *)
Definition loadu_ps (b : buf float4) (i : Z) : res (float4 * float4 * float4 * float4) :=
  x0 ← bget b i; x1 ← bget b (i + 1); x2 ← bget b (i + 2); x3 ← bget b (i + 3); Ok (x0, x1, x2, x3).
Definition add_ps (x y : float4 * float4 * float4 * float4) : float4 * float4 * float4 * float4 :=
  let '(x0, x1, x2, x3) := x in
  let '(y0, y1, y2, y3) := y in
  (f4_add x0 y0, f4_add x1 y1, f4_add x2 y2, f4_add x3 y3).

Definition avgpool_core_optimized_3x3_sse (input_data avg_data : buf float4)
    (out_nelems_channel width height num_channel padding stride : Z) : res (buf float4) :=
  let padded_width := i32 (width + 2 * padding) in
  let padded_height := i32 (height + 2 * padding) in
  padded_data ← palloc0 f4_zero 4 (padded_width * padded_height * num_channel);
  padded_data ← cfor 0 num_channel 1 (λ c,
    cfor 0 height 1 (λ h padded_data,
      lcopy padded_data (i32 (c * padded_width * padded_height + (h + padding) * padded_width + padding))
        input_data (i32 (c * width * height + h * width)) width)) padded_data;
  let inv_kernel_size_2 := f4_div (f4_of_Z 1) (f4_of_Z 9) in
  let nelems_channel := i32 (padded_width * padded_height) in
  omp_for (seqZ 0 num_channel) (λ c avg_data,
    let matrix_head_c := i32 (nelems_channel * c) in
    let res_idx_local := i32 (c * out_nelems_channel) in
    ri ← cfor 0 (i32 (padded_height - 2)) stride (λ rn,
      cfor 0 (i32 (padded_width - 2)) stride (λ cn '(avg_data, res_idx_local),
        let matrix_head := i32 (matrix_head_c + rn * padded_width + cn) in
        sum0 ← loadu_ps padded_data matrix_head;
        sum1 ← loadu_ps padded_data (i32 (matrix_head + padded_width));
        sum2 ← loadu_ps padded_data (i32 (matrix_head + 2 * padded_width));
        let '(s0, s1, s2, _) := add_ps (add_ps sum0 sum1) sum2 in
        let total_sum := f4_add (f4_add s0 s1) s2 in
        avg_data ← bset avg_data res_idx_local (f4_mul total_sum inv_kernel_size_2);
        Ok (avg_data, i32 (res_idx_local + 1)))) (avg_data, res_idx_local);
    Ok (fst ri)) avg_data.
End pool.

(** ** What pooling computes *)

(** The elements of channel [c] of a [w] x [w] image, of [nc] elements per channel,
    under the [k] x [k] window with its corner at [(y0, x0)], row by row. *)
Definition window (inp : Z → float4) (nc w k c y0 x0 : Z) : list float4 :=
  ky ← seqZ 0 k;
  omap (λ kx, if (0 <=? y0 + ky) && (y0 + ky <? w) && (0 <=? x0 + kx) && (x0 + kx <? w)
              then Some (inp (c * nc + (y0 + ky) * w + (x0 + kx))) else None) (seqZ 0 k).

(** Cell [x] of the pooled map, which has [o] x [o] cells per channel. *)
Definition pooled (op : float4 → float4 → float4) (init : float4) (fin : float4 → float4)
    (inp : Z → float4) (nc w k p s o : Z) (x : Z) : float4 :=
  let c := x / (o * o) in
  let q := x mod (o * o) in
  fin (foldl op init (window inp nc w k c (q / o * s - p) (q mod o * s - p))).

Lemma foldl_omap {A B C} (op : C → B → C) (g : A → option B) acc l :
  foldl op acc (omap g l) = foldl (λ acc x, match g x with Some v => op acc v | None => acc end) acc l.
Proof. revert acc. induction l as [|x l IH]; intros acc; simpl; [done|]. destruct (g x); simpl; apply IH. Qed.

Lemma foldl_bind {A B C} (op : C → B → C) (g : A → list B) acc (l : list A) :
  foldl op acc (l ≫= g) = foldl (λ acc x, foldl op acc (g x)) acc l.
Proof. revert acc. induction l as [|x l IH]; intros acc; [done|]. csimpl. by rewrite foldl_app, IH. Qed.

Lemma foldl_ext_in {A B} (f g : A → B → A) acc l :
  (∀ acc x, x ∈ l → f acc x = g acc x) → foldl f acc l = foldl g acc l.
Proof.
  revert acc. induction l as [|x l IH]; intros acc Hfg; simpl; [done|].
  rewrite Hfg by set_solver. apply IH. set_solver.
Qed.

Section pooling.
  Context (op : float4 → float4 → float4) (init : float4) (fin : float4 → float4) (inp : Z → float4).
  Context (nc w ch k p s : Z).
  Context (Hw : 0 <= w) (Hnc : w * w <= nc) (Hk : 0 < k) (Hp : 0 <= p) (Hs : 0 < s).
  Context (Hfit : k <= w + 2 * p) (Hint : w + 2 * p + s < int_max).
  Context (Hin : ch * nc <= int_max).
Let o := (w + 2 * p - k) / s + 1.
  Context (Hout : ch * (o * o) <= int_max).

(** The loops over one window. *)
Lemma window_loop cell c y0 x0 :
  (∀ ky kx acc, 0 <= ky < k → 0 <= kx < k →
     cell ky kx acc = Ok (if (0 <=? y0 + ky) && (y0 + ky <? w) && (0 <=? x0 + kx) && (x0 + kx <? w)
                          then op acc (inp (c * nc + (y0 + ky) * w + (x0 + kx))) else acc)) →
  cfor 0 k 1 (λ ky, cfor 0 k 1 (λ kx, cell ky kx)) init
  = Ok (foldl op init (window inp nc w k c y0 x0)).
Proof.
  intros Hcell. assert (0 <= k <= int_max) by lia.
  rewrite (cfor_foldl (λ acc ky, foldl op acc (omap (λ kx,
     if (0 <=? y0 + ky) && (y0 + ky <? w) && (0 <=? x0 + kx) && (x0 + kx <? w)
     then Some (inp (c * nc + (y0 + ky) * w + (x0 + kx))) else None) (seqZ 0 k)))); [|done|].
  - f_equal. unfold window. by rewrite foldl_bind.
  - intros ky acc Hky. rewrite (cfor_foldl (λ acc kx,
      if (0 <=? y0 + ky) && (y0 + ky <? w) && (0 <=? x0 + kx) && (x0 + kx <? w)
      then op acc (inp (c * nc + (y0 + ky) * w + (x0 + kx))) else acc)); [|done|by auto].
    f_equal. rewrite foldl_omap. apply foldl_ext_in. intros acc' kx _. by destruct (_ && _).
Qed.

(** The loops over one channel. *)
Lemma pool_channel cell c (f : buf float4) :
  0 <= c < ch → ch * (o * o) <= zlen f →
  (∀ rn cn ky kx acc, 0 <= ky < k → 0 <= kx < k →
     - p <= rn → rn <= w + p - k → - p <= cn → cn <= w + p - k →
     cell rn cn ky kx acc
     = Ok (if (0 <=? rn + ky) && (rn + ky <? w) && (0 <=? cn + kx) && (cn + kx <? w)
           then op acc (inp (c * nc + (rn + ky) * w + (cn + kx))) else acc)) →
  cfor (- p) (w + p - k + 1) s (λ rn, cfor (- p) (w + p - k + 1) s (λ cn '(f, idx),
    m ← cfor 0 k 1 (λ ky, cfor 0 k 1 (λ kx, cell rn cn ky kx)) init;
    f ← bset f idx (fin m);
    Ok (f, i32 (idx + 1)))) (f, c * (o * o))
  = Ok (fill (pooled op init fin inp nc w k p s o) (c * (o * o)) (o * o) f, c * (o * o) + o * o).
Proof.
  intros Hc Hf Hcell.
  assert (trips (- p) (w + p - k + 1) s = o) as Htr by (apply trips_out; lia).
  assert (0 < o) as Ho by (by apply out_pos).
  rewrite (seq_positions (pooled op init fin inp nc w k p s o) (c * (o * o)) _ _ _ _ s 1);
    [|done|lia|int_solve..|].
  - rewrite Htr. by rewrite Z.mul_1_r.
  - rewrite Htr. intros a b f' Ha Hb Hf'. cbv zeta. rewrite Z.mul_1_r.
    pose proof (axis_bound w p k s a Hs Ha). pose proof (axis_bound w p k s b Hs Hb).
    rewrite (window_loop _ c (- p + a * s) (- p + b * s)) by (intros; apply Hcell; lia).
    cbn [mbind res_bind]. assert (0 <= a * o + b < o * o) by nia.
    assert (0 <= c * (o * o) + (a * o + b) < ch * (o * o)) by nia.
    apply store_step; [|lia|lia]. unfold pooled.
    rewrite Z.div_add_l, (Z.div_small (a * o + b)), Z.add_0_r by lia.
    assert ((c * (o * o) + (a * o + b)) mod (o * o) = a * o + b) as ->.
    { rewrite Z.add_comm, Z.mod_add, Z.mod_small by lia. done. }
    rewrite Z.div_add_l, (Z.div_small b), Z.add_0_r by lia.
    assert ((a * o + b) mod o = b) as -> by (rewrite Z.add_comm, Z.mod_add, Z.mod_small by lia; done).
    do 4 f_equal; lia.
Qed.

(** An element inside the image, read through the wrapped indices of the code. *)
Lemma pool_read data c rn cn ky kx :
  reads data 0 (ch * nc) inp → 0 <= c < ch → 0 <= rn + ky < w → 0 <= cn + kx < w →
  bget data (i32 (i32 (i32 (nc * c) + rn * w + cn) + ky * w + kx))
  = Ok (inp (c * nc + (rn + ky) * w + (cn + kx))).
Proof.
  intros Hr Hc Hy Hx.
  assert (0 <= c * nc + (rn + ky) * w + (cn + kx) < ch * nc) by nia.
  replace (i32 (i32 (i32 (nc * c) + rn * w + cn) + ky * w + kx)) with (i32 (c * nc + (rn + ky) * w + (cn + kx)))
    by i32_ring.
  rewrite i32_id by int_solve. by apply Hr.
Qed.
End pooling.

(** The number of output rows of a [w] x [w] image, as [out_dim] for [w = sqrt n]. *)
Definition pool_dim (w k p s : Z) : Z := (w + 2 * p - k) / s + 1.

(** A square image of [ch] channels of [nc] elements and a window that fits. *)
Record pool_geom (nc w ch k p s : Z) : Prop := {
  pl_w : 0 <= w;
  pl_nc : w * w <= nc;
  pl_ch : 0 <= ch;
  pl_k : 0 < k;
  pl_p : 0 <= p;
  pl_s : 0 < s;
  pl_fit : k <= w + 2 * p;
  pl_int : w + 2 * p + s < int_max;
  pl_in : ch * nc <= int_max;
  pl_out : ch * (pool_dim w k p s * pool_dim w k p s) <= int_max
}.

Lemma pool_dim_bounds nc w ch k p s :
  pool_geom nc w ch k p s → 0 < ch →
  0 < pool_dim w k p s * pool_dim w k p s <= ch * (pool_dim w k p s * pool_dim w k p s).
Proof.
  intros [? ? ? ? ? Hs Hfit ? ? ?] Hch. pose proof (out_pos w p k s Hs Hfit) as Ho. fold (pool_dim w k p s) in Ho.
  split; [by apply Z.mul_pos_pos|]. apply mul_le_l; nia.
Qed.

Lemma avgpool_core_computes `{Omp} inp input_data avg_data w ch k p s :
  pool_geom (w * w) w ch k p s → 0 < ch → reads input_data 0 (ch * (w * w)) inp →
  zlen avg_data = ch * (pool_dim w k p s * pool_dim w k p s) →
  avgpool_core input_data avg_data (pool_dim w k p s * pool_dim w k p s) w w ch k p s
  = Ok (tabulate (pooled f4_add f4_zero (λ v, f4_mul v (div_kernel_size_2 k)) inp (w * w) w k p s (pool_dim w k p s))
          (ch * (pool_dim w k p s * pool_dim w k p s))).
Proof.
  intros Hok Hch Hr Hlen. pose proof (pool_dim_bounds _ _ _ _ _ _ Hok Hch) as Hb.
  destruct Hok as [Hw Hnc _ Hk Hp Hs Hfit Hint Hin Hout].
  unfold avgpool_core. cbv zeta.
  assert (w * w <= int_max) by nia.
  rewrite !(i32_id (w * w)), !(i32_id (- p)), !(i32_id (w + p - k + 1)) by int_nsolve.
  set (o := pool_dim w k p s) in *.
  rewrite (omp_blocks (pooled f4_add f4_zero (λ v, f4_mul v (div_kernel_size_2 k)) inp (w * w) w k p s o) (o * o)).
  - by rewrite <-Hlen, fill_all.
  - lia.
  - intros c f' Hc Hf'. assert (0 <= c * (o * o) < ch * (o * o)) by nia.
    rewrite (i32_id (c * (o * o))) by int_solve.
    rewrite (pool_channel f4_add f4_zero (λ v, f4_mul v (div_kernel_size_2 k)) inp (w * w) w ch k p s);
      [done|done..|unfold o, pool_dim in *; lia|].
    intros rn cn ky kx acc Hky Hkx Hrn Hrn' Hcn Hcn'.
    rewrite (i32_id (ky + rn)), (i32_id (kx + cn)) by int_solve. rewrite (Z.add_comm ky), (Z.add_comm kx).
    destruct (_ && _) eqn:Hc0; [|done].
    rewrite (pool_read inp (w * w) w ch) by (done || lia). done.
Qed.

(** [(w + 2 * p - k) / s + 1] as the code computes it. *)
Lemma pool_out_size nc w ch k p s : pool_geom nc w ch k p s → out_size w p k s = Ok (pool_dim w k p s).
Proof. intros [? ? ? ? ? ? ? ? ? ?]. apply out_size_ok; lia. Qed.

Lemma maxpool_loops `{Omp} inp n w ch k p s (f : buf float4) cell :
  pool_geom n w ch k p s → 0 < ch →
  zlen f = ch * (pool_dim w k p s * pool_dim w k p s) →
  (∀ c rn cn ky kx acc, 0 <= c < ch → 0 <= ky < k → 0 <= kx < k →
     - p <= rn → rn <= w + p - k → - p <= cn → cn <= w + p - k →
     cell c rn cn ky kx acc
     = Ok (if (0 <=? rn + ky) && (rn + ky <? w) && (0 <=? cn + kx) && (cn + kx <? w)
           then fmax acc (inp (c * n + (rn + ky) * w + (cn + kx))) else acc)) →
  omp_for (seqZ 0 ch) (λ c res_data,
    ri ← cfor (- p) (w + p - k + 1) s (λ rn, cfor (- p) (w + p - k + 1) s (λ cn '(res_data, idx),
      m ← cfor 0 k 1 (λ ky, cfor 0 k 1 (λ kx, cell c rn cn ky kx)) f4_neg_inf;
      res_data ← bset res_data idx m;
      Ok (res_data, i32 (idx + 1)))) (res_data, i32 (c * (pool_dim w k p s * pool_dim w k p s)));
    Ok (fst ri)) f
  = Ok (tabulate (pooled fmax f4_neg_inf id inp n w k p s (pool_dim w k p s))
          (ch * (pool_dim w k p s * pool_dim w k p s))).
Proof.
  intros Hok Hch Hlen Hcell. pose proof (pool_dim_bounds _ _ _ _ _ _ Hok Hch) as Hb.
  destruct Hok as [Hw Hnc _ Hk Hp Hs Hfit Hint Hin Hout]. set (o := pool_dim w k p s) in *.
  rewrite (omp_blocks (pooled fmax f4_neg_inf id inp n w k p s o) (o * o)).
  - by rewrite <-Hlen, fill_all.
  - lia.
  - intros c f' Hc Hf'. assert (0 <= c * (o * o) < ch * (o * o)) by nia.
    rewrite (i32_id (c * (o * o))) by int_solve.
    rewrite (pool_channel fmax f4_neg_inf id inp n w ch k p s); [done|done..|unfold o, pool_dim in *; lia|].
    intros. by apply Hcell.
Qed.

Lemma maxpool_computes `{Omp} inp input_f n ch k p s :
  arr_dims input_f = [ch; n] → reads (arr_data input_f) 0 (ch * n) inp → 0 <= n →
  pool_geom n (Z.sqrt n) ch k p s → 0 < ch →
  4 * (ch * (out_dim n k p s * out_dim n k p s)) + 32 <= MaxAllocSize →
  maxpool input_f k p s
  = Ok (matrix ch (out_dim n k p s * out_dim n k p s)
          (tabulate (pooled fmax f4_neg_inf id inp n (Z.sqrt n) k p s (out_dim n k p s))
             (ch * (out_dim n k p s * out_dim n k p s)))).
Proof.
  intros Hd Hr Hn Hok Hch Hmax. pose proof (pool_dim_bounds _ _ _ _ _ _ Hok Hch) as Hb.
  pose proof Hok as [Hw Hnc _ Hk Hp Hs Hfit Hint Hin Hout].
  change (pool_dim (Z.sqrt n) k p s) with (out_dim n k p s) in *. set (o := out_dim n k p s) in *.
  unfold maxpool, ARR_DIM. rewrite Hd. change (lget [ch; n] 0) with (Ok ch). change (lget [ch; n] 1) with (Ok n).
  cbn [mbind res_bind]. unfold int_sqrt. rewrite require_true by lia. cbn [mbind res_bind].
  rewrite !(pool_out_size _ _ _ _ _ _ Hok). cbn [mbind res_bind].
  change (pool_dim (Z.sqrt n) k p s) with o. unfold MaxAllocSize in Hmax.
  replace (o * o * ch) with (ch * (o * o)) by ring. rewrite (i32_id (ch * (o * o))), (i32_id (o * o)) by int_solve.
  rewrite float4construct_md_array_ncpy_2d by (unfold MaxAllocSize; lia). cbn [mbind res_bind].
  change (arr_data (matrix ch (o * o) (tabulate (λ _, f4_zero) (ch * (o * o))))) with
    (tabulate (λ _ : Z, f4_zero) (ch * (o * o))).
  pose proof (maxpool_loops inp n (Z.sqrt n) ch k p s (tabulate (λ _, f4_zero) (ch * (o * o)))) as Hloops.
  change (pool_dim (Z.sqrt n) k p s) with o in Hloops.
  destruct (Z.eqb_spec p 0) as [->|Hp0]; cbv zeta.
  - replace (Z.sqrt n - k + 1) with (Z.sqrt n + 0 - k + 1) by ring. rewrite !(i32_id (Z.sqrt n + 0 - k + 1)) by int_solve.
    change (cfor 0 (Z.sqrt n + 0 - k + 1) s) with (cfor (S := buf float4 * Z) (- 0) (Z.sqrt n + 0 - k + 1) s).
    rewrite Hloops; [done|done|done|rewrite zlen_tabulate; lia|].
    intros c rn cn ky kx acc Hc Hky Hkx Hrn Hrn' Hcn Hcn'.
    rewrite (pool_read inp n (Z.sqrt n) ch) by (done || lia).
    by replace (_ && _ && _ && _) with true by lia.
  - rewrite !(i32_id (- p)), !(i32_id (Z.sqrt n + p - k + 1)) by int_solve.
    rewrite Hloops; [done|done|done|rewrite zlen_tabulate; lia|].
    intros c rn cn ky kx acc Hc Hky Hkx Hrn Hrn' Hcn Hcn'.
    rewrite (i32_id (ky + rn)), (i32_id (kx + cn)) by int_solve. rewrite (Z.add_comm ky), (Z.add_comm kx).
    destruct (_ && _) eqn:Hc0; [|done].
    by rewrite (pool_read inp n (Z.sqrt n) ch) by (done || lia).
Qed.

Lemma pooled_cell op init fin inp nc w k p s o c oy ox :
  0 <= oy < o → 0 <= ox < o →
  pooled op init fin inp nc w k p s o (c * (o * o) + (oy * o + ox))
  = fin (foldl op init (window inp nc w k c (oy * s - p) (ox * s - p))).
Proof.
  intros Hy Hx. assert (0 <= oy * o + ox < o * o) by nia. unfold pooled.
  rewrite Z.div_add_l, (Z.div_small (oy * o + ox)), Z.add_0_r by lia.
  assert ((c * (o * o) + (oy * o + ox)) mod (o * o) = oy * o + ox) as ->.
  { rewrite Z.add_comm, Z.mod_add, Z.mod_small by lia. done. }
  rewrite Z.div_add_l, (Z.div_small ox), Z.add_0_r by lia.
  assert ((oy * o + ox) mod o = ox) as -> by (rewrite Z.add_comm, Z.mod_add, Z.mod_small by lia; done).
  done.
Qed.

(** C26: [maxpool] returns, for every channel and output position, the largest
    number under the window: a value of the window (minus infinity if there is
    no number in it) that no number of the window exceeds.  Elements outside the
    image take no part, and the result does not depend on the schedule. *)
Theorem maxpool_correct `{Omp} inp input_f n ch k p s :
  arr_dims input_f = [ch; n] → reads (arr_data input_f) 0 (ch * n) inp → 0 <= n →
  pool_geom n (Z.sqrt n) ch k p s → 0 < ch →
  4 * (ch * (out_dim n k p s * out_dim n k p s)) + 32 <= MaxAllocSize →
  let o := out_dim n k p s in
  ∃ r, maxpool input_f k p s = Ok (matrix ch (o * o) r) ∧
    ∀ c oy ox, 0 <= c < ch → 0 <= oy < o → 0 <= ox < o →
      let l := window inp n (Z.sqrt n) k c (oy * s - p) (ox * s - p) in
      ∃ v, bget r (c * (o * o) + (oy * o + ox)) = Ok v
        ∧ (v = f4_neg_inf ∨ v ∈ l) ∧ ∀ x, x ∈ l → x ≠ S754_nan → SFleb x v = true.
Proof.
  intros Hd Hr Hn Hok Hch Hmax o. eexists. split; [by eapply maxpool_computes|].
  intros c oy ox Hc Hy Hx l. eexists. split; [apply bget_tabulate; nia|].
  rewrite pooled_cell by done. destruct (foldl_fmax l f4_neg_inf) as (Hin & _ & Hall); done.
Qed.

Lemma avgpool_computes `{Omp} inp input_f w ch k p s :
  arr_dims input_f = [ch; w * w] → reads (arr_data input_f) 0 (ch * (w * w)) inp →
  pool_geom (w * w) w ch k p s → 0 < ch →
  4 * (ch * (pool_dim w k p s * pool_dim w k p s)) + 32 <= MaxAllocSize →
  avgpool input_f k p s
  = Ok (matrix ch (pool_dim w k p s * pool_dim w k p s)
          (tabulate (pooled f4_add f4_zero (λ v, f4_mul v (div_kernel_size_2 k)) inp (w * w) w k p s (pool_dim w k p s))
             (ch * (pool_dim w k p s * pool_dim w k p s)))).
Proof.
  intros Hd Hr Hok Hch Hmax. pose proof (pool_dim_bounds _ _ _ _ _ _ Hok Hch) as Hb.
  pose proof Hok as [Hw _ _ _ _ _ _ _ _ _].
  unfold avgpool, ARR_DIM. rewrite Hd. change (lget [ch; w * w] 0) with (Ok ch).
  change (lget [ch; w * w] 1) with (Ok (w * w)). cbn [mbind res_bind].
  rewrite int_sqrt_square by done. cbn [mbind res_bind]. rewrite !(pool_out_size _ _ _ _ _ _ Hok). cbn [mbind res_bind].
  set (o := pool_dim w k p s) in *. unfold MaxAllocSize in Hmax. rewrite !(i32_id (o * o)) by int_solve.
  rewrite !(Z.mul_comm (o * o) ch). rewrite palloc_ok by (unfold MaxAllocSize; lia). cbn [mbind res_bind].
  pose proof (avgpool_core_computes inp (arr_data input_f) (replicate (Z.to_nat (ch * (o * o))) None) w ch k p s) as Hcore.
  fold o in Hcore. rewrite Hcore by (done || rewrite zlen_replicate; lia). clear Hcore. cbn [mbind res_bind].
  fold o. rewrite (i32_id (ch * (o * o))) by int_solve.
  rewrite float4construct_md_array_2d by (rewrite ?zlen_tabulate; unfold MaxAllocSize; lia). by rewrite take_tabulate.
Qed.

(** C30: [avgpool] returns, for every channel of a square image and every output
    position, the sum of the elements of the image under the window, row by row,
    times the rounded reciprocal of the window's size; padding counts in the
    size. *)
Theorem avgpool_correct `{Omp} inp input_f w ch k p s :
  arr_dims input_f = [ch; w * w] → reads (arr_data input_f) 0 (ch * (w * w)) inp →
  pool_geom (w * w) w ch k p s → 0 < ch →
  4 * (ch * (pool_dim w k p s * pool_dim w k p s)) + 32 <= MaxAllocSize →
  let o := pool_dim w k p s in
  ∃ r, avgpool input_f k p s = Ok (matrix ch (o * o) r) ∧
    ∀ c oy ox, 0 <= c < ch → 0 <= oy < o → 0 <= ox < o →
      bget r (c * (o * o) + (oy * o + ox))
      = Ok (f4_mul (foldl f4_add f4_zero (window inp (w * w) w k c (oy * s - p) (ox * s - p)))
              (div_kernel_size_2 k)).
Proof.
  intros Hd Hr Hok Hch Hmax o. eexists. split; [by eapply avgpool_computes|].
  intros c oy ox Hc Hy Hx. fold o. rewrite bget_tabulate by nia. by rewrite pooled_cell.
Qed.

(** [avgpool_conv] multiplies the kernels with the average-pooled feature map
    and adds the rectified bias. *)
Theorem avgpool_conv_correct `{Omp} `{Cblas} kmatrix fmatrix bias_vec m w ch k p s fk inp bd fbias :
  arr_dims kmatrix = [m; ch] → reads (arr_data kmatrix) 0 (m * ch) fk →
  arr_dims fmatrix = [ch; w * w] → reads (arr_data fmatrix) 0 (ch * (w * w)) inp →
  head (arr_dims bias_vec) = Some bd → reads (arr_data bias_vec) 0 bd fbias →
  pool_geom (w * w) w ch k p s → 0 < ch → 0 < m →
  let o := pool_dim w k p s in
  4 * (ch * (o * o)) <= MaxAllocSize → 4 * (m * (o * o)) + 32 <= MaxAllocSize →
  ∃ r, avgpool_conv kmatrix fmatrix bias_vec k p s = Ok (matrix m (o * o) r) ∧
    ∀ i j, 0 <= i < m → 0 <= j < o * o → ∃ v, bget r (i * (o * o) + j) = Ok v
      ∧ is_product_cell fk (pooled f4_add f4_zero (λ v, f4_mul v (div_kernel_size_2 k)) inp (w * w) w k p s o)
          fbias (bd =? m) true false (o * o) ch i j v.
Proof.
  intros Hkd HK Hfd Hr Hbd HB Hok Hch Hm o Hmax1 Hmax2.
  pose proof (pool_dim_bounds _ _ _ _ _ _ Hok Hch) as Hb. fold o in Hb.
  pose proof Hok as [Hw _ _ _ _ _ _ _ _ _].
  set (spec := pooled f4_add f4_zero (λ v, f4_mul v (div_kernel_size_2 k)) inp (w * w) w k p s o).
  assert (0 < m * (o * o)) by nia.
  exists (tabulate (biased (bd =? m) true fbias (o * o) (gemm_value fk spec false (o * o) ch)) (m * (o * o))).
  split; [|intros i j Hi Hj; by apply biased_cell].
  unfold avgpool_conv, ARR_DIM. rewrite Hkd, Hfd. change (lget [m; ch] 0) with (Ok m).
  change (lget [m; ch] 1) with (Ok ch). change (lget [ch; w * w] 0) with (Ok ch).
  change (lget [ch; w * w] 1) with (Ok (w * w)). cbn [mbind res_bind].
  rewrite int_sqrt_square by done. cbn [mbind res_bind]. rewrite !(pool_out_size _ _ _ _ _ _ Hok). cbn [mbind res_bind].
  fold o. unfold MaxAllocSize in *. rewrite !(i32_id (o * o)) by int_solve.
  rewrite !(Z.mul_comm (o * o) ch). rewrite palloc_ok by (unfold MaxAllocSize; lia). cbn [mbind res_bind].
  pose proof (avgpool_core_computes inp (arr_data fmatrix) (replicate (Z.to_nat (ch * (o * o))) None) w ch k p s) as Hcore.
  fold o in Hcore. rewrite Hcore by (done || rewrite zlen_replicate; lia). clear Hcore. cbn [mbind res_bind].
  fold o spec. rewrite Z.eqb_refl. cbn [negb]. rewrite palloc0_ok by (unfold MaxAllocSize; lia). cbn [mbind res_bind].
  pose proof (gemm_with_bias false m (o * o) ch (arr_data kmatrix) (tabulate spec (ch * (o * o)))
    (tabulate (λ _, f4_zero) (m * (o * o))) fk spec (bd =? m) true (arr_data bias_vec) fbias) as Hg.
  apply res_bind_Ok in Hg as (C & HC & Hbias); [|try lia; try done..];
    [|int_solve|rewrite zlen_tabulate; lia|intros i Hi; rewrite Z.add_0_l; apply bget_tabulate; lia
     |intros ->%Z.eqb_eq; done].
  rewrite HC. cbn [mbind res_bind].
  assert (lget (arr_dims bias_vec) 0 = Ok bd) as -> by (destruct (arr_dims bias_vec); simplify_eq/=; done).
  cbn [mbind res_bind]. rewrite Hbias. cbn [mbind res_bind].
  rewrite (Z.mul_comm (o * o) m), (i32_id (m * (o * o))) by int_solve.
  rewrite float4construct_md_array_2d by (rewrite ?zlen_tabulate; unfold MaxAllocSize; lia). by rewrite take_tabulate.
Qed.

Lemma foldM_ext_in {A S} (f g : A → S → res S) xs s :
  (∀ x s, x ∈ xs → f x s = g x s) → foldM f xs s = foldM g xs s.
Proof.
  revert s. induction xs as [|x xs IH]; intros s Hfg; simpl; [done|].
  rewrite Hfg by set_solver. destruct (g x s); simpl; try done. apply IH. set_solver.
Qed.

(** C40: A window larger than the padded image by less than the stride: the sizes,
    computed by division that truncates towards zero, announce one position, but
    the loops run over none, and [avgpool] returns memory that was never written. *)
Theorem avgpool_window_too_large `{Omp} input_f w ch k p s :
  arr_dims input_f = [ch; w * w] → 0 <= w → 0 < ch → 0 <= p → 0 < k → k <= int_max → w + 2 * p < int_max →
  s <= int_max → w + 2 * p < k < w + 2 * p + s → 4 * ch + 32 <= MaxAllocSize →
  avgpool input_f k p s = Ok (matrix ch 1 (replicate (Z.to_nat ch) None)).
Proof.
  intros Hd Hw Hch Hp Hk Hkm Hwm Hsm Hbig Hmax. unfold avgpool, ARR_DIM. rewrite Hd.
  change (lget [ch; w * w] 0) with (Ok ch). change (lget [ch; w * w] 1) with (Ok (w * w)). cbn [mbind res_bind].
  rewrite int_sqrt_square by done. cbn [mbind res_bind].
  assert (out_size w p k s = Ok 1) as ->.
  { unfold out_size, idiv. rewrite i32_id by int_solve.
    assert (Z.quot (w + 2 * p - k) s = 0) as Hq by (apply Z.quot_small_iff; lia).
    rewrite Hq, require_true by (unfold int_min; lia). done. }
  cbn [mbind res_bind]. change (i32 (1 * 1)) with 1. rewrite Z.mul_1_l.
  rewrite palloc_ok by (unfold MaxAllocSize in *; lia). cbn [mbind res_bind].
  unfold avgpool_core, omp_for. cbv zeta.
  rewrite (i32_id (- p)), !(i32_id (w + p - k + 1)) by int_solve.
  assert (∀ cs, foldM (λ c avg_data, ri ← Ok (avg_data, i32 (c * 1)); Ok (fst ri)) cs
            (replicate (Z.to_nat ch) (@None float4)) = Ok (replicate (Z.to_nat ch) None)) as Hskip.
  { intros cs. induction cs; simpl; done. }
  erewrite foldM_ext_in; [rewrite Hskip|intros c f _; rewrite cfor_skip by lia; reflexivity].
  cbn [mbind res_bind]. unfold MaxAllocSize in Hmax. rewrite (i32_id ch) by int_solve.
  rewrite float4construct_md_array_2d by (rewrite ?zlen_replicate; unfold MaxAllocSize; lia).
  do 2 f_equal. apply take_ge. rewrite length_replicate. lia.
Qed.

(** [avgpool_core_optimized_3x3_sse] loads four floats for three columns, so
    that on a single 3 x 3 channel without padding it reads past the end of its
    padded copy. *)
Theorem avgpool_sse_overread `{Omp} x0 x1 x2 x3 x4 x5 x6 x7 x8 avg :
  avgpool_core_optimized_3x3_sse (Some <$> [x0; x1; x2; x3; x4; x5; x6; x7; x8]) [avg] 1 3 3 1 0 1
  = Stuck OutOfBounds.
Proof.
  unfold avgpool_core_optimized_3x3_sse, omp_for.
  assert (omp_order (seqZ 0 1) = [0]) as Hord.
  { apply Permutation_singleton_r. apply (omp_order_perm (seqZ 0 1)). }
  rewrite Hord. vm_compute. done.
Qed.

(** ** Witnesses: one channel of two by two elements *)
Lemma maxpool_correct_witness :
  ∃ r, @maxpool omp_reverse_order (ex_matrix 1 4 [1; 2; 3; 4]) 2 1 1 = Ok (matrix 1 9 r).
Proof.
  destruct (@maxpool_correct omp_reverse_order (ex_f [1; 2; 3; 4]) (ex_matrix 1 4 [1; 2; 3; 4]) 4 1 2 1 1)
    as (r & Hr & _); [done|exact (ex_reads [1; 2; 3; 4])|done|by split; vm_compute|done|done|].
  exists r. exact Hr.
Defined.

Lemma avgpool_correct_witness :
  ∃ r, @avgpool omp_reverse_order (ex_matrix 1 4 [1; 2; 3; 4]) 2 0 2 = Ok (matrix 1 1 r).
Proof.
  destruct (@avgpool_correct omp_reverse_order (ex_f [1; 2; 3; 4]) (ex_matrix 1 4 [1; 2; 3; 4]) 2 1 2 0 2)
    as (r & Hr & _); [done|exact (ex_reads [1; 2; 3; 4])|by split; vm_compute|done|done|].
  exists r. exact Hr.
Defined.

Lemma avgpool_conv_correct_witness :
  ∃ r, @avgpool_conv omp_reverse_order reference_blas (ex_matrix 1 1 [3]) (ex_matrix 1 4 [1; 2; 3; 4])
         (mkArrayType 1 0 FLOAT4OID [1] [1] [] (ex_buf [7])) 2 0 2 = Ok (matrix 1 1 r).
Proof.
  destruct (@avgpool_conv_correct omp_reverse_order reference_blas (ex_matrix 1 1 [3]) (ex_matrix 1 4 [1; 2; 3; 4])
    (mkArrayType 1 0 FLOAT4OID [1] [1] [] (ex_buf [7])) 1 2 1 2 0 2 (ex_f [3]) (ex_f [1; 2; 3; 4]) 1 (ex_f [7]))
    as (r & Hr & _);
    [done|exact (ex_reads [3])|done|exact (ex_reads [1; 2; 3; 4])|done|exact (ex_reads [7])|by split; vm_compute
    |done|done|done|done|].
  exists r. exact Hr.
Defined.

Lemma avgpool_window_too_large_witness :
  @avgpool omp_reverse_order (ex_matrix 1 4 [1; 2; 3; 4]) 3 0 2 = Ok (matrix 1 1 [None]).
Proof.
  apply (@avgpool_window_too_large omp_reverse_order (ex_matrix 1 4 [1; 2; 3; 4]) 2 1 3 0 2); done.
Defined.
