(* ===== verification/TextCnn.v ===== *)
(** * TextCnn: the text convolution of textcnn.c

    [conv_text] unfolds one image of words by embeddings, multiplies the kernels
    of the weight pool with the patches, adds the bias, and keeps the largest
    value of every output channel.

    The output has the size of a convolution with padding, but the loops run over
    the image without padding: the patches that would need padding stay zero. *)

From Stdlib Require Import SpecFloat.
From S2P Require Import Prelude Float4 CString PgArray Im2col Sgemm Dynahash HashTable LruCache ModelBuffer MatrixOps.
From stdpp Require Import strings.

Open Scope Z_scope.

(** [pool_max = fmax(pool_max, x)] on [float4]s: the call works on doubles. *)
Definition fmax_f4 (x y : float4) : float4 := demote (fmax (promote x) (promote y)).

Section text.
  Context `{Omp} `{Cblas} `{HashTable WeightEntry}.

Definition conv_text (pool : option WeightPool) (cur : Z) (kmatrix_name : string) (array_input_f : farray)
    (kernel_H kernel_W padding_H padding_W stride : Z) : res farray :=
  let num_channel := 1 in
  d0 ← ARR_DIM array_input_f 0;
  d1 ← ARR_DIM array_input_f 1;
  let nelems_channel := i32 (d0 * d1) in
  let input_f := arr_data array_input_f in
  let height := d0 in
  let width := d1 in
  out_height ← out_size height padding_H kernel_H stride;
  out_width ← out_size width padding_W kernel_W stride;
  let out_nelems := i32 (out_height * out_width * num_channel * kernel_W * kernel_H) in
  f_matrix ← palloc0 f4_zero 4 out_nelems;
  rows ← omp_range 0 (i32 (height - kernel_H + 1)) stride;
  cols ← omp_range 0 (i32 (width - kernel_W + 1)) stride;
  f_matrix ← omp_for (pairs rows cols) (λ '(rn, cn) f_matrix,
    a ← idiv rn stride;
    b ← idiv cn stride;
    let res_idx_local := i32 ((a * out_width + b) * num_channel * kernel_H * kernel_W) in
    let matrix_head := i32 (rn * width + cn) in
    fi ← cfor 0 num_channel 1 (λ c,
      let matrix_head_c := i32 (matrix_head + nelems_channel * c) in
      cfor 0 kernel_H 1 (λ ky,
        cfor 0 kernel_W 1 (λ kx '(f_matrix, res_idx_local),
          v ← bget input_f (i32 (matrix_head_c + width * ky + kx));
          f_matrix ← bset f_matrix res_idx_local v;
          Ok (f_matrix, i32 (res_idx_local + 1)))))
      (f_matrix, res_idx_local);
    Ok (fst fi)) f_matrix;
  let f_dims0 := i32 (out_width * out_height) in
  let f_dims1 := i32 (num_channel * kernel_H * kernel_W) in
  match pool with
  | None => Ereport "[conv_text] WEIGHT POOL is NULL"
  | Some _ =>
      '(kmatrix_entry, k_matrix) ← load_weight pool cur (val_name kmatrix_name) "[kfm_im2col] %s_val not found";
      k_channel ← entry_dim kmatrix_entry 0;
      klen ← entry_dim kmatrix_entry 1;
      if negb (klen =? f_dims1) then Ereport cols_msg
      else
        let res_rows := k_channel in
        let res_cols := f_dims0 in
        res_data ← palloc 4 (res_rows * res_cols);
        res_data ← cblas_sgemm 0 true res_rows res_cols klen k_matrix 0 klen f_matrix 0 klen res_data 0 res_cols;
        '(bias_entry, bias) ← load_weight pool cur (bias_name kmatrix_name) "[kfm_im2col] %s_bias not found";
        bd ← entry_dim bias_entry 0;
        res_data ← (if bd =? k_channel then bias_epilogue true res_data bias k_channel res_cols else Ok res_data);
        (* maxpool 1d *)
        max_res_data ← palloc 8 res_rows;
        max_res_data ← cfor 0 res_rows 1 (λ i max_res_data,
          let matrix_head := i32 (i * res_cols) in
          pool_max ← cfor 0 res_cols 1 (λ j pool_max,
            v ← bget res_data (i32 (matrix_head + j)); Ok (fmax_f4 pool_max v)) f4_neg_inf;
          bset max_res_data i pool_max) max_res_data;
        construct_array (Some f4_zero) max_res_data res_rows FLOAT4OID
  end.
End text.

(** ** The patch matrix

    [vh] x [vw] positions have their window inside the [h] x [w] image; the matrix
    has a row for each of the [oh] x [ow] positions of the padded convolution. *)
Definition text_spec (inp : Z → float4) (w kh kw s vh vw ow : Z) (j : Z) : float4 :=
  let pos := j / (kh * kw) in
  let r := j mod (kh * kw) in
  if (pos / ow <? vh) && (pos mod ow <? vw)
  then inp ((pos / ow * s + r / kw) * w + (pos mod ow * s + r mod kw)) else f4_zero.

Lemma text_spec_cell inp w kh kw s vh vw ow oy ox r :
  0 <= ox < ow → 0 <= r < kh * kw →
  text_spec inp w kh kw s vh vw ow ((oy * ow + ox) * (kh * kw) + r)
  = if (oy <? vh) && (ox <? vw) then inp ((oy * s + r / kw) * w + (ox * s + r mod kw)) else f4_zero.
Proof.
  intros Hox Hr. unfold text_spec.
  assert (((oy * ow + ox) * (kh * kw) + r) / (kh * kw) = oy * ow + ox) as ->.
  { rewrite Z.div_add_l, Z.div_small by lia. lia. }
  assert (((oy * ow + ox) * (kh * kw) + r) mod (kh * kw) = r) as ->.
  { rewrite Z.add_comm, Z.mod_add, Z.mod_small by lia. done. }
  rewrite Z.div_add_l, (Z.div_small ox), Z.add_0_r by lia.
  assert ((oy * ow + ox) mod ow = ox) as -> by (rewrite Z.add_comm, Z.mod_add, Z.mod_small by lia; done).
  done.
Qed.

(** The image, the kernel and the sizes. *)
Record text_geom (h w kh kw ph pw s : Z) : Prop := {
  t_kh : 0 < kh <= h;
  t_kw : 0 < kw <= w;
  t_ph : 0 <= ph;
  t_pw : 0 <= pw;
  t_s : 0 < s;
  t_inth : h + 2 * ph + s < int_max;
  t_intw : w + 2 * pw + s < int_max;
  t_in : h * w <= int_max;
  t_out : ((h + 2 * ph - kh) / s + 1) * ((w + 2 * pw - kw) / s + 1) * (kh * kw) <= int_max
}.

(** The output position a cell belongs to. *)
Lemma cell_position oh ow len j :
  0 < ow → 0 < len → 0 <= j < oh * ow * len →
  let pos := j / len in
  0 <= pos / ow < oh ∧ 0 <= pos mod ow < ow ∧ pos = pos / ow * ow + pos mod ow ∧ pos * len <= j < pos * len + len.
Proof.
  intros How Hlen Hj pos.
  pose proof (Z.div_mod j len ltac:(lia)). pose proof (Z.mod_pos_bound j len Hlen).
  pose proof (Z.div_mod pos ow ltac:(lia)). pose proof (Z.mod_pos_bound pos ow How).
  assert (0 <= pos < oh * ow) by (split; [apply Z.div_pos; lia|apply Z.div_lt_upper_bound; lia]).
  assert (0 <= pos / ow < oh) by (split; [apply Z.div_pos; lia|apply Z.div_lt_upper_bound; lia]).
  unfold pos in *. lia.
Qed.

(** Blocks of [len] cells that overlap are the same block. *)
Lemma same_block len x y j : 0 < len → x * len <= j < x * len + len → y * len <= j < y * len + len → x = y.
Proof.
  intros Hlen Hx Hy. rewrite (Z.div_unique_pos j len x (j - x * len)) by lia.
  symmetry. apply (Z.div_unique_pos j len y (j - y * len)); lia.
Qed.

Section text_unfold.
  Context `{Omp} (inp : Z → float4) (h w kh kw ph pw s : Z).
  Context (Hgeo : text_geom h w kh kw ph pw s).
Let oh := (h + 2 * ph - kh) / s + 1.
Let ow := (w + 2 * pw - kw) / s + 1.
Let vh := (h - kh) / s + 1.
Let vw := (w - kw) / s + 1.

Lemma text_sizes : 0 < vh <= oh ∧ 0 < vw <= ow ∧ 0 < kh * kw ∧ 0 < oh * ow ∧ oh * ow <= oh * ow * (kh * kw)
  ∧ kh * kw <= oh * ow * (kh * kw).
Proof.
  destruct Hgeo as [? ? ? ? Hs _ _ _ _].
  assert (0 <= (h - kh) / s ∧ 0 <= (w - kw) / s) as [? ?] by (split; apply Z.div_pos; lia).
  assert (vh <= oh) by (unfold vh, oh; pose proof (Z.div_le_mono (h - kh) (h + 2 * ph - kh) s Hs ltac:(lia)); lia).
  assert (vw <= ow) by (unfold vw, ow; pose proof (Z.div_le_mono (w - kw) (w + 2 * pw - kw) s Hs ltac:(lia)); lia).
  assert (0 < vh ∧ 0 < vw) as [? ?] by (unfold vh, vw; lia).
  assert (0 < kh * kw) by (apply Z.mul_pos_pos; lia). assert (0 < oh * ow) by (apply Z.mul_pos_pos; lia).
  repeat split; try done; try lia; nia.
Qed.

(** One iteration copies one window. *)
Lemma text_body (input f : buf float4) a b :
  reads input 0 (h * w) inp → 0 <= a < vh → 0 <= b < vw → zlen f = oh * ow * (kh * kw) →
  (a0 ← idiv (a * s) s;
   b0 ← idiv (b * s) s;
   fi ← cfor 0 1 1 (λ c, cfor 0 kh 1 (λ ky, cfor 0 kw 1 (λ kx '(f_matrix, idx),
     v ← bget input (i32 (i32 (i32 (a * s * w + b * s) + i32 (h * w) * c) + w * ky + kx));
     f_matrix ← bset f_matrix idx v;
     Ok (f_matrix, i32 (idx + 1))))) (f, i32 ((a0 * ow + b0) * 1 * kh * kw));
   Ok (fst fi))
  = Ok (fill (text_spec inp w kh kw s vh vw ow) ((a * ow + b) * (kh * kw)) (kh * kw) f).
Proof.
  intros Hr Ha Hb Hf. destruct text_sizes as (? & ? & Hlen & Hpos & Hle1 & Hle2).
  pose proof Hgeo as [Hkh Hkw Hph Hpw Hs Hih Hiw Hin Hout]. fold oh ow in Hout.
  assert (0 <= a * s <= h - kh) as Has by (pose proof (Z.mul_div_le (h - kh) s Hs); unfold vh in *; nia).
  assert (0 <= b * s <= w - kw) as Hbs by (pose proof (Z.mul_div_le (w - kw) s Hs); unfold vw in *; nia).
  rewrite !idiv_pos, !Z.div_mul by lia. cbn [mbind res_bind].
  assert (0 <= a * ow + b < oh * ow) by nia.
  assert (0 <= (a * ow + b) * (kh * kw) ∧ (a * ow + b) * (kh * kw) + kh * kw <= oh * ow * (kh * kw)) as [? ?] by nia.
  replace ((a * ow + b) * 1 * kh * kw) with ((a * ow + b) * (kh * kw)) by ring.
  rewrite (i32_id ((a * ow + b) * (kh * kw))) by int_solve.
  rewrite (nest3_fill (text_spec inp w kh kw s vh vw ow) 1 kh kw); [|int_solve|int_solve|int_solve|].
  - cbn [mbind res_bind fst]. by rewrite Z.mul_1_l.
  - intros c ky kx f' Hc Hky Hkx Hf'. cbv zeta. assert (c = 0) as -> by lia.
    rewrite Z.mul_0_l, Z.add_0_l, Z.mul_0_r, Z.add_0_r.
    assert (0 <= ky * kw + kx < kh * kw) by nia.
    assert (0 <= (a * s + ky) * w + (b * s + kx) < h * w) by nia.
    replace (i32 (i32 (i32 (a * s * w + b * s)) + w * ky + kx)) with (i32 ((a * s + ky) * w + (b * s + kx)))
      by i32_ring.
    rewrite (i32_id ((a * s + ky) * w + (b * s + kx))) by int_solve.
    pose proof (Hr ((a * s + ky) * w + (b * s + kx)) ltac:(lia)) as Hv. rewrite Z.add_0_l in Hv. rewrite Hv.
    cbn [mbind res_bind].
    apply store_step; [|lia|lia]. rewrite text_spec_cell by lia.
    replace ((a <? vh) && (b <? vw)) with true by lia.
    rewrite Z.div_add_l, (Z.div_small kx), Z.add_0_r by lia.
    rewrite (Z.add_comm (ky * kw)), Z.mod_add, Z.mod_small by lia. done.
Qed.

Lemma text_unfold (input : buf float4) :
  reads input 0 (h * w) inp →
  omp_for (pairs (range 0 (h - kh + 1) s) (range 0 (w - kw + 1) s)) (λ '(rn, cn) f_matrix,
    a ← idiv rn s;
    b ← idiv cn s;
    fi ← cfor 0 1 1 (λ c, cfor 0 kh 1 (λ ky, cfor 0 kw 1 (λ kx '(f_matrix, idx),
      v ← bget input (i32 (i32 (i32 (rn * w + cn) + i32 (h * w) * c) + w * ky + kx));
      f_matrix ← bset f_matrix idx v;
      Ok (f_matrix, i32 (idx + 1))))) (f_matrix, i32 ((a * ow + b) * 1 * kh * kw));
    Ok (fst fi)) (tabulate (λ _, f4_zero) (oh * ow * (kh * kw)))
  = Ok (tabulate (text_spec inp w kh kw s vh vw ow) (oh * ow * (kh * kw))).
Proof.
  intros Hr. destruct text_sizes as (? & ? & Hlen & Hpos & Hle1 & Hle2).
  pose proof Hgeo as [Hkh Hkw Hph Hpw Hs Hih Hiw Hin Hout].
  assert (∀ size k, 0 < k <= size → counters (range 0 (size - k + 1) s) 0 s ((size - k) / s + 1)) as Hcnt.
  { intros size k Hk. pose proof (counters_out size 0 k s Hs ltac:(lia)) as Hc.
    rewrite Z.mul_0_r, !Z.add_0_r in Hc. exact Hc. }
  pose proof (Hcnt h kh Hkh) as Hrows. pose proof (Hcnt w kw Hkw) as Hcols. fold vh in Hrows. fold vw in Hcols.
  unfold omp_for.
  set (len := kh * kw) in *. set (total := oh * ow * len) in *.
  set (its := omp_order _). set (body := λ '(rn, cn) f_matrix, _).
  assert (∀ rn cn, (rn, cn) ∈ its → ∃ a b, rn = a * s ∧ cn = b * s ∧ 0 <= a < vh ∧ 0 <= b < vw) as Hits.
  { intros rn cn Hit. unfold its in Hit. rewrite omp_order_perm in Hit.
    apply elem_of_pairs in Hit as [(a & -> & Ha)%Hrows (b & -> & Hb)%Hcols]. by exists a, b. }
  destruct (foldM_fill (text_spec inp w kh kw s vh vw ow) (λ it, (it.1 / s * ow + it.2 / s) * len) len its body
              (tabulate (λ _, f4_zero) total)) as (f' & Hf' & Hz & Hinside & Houtside).
  { intros [rn cn] f1 Hit Hf1. rewrite zlen_tabulate in Hf1 by lia.
    destruct (Hits rn cn Hit) as (a & b & -> & -> & Ha & Hb). simpl. rewrite !Z.div_mul by lia.
    by apply text_body. }
  rewrite Hf'. f_equal. apply list_eq. intros j. rewrite zlen_tabulate in Hz by lia.
  destruct (decide (j < total)) as [Hj|Hj]; cycle 1.
  { rewrite !lookup_ge_None_2; [done|..]; [|unfold zlen in Hz; lia].
    unfold tabulate. rewrite length_fmap, length_seqZ. lia. }
  rewrite lookup_tabulate by done.
  destruct (cell_position oh ow len j) as (Hy & Hx & Heq & Hblock); [lia|done|unfold total in Hj; lia|].
  set (pos := j / len) in *.
  destruct (decide (pos / ow < vh ∧ pos mod ow < vw)) as [Hin'|Hout'].
  - apply Hinside; [|unfold tabulate; rewrite length_fmap, length_seqZ; lia].
    exists (pos / ow * s, pos mod ow * s). split; [|simpl; rewrite !Z.div_mul by lia; rewrite <-Heq; exact Hblock].
    unfold its. rewrite omp_order_perm. apply elem_of_pairs. split; [apply Hrows|apply Hcols];
      eexists; (split; [reflexivity|]); lia.
  - rewrite Houtside.
    + rewrite lookup_tabulate by done. do 2 f_equal. unfold text_spec. fold len pos.
      by replace ((pos / ow <? vh) && (pos mod ow <? vw)) with false by lia.
    + intros [rn cn] Hit Hc. destruct (Hits rn cn Hit) as (a & b & -> & -> & Ha & Hb). simpl in Hc.
      rewrite !Z.div_mul in Hc by lia. apply Hout'.
      assert (pos = a * ow + b) as -> by (by apply (same_block len _ _ j)).
      rewrite Z.div_add_l, (Z.div_small b), Z.add_0_r by lia.
      rewrite (Z.add_comm (a * ow)), Z.mod_add, Z.mod_small by lia. lia.
Qed.
End text_unfold.

(** ** The pooled product *)

Section text_conv.
  Context `{Omp} `{Cblas} `{HashTableLaws WeightEntry}.

(** The last loops: the running maximum of every row. *)
Lemma row_maxima (spec : Z → float4) m cols (r : buf float4) :
  0 <= m <= int_max → 0 < cols → m * cols <= int_max → zlen r = m →
  cfor 0 m 1 (λ i r,
    pool_max ← cfor 0 cols 1 (λ j pool_max,
      v ← bget (tabulate spec (m * cols)) (i32 (i32 (i * cols) + j)); Ok (fmax_f4 pool_max v)) f4_neg_inf;
    bset r i pool_max) r
  = Ok (tabulate (λ i, foldl fmax_f4 f4_neg_inf ((λ j, spec (i * cols + j)) <$> seqZ 0 cols)) m).
Proof.
  intros Hm Hcols Hmax Hr.
  rewrite (cfor_blocks (λ i, foldl fmax_f4 f4_neg_inf ((λ j, spec (i * cols + j)) <$> seqZ 0 cols)) 1); [|done|lia|].
  - rewrite Z.mul_1_r, <-Hr. by rewrite fill_all.
  - intros i r' Hi Hr'. assert (0 <= i * cols ∧ i * cols + cols <= m * cols) as [? ?] by nia.
    rewrite (i32_id (i * cols)) by int_solve.
    rewrite (cfor_foldl (λ acc j, fmax_f4 acc (spec (i * cols + j)))); [|int_solve|].
    + cbn [mbind res_bind]. rewrite Z.mul_1_r. rewrite <-bset_fill by lia. cbv beta. by rewrite foldl_fmap.
    + intros j acc Hj. rewrite i32_id by int_solve. by rewrite bget_tabulate by lia.
Qed.

(** C27: [conv_text] returns one value per output channel: the running maximum, from
    minus infinity, of the channel's cells, each of which is the product of the
    kernel with a patch, plus the bias and rectified if there is one.  The patch
    of a position is the window of the image where it fits without padding, and
    zero elsewhere. *)
Theorem conv_text_correct p cur nm input_f h w kh kw ph pw s m bd fk fbias inp :
  pool_ok p →
  has_weight p (val_name nm) [m; kh * kw] (m * (kh * kw)) fk → has_weight p (bias_name nm) [bd] bd fbias →
  arr_dims input_f = [h; w] → reads (arr_data input_f) 0 (h * w) inp →
  text_geom h w kh kw ph pw s → 0 < m <= MaxArraySize →
  let oh := (h + 2 * ph - kh) / s + 1 in
  let ow := (w + 2 * pw - kw) / s + 1 in
  let patches := text_spec inp w kh kw s ((h - kh) / s + 1) ((w - kw) / s + 1) ow in
  4 * (oh * ow * (kh * kw)) <= MaxAllocSize → 4 * (m * (oh * ow)) <= MaxAllocSize →
  ∃ r cell, conv_text (Some p) cur nm input_f kh kw ph pw s = Ok (mkArrayType 1 0 FLOAT4OID [m] [1] [] r) ∧
    (∀ oc j, 0 <= oc < m → 0 <= j < oh * ow →
       is_product_cell fk patches fbias (bd =? m) true true (oh * ow) (kh * kw) oc j (cell oc j)) ∧
    ∀ oc, 0 <= oc < m → bget r oc = Ok (foldl fmax_f4 f4_neg_inf (cell oc <$> seqZ 0 (oh * ow))).
Proof.
  intros Hok Hkw Hbw Hd Hr Hgeo Hm oh ow patches Hmax1 Hmax2.
  pose proof (text_sizes h w kh kw ph pw s Hgeo) as (_ & _ & Hlen & Hpos & Hle1 & Hle2).
  pose proof Hgeo as [Hkh Hkw0 Hph Hpw Hs Hih Hiw Hin Hout]. fold oh ow in Hpos, Hle1, Hle2, Hout.
  set (value := biased (bd =? m) true fbias (oh * ow) (gemm_value fk patches true (oh * ow) (kh * kw))).
  exists (tabulate (λ i, foldl fmax_f4 f4_neg_inf ((λ j, value (i * (oh * ow) + j)) <$> seqZ 0 (oh * ow))) m),
    (λ oc j, value (oc * (oh * ow) + j)). split_and!; cycle 1.
  { intros oc j Hoc Hj.
    destruct (biased_cell fk patches fbias (bd =? m) true true m (oh * ow) (kh * kw) oc j Hoc Hj) as (v & Hv & Hc).
    rewrite bget_tabulate in Hv by nia. injection Hv as <-. exact Hc. }
  { intros oc Hoc. by rewrite bget_tabulate. }
  unfold conv_text, ARR_DIM. rewrite Hd. change (lget [h; w] 0) with (Ok h). change (lget [h; w] 1) with (Ok w).
  cbn [mbind res_bind]. rewrite !out_size_ok by lia. cbn [mbind res_bind]. fold oh ow.
  replace (oh * ow * 1 * kw * kh) with (oh * ow * (kh * kw)) by ring. rewrite (Z.mul_comm ow oh).
  replace (1 * kh * kw) with (kh * kw) by ring. unfold MaxAllocSize in Hmax1, Hmax2.
  rewrite (i32_id (oh * ow * (kh * kw))), (i32_id (h - kh + 1)), (i32_id (w - kw + 1)), (i32_id (oh * ow)),
    (i32_id (kh * kw)) by int_solve.
  rewrite palloc0_ok by (unfold MaxAllocSize; lia). cbn [mbind res_bind].
  rewrite !omp_range_ok by done. cbn [mbind res_bind].
  pose proof (text_unfold inp h w kh kw ph pw s Hgeo (arr_data input_f) Hr) as Hunf. fold oh ow patches in Hunf.
  rewrite Hunf. clear Hunf. cbn [mbind res_bind].
  destruct (load_weight_ok p cur _ "[kfm_im2col] %s_val not found" _ _ _ Hok Hkw) as (ke & kb & -> & HK & Hkd).
  destruct (load_weight_ok p cur _ "[kfm_im2col] %s_bias not found" _ _ _ Hok Hbw) as (be & bb & Hl & HB & Hbd).
  cbn [mbind res_bind]. rewrite (Hkd 0 m), (Hkd 1 (kh * kw)) by done. cbn [mbind res_bind].
  rewrite Z.eqb_refl. cbn [negb]. assert (0 < m * (oh * ow)) by (apply Z.mul_pos_pos; lia).
  rewrite (palloc_ok 4) by (unfold MaxAllocSize; lia). cbn [mbind res_bind]. rewrite Hl.
  pose proof (gemm_with_bias true m (oh * ow) (kh * kw) kb (tabulate patches (oh * ow * (kh * kw)))
    (replicate (Z.to_nat (m * (oh * ow))) None) fk patches (bd =? m) true bb fbias) as Hg.
  change MaxArraySize with 134217727 in Hm.
  apply res_bind_Ok in Hg as (C & HC & Hbias); [|try lia; try done..];
    [|int_solve|rewrite zlen_replicate; lia|intros i Hi; rewrite Z.add_0_l; by apply bget_tabulate
     |intros ->%Z.eqb_eq; done].
  rewrite HC. cbn [mbind res_bind]. rewrite (Hbd 0 bd) by done. cbn [mbind res_bind].
  rewrite Hbias. cbn [mbind res_bind]. fold value. rewrite (palloc_ok 8) by (unfold MaxAllocSize; lia). cbn [mbind res_bind].
  rewrite row_maxima by (rewrite ?zlen_replicate; int_solve). cbn [mbind res_bind].
  by apply construct_array_tabulate.
Qed.
End text_conv.

(** ** Witness: one padded 2 x 2 image *)
Lemma conv_text_correct_witness :
  ∃ p r, @conv_text omp_reverse_order reference_blas _ (Some p) 0 "text" (ex_matrix 2 2 [1; 2; 3; 4]) 1 2 1 0 1
         = Ok (mkArrayType 1 0 FLOAT4OID [1] [1] [] r).
Proof.
  destruct (ex_loaded "text" [1; 2] [1; 2] [7]) as (p & Hok & Hv & Hb); [done..|].
  destruct (@conv_text_correct omp_reverse_order reference_blas _ _ p 0 "text" (ex_matrix 2 2 [1; 2; 3; 4])
    2 2 1 2 1 0 1 1 1 _ _ (ex_f [1; 2; 3; 4]) Hok Hv Hb) as (r & cell & H1 & _);
    [done|exact (ex_reads [1; 2; 3; 4])|by split; vm_compute|done|done|done|].
  exists p, r. exact H1.
Defined.
