(* ===== verification/LoadModel.v ===== *)
(** * LoadModel: from tables to the weight pool

    [load_model] of [aqua.c]: for every table of a list it selects one row, a
    weight and a bias, through the server programming interface and enters them
    into the weight pool under the names [<table>_val] and [<table>_bias], which
    the kernels look up.

    What a query returns is a parameter (class [Database]); the memory context of
    the caller plays no part.  The theorems show what the pool holds afterwards,
    that the kernels then compute with the loaded weights, and what happens to
    tables whose names are too long for the keys of the pool. *)

From S2P Require Import Prelude Float4 PgArray CString Dynahash HashTable ModelBuffer Sgemm Im2col MatrixOps.
From stdpp Require Import strings.

Open Scope Z_scope.

Definition SPI_OK_SELECT : Z := 5.

(** The outcome of [SPI_execute(query, true, 1)]: the return code and the values
    of the two columns of the rows, null or an array. *)
Class Database := { SPI_execute : string → Z * list (option farray * option farray) }.

(** [snprintf] into a buffer of 256 bytes. *)
Definition select_query (table_name : string) : string :=
  strlcpy ("SELECT val, bias FROM " +:+ table_name +:+ " LIMIT 1;") 256.

Definition names_null_msg : string := "table_names argument is null".
Definition names_dim_msg : string := "table_names must be a 1-dimensional array".
Definition failed_msg : string := "[LOAD_MODEL] failed for table %s: error code %d".
Definition rows_msg : string := "[LOAD_MODEL] Expected 1 row, got %d for table %s".
Definition val_null_msg : string := "[LOAD MODEL] val is null for table %s".
Definition bias_null_msg : string := "[LOAD MODEL] bias is null for table %s".
Definition insert_msg : string := "[LOAD MODEL] insert %s failed".

Section operations.
  Context `{Database} `{HashTable WeightEntry}.

(** [insert_weight(WEIGHT_POOL, name, ARR_DATA_PTR(a), nitems * sizeof(float4), ...)] *)
Definition insert_array (pool : option WeightPool) (cur : Z) (nm : string) (a : farray) : res (option WeightPool * bool) :=
  n ← ArrayGetNItems (ndim a) (arr_dims a);
  match pool with
  | None => Stuck NullDeref
  | Some p => '(p, ok) ← insert_weight p cur nm (arr_data a) (4 * n) (ndim a) (arr_dims a) FLOAT4OID; Ok (Some p, ok)
  end.

(** One iteration of the loop over the tables. *)
Definition load_table (cur : Z) (table_name : option string) (p : option WeightPool) : res (option WeightPool) :=
  match table_name with
  | None => Ok p
  | Some table_name =>
      let '(ret, rows) := SPI_execute (select_query table_name) in
      if negb (ret =? SPI_OK_SELECT) then Ereport failed_msg
      else
        match rows with
        | [(val, bias)] =>
            match val, bias with
            | None, _ => Ereport val_null_msg
            | _, None => Ereport bias_null_msg
            | Some val_array, Some bias_array =>
                '(p, ok1) ← insert_array p cur (val_name table_name) val_array;
                '(p, ok2) ← insert_array p cur (bias_name table_name) bias_array;
                check (ok1 && ok2) insert_msg (Ok p)
            end
        | _ => Ereport rows_msg
        end
  end.

(** [table_names]: null, or the number of dimensions and the elements. *)
Definition load_model (pool : option WeightPool) (cur : Z) (table_names : option (Z * list (option string)))
    : res (option WeightPool) :=
  match table_names with
  | None => Ereport names_null_msg
  | Some (nd, names) =>
      check (nd =? 1) names_dim_msg
        (foldM (load_table cur) names pool)
  end.
End operations.

(** ** What the pool holds afterwards *)

(** An array that can be stored: at most [MAX_DIMS] positive dimensions and as
    many items as they say. *)
Record storable (a : farray) : Prop := {
  sa_ndim : ndim a = zlen (arr_dims a); sa_dims : arr_dims a ≠ []; sa_max : zlen (arr_dims a) <= MAX_DIMS;
  sa_pos : Forall (λ d, 0 < d) (arr_dims a); sa_size : product (arr_dims a) <= MaxArraySize;
  sa_data : product (arr_dims a) <= zlen (arr_data a)
}.
Definition nitems (a : farray) : Z := product (arr_dims a).
Definition weight_for (a : farray) : weight :=
  mkWeight (take (Z.to_nat (nitems a)) (arr_data a)) (4 * nitems a) (Some <$> arr_dims a) FLOAT4OID.

Section loading.
  Context `{Database} `{HashTableLaws WeightEntry}.

(** The database has one row for the table. *)
Definition serves (nm : string) (v b : farray) : Prop :=
  SPI_execute (select_query nm) = (SPI_OK_SELECT, [(Some v, Some b)]).

(** Room for [bytes] more bytes and [n] more entries. *)
Definition room (p : WeightPool) (bytes n : Z) : Prop :=
  current_memory_usage p + bytes <= POOL_SIZE ∧ ht_num (entries p) + n <= 2147483647.

Lemma total_insert_le p k w : pool_ok p → 0 <= w_size w → ModelBuffer.total (<[k := w]> (weights p)) <= ModelBuffer.total (weights p) + w_size w.
Proof.
  intros Hok Hw. destruct (weights p !! k) as [w0|] eqn:Hk; [|rewrite total_insert by done; lia].
  rewrite <-insert_delete_eq, total_insert by apply lookup_delete_eq. rewrite (total_delete _ _ _ Hk).
  pose proof (total_nonneg p Hok {[k := w0]} ltac:(by apply map_singleton_subseteq_l)) as Ht.
  rewrite <-insert_empty, total_insert in Ht by done. unfold ModelBuffer.total in Ht at 1. rewrite map_fold_empty in Ht. lia.
Qed.

Lemma insert_array_ok p cur nm a :
  pool_ok p → storable a → room p (4 * nitems a) 1 →
  ∃ p', insert_array (Some p) cur nm a = Ok (Some p', true) ∧ pool_ok p'
    ∧ weights p' = <[ht_key nm := weight_for a]> (weights p)
    ∧ current_memory_usage p' <= current_memory_usage p + 4 * nitems a
    ∧ ht_num (entries p') <= ht_num (entries p) + 1.
Proof.
  intros Hok [Hnd Hne Hmax Hpos Hsz Hdata] [Hmem Hnum]. unfold insert_array. rewrite Hnd.
  rewrite ArrayGetNItems_complete by (done || unfold MAX_DIMS, int_max in *; lia). cbn [mbind res_bind].
  fold (nitems a). pose proof (product_pos _ Hpos). pose proof (zlen_nonneg (arr_dims a)).
  destruct (insert_weight_spec p cur nm (arr_data a) (nitems a) (zlen (arr_dims a)) (arr_dims a) FLOAT4OID)
    as (p' & -> & Hok' & _ & Hw); try done; [lia|unfold nitems in *; lia|].
  cbn [mbind res_bind]. rewrite (take_ge (arr_dims a)) in Hw by (unfold zlen; lia). fold (weight_for a) in Hw.
  exists p'. split; [done|]. split; [done|]. split; [done|].
  rewrite !usage_weights, !ht_num_weights, Hw by done. split.
  - pose proof (total_insert_le p (ht_key nm) (weight_for a) Hok) as Hle. simpl in Hle. unfold nitems in *. lia.
  - destruct (weights p !! ht_key nm) eqn:Hk; [rewrite map_size_insert_Some by done|rewrite map_size_insert_None by done]; lia.
Qed.

(** One table. *)
Lemma load_table_ok p cur nm v b :
  pool_ok p → storable v → storable b → serves nm v b → room p (4 * (nitems v + nitems b)) 2 →
  ∃ p', load_table cur (Some nm) (Some p) = Ok (Some p') ∧ pool_ok p'
    ∧ weights p' = <[ht_key (bias_name nm) := weight_for b]> (<[ht_key (val_name nm) := weight_for v]> (weights p))
    ∧ current_memory_usage p' <= current_memory_usage p + 4 * (nitems v + nitems b)
    ∧ ht_num (entries p') <= ht_num (entries p) + 2.
Proof.
  intros Hok Hv Hb Hserves [Hmem Hnum]. unfold load_table. rewrite Hserves. rewrite Z.eqb_refl. cbn [negb].
  pose proof (product_pos _ (sa_pos _ Hv)). pose proof (product_pos _ (sa_pos _ Hb)). unfold room in *. fold (nitems v) (nitems b) in *.
  destruct (insert_array_ok p cur (val_name nm) v) as (p1 & -> & Hok1 & Hw1 & Hm1 & Hn1); [done|done|split; lia|]. cbn [mbind res_bind].
  destruct (insert_array_ok p1 cur (bias_name nm) b) as (p2 & -> & Hok2 & Hw2 & Hm2 & Hn2); [done|done|split; lia|]. cbn [mbind res_bind].
  exists p2. rewrite check_true by done. split; [done|]. split; [done|]. rewrite Hw2, Hw1. split; [done|]. lia.
Qed.

(** A table and its contents. *)
Record loaded := mkLoaded { l_name : string; l_val : farray; l_bias : farray }.
Definition loaded_ok (l : loaded) : Prop := storable (l_val l) ∧ storable (l_bias l) ∧ serves (l_name l) (l_val l) (l_bias l).
Definition keys_of (l : loaded) : list string := [ht_key (val_name (l_name l)); ht_key (bias_name (l_name l))].
Definition items_of (ls : list loaded) : Z := foldr (λ l n, nitems (l_val l) + nitems (l_bias l) + n) 0 ls.

Lemma items_of_nonneg ls : Forall loaded_ok ls → 0 <= items_of ls.
Proof.
  induction 1 as [|l ls (Hv & Hb & _) _ IH]; simpl; [lia|].
  pose proof (product_pos _ (sa_pos _ Hv)). pose proof (product_pos _ (sa_pos _ Hb)). unfold nitems. lia.
Qed.

Lemma load_tables_ok cur ls p :
  pool_ok p → Forall loaded_ok ls → NoDup (flat_map keys_of ls) → room p (4 * items_of ls) (2 * zlen ls) →
  ∃ p', foldM (load_table cur) ((λ l, Some (l_name l)) <$> ls) (Some p) = Ok (Some p') ∧ pool_ok p'
    ∧ (∀ l, l ∈ ls → weights p' !! ht_key (val_name (l_name l)) = Some (weight_for (l_val l))
                    ∧ weights p' !! ht_key (bias_name (l_name l)) = Some (weight_for (l_bias l)))
    ∧ ∀ k, k ∉ flat_map keys_of ls → weights p' !! k = weights p !! k.
Proof.
  revert p. induction ls as [|l ls IH]; intros p Hok Hall Hnd [Hmem Hnum].
  { exists p. split_and!; try done. intros l Hl. by apply not_elem_of_nil in Hl. }
  apply Forall_cons in Hall as [(Hv & Hb & Hs) Hall]. pose proof (items_of_nonneg ls Hall).
  cbn [flat_map keys_of app] in Hnd. apply NoDup_cons in Hnd as [Hk1 Hnd]. apply NoDup_cons in Hnd as [Hk2 Hnd].
  rewrite not_elem_of_cons in Hk1. destruct Hk1 as [Hvb Hk1]. cbn [items_of foldr] in Hmem. fold (items_of ls) in Hmem.
  assert (zlen (l :: ls) = zlen ls + 1) as Hz by (unfold zlen; simpl; lia).
  destruct (load_table_ok p cur (l_name l) (l_val l) (l_bias l)) as (p1 & Hrun & Hok1 & Hw1 & Hm1 & Hn1); try done.
  { pose proof (zlen_nonneg ls). split; lia. }
  destruct (IH p1) as (p' & Hrun' & Hok' & Hin & Hout); try done; [split; lia|].
  exists p'. rewrite fmap_cons. cbn [foldM]. rewrite Hrun. cbn [mbind res_bind]. split; [done|]. split; [done|]. split.
  - intros l' [->|Hl']%elem_of_cons; [|by apply Hin]. rewrite !Hout, Hw1 by done.
    by rewrite lookup_insert_ne, !lookup_insert_eq by done.
  - intros k Hk. cbn [flat_map keys_of app] in Hk. rewrite !not_elem_of_cons in Hk. destruct Hk as (Hka & Hkb & Hkc).
    rewrite Hout, Hw1 by done. by rewrite !lookup_insert_ne by done.
Qed.
End loading.

Section theorems.
  Context `{Cblas} `{Database} `{HashTableLaws WeightEntry}.

(** C34: [load_model] fills the pool.  When the database has one row for every table,
    with storable arrays, the names do not collide and everything fits,
    [load_model] returns, the pool holds for every table its two arrays, each under
    its name and with its dimensions, and all other weights are as before. *)
Theorem load_model_loads p cur ls :
  pool_ok p → Forall loaded_ok ls → NoDup (flat_map keys_of ls) → room p (4 * items_of ls) (2 * zlen ls) →
  ∃ p', load_model (Some p) cur (Some (1, (λ l, Some (l_name l)) <$> ls)) = Ok (Some p') ∧ pool_ok p'
    ∧ (∀ l, l ∈ ls → weights p' !! ht_key (val_name (l_name l)) = Some (weight_for (l_val l))
                    ∧ weights p' !! ht_key (bias_name (l_name l)) = Some (weight_for (l_bias l)))
    ∧ ∀ k, k ∉ flat_map keys_of ls → weights p' !! k = weights p !! k.
Proof. intros. unfold load_model. rewrite check_true by done. by apply load_tables_ok. Qed.

(** A loaded array, as the kernels see it. *)
Lemma weight_for_has p nm a f :
  weights p !! ht_key nm = Some (weight_for a) → reads (arr_data a) 0 (nitems a) f → 0 <= nitems a →
  has_weight p nm (arr_dims a) (nitems a) f.
Proof.
  intros Hw Hr Hn. exists (weight_for a). split; [done|]. split.
  - simpl. rewrite take_ge; [done|]. by rewrite length_fmap.
  - intros i Hi. specialize (Hr i Hi). simpl. unfold bget, lget in *. rewrite lookup_take_lt by lia. done.
Qed.

(** C10: from the tables of a model to a product.  Starting from a new pool, loading
    the table [nm] and applying [kfm_nt] to a feature map under that name
    multiplies the matrix in the table with the map, in some order of summation,
    and adds the bias in the table when there is one for every row. *)
Theorem load_then_kfm_nt cxt cur nm v b fmatrix acti m k n bd fk ff fbias :
  serves nm v b → ht_key (val_name nm) ≠ ht_key (bias_name nm) →
  arr_dims v = [m; k] → ndim v = 2 → reads (arr_data v) 0 (m * k) fk →
  arr_dims b = [bd] → ndim b = 1 → reads (arr_data b) 0 bd fbias →
  arr_dims fmatrix = [k; n] → reads (arr_data fmatrix) 0 (n * k) ff →
  0 < m → 0 < k → 0 < n → 0 < bd → m * k + bd <= 134217727 → 4 * (m * n) + 32 <= MaxAllocSize →
  ∃ p p' r, create_weight_pool cxt = Ok p
    ∧ load_model (Some p) cur (Some (1, [Some nm])) = Ok (Some p')
    ∧ kfm_nt (Some p') cur nm fmatrix acti = Ok (matrix m n r) ∧ zlen r = m * n
    ∧ ∀ i j, 0 <= i < m → 0 <= j < n → ∃ x, bget r (i * n + j) = Ok x
        ∧ is_product_cell fk ff fbias (bd =? m) acti false n k i j x.
Proof.
  intros Hserves Hne Hvd Hvn Hv Hbd Hbn Hb Hfd Hff Hm Hk Hn Hbd0 Hsize Hmax. assert (0 < m * k) by nia.
  assert (nitems v = m * k) as Hnv by (unfold nitems, product; rewrite Hvd; simpl; lia).
  assert (nitems b = bd) as Hnb by (unfold nitems, product; rewrite Hbd; simpl; lia).
  destruct (create_weight_pool_ok cxt) as (p & Hp & Hok & _ & _ & Hnum & Hmem).
  assert (loaded_ok (mkLoaded nm v b)) as Hl.
  { change MaxArraySize with 134217727. pose proof (reads_zlen _ (m * k) fk ltac:(lia) Hv). pose proof (reads_zlen _ bd fbias ltac:(lia) Hb).
    split_and!; [| |exact Hserves]; split; simpl; fold (nitems v) (nitems b); rewrite ?Hvd, ?Hbd; try done;
      change MaxArraySize with 134217727; try lia; by repeat constructor. }
  destruct (load_tables_ok cur [mkLoaded nm v b] p) as (p' & Hrun & Hok' & Hin & _); [done|by constructor| | |].
  { cbn [flat_map keys_of app l_name]. apply NoDup_cons. split; [|apply NoDup_singleton]. by rewrite list_elem_of_singleton. }
  { assert (items_of [mkLoaded nm v b] = m * k + bd) as -> by (unfold items_of; cbn [foldr l_val l_bias]; lia).
    unfold room. rewrite Hmem, Hnum. change (zlen [mkLoaded nm v b]) with 1. unfold LRU_CACHE_SIZE, POOL_SIZE. lia. }
  destruct (Hin _ (list_elem_of_here _ _)) as [Hwv Hwb]. simpl in Hwv, Hwb.
  rewrite <-Hnv in Hv. rewrite <-Hnb in Hb.
  pose proof (weight_for_has p' _ v fk Hwv Hv ltac:(lia)) as Hkv. pose proof (weight_for_has p' _ b fbias Hwb Hb ltac:(lia)) as Hkb.
  rewrite Hvd, Hnv in Hkv. rewrite Hbd, Hnb in Hkb.
  exists p, p'. eexists. split; [done|]. unfold load_model. rewrite check_true by done. split; [exact Hrun|].
  split; [by eapply kfm_nt_computes|]. split; [apply zlen_tabulate; nia|]. intros i j Hi Hj. by apply biased_cell.
Qed.
End theorems.

(** ** Long names *)

Lemma long_names_collide nm : 62 <= strlen nm → ht_key (val_name nm) = ht_key (bias_name nm).
Proof.
  intros Hl. unfold ht_key, weight_table, dynahash, val_name, bias_name, strlcpy, NAMEDATALEN, strlen in *.
  rewrite !str_take_app. f_equal. assert (Z.to_nat (64 - 1) - String.length nm <= 1)%nat as Hn by lia.
  by destruct (Z.to_nat (64 - 1) - String.length nm)%nat as [|[|]]; [| |lia].
Qed.

(** C39: the bias replaces the weight of a table with a long name.  The pool keeps 63
    bytes of a name, so the two names of a table of 62 bytes or more are one key:
    after loading it, the kernels find the bias where they look for the weight. *)
Theorem load_model_long_name `{Database} p cur nm v b :
  62 <= strlen nm → pool_ok p → storable v → storable b → serves nm v b → room p (4 * (nitems v + nitems b)) 2 →
  ∃ p', load_model (Some p) cur (Some (1, [Some nm])) = Ok (Some p')
    ∧ weights p' !! ht_key (val_name nm) = Some (weight_for b).
Proof.
  intros Hl Hok Hv Hb Hs Hroom. destruct (load_table_ok p cur nm v b) as (p' & Hrun & _ & Hw & _); try done.
  exists p'. unfold load_model. rewrite check_true by done. cbn [foldM]. rewrite Hrun. split; [done|].
  rewrite Hw, (long_names_collide nm Hl). apply lookup_insert_eq.
Qed.

(** ** Witnesses *)

(** A database in which every query finds the same row. *)
Definition one_row (v b : farray) : Database := {| SPI_execute := λ _, (SPI_OK_SELECT, [(Some v, Some b)]) |}.
Definition ex_val : farray := ex_matrix 1 2 [3; 4].
Definition ex_bias : farray := mkArrayType 1 0 FLOAT4OID [1] [1] [] (ex_buf [7]).
#[global] Instance ex_database : Database := one_row ex_val ex_bias.

Lemma ex_storable : storable ex_val ∧ storable ex_bias.
Proof. split; split; try done; by repeat constructor. Qed.

Lemma load_model_loads_witness :
  ∃ p p', create_weight_pool 7 = Ok p ∧ load_model (Some p) 3 (Some (1, [Some "fc"])) = Ok (Some p')
    ∧ weights p' !! ht_key (val_name "fc") = Some (weight_for ex_val).
Proof.
  destruct ex_pool as (p & Hp & Hok & _ & Hn & Hu). destruct ex_storable as [Hv Hb].
  destruct (load_model_loads p 3 [mkLoaded "fc" ex_val ex_bias]) as (p' & Hrun & _ & Hin & _).
  - by_eval.
  - by repeat constructor.
  - cbn [flat_map keys_of app l_name]. apply NoDup_cons. split; [|apply NoDup_singleton]. by rewrite list_elem_of_singleton.
  - unfold room. rewrite Hn, Hu. by_eval.
  - exists p, p'. split; [exact Hp|]. split; [exact Hrun|]. apply (Hin _ (list_elem_of_here _ _)).
Defined.

Lemma load_then_kfm_nt_witness :
  ∃ p p' r, create_weight_pool 7 = Ok p ∧ load_model (Some p) 3 (Some (1, [Some "fc"])) = Ok (Some p')
    ∧ @kfm_nt reference_blas _ (Some p') 3 "fc" (ex_matrix 2 2 [3; 4; 5; 6]) true = Ok (matrix 1 2 r) ∧ zlen r = 2.
Proof.
  destruct (load_then_kfm_nt (H := reference_blas) 7 3 "fc" ex_val ex_bias (ex_matrix 2 2 [3; 4; 5; 6]) true 1 2 2 1
    (ex_f [3; 4]) (ex_f [3; 4; 5; 6]) (ex_f [7])) as (p & p' & r & H1 & H2 & H3 & H4 & _);
    [done|done|done|done|exact (ex_reads [3; 4])|done|done|exact (ex_reads [7])|done|exact (ex_reads [3; 4; 5; 6])|done..|].
  exists p, p', r. split_and!; by_eval.
Defined.

Lemma load_model_long_name_witness :
  let nm := "a_table_whose_name_has_sixty_two_bytes_as_postgres_allows_it_ok" in
  ∃ p p', create_weight_pool 7 = Ok p ∧ load_model (Some p) 3 (Some (1, [Some nm])) = Ok (Some p')
    ∧ weights p' !! ht_key (val_name nm) = Some (weight_for ex_bias).
Proof.
  intros nm. destruct ex_pool as (p & Hp & Hok & _ & Hn & Hu). destruct ex_storable as [Hv Hb].
  destruct (load_model_long_name p 3 nm ex_val ex_bias) as (p' & H1 & H2); [by_eval..| |].
  - unfold room. rewrite Hn, Hu. by_eval.
  - exists p, p'. split_and!; by_eval.
Defined.
