(* ===== verification/DbTensor.v ===== *)
(** * DbTensor: the tensors of the model converter

    The converter [dbocg] is written in Python.  This file holds its enumerations
    ([const.py]), the classes [SplitInfo] and [Tensor] of [tensor.py], and
    [permutation_to_index] of [utils.py].

    A Python exception is [Ereport] with the name of its class.  Objects of
    [SplitInfo] are shared between tensors and changed in place: a tensor holds
    references to them, and [heap] is the store.  An array of numpy is a reference
    that is only passed on.

    The theorems show that a new tensor is laid out row by row and that [divide]
    undoes [merge]. *)

From S2P Require Import Prelude PgArray.

Open Scope Z_scope.

(** ** Python *)

Definition AssertionError : string := "AssertionError".
Definition IndexError : string := "IndexError".
Definition ValueError : string := "ValueError".
Definition KeyError : string := "KeyError".
Definition TypeError : string := "TypeError".
Definition NotImplementedError : string := "NotImplementedError".

Definition py_assert {A} (b : bool) (k : res A) : res A := check b AssertionError k.

(** [l[i]]: a negative index counts from the end. *)
Definition py_index {A} (l : list A) (i : Z) : option nat :=
  if (0 <=? i) && (i <? zlen l) then Some (Z.to_nat i)
  else if (- zlen l <=? i) && (i <? 0) then Some (Z.to_nat (i + zlen l)) else None.
Definition pget {A} (l : list A) (i : Z) : res A :=
  match py_index l i ≫= (λ n, l !! n) with Some x => Ok x | None => Ereport IndexError end.
Definition pset {A} (l : list A) (i : Z) (x : A) : res (list A) :=
  match py_index l i with Some n => Ok (<[n := x]> l) | None => Ereport IndexError end.

(** [range(n)], and [range(n - 1, -1, -1)]. *)
Definition py_range (n : Z) : list Z := seqZ 0 n.
Definition py_range_down (n : Z) : list Z := reverse (seqZ 0 n).

(** ** const.py *)

Definition MAX_DIM : Z := 8.
Definition MAX_NUM_SPLITS : Z := 32.
Definition MAX_NUM_INPUTS : Z := 6.
Definition MAX_NUM_OUTPUTS : Z := 6.
Definition GUID_INVALID : Z := 0.
Definition GUID_INPUT : Z := 10.
Definition GUID_WEIGHT : Z := 11.
Definition GUID_PRESERVED : Z := 19.

Inductive OpType :=
  | OP_INPUT | OP_WEIGHT | OP_ANY | OP_CONV2D | OP_DROPOUT | OP_LINEAR | OP_POOL2D_MAX | OP_POOL2D_AVG
  | OP_RELU | OP_SIGMOID | OP_TANH | OP_BATCHNORM | OP_CONCAT | OP_SPLIT | OP_RESHAPE | OP_TRANSPOSE
  | OP_EW_ADD | OP_EW_MUL | OP_MATMUL | OP_MUL | OP_ENLARGE | OP_MERGE_GCONV | OP_CONSTANT_IMM
  | OP_CONSTANT_ICONV | OP_CONSTANT_ONE | OP_CONSTANT_POOL | OP_SQUEEZE | OP_UNSQUEEZE | OP_EW_SUB
  | OP_EW_DIV | OP_EW_EQUAL | OP_EW_GREATER | OP_EW_LESS | OP_EW_MAX | OP_EW_MIN | OP_REDUCE_ARGMAX
  | OP_REDUCE_ARGMIN | OP_REDUCE_MAX | OP_REDUCE_MEAN | OP_REDUCE_MIN | OP_REDUCE_PROD | OP_REDUCE_SUM
  | OP_PAD | OP_SHAPE | OP_SIZE | OP_TOPK | OP_WHERE | OP_CEIL | OP_CAST | OP_EXP | OP_ROUND | OP_LOG
  | OP_LOGICAL_NOT | OP_SQRT | OP_LEAKYRELU | OP_SLICE | OP_RESIZE | OP_PRELU | OP_FUSE_CONV_BATCHNORM
  | OP_FUSE_CONV_BATCHNORM_ALPHA_VAR | OP_FUSE_CONV_BATCHNORM_BIAS | OP_BROADCAST_ADD.
Definition OpType_value (t : OpType) : Z :=
  match t with
  | OP_INPUT => 0 | OP_WEIGHT => 1 | OP_ANY => 2 | OP_CONV2D => 3 | OP_DROPOUT => 4 | OP_LINEAR => 5
  | OP_POOL2D_MAX => 6 | OP_POOL2D_AVG => 7 | OP_RELU => 8 | OP_SIGMOID => 9 | OP_TANH => 10
  | OP_BATCHNORM => 11 | OP_CONCAT => 12 | OP_SPLIT => 13 | OP_RESHAPE => 14 | OP_TRANSPOSE => 15
  | OP_EW_ADD => 16 | OP_EW_MUL => 17 | OP_MATMUL => 18 | OP_MUL => 19 | OP_ENLARGE => 20
  | OP_MERGE_GCONV => 21 | OP_CONSTANT_IMM => 22 | OP_CONSTANT_ICONV => 23 | OP_CONSTANT_ONE => 24
  | OP_CONSTANT_POOL => 25 | OP_SQUEEZE => 26 | OP_UNSQUEEZE => 27 | OP_EW_SUB => 28 | OP_EW_DIV => 29
  | OP_EW_EQUAL => 30 | OP_EW_GREATER => 31 | OP_EW_LESS => 32 | OP_EW_MAX => 33 | OP_EW_MIN => 34
  | OP_REDUCE_ARGMAX => 35 | OP_REDUCE_ARGMIN => 36 | OP_REDUCE_MAX => 37 | OP_REDUCE_MEAN => 38
  | OP_REDUCE_MIN => 39 | OP_REDUCE_PROD => 40 | OP_REDUCE_SUM => 41 | OP_PAD => 42 | OP_SHAPE => 43
  | OP_SIZE => 44 | OP_TOPK => 45 | OP_WHERE => 46 | OP_CEIL => 47 | OP_CAST => 48 | OP_EXP => 49
  | OP_ROUND => 50 | OP_LOG => 51 | OP_LOGICAL_NOT => 52 | OP_SQRT => 53 | OP_LEAKYRELU => 54
  | OP_SLICE => 55 | OP_RESIZE => 56 | OP_PRELU => 57 | OP_FUSE_CONV_BATCHNORM => 58
  | OP_FUSE_CONV_BATCHNORM_ALPHA_VAR => 59 | OP_FUSE_CONV_BATCHNORM_BIAS => 60 | OP_BROADCAST_ADD => 61
  end.
Definition OpType_all : list OpType :=
  [OP_INPUT; OP_WEIGHT; OP_ANY; OP_CONV2D; OP_DROPOUT; OP_LINEAR; OP_POOL2D_MAX; OP_POOL2D_AVG; OP_RELU;
   OP_SIGMOID; OP_TANH; OP_BATCHNORM; OP_CONCAT; OP_SPLIT; OP_RESHAPE; OP_TRANSPOSE; OP_EW_ADD; OP_EW_MUL;
   OP_MATMUL; OP_MUL; OP_ENLARGE; OP_MERGE_GCONV; OP_CONSTANT_IMM; OP_CONSTANT_ICONV; OP_CONSTANT_ONE;
   OP_CONSTANT_POOL; OP_SQUEEZE; OP_UNSQUEEZE; OP_EW_SUB; OP_EW_DIV; OP_EW_EQUAL; OP_EW_GREATER;
   OP_EW_LESS; OP_EW_MAX; OP_EW_MIN; OP_REDUCE_ARGMAX; OP_REDUCE_ARGMIN; OP_REDUCE_MAX; OP_REDUCE_MEAN;
   OP_REDUCE_MIN; OP_REDUCE_PROD; OP_REDUCE_SUM; OP_PAD; OP_SHAPE; OP_SIZE; OP_TOPK; OP_WHERE; OP_CEIL;
   OP_CAST; OP_EXP; OP_ROUND; OP_LOG; OP_LOGICAL_NOT; OP_SQRT; OP_LEAKYRELU; OP_SLICE; OP_RESIZE; OP_PRELU;
   OP_FUSE_CONV_BATCHNORM; OP_FUSE_CONV_BATCHNORM_ALPHA_VAR; OP_FUSE_CONV_BATCHNORM_BIAS; OP_BROADCAST_ADD].
Definition OpType_of (v : Z) : option OpType := list_find (λ t, OpType_value t = v) OpType_all ≫= λ p, Some p.2.

Inductive ActiMode := AC_MODE_NONE | AC_MODE_SIGMOID | AC_MODE_RELU | AC_MODE_TANH.
Inductive PaddingMode := PD_MODE_SAME | PD_MODE_VALID.

#[export] Instance ActiMode_eq_dec : EqDecision ActiMode.
Proof. solve_decision. Defined.
#[export] Instance PaddingMode_eq_dec : EqDecision PaddingMode.
Proof. solve_decision. Defined.

Lemma OpType_of_value t : OpType_of (OpType_value t) = Some t.
Proof. by destruct t. Qed.
#[export] Instance OpType_eq_dec : EqDecision OpType.
Proof.
  intros a b. destruct (decide (OpType_value a = OpType_value b)) as [Heq|Hne]; [left|right; by intros ->].
  apply (inj Some). by rewrite <-(OpType_of_value a), <-(OpType_of_value b), Heq.
Defined.

(** ** tensor.py: SplitInfo *)

Record SplitInfo := mkSplit { num : Z; pos : list Z }.
Definition new_SplitInfo : SplitInfo := mkSplit 0 (replicate 32 0).

(** Whether the first [n] positions agree. *)
Definition same_pos (n : Z) (p q : list Z) : res bool :=
  foldM (λ i same, x ← pget p i; y ← pget q i; Ok (same && (x =? y))) (py_range n) true.

Definition split_eq (self rhs : SplitInfo) : res bool :=
  if negb (num self =? num rhs) then Ok false else same_pos (num self) (pos self) (pos rhs).

(** [next] may be [self]: the loop reads below and writes above the old [num]. *)
Definition merge (self : SplitInfo) (offset : Z) (next : SplitInfo) : res SplitInfo :=
  py_assert (num self + 1 + num next <? MAX_NUM_SPLITS)
  (s ← foldM (λ i s,
     x ← pget (pos next) i;
     p ← pset (pos s) (num s) (offset + x);
     Ok (mkSplit (num s + 1) p)) (py_range (num next)) self;
   p ← pset (pos s) (num s) offset;
   Ok (mkSplit (num s + 1) p)).

(** The two [while] loops of [divide]; at most [num self] rounds. *)
Fixpoint divide_left (fuel : nat) (self : SplitInfo) (mid idx : Z) (left : SplitInfo) : res (Z * SplitInfo) :=
  match fuel with
  | O => Stuck NoProgress
  | S fuel =>
      if idx <? num self then
        x ← pget (pos self) idx;
        if x <? mid then
          p ← pset (pos left) (num left) x;
          divide_left fuel self mid (idx + 1) (mkSplit (num left + 1) p)
        else Ok (idx, left)
      else Ok (idx, left)
  end.
Fixpoint divide_right (fuel : nat) (self : SplitInfo) (mid idx : Z) (right : SplitInfo) : res SplitInfo :=
  match fuel with
  | O => Stuck NoProgress
  | S fuel =>
      if idx <? num self - 1 then
        x ← pget (pos self) idx;
        p ← pset (pos right) (num right) (x - mid);
        divide_right fuel self mid (idx + 1) (mkSplit (num right + 1) p)
      else Ok right
  end.
Definition divide (self left right : SplitInfo) : res (SplitInfo * SplitInfo * Z) :=
  py_assert (0 <? num self)
  (mid ← pget (pos self) (num self - 1);
   '(idx, left) ← divide_left (S (Z.to_nat (num self))) self mid 0 (mkSplit 0 (pos left));
   right ← divide_right (S (Z.to_nat (num self))) self mid idx (mkSplit 0 (pos right));
   Ok (left, right, mid)).

Definition combine (self next : SplitInfo) : res SplitInfo :=
  let self := if negb (num self =? num next) then mkSplit 0 (pos self) else self in
  same ← same_pos (num self) (pos self) (pos next);
  Ok (if same : bool then self else mkSplit 0 (pos self)).

(** An element of a cache key. *)
Inductive keyval := KInt (z : Z) | KType (t : OpType) | KPad (m : PaddingMode) | KActi (m : ActiMode).
#[export] Instance keyval_eq_dec : EqDecision keyval.
Proof. solve_decision. Defined.

(** The caller's index does not move: integers are passed by value. *)
Definition split_serialize (self : SplitInfo) (keys : list keyval) (idx : Z) : res (list keyval) :=
  keys ← pset keys idx (KInt (num self));
  '(keys, _) ← foldM (λ i '(keys, idx),
    x ← pget (pos self) i;
    keys ← pset keys idx (KInt x);
    Ok (keys, idx + 1)) (py_range (num self)) (keys, idx + 1);
  Ok keys.

(** ** The store of [SplitInfo] objects *)

Abbreviation loc := positive.
Record heap := mkHeap { splits : gmap loc SplitInfo; next_loc : loc }.

(** [SplitInfo.NO_SPLIT], an object like any other. *)
Definition NO_SPLIT : loc := 1%positive.
Definition initial_heap : heap := mkHeap {[NO_SPLIT := new_SplitInfo]} 2%positive.

Definition alloc (h : heap) (s : SplitInfo) : heap * loc :=
  (mkHeap (<[next_loc h := s]> (splits h)) (next_loc h + 1)%positive, next_loc h).
Fixpoint alloc_splits (n : nat) (h : heap) : heap * list loc :=
  match n with
  | O => (h, [])
  | S n => let '(h, l) := alloc h new_SplitInfo in let '(h, ls) := alloc_splits n h in (h, l :: ls)
  end.
(** References are never dangling in Python. *)
Definition load (h : heap) (l : loc) : res SplitInfo :=
  match splits h !! l with Some s => Ok s | None => Stuck NullDeref end.
Definition store (h : heap) (l : loc) (s : SplitInfo) : heap := mkHeap (<[l := s]> (splits h)) (next_loc h).

(** [a.copy_from(b)], [a.combine(b)], [a.merge(offset, b)], [a == b] on references. *)
Definition copy_split (h : heap) (a b : loc) : res heap := s ← load h b; Ok (store h a s).
Definition combine_split (h : heap) (a b : loc) : res heap :=
  x ← load h a; y ← load h b; s ← combine x y; Ok (store h a s).
Definition merge_split (h : heap) (a : loc) (offset : Z) (b : loc) : res heap :=
  x ← load h a; y ← load h b; s ← merge x offset y; Ok (store h a s).
Definition eq_split (h : heap) (a b : loc) : res bool := x ← load h a; y ← load h b; split_eq x y.

(** ** op.py: Op, and tensor.py: Tensor *)

(** [ptr] is a reference to an operator object, or [None]. *)
Record Op := mkOp { guid : Z; ptr : option loc }.
#[export] Instance Op_eq_dec : EqDecision Op.
Proof. solve_decision. Defined.
Definition Op_init (g : Z) (p : option loc) : Op := if negb (g =? 0) then mkOp g p else mkOp GUID_INVALID None.
Definition INVALID_OP : Op := mkOp GUID_INVALID None.

Record Tensor := mkTensor {
  numDim : Z; dim : list Z; stride : list Z; split : list loc;
  idx : Z; t_op : Op; data_ptr : option loc
}.
Definition set_op (t : Tensor) (o : Op) : Tensor :=
  mkTensor (numDim t) (dim t) (stride t) (split t) (idx t) o (data_ptr t).
Definition set_idx (t : Tensor) (i : Z) : Tensor :=
  mkTensor (numDim t) (dim t) (stride t) (split t) i (t_op t) (data_ptr t).
Definition set_layout (t : Tensor) (n : Z) (d s : list Z) : Tensor :=
  mkTensor n d s (split t) (idx t) (t_op t) (data_ptr t).
Definition set_split (t : Tensor) (ls : list loc) : Tensor :=
  mkTensor (numDim t) (dim t) (stride t) ls (idx t) (t_op t) (data_ptr t).

(** [Tensor()] *)
Definition new_Tensor (h : heap) : heap * Tensor :=
  let '(h, ls) := alloc_splits 8 h in
  (h, mkTensor 0 (replicate 8 0) (replicate 8 0) ls 0 INVALID_OP None).

(** [Tensor(ndim, dims, guid, data)]; [data] is the array it ends up with. *)
Definition Tensor_init (h : heap) (ndim : Z) (dims : list Z) (g : Z) (data : option loc) : res (heap * Tensor) :=
  if negb (ndim =? 0) && bool_decide (dims ≠ []) && negb (g =? 0) then
    py_assert (ndim <=? MAX_DIM)
    (let '(h, ls) := alloc_splits 8 h in
     '(h, d, s, _) ← foldM (λ i '(h, d, s, count),
        x ← pget dims i;
        d ← pset d i x;
        s ← pset s i count;
        l ← pget ls i;
        h ← copy_split h l NO_SPLIT;
        Ok (h, d, s, count * x)) (py_range_down ndim) (h, replicate 8 0, replicate 8 0, 1);
     Ok (h, mkTensor ndim d s ls 0 (Op_init g None) data))
  else Ok (new_Tensor h).

Definition volume (t : Tensor) : res Z :=
  foldM (λ i ret, x ← pget (dim t) i; Ok (ret * x)) (py_range (numDim t)) 1.

Definition default_layout (t : Tensor) : res bool :=
  '(ok, _) ← foldM (λ i '(ok, cnt),
    s ← pget (stride t) i; d ← pget (dim t) i;
    Ok (ok && (s =? cnt), cnt * d)) (py_range_down (numDim t)) (true, 1);
  Ok ok.

Definition has_same_shape_stride_split (h : heap) (t u : Tensor) : res bool :=
  if negb (numDim t =? numDim u) then Ok false
  else foldM (λ i same,
    d1 ← pget (dim t) i; d2 ← pget (dim u) i;
    s1 ← pget (stride t) i; s2 ← pget (stride u) i;
    l1 ← pget (split t) i; l2 ← pget (split u) i;
    e ← eq_split h l1 l2;
    Ok (same && (d1 =? d2) && (s1 =? s2) && e)) (py_range (numDim t)) true.

Definition MAGIC_NUMBER : Z := 23333.
Definition MAX_KEY_LENGTH : Z := (MAX_NUM_SPLITS + 2) * MAX_DIM + 2.

(** One list after another into [keys]. *)
Definition put_ints (l : list Z) (n : Z) (keys : list keyval) (idx : Z) : res (list keyval * Z) :=
  foldM (λ i '(keys, idx), x ← pget l i; keys ← pset keys idx (KInt x); Ok (keys, idx + 1)) (py_range n) (keys, idx).
Definition serialize (h : heap) (t : Tensor) (keys : list keyval) (idx : Z) : res (list keyval) :=
  keys ← pset keys idx (KInt MAGIC_NUMBER);
  keys ← pset keys (idx + 1) (KInt (numDim t));
  '(keys, idx) ← put_ints (dim t) (numDim t) keys (idx + 2);
  '(keys, idx) ← put_ints (stride t) (numDim t) keys idx;
  foldM (λ i keys, l ← pget (split t) i; s ← load h l; split_serialize s keys idx) (py_range (numDim t)) keys.

(** ** utils.py: permutation_to_index *)

Definition permutation_to_index (perm : list Z) : res Z :=
  _ ← foldM (λ i _,
    p ← pget perm i;
    py_assert ((0 <=? p) && (p <? zlen perm))
    (foldM (λ j _, q ← pget perm j; py_assert (negb (p =? q)) (Ok tt)) (seqZ (i + 1) (zlen perm - (i + 1))) tt))
    (py_range (zlen perm)) tt;
  foldM (λ i idx, p ← pget perm i; Ok (idx * zlen perm + p)) (py_range (zlen perm)) 0.

(** ** Lists of Python *)

Lemma pget_ok {A} (l : list A) i x : 0 <= i → l !! Z.to_nat i = Some x → pget l i = Ok x.
Proof.
  intros Hi Hx. pose proof (lookup_lt_Some _ _ _ Hx). unfold pget, py_index.
  replace ((0 <=? i) && (i <? zlen l)) with true by (unfold zlen; lia). simpl. by rewrite Hx.
Qed.
Lemma pset_ok {A} (l : list A) i x : 0 <= i < zlen l → pset l i x = Ok (<[Z.to_nat i := x]> l).
Proof. intros Hi. unfold pset, py_index. by replace ((0 <=? i) && (i <? zlen l)) with true by lia. Qed.

(** Loops over [range(lo, lo + n)] and downwards, by an invariant. *)
Lemma foldM_up {S} (I : Z → S → Prop) (body : Z → S → res S) lo n s :
  0 <= n → I lo s → (∀ i s, lo <= i < lo + n → I i s → ∃ s', body i s = Ok s' ∧ I (i + 1) s') →
  ∃ s', foldM body (seqZ lo n) s = Ok s' ∧ I (lo + n) s'.
Proof.
  intros Hn. rewrite <-(Z2Nat.id n Hn) in *. clear Hn. revert lo s. induction (Z.to_nat n) as [|k IH]; intros lo s HI Hb.
  - exists s. split; [done|]. by replace (lo + 0%nat) with lo by lia.
  - rewrite seqZ_cons by lia. cbn [foldM]. destruct (Hb lo s ltac:(lia) HI) as (s1 & -> & HI1). cbn [mbind res_bind].
    replace (Z.pred (Datatypes.S k)) with (Z.of_nat k) by lia. change (Z.succ lo) with (lo + 1).
    destruct (IH (lo + 1) s1 HI1) as (s' & Hrun & HI'); [intros; apply Hb; [lia|done]|].
    exists s'. split; [done|]. by replace (lo + Datatypes.S k) with (lo + 1 + k) by lia.
Qed.
Lemma foldM_down {S} (I : Z → S → Prop) (body : Z → S → res S) n s :
  0 <= n → I n s → (∀ i s, 0 <= i < n → I (i + 1) s → ∃ s', body i s = Ok s' ∧ I i s') →
  ∃ s', foldM body (py_range_down n) s = Ok s' ∧ I 0 s'.
Proof.
  intros Hn. unfold py_range_down. rewrite <-(Z2Nat.id n Hn) in *. clear Hn. revert s.
  induction (Z.to_nat n) as [|k IH]; intros s HI Hb; [by exists s|].
  replace (Z.of_nat (Datatypes.S k)) with (k + 1) in * by lia.
  rewrite seqZ_app by lia. assert (seqZ (0 + k) 1 = [Z.of_nat k]) as -> by (unfold seqZ; simpl; f_equal; lia).
  rewrite reverse_app, reverse_singleton, foldM_app. cbn [foldM].
  destruct (Hb k s ltac:(lia) HI) as (s1 & -> & HI1). cbn [mbind res_bind].
  apply IH; [done|]. intros i s2 Hi HI2. apply Hb; [lia|done].
Qed.

(** ** What SplitInfo holds *)

Record split_ok (s : SplitInfo) : Prop := {
  so_num : 0 <= num s < MAX_NUM_SPLITS;
  so_pos : zlen (pos s) = MAX_NUM_SPLITS
}.
Definition held (s : SplitInfo) : list Z := take (Z.to_nat (num s)) (pos s).

Lemma new_SplitInfo_ok : split_ok new_SplitInfo.
Proof. by split. Qed.
Lemma length_held s : split_ok s → zlen (held s) = num s.
Proof. intros [Hn Hp]. unfold held, zlen in *. rewrite length_take. lia. Qed.
Lemma held_lookup s i : split_ok s → 0 <= i < num s → ∃ x, held s !! Z.to_nat i = Some x ∧ pget (pos s) i = Ok x.
Proof.
  intros Hs Hi. pose proof (length_held s Hs) as Hl. destruct (lookup_lt_is_Some_2 (held s) (Z.to_nat i)) as [x Hx]; [unfold zlen in Hl; lia|].
  exists x. split; [done|]. apply pget_ok; [lia|]. unfold held in Hx. by apply lookup_take_Some in Hx as [??].
Qed.

(** Appending a position. *)
Lemma split_push s x :
  split_ok s → num s + 1 < MAX_NUM_SPLITS →
  ∃ p, pset (pos s) (num s) x = Ok p ∧ split_ok (mkSplit (num s + 1) p) ∧ held (mkSplit (num s + 1) p) = held s ++ [x].
Proof.
  intros [Hn Hp] Hm. exists (<[Z.to_nat (num s) := x]> (pos s)). split; [apply pset_ok; lia|]. split.
  - split; cbn [num pos]; [lia|]. unfold zlen in *. by rewrite length_insert.
  - unfold held. cbn [num pos]. replace (Z.to_nat (num s + 1)) with (S (Z.to_nat (num s))) by lia.
    unfold zlen in Hp. rewrite (take_S_r _ _ x) by (apply list_lookup_insert_eq; lia).
    by rewrite take_insert_ge by lia.
Qed.

Lemma same_pos_ok s t :
  split_ok s → split_ok t → num s = num t → same_pos (num s) (pos s) (pos t) = Ok (bool_decide (held s = held t)).
Proof.
  intros Hs Ht Hn. unfold same_pos, py_range.
  destruct (foldM_up (λ i b, b = bool_decide (take (Z.to_nat i) (held s) = take (Z.to_nat i) (held t)))
              (λ i same, x ← pget (pos s) i; y ← pget (pos t) i; Ok (same && (x =? y))) 0 (num s) true)
    as (b & -> & ->); [apply Hs|done| |].
  - intros i b Hi ->. destruct (held_lookup s i Hs ltac:(lia)) as (x & Hx & ->).
    destruct (held_lookup t i Ht ltac:(lia)) as (y & Hy & ->). cbn [mbind res_bind]. eexists. split; [done|].
    replace (Z.to_nat (i + 1)) with (S (Z.to_nat i)) by lia. rewrite (take_S_r _ _ _ Hx), (take_S_r _ _ _ Hy).
    destruct (Z.eqb_spec x y) as [->|Hne]; rewrite ?andb_true_r, ?andb_false_r.
    + apply bool_decide_ext. split; [by intros ->|]. intros Heq. by simplify_list_eq.
    + symmetry. apply bool_decide_eq_false. intros Heq. apply app_inj_tail in Heq as [_ ?]. done.
  - f_equal. simpl. pose proof (length_held s Hs). pose proof (length_held t Ht). unfold zlen in *.
    rewrite !take_ge by lia. done.
Qed.

Lemma merge_ok s off t :
  split_ok s → split_ok t → num s + 1 + num t < MAX_NUM_SPLITS →
  ∃ m, merge s off t = Ok m ∧ split_ok m ∧ held m = held s ++ (Z.add off <$> held t) ++ [off].
Proof.
  intros Hs Ht Hfit. unfold merge, py_assert. rewrite check_true by lia. unfold py_range.
  destruct (foldM_up (λ i m, split_ok m ∧ num m = num s + i ∧ held m = held s ++ (Z.add off <$> take (Z.to_nat i) (held t)))
    (λ i m, x ← pget (pos t) i; p ← pset (pos m) (num m) (off + x); Ok (mkSplit (num m + 1) p)) 0 (num t) s)
    as (m & -> & Hm & Hnum & Hheld); [apply Ht|rewrite app_nil_r; split_and!; [done|lia|done]| |].
  - intros i m Hi (Hm & Hnum & Hheld). destruct (held_lookup t i Ht ltac:(lia)) as (x & Hx & ->). cbn [mbind res_bind].
    destruct (split_push m (off + x) Hm ltac:(lia)) as (p & -> & Hp & Hpush). cbn [mbind res_bind]. eexists. split; [done|].
    split_and!; [done|cbn [num]; lia|]. rewrite Hpush, Hheld. replace (Z.to_nat (i + 1)) with (S (Z.to_nat i)) by lia.
    rewrite (take_S_r _ _ _ Hx), fmap_app. by rewrite <-app_assoc.
  - cbn [mbind res_bind]. destruct (split_push m off Hm ltac:(lia)) as (p & -> & Hp & Hpush). cbn [mbind res_bind].
    eexists. split; [done|]. split; [done|]. rewrite Hpush, Hheld. simpl. pose proof (length_held t Ht). unfold zlen in *.
    rewrite take_ge by lia. by rewrite <-app_assoc.
Qed.

(** The element of [s] behind a prefix. *)
Lemma held_at s l x r : split_ok s → held s = l ++ x :: r → pget (pos s) (zlen l) = Ok x ∧ zlen l < num s.
Proof.
  intros Hs Hh. pose proof (length_held s Hs) as Hl. assert (zlen l < num s) as Hlt.
  { rewrite <-Hl, Hh. unfold zlen. rewrite length_app. simpl. lia. }
  split; [|done]. destruct (held_lookup s (zlen l) Hs) as (y & Hy & ->); [pose proof (zlen_nonneg l); lia|].
  rewrite Hh in Hy. unfold zlen in Hy. rewrite Nat2Z.id, list_lookup_middle in Hy by done. congruence.
Qed.
Lemma held_num s l : split_ok s → held s = l → num s = zlen l.
Proof. intros Hs <-. by rewrite length_held. Qed.

Lemma divide_left_ok s mid l x r : 
  split_ok s → held s = l ++ x :: r → Forall (λ y, y < mid) l → mid <= x →
  ∀ l2 l1 fuel left, l = l1 ++ l2 → split_ok left → held left = l1 → (length l2 < fuel)%nat →
  ∃ left', divide_left fuel s mid (zlen l1) left = Ok (zlen l, left') ∧ split_ok left' ∧ held left' = l.
Proof.
  intros Hs Hh Hall Hx. destruct (held_at s l x r Hs Hh) as [Hpx Hlt]. pose proof (so_num s Hs) as Hns.
  induction l2 as [|y l2 IH]; intros l1 fuel left Hl Hleft Hl1 Hf; (destruct fuel as [|fuel]; [simpl in Hf; lia|]); cbn [divide_left].
  - rewrite app_nil_r in Hl. subst l1. replace (zlen l <? num s) with true by lia. rewrite Hpx. cbn [mbind res_bind].
    replace (x <? mid) with false by lia. by exists left.
  - assert (held s = l1 ++ y :: (l2 ++ x :: r)) as Hh' by (rewrite Hh, Hl, <-app_assoc; done).
    destruct (held_at s l1 y _ Hs Hh') as [Hpy Hlt']. replace (zlen l1 <? num s) with true by lia. rewrite Hpy. cbn [mbind res_bind].
    assert (y < mid) as Hy. { rewrite Hl in Hall. apply Forall_app in Hall as [_ Hall]. by apply Forall_cons_1 in Hall as [? _]. }
    replace (y <? mid) with true by lia. pose proof (held_num left l1 Hleft Hl1) as Hnl.
    assert (zlen l1 + 1 <= zlen l) as Hlen by (rewrite Hl; unfold zlen; rewrite length_app; simpl; lia).
    destruct (split_push left y Hleft ltac:(lia)) as (p & -> & Hp & Hpush). cbn [mbind res_bind].
    replace (zlen l1 + 1) with (zlen (l1 ++ [y])) by (unfold zlen; rewrite length_app; simpl; lia).
    apply IH; [by rewrite <-app_assoc|done|by rewrite Hpush, Hl1|simpl in Hf; lia].
Qed.

Lemma divide_right_ok s mid l r z :
  split_ok s → held s = l ++ r ++ [z] →
  ∀ r2 r1 fuel right, r = r1 ++ r2 → split_ok right → held right = (λ x, x - mid) <$> r1 → (length r2 < fuel)%nat →
  ∃ right', divide_right fuel s mid (zlen l + zlen r1) right = Ok right' ∧ split_ok right' ∧ held right' = (λ x, x - mid) <$> r.
Proof.
  intros Hs Hh. pose proof (held_num s _ Hs Hh) as Hnum. pose proof (so_num s Hs) as Hns.
  assert (num s = zlen l + zlen r + 1) as Hn by (rewrite Hnum; unfold zlen; rewrite !length_app; simpl; lia).
  induction r2 as [|y r2 IH]; intros r1 fuel right Hr Hright Hr1 Hf; (destruct fuel as [|fuel]; [simpl in Hf; lia|]); cbn [divide_right].
  - rewrite app_nil_r in Hr. subst r1. replace (zlen l + zlen r <? num s - 1) with false by lia. by exists right.
  - assert (zlen r1 + 1 + zlen r2 = zlen r) as Hlen by (rewrite Hr; unfold zlen; rewrite length_app; simpl; lia).
    pose proof (zlen_nonneg r2). replace (zlen l + zlen r1 <? num s - 1) with true by lia.
    destruct (held_at s (l ++ r1) y (r2 ++ [z]) Hs) as [Hpy _]; [rewrite Hh, Hr, <-!app_assoc; done|].
    replace (zlen l + zlen r1) with (zlen (l ++ r1)) by (unfold zlen; rewrite length_app; lia). rewrite Hpy. cbn [mbind res_bind].
    pose proof (held_num right _ Hright Hr1) as Hnr. unfold zlen in Hnr at 1. rewrite length_fmap in Hnr. fold (zlen r1) in Hnr.
    pose proof (zlen_nonneg l). destruct (split_push right (y - mid) Hright ltac:(lia)) as (p & -> & Hp & Hpush). cbn [mbind res_bind].
    replace (zlen (l ++ r1) + 1) with (zlen l + zlen (r1 ++ [y])) by (unfold zlen; rewrite !length_app; simpl; lia).
    apply IH; [by rewrite <-app_assoc|done|by rewrite Hpush, Hr1, fmap_app|simpl in Hf; lia].
Qed.

Lemma divide_ok s left right l r mid :
  split_ok s → split_ok left → split_ok right → held s = l ++ (Z.add mid <$> r) ++ [mid] →
  Forall (λ y, y < mid) l → Forall (λ y, 0 <= y) r →
  ∃ left' right', divide s left right = Ok (left', right', mid) ∧ held left' = l ∧ held right' = r.
Proof.
  intros Hs [_ Hpl] [_ Hpr] Hh Hl Hr. set (r' := Z.add mid <$> r) in *. pose proof (held_num s _ Hs Hh) as Hn.
  assert (num s = zlen l + zlen r' + 1) as Hnum by (rewrite Hn; unfold zlen; rewrite !length_app; simpl; lia).
  pose proof (zlen_nonneg l). pose proof (zlen_nonneg r'). unfold divide, py_assert. rewrite check_true by lia.
  destruct (held_at s (l ++ r') mid [] Hs) as [Hpm _]; [by rewrite Hh, app_assoc|].
  replace (num s - 1) with (zlen (l ++ r')) by (unfold zlen in *; rewrite length_app; lia). rewrite Hpm. cbn [mbind res_bind].
  destruct (r' ++ [mid]) as [|x rest] eqn:Hrest; [by destruct r'|].
  assert (mid <= x) as Hx.
  { destruct r as [|y r]; simpl in *; simplify_eq; [lia|]. apply Forall_cons_1 in Hr as [? _]. lia. }
  destruct (divide_left_ok s mid l x rest Hs Hh Hl Hx l [] (S (Z.to_nat (num s))) (mkSplit 0 (pos left)))
    as (left' & Hleft & Hl' & Hheldl); [done|split; [simpl; unfold MAX_NUM_SPLITS; lia|done]|done|unfold zlen in *; lia|].
  change (zlen (@nil Z)) with 0 in Hleft. rewrite Hleft. cbn [mbind res_bind].
  destruct (divide_right_ok s mid l r' mid Hs ltac:(by rewrite Hrest) r' [] (S (Z.to_nat (num s))) (mkSplit 0 (pos right)))
    as (right' & Hrun & Hr' & Hheldr); [done|split; [simpl; unfold MAX_NUM_SPLITS; lia|done]|done|unfold zlen in *; lia|].
  change (zlen (@nil Z)) with 0 in Hrun. rewrite Z.add_0_r in Hrun. rewrite Hrun. cbn [mbind res_bind]. exists left', right'. split_and!; [done|done|].
  rewrite Hheldr. unfold r'. rewrite <-list_fmap_compose. rewrite <-(list_fmap_id r) at 2. apply list_fmap_ext. intros; simpl; lia.
Qed.

(** C28: [divide] undoes [merge].  Appending the positions of [b] behind [offset] to
    those of [a] and dividing the result again gives back both lists of positions
    and the offset, if the positions of [a] lie below the offset, those of [b] are
    not negative and there is room. *)
Theorem merge_then_divide a b offset left right :
  split_ok a → split_ok b → split_ok left → split_ok right → num a + 1 + num b < MAX_NUM_SPLITS →
  Forall (λ x, x < offset) (held a) → Forall (λ x, 0 <= x) (held b) →
  ∃ m l r, merge a offset b = Ok m ∧ divide m left right = Ok (l, r, offset) ∧ held l = held a ∧ held r = held b.
Proof.
  intros Ha Hb Hl Hr Hfit Hpa Hpb. destruct (merge_ok a offset b Ha Hb Hfit) as (m & Hm & Hok & Hh).
  destruct (divide_ok m left right _ _ _ Hok Hl Hr Hh Hpa Hpb) as (l & r & Hd & ? & ?). by exists m, l, r.
Qed.

Lemma merge_then_divide_witness :
  let a := mkSplit 1 (3 :: replicate 31 0) in let b := mkSplit 2 (1 :: 4 :: replicate 30 0) in
  ∃ m l r, merge a 8 b = Ok m ∧ divide m new_SplitInfo new_SplitInfo = Ok (l, r, 8) ∧ held l = held a ∧ held r = held b.
Proof.
  intros a b. apply (merge_then_divide a b 8 new_SplitInfo new_SplitInfo); try by split.
  - apply Forall_cons_2; [lia|constructor].
  - apply Forall_cons_2; [lia|]. apply Forall_cons_2; [lia|constructor].
Defined.

(** ** The index of a permutation *)

(** A loop that only tests. *)
Lemma foldM_tests {A} (body : A → unit → res unit) (P : A → bool) msg xs :
  (∀ x, x ∈ xs → body x tt = if P x then Ok tt else Ereport msg) →
  foldM body xs tt = if forallb P xs then Ok tt else Ereport msg.
Proof.
  induction xs as [|x xs IH]; intros Hb; simpl; [done|]. rewrite Hb by left. destruct (P x); simpl; [|done].
  apply IH. intros y Hy. apply Hb. by right.
Qed.

Definition digits (n : Z) (l : list Z) : Z := foldl (λ a x, a * n + x) 0 l.
Definition is_perm (perm : list Z) : bool :=
  bool_decide (NoDup perm ∧ Forall (λ p, 0 <= p < zlen perm) perm).

Lemma digits_inj n l m :
  Forall (λ p, 0 <= p < n) l → Forall (λ p, 0 <= p < n) m → length l = length m → digits n l = digits n m → l = m.
Proof.
  revert m. induction l as [|x l IH] using rev_ind; intros m Hl Hm Hlen Heq.
  { by destruct m. }
  destruct m as [|y m _] using rev_ind; [rewrite length_app in Hlen; simpl in Hlen; lia|].
  apply Forall_app in Hl as [Hl [Hx _]%Forall_cons_1]. apply Forall_app in Hm as [Hm [Hy _]%Forall_cons_1].
  rewrite !length_app in Hlen. simpl in Hlen, Hx, Hy. unfold digits in Heq. rewrite !foldl_app in Heq. simpl in Heq.
  fold (digits n l) (digits n m) in Heq. destruct (Z.div_mod_unique n (digits n l) (digits n m) x y) as [Hd ->]; [by left|by left|by rewrite !(Z.mul_comm n)|].
  f_equal. apply IH; [done|done|lia|done].
Qed.

Definition perm_test (perm : list Z) (i : Z) : bool :=
  let p := default 0 (perm !! Z.to_nat i) in
  (0 <=? p) && (p <? zlen perm)
  && forallb (λ j, negb (p =? default 0 (perm !! Z.to_nat j))) (seqZ (i + 1) (zlen perm - (i + 1))).

Lemma pget_default (l : list Z) i : 0 <= i < zlen l → pget l i = Ok (default 0 (l !! Z.to_nat i)).
Proof.
  intros Hi. destruct (lookup_lt_is_Some_2 l (Z.to_nat i)) as [x Hx]; [unfold zlen in Hi; lia|].
  rewrite Hx. by apply pget_ok; [lia|].
Qed.

Lemma perm_tests perm : forallb (perm_test perm) (py_range (zlen perm)) = is_perm perm.
Proof.
  apply eq_bool_prop_intro. unfold is_perm. rewrite bool_decide_spec, forallb_True, Forall_forall. unfold py_range. split.
  - intros Hall. assert (∀ (i : nat) x, perm !! i = Some x → perm_test perm i) as Ht.
    { intros i x Hx. apply Hall. apply elem_of_seqZ. apply lookup_lt_Some in Hx. unfold zlen. lia. }
    split.
    + apply NoDup_alt. intros i j x Hi Hj. destruct (decide (i = j)) as [|Hne]; [done|]. exfalso.
      assert (∀ i j, (i < j)%nat → perm !! i = Some x → perm !! j = Some x → False) as Hlt.
      { intros i' j' Hij Hi' Hj'. specialize (Ht i' x Hi'). unfold perm_test in Ht. rewrite Nat2Z.id, Hi' in Ht. simpl in Ht.
        apply andb_True in Ht as [_ Ht]. rewrite forallb_True, Forall_forall in Ht. specialize (Ht j').
        rewrite Nat2Z.id, Hj' in Ht. simpl in Ht. rewrite Z.eqb_refl in Ht. apply Ht, elem_of_seqZ.
        apply lookup_lt_Some in Hj'. unfold zlen. lia. }
      destruct (decide (i < j)%nat); [by apply (Hlt i j)|by apply (Hlt j i); [lia| |]].
    + apply Forall_lookup. intros i x Hx. specialize (Ht i x Hx). unfold perm_test in Ht. rewrite Nat2Z.id, Hx in Ht. simpl in Ht.
      apply andb_True in Ht as [Ht _]. apply Is_true_true in Ht. lia.
  - intros [Hnd Hr] i Hi%elem_of_seqZ. unfold zlen in Hi. destruct (lookup_lt_is_Some_2 perm (Z.to_nat i)) as [x Hx]; [lia|].
    unfold perm_test. rewrite Hx. simpl. rewrite Forall_lookup in Hr. pose proof (Hr _ _ Hx).
    apply andb_True. split; [apply Is_true_true; lia|]. rewrite forallb_True, Forall_forall. intros j Hj%elem_of_seqZ.
    unfold zlen in Hj. destruct (lookup_lt_is_Some_2 perm (Z.to_nat j)) as [y Hy]; [lia|]. rewrite Hy. simpl.
    apply Is_true_true. apply negb_true_iff, Z.eqb_neq. intros ->. pose proof (NoDup_lookup _ _ _ _ Hnd Hx Hy). lia.
Qed.

Lemma permutation_to_index_eq perm :
  permutation_to_index perm = if is_perm perm then Ok (digits (zlen perm) perm) else Ereport AssertionError.
Proof.
  unfold permutation_to_index. rewrite (foldM_tests _ (perm_test perm) AssertionError).
  2:{ intros i Hi%elem_of_seqZ. rewrite pget_default by lia. cbn [mbind res_bind]. unfold perm_test, py_assert.
      set (p := default 0 (perm !! Z.to_nat i)). rewrite (foldM_tests _ (λ j, negb (p =? default 0 (perm !! Z.to_nat j))) AssertionError).
      - by destruct ((0 <=? p) && (p <? zlen perm)).
      - intros j Hj%elem_of_seqZ. by rewrite pget_default by lia. }
  rewrite perm_tests. destruct (is_perm perm); cbn [mbind res_bind]; [|done].
  destruct (foldM_up (λ i d, d = digits (zlen perm) (take (Z.to_nat i) perm))
    (λ i d, p ← pget perm i; Ok (d * zlen perm + p)) 0 (zlen perm) 0) as (d & Hrun & ->); [apply zlen_nonneg|done| |].
  - intros i d Hi ->. destruct (lookup_lt_is_Some_2 perm (Z.to_nat i)) as [x Hx]; [unfold zlen in Hi; lia|].
    rewrite (pget_ok perm i x) by (done || lia). eexists. split; [done|].
    replace (Z.to_nat (i + 1)) with (S (Z.to_nat i)) by lia. rewrite (take_S_r _ _ _ Hx). unfold digits. by rewrite foldl_app.
  - unfold py_range. rewrite Hrun. f_equal. rewrite take_ge; [done|]. unfold zlen. lia.
Qed.

(** ** Shapes and layouts *)

Record heap_ok (h : heap) : Prop := {
  ho_fresh : ∀ l, splits h !! l ≠ None → (l < next_loc h)%positive;
  ho_splits : ∀ l s, splits h !! l = Some s → split_ok s;
  ho_none : is_Some (splits h !! NO_SPLIT)
}.
(** Later stores have the objects of earlier ones unchanged. *)
Definition heap_le (h h' : heap) : Prop := ∀ l s, splits h !! l = Some s → splits h' !! l = Some s.
#[export] Instance heap_le_preorder : PreOrder heap_le.
Proof. split; [by intros h l s|intros h1 h2 h3 H12 H23 l s Hl; by apply H23, H12]. Qed.
Lemma load_le h h' l s : heap_le h h' → load h l = Ok s → load h' l = Ok s.
Proof. unfold load. intros Hle. destruct (splits h !! l) as [x|] eqn:Hl; [|done]. by rewrite (Hle _ _ Hl). Qed.

Lemma initial_heap_ok : heap_ok initial_heap.
Proof.
  split.
  - intros l Hl. simpl in *. destruct (decide (l = NO_SPLIT)) as [->|]; [done|]. by rewrite lookup_singleton_ne in Hl.
  - intros l s Hl. simpl in Hl. apply lookup_singleton_Some in Hl as [_ <-]. apply new_SplitInfo_ok.
  - by exists new_SplitInfo.
Qed.

Lemma alloc_ok h s : heap_ok h → split_ok s →
  heap_ok (alloc h s).1 ∧ heap_le h (alloc h s).1 ∧ splits (alloc h s).1 !! (alloc h s).2 = Some s ∧ splits h !! (alloc h s).2 = None.
Proof.
  intros Hh Hs. assert (splits h !! next_loc h = None) as Hnew.
  { destruct (splits h !! next_loc h) eqn:Hl; [|done]. pose proof (ho_fresh h Hh (next_loc h)) as Hx. rewrite Hl in Hx. specialize (Hx ltac:(done)). lia. }
  simpl. split_and!.
  - split; simpl.
    + intros l Hl. destruct (decide (l = next_loc h)) as [->|]; [lia|]. rewrite lookup_insert_ne in Hl by done.
      pose proof (ho_fresh h Hh l Hl). lia.
    + intros l x Hl. apply lookup_insert_Some in Hl as [[_ <-]|[_ Hl]]; [done|]. by apply (ho_splits h Hh l).
    + destruct (ho_none h Hh) as [x Hx]. destruct (decide (next_loc h = NO_SPLIT)) as [->|]; [rewrite lookup_insert_eq; eauto|].
      rewrite lookup_insert_ne by done. eauto.
  - intros l x Hl. simpl. rewrite lookup_insert_ne; [done|]. intros <-. congruence.
  - apply lookup_insert_eq.
  - done.
Qed.

Lemma alloc_splits_ok n h : heap_ok h →
  ∃ h' ls, alloc_splits n h = (h', ls) ∧ heap_ok h' ∧ heap_le h h' ∧ length ls = n
    ∧ (∀ l, l ∈ ls → splits h !! l = None ∧ splits h' !! l = Some new_SplitInfo).
Proof.
  revert h. induction n as [|n IH]; intros h Hh.
  { exists h, []. split_and!; try done. intros l Hl. by apply not_elem_of_nil in Hl. }
  destruct (alloc_ok h new_SplitInfo Hh new_SplitInfo_ok) as (H1 & H2 & H3 & H4). cbn [alloc_splits].
  destruct (alloc h new_SplitInfo) as [h1 l1]. cbn [fst snd] in *.
  destruct (IH _ H1) as (h' & ls & -> & Hok & Hle & Hlen & Hls). exists h', (l1 :: ls). split_and!; try done.
  - by etrans.
  - by simpl; rewrite Hlen.
  - intros l [->|Hl]%elem_of_cons; [split; [done|by apply Hle]|]. destruct (Hls l Hl) as [Hnone ?]. split; [|done].
    destruct (splits h !! l) eqn:Hx; [|done]. apply H2 in Hx. congruence.
Qed.

(** Replacing an object. *)
Lemma split_store_ok h l s : heap_ok h → split_ok s → is_Some (splits h !! l) → heap_ok (store h l s).
Proof.
  intros Hh Hs [x Hx]. split; simpl.
  - intros l' Hl'. apply (ho_fresh h Hh). destruct (decide (l = l')) as [->|]; [congruence|]. by rewrite lookup_insert_ne in Hl'.
  - intros l' y Hl'. apply lookup_insert_Some in Hl' as [[_ <-]|[_ Hl']]; [done|]. by apply (ho_splits h Hh l').
  - destruct (ho_none h Hh) as [y Hy]. destruct (decide (l = NO_SPLIT)) as [->|]; [rewrite lookup_insert_eq; eauto|].
    rewrite lookup_insert_ne by done. eauto.
Qed.

(** A tensor of dimensions [ds], laid out row by row. *)
Record has_shape (t : Tensor) (ds : list Z) : Prop := {
  hs_num : numDim t = zlen ds;
  hs_max : zlen ds <= MAX_DIM;
  hs_dim : length (dim t) = 8%nat;
  hs_stride : length (stride t) = 8%nat;
  hs_dims : ∀ (i : nat) d, ds !! i = Some d → dim t !! i = Some d;
  hs_layout : ∀ i : nat, (i < length ds)%nat → stride t !! i = Some (product (drop (S i) ds))
}.

(** All its splits are empty. *)
Record unsplit (h : heap) (t : Tensor) : Prop := {
  us_len : length (split t) = 8%nat;
  us_none : ∀ l, l ∈ split t → ∃ s, splits h !! l = Some s ∧ num s = 0
}.
Lemma unsplit_le h h' t : heap_le h h' → unsplit h t → unsplit h' t.
Proof. intros Hle [Hl Hn]. split; [done|]. intros l Hin. destruct (Hn l Hin) as (s & Hs & ?). eauto. Qed.
Lemma unsplit_at h t i : unsplit h t → 0 <= i < 8 → ∃ l s, pget (split t) i = Ok l ∧ l ∈ split t ∧ splits h !! l = Some s ∧ num s = 0.
Proof.
  intros [Hl Hn] Hi. destruct (lookup_lt_is_Some_2 (split t) (Z.to_nat i)) as [l Hx]; [lia|]. exists l.
  destruct (Hn l) as (s & Hs & H0); [by eapply list_elem_of_lookup_2|]. exists s. split_and!; try done; [by apply pget_ok; [lia|]|by eapply list_elem_of_lookup_2].
Qed.

Lemma shape_dim t ds i : has_shape t ds → 0 <= i < zlen ds → pget (dim t) i = Ok (default 0 (ds !! Z.to_nat i)).
Proof.
  intros Ht Hi. destruct (lookup_lt_is_Some_2 ds (Z.to_nat i)) as [d Hd]; [unfold zlen in Hi; lia|]. rewrite Hd.
  apply pget_ok; [lia|]. by apply (hs_dims t ds Ht).
Qed.
Lemma shape_dim_at t ds i d : has_shape t ds → ds !! Z.to_nat i = Some d → 0 <= i → pget (dim t) i = Ok d.
Proof. intros Ht Hd Hi. apply pget_ok; [lia|]. by apply (hs_dims t ds Ht). Qed.
Lemma drop_lookup (ds : list Z) (i : nat) d : ds !! i = Some d → drop i ds = d :: drop (S i) ds.
Proof. intros Hd. by apply drop_S. Qed.

Lemma volume_ok t ds : has_shape t ds → volume t = Ok (product ds).
Proof.
  intros Ht. unfold volume, py_range. rewrite (hs_num t ds Ht).
  destruct (foldM_up (λ i r, r = product (take (Z.to_nat i) ds)) (λ i r, x ← pget (dim t) i; Ok (r * x)) 0 (zlen ds) 1)
    as (r & -> & ->); [apply zlen_nonneg|done| |].
  - intros i r Hi ->. destruct (lookup_lt_is_Some_2 ds (Z.to_nat i)) as [d Hd]; [unfold zlen in Hi; lia|].
    rewrite (shape_dim_at t ds i d) by (done || lia). eexists. split; [done|].
    replace (Z.to_nat (i + 1)) with (S (Z.to_nat i)) by lia. by rewrite (product_take_S _ _ _ Hd).
  - f_equal. f_equal. apply take_ge. unfold zlen. lia.
Qed.

Lemma default_layout_ok t ds : has_shape t ds → default_layout t = Ok true.
Proof.
  intros Ht. unfold default_layout. rewrite (hs_num t ds Ht).
  destruct (foldM_down (λ i '(ok, c), ok = true ∧ c = product (drop (Z.to_nat i) ds))
    (λ i '(ok, cnt), s ← pget (stride t) i; d ← pget (dim t) i; Ok (ok && (s =? cnt), cnt * d)) (zlen ds) (true, 1))
    as ([ok c] & -> & -> & _); [apply zlen_nonneg| | |done].
  - split; [done|]. rewrite drop_ge; [done|]. unfold zlen. lia.
  - intros i [ok c] Hi [-> ->]. destruct (lookup_lt_is_Some_2 ds (Z.to_nat i)) as [d Hd]; [unfold zlen in Hi; lia|].
    rewrite (shape_dim_at t ds i d) by (done || lia). rewrite (pget_ok (stride t) i (product (drop (S (Z.to_nat i)) ds))); [|lia|].
    2:{ apply (hs_layout t ds Ht). unfold zlen in Hi. lia. }
    cbn [mbind res_bind]. eexists. split; [done|]. replace (Z.to_nat (i + 1)) with (S (Z.to_nat i)) by lia.
    rewrite Z.eqb_refl. split; [done|]. rewrite (drop_lookup _ _ _ Hd). simpl. lia.
Qed.

(** [NO_SPLIT] as it was created. *)
Definition no_split_clean (h : heap) : Prop := ∃ s, splits h !! NO_SPLIT = Some s ∧ num s = 0.
Lemma no_split_clean_le h h' : heap_le h h' → no_split_clean h → no_split_clean h'.
Proof. intros Hle (s & Hs & ?). exists s. eauto. Qed.

(** A tensor whose arrays have their sizes and whose splits are empty objects of its own. *)
Record blank (h h' : heap) (t : Tensor) : Prop := {
  bl_heap : heap_ok h';
  bl_le : heap_le h h';
  bl_dim : length (dim t) = 8%nat;
  bl_stride : length (stride t) = 8%nat;
  bl_split : length (split t) = 8%nat;
  bl_fresh : ∀ l, l ∈ split t → splits h !! l = None ∧ ∃ s, splits h' !! l = Some s ∧ num s = 0
}.
Lemma blank_unsplit h h' t : blank h h' t → unsplit h' t.
Proof. intros Hb. split; [apply Hb|]. intros l Hl. apply (bl_fresh h h' t Hb l Hl). Qed.

Lemma new_Tensor_ok h : heap_ok h → ∃ h' t, new_Tensor h = (h', t) ∧ blank h h' t ∧ idx t = 0.
Proof.
  intros Hh. unfold new_Tensor. destruct (alloc_splits_ok 8 h Hh) as (h' & ls & -> & Hok & Hle & Hlen & Hls).
  eexists _, _. split; [done|]. split; [|done]. split; simpl; try done.
  intros l Hl. destruct (Hls l Hl). eauto.
Qed.

(** A new tensor has the dimensions it is given, is laid out row by row and not
    split, and leaves every other object alone. *)
Lemma Tensor_init_ok h ds g data :
  heap_ok h → no_split_clean h → ds ≠ [] → zlen ds <= MAX_DIM → g ≠ 0 →
  ∃ h' t, Tensor_init h (zlen ds) ds g data = Ok (h', t) ∧ has_shape t ds ∧ blank h h' t
    ∧ t_op t = mkOp g None ∧ idx t = 0 ∧ data_ptr t = data.
Proof.
  intros Hh Hc Hne Hmax Hg. unfold Tensor_init. pose proof (zlen_nonneg ds) as H0.
  assert (zlen ds ≠ 0) as Hz by (unfold zlen; destruct ds; [done|simpl; lia]). rewrite (bool_decide_true (ds ≠ [])) by done.
  replace (negb (zlen ds =? 0) && true && negb (g =? 0)) with true by lia. unfold py_assert. rewrite check_true by lia.
  destruct (alloc_splits_ok 8 h Hh) as (h1 & ls & -> & Hok & Hle & Hlen & Hls).
  destruct Hc as (s0 & Hs0 & Hnum). pose proof (Hle _ _ Hs0) as Hs1.
  assert (∀ l, l ∈ ls → l ≠ NO_SPLIT) as Hnos. { intros l Hl ->. destruct (Hls _ Hl) as [? _]. congruence. }
  match goal with |- context [foldM ?f (py_range_down _) ?st] =>
    destruct (foldM_down (λ i '(h', d, s, c), heap_ok h' ∧ heap_le h h' ∧ length d = 8%nat ∧ length s = 8%nat
        ∧ c = product (drop (Z.to_nat i) ds) ∧ splits h' !! NO_SPLIT = Some s0
        ∧ (∀ l, l ∈ ls → ∃ x, splits h' !! l = Some x ∧ num x = 0)
        ∧ (∀ j : nat, i <= j < zlen ds → d !! j = ds !! j ∧ s !! j = Some (product (drop (S j) ds)))) f (zlen ds) st)
      as ([[[h' d] s'] c] & -> & Hok' & Hle' & Hd & Hs & _ & _ & Hspl & Hcells) end; [done| | |].
  - split_and!; try done; [by rewrite drop_ge by (unfold zlen; lia)|intros l Hl; destruct (Hls l Hl); eauto|intros; lia].
  - intros i [[[h' d] s] c] Hi (Hok' & Hle' & Hd & Hs & -> & Hn & Hspl & Hcells).
    destruct (lookup_lt_is_Some_2 ds (Z.to_nat i)) as [x Hx]; [unfold zlen in Hi; lia|].
    destruct (lookup_lt_is_Some_2 ls (Z.to_nat i)) as [l Hl]; [rewrite Hlen; unfold MAX_DIM in Hmax; lia|].
    pose proof (list_elem_of_lookup_2 _ _ _ Hl) as Hin. unfold MAX_DIM in Hmax.
    rewrite (pget_ok ds i x) by (done || lia). cbn [mbind res_bind].
    rewrite (pset_ok d i x) by (unfold zlen in *; lia). cbn [mbind res_bind].
    rewrite pset_ok by (unfold zlen in *; lia). cbn [mbind res_bind]. rewrite (pget_ok ls i l) by (done || lia). cbn [mbind res_bind].
    unfold copy_split, load. rewrite Hn. cbn [mbind res_bind]. eexists. split; [done|]. split_and!.
    + apply split_store_ok; [done|by apply (ho_splits h' Hok' NO_SPLIT)|]. destruct (Hspl l Hin) as (y & ? & _). eauto.
    + intros l' y Hl'. simpl. rewrite lookup_insert_ne; [by apply Hle'|]. intros <-. destruct (Hls l Hin). congruence.
    + by rewrite length_insert.
    + by rewrite length_insert.
    + replace (Z.to_nat (i + 1)) with (S (Z.to_nat i)) by lia. rewrite (drop_lookup _ _ _ Hx). simpl. lia.
    + simpl. rewrite lookup_insert_ne; [done|]. by apply Hnos.
    + intros l' Hl'. simpl. destruct (decide (l = l')) as [->|]; [rewrite lookup_insert_eq; eauto|].
      rewrite lookup_insert_ne by done. by apply Hspl.
    + intros j Hj. destruct (decide (j = Z.to_nat i)) as [->|Hji].
      * rewrite !list_lookup_insert_eq by lia. rewrite Hx. split; [done|]. do 3 f_equal. lia.
      * rewrite !list_lookup_insert_ne by lia. apply Hcells. lia.
  - cbn [mbind res_bind]. eexists _, _. split; [done|]. split_and!; try done.
    + split; simpl; try done; [intros i x Hx|intros i Hi].
      * destruct (Hcells i) as [-> _]; [apply lookup_lt_Some in Hx; unfold zlen; lia|done].
      * destruct (Hcells i) as [_ ->]; [unfold zlen; lia|done].
    + split; simpl; try done. intros l Hl. destruct (Hls l Hl) as [? _]. split; [done|]. by apply Hspl.
    + simpl. unfold Op_init. by replace (negb (g =? 0)) with true by lia.
Qed.
