(* ===== verification/DbOp.v ===== *)
(** * DbOp: the operators of the model converter

    [op.py]: the operator classes, whose constructors check the shapes of their
    arguments and compute the shape, the layout and the splits of the result.

    A constructor takes the store of [SplitInfo] objects and returns it, because
    results share these objects with arguments and two constructors change them.
    [Tensor] objects are values: the only field that is assigned after a tensor was
    passed to an operator is [idx], by [NoOp] and [Activation].

    [op_shape] says what the result of an operator is, given the shapes of its
    arguments; the theorem of this file says that the constructors compute it. *)

From S2P Require Import Prelude PgArray DbTensor.

Open Scope Z_scope.

Inductive PMParameter :=
  | PM_OP_TYPE | PM_NUM_INPUTS | PM_NUM_OUTPUTS | PM_GROUP | PM_KERNEL_H | PM_KERNEL_W | PM_STRIDE_H | PM_STRIDE_W
  | PM_PAD | PM_ACTI | PM_NUMDIM | PM_AXIS | PM_PERM | PM_OUTSHUFFLE | PM_MERGE_GCONV_COUNT | PM_AXES | PM_KEEP_DIMS
  | PM_EPSILON.
Inductive TNParameter := IN_0 | IN_1 | IN_2 | IN_3 | IN_4 | IN_5 | OU_0 | OU_1 | OU_2 | OU_3 | OU_4 | OU_5.
Inductive DIMParameter := DIM_0 | DIM_1 | DIM_2 | DIM_3 | DIM_ND.
#[export] Instance PMParameter_eq_dec : EqDecision PMParameter.
Proof. solve_decision. Defined.

Definition ZeroDivisionError : string := "ZeroDivisionError".
(** [a // b] and [a % b]: the quotient is rounded down. *)
Definition py_div (a b : Z) : res Z := check (negb (b =? 0)) ZeroDivisionError (Ok (a / b)).
Definition py_mod (a b : Z) : res Z := check (negb (b =? 0)) ZeroDivisionError (Ok (a mod b)).

(** The fields of the subclasses. *)
Inductive op_attrs :=
  | NoAttrs
  | ActivationAttrs (inPlace : bool)
  | ConcatAttrs (axis : Z) (needCopy : list bool)
  | Conv2DAttrs (strideH strideW : Z) (padding : PaddingMode) (activation : ActiMode)
  | Pool2DAttrs (kernelH kernelW strideH strideW : Z) (padding : PaddingMode) (activation : ActiMode)
  | MatmulAttrs (activation : ActiMode)
  | TransposeAttrs (permIdx : Z) (shuffle : bool).

Record OpBase := mkOpBase {
  type : OpType; numInputs : Z; inputs : list Tensor; outputs : list Tensor; numOutputs : Z; attrs : op_attrs
}.

(** [[Tensor() for _ in range(n)]] *)
Fixpoint new_Tensors (n : nat) (h : heap) : heap * list Tensor :=
  match n with
  | O => (h, [])
  | S n => let '(h, t) := new_Tensor h in let '(h, ts) := new_Tensors n h in (h, t :: ts)
  end.

(** [OpBase.__init__] on the arguments [args]: the store, the inputs and the outputs.  The unused
    inputs are one object. *)
Definition OpBase_init (h : heap) (args : list Tensor) (ty : OpType) : res (heap * list Tensor * list Tensor) :=
  py_assert (zlen args <=? MAX_NUM_INPUTS)
  (py_assert (negb (zlen args =? 0) || bool_decide (ty = OP_CONSTANT_POOL))
   (let '(h, unused) := new_Tensor h in
    let '(h, outs) := new_Tensors 6 h in
    Ok (h, args ++ replicate (Z.to_nat (MAX_NUM_INPUTS - zlen args)) unused, outs))).

(** An operator with one output [t], whose index is set. *)
Definition finish (ty : OpType) (n : Z) (ins outs : list Tensor) (t : Tensor) (a : op_attrs) : OpBase :=
  mkOpBase ty n ins (<[0%nat := set_idx t 0]> outs) 1 a.

(** [outputs[0]] *)
Definition output0 (outs : list Tensor) : res Tensor := pget outs 0.

Definition NoOp (h : heap) (input : Tensor) (ty : OpType) : res (heap * OpBase) :=
  '(h, ins, outs) ← OpBase_init h [input] ty;
  Ok (h, finish ty 1 (<[0%nat := set_idx input 0]> ins) outs input NoAttrs).

Definition Activation (h : heap) (input : Tensor) (ty : OpType) (inPlace : bool) : res (heap * OpBase) :=
  '(h, ins, outs) ← OpBase_init h [input] ty;
  Ok (h, finish ty 1 (<[0%nat := set_idx input 0]> ins) outs input (ActivationAttrs inPlace)).

(** [for i in range(n - 1, -1, -1): stride[i] = size; size *= dim[i]] *)
Definition stride_loop (n : Z) (d s : list Z) : res (list Z * Z) :=
  foldM (λ i '(s, size), s ← pset s i size; x ← pget d i; Ok (s, size * x)) (py_range_down n) (s, 1).

(** The same with [stride[n - 1] = 1] and [stride[i] = stride[i + 1] * dim[i + 1]]. *)
Definition concat_strides (n : Z) (d s : list Z) : res (list Z) :=
  foldM (λ i s,
    if i =? n - 1 then pset s i 1
    else s1 ← pget s (i + 1); d1 ← pget d (i + 1); pset s i (s1 * d1)) (py_range_down n) s.

(** [_inputs] are the [n] tensors that are concatenated. *)
Definition Concat (h : heap) (axis n : Z) (ins : list Tensor) (needCopy : list bool) : res (heap * OpBase) :=
  '(h, all_ins, outs) ← OpBase_init h ins OP_CONCAT;
  copy ← foldM (λ i c, b ← pget needCopy i; pset c i b) (py_range n) (replicate 6 false);
  t ← output0 outs;
  first ← pget ins 0;
  let nd := numDim first in
  d ← foldM (λ i d, x ← pget (dim first) i; pset d i x) (py_range nd) (dim t);
  '(h, sp) ← foldM (λ i '(h, sp),
     if negb (i =? axis) then
       l ← pget (split first) i;
       sp ← pset sp i l;
       h ← foldM (λ j h, u ← pget ins j; l' ← pget (split u) i; o ← pget sp i; combine_split h o l') (seqZ 1 (n - 1)) h;
       Ok (h, sp)
     else Ok (h, sp)) (py_range nd) (h, split t);
  l ← pget (split first) axis;
  sp ← pset sp axis l;
  '(h, d) ← foldM (λ i '(h, d),
     u ← pget ins i;
     o ← pget sp axis; off ← pget d axis; l' ← pget (split u) axis;
     h ← merge_split h o off l';
     x ← pget (dim u) axis;
     d ← pset d axis (off + x);
     Ok (h, d)) (seqZ 1 (n - 1)) (h, d);
  s ← concat_strides nd d (stride t);
  Ok (h, finish OP_CONCAT (zlen ins) all_ins outs (set_split (set_layout t nd d s) sp) (ConcatAttrs axis copy)).

(** The size of the output of a convolution or of a pooling along one axis. *)
Definition out_extent (padding : PaddingMode) (size kernel stride : Z) : res Z :=
  match padding with
  | PD_MODE_SAME => py_div (size + stride - 1) stride
  | PD_MODE_VALID => q ← py_div (size - kernel) stride; Ok (q + 1)
  end.

(** Dimensions and strides of a four-dimensional output. *)
Definition layout4 (t : Tensor) (n c oh ow : Z) : Tensor :=
  set_layout t 4 ([n; c; oh; ow] ++ drop 4 (dim t)) ([ow * oh * c; ow * oh; ow; 1] ++ drop 4 (stride t)).

Definition Conv2D (h : heap) (input weight : Tensor) (strideH strideW : Z) (padding : PaddingMode) (activation : ActiMode)
    : res (heap * OpBase) :=
  '(h, ins, outs) ← OpBase_init h [input; weight] OP_CONV2D;
  py_assert (numDim input =? 4) (py_assert (numDim weight =? 4)
  (ic ← pget (dim input) 1; wc ← pget (dim weight) 1;
   r ← py_mod ic wc;
   py_assert (r =? 0)
   (let groups := ic / wc in
    oc ← pget (dim weight) 0;
    r ← py_mod oc groups;
    py_assert (r =? 0)
    (inputH ← pget (dim input) 2; inputW ← pget (dim input) 3;
     kernelH ← pget (dim weight) 2; kernelW ← pget (dim weight) 3;
     outputH ← out_extent padding inputH kernelH strideH;
     outputW ← out_extent padding inputW kernelW strideW;
     t ← output0 outs;
     n ← pget (dim input) 0;
     l0 ← pget (split input) 0; l2 ← pget (split input) 2; l3 ← pget (split input) 3;
     let t := set_split (layout4 t n oc outputH outputW) ([l0; l0; l2; l3] ++ drop 4 (split t)) in
     e2 ← eq_split h l2 NO_SPLIT;
     py_assert e2
     (e3 ← eq_split h l3 NO_SPLIT;
      py_assert e3
      (Ok (h, finish OP_CONV2D 2 ins outs t (Conv2DAttrs strideH strideW padding activation)))))))).

Definition Pool2D (h : heap) (input weight : Tensor) (ty : OpType) (kernelH kernelW strideH strideW : Z)
    (padding : PaddingMode) (activation : ActiMode) : res (heap * OpBase) :=
  '(h, ins, outs) ← OpBase_init h [input; weight] ty;
  py_assert (bool_decide (ty = OP_POOL2D_AVG ∨ ty = OP_POOL2D_MAX)) (py_assert (numDim input =? 4)
  (inputH ← pget (dim input) 2; inputW ← pget (dim input) 3;
   outputH ← out_extent padding inputH kernelH strideH;
   outputW ← out_extent padding inputW kernelW strideW;
   t ← output0 outs;
   n ← pget (dim input) 0; c ← pget (dim input) 1;
   l0 ← pget (split input) 0; l1 ← pget (split input) 1;
   let t := set_split (layout4 t n c outputH outputW) ([l0; l1; NO_SPLIT; NO_SPLIT] ++ drop 4 (split t)) in
   Ok (h, finish ty 2 ins outs t (Pool2DAttrs kernelH kernelW strideH strideW padding activation)))).

(** Dimension [i] counted from the end, 1 where there is none. *)
Definition dim_from_end (t : Tensor) (i : Z) : res Z :=
  if numDim t - 1 - i <? 0 then Ok 1 else pget (dim t) (numDim t - 1 - i).

(** The split of an output axis of [Element]: one of the arguments', combined. *)
Definition element_split (h : heap) (t1 t2 : Tensor) (i : Z) : res (heap * loc) :=
  d1 ← dim_from_end t1 i; d2 ← dim_from_end t2 i;
  if (0 <=? numDim t1 - 1 - i) && (1 <? d1) then
    l1 ← pget (split t1) (numDim t1 - 1 - i);
    if (0 <=? numDim t2 - 1 - i) && (1 <? d2) then
      l2 ← pget (split t2) (numDim t2 - 1 - i);
      h ← combine_split h l1 l2;
      Ok (h, l1)
    else Ok (h, l1)
  else if (0 <=? numDim t2 - 1 - i) && (1 <? d2) then
    l2 ← pget (split t2) (numDim t2 - 1 - i); Ok (h, l2)
  else Ok (h, NO_SPLIT).

Definition Element (h : heap) (ty : OpType) (t1 t2 : Tensor) : res (heap * OpBase) :=
  '(h, ins, outs) ← OpBase_init h [t1; t2] ty;
  t ← output0 outs;
  let num_dim := Z.max (numDim t1) (numDim t2) in
  '(h, d, s, sp, _) ← foldM (λ i '(h, d, s, sp, total),
     let out_idx := num_dim - 1 - i in
     dim1 ← dim_from_end t1 i; dim2 ← dim_from_end t2 i;
     d ← pset d out_idx (Z.max dim1 dim2);
     s ← pset s out_idx total;
     '(h, l) ← element_split h t1 t2 i;
     sp ← pset sp out_idx l;
     Ok (h, d, s, sp, total * Z.max dim1 dim2)) (py_range num_dim) (h, dim t, stride t, split t, 1);
  Ok (h, finish ty 2 ins outs (set_split (set_layout t num_dim d s) sp) NoAttrs).

(** The strides of [Matmul]: the last two axes, then the others. *)
Definition matmul_strides (n : Z) (d s : list Z) : res (list Z * Z) :=
  s ← pset s (n - 1) 1;
  x ← pget d (n - 1);
  s ← pset s (n - 2) x;
  y ← pget d (n - 2);
  foldM (λ i '(s, size), s ← pset s i size; x ← pget d i; Ok (s, size * x)) (py_range_down (n - 2)) (s, y * x).

Definition Matmul (h : heap) (input weight : Tensor) (activation : ActiMode) : res (heap * OpBase) :=
  '(h, ins, outs) ← OpBase_init h [input; weight] OP_MATMUL;
  let n := numDim input in
  py_assert (n =? numDim weight)
  (_ ← foldM (λ i _, x ← pget (dim input) i; y ← pget (dim weight) i; py_assert (x =? y) (Ok tt)) (py_range (n - 2)) tt;
   x ← pget (dim input) (n - 1); y ← pget (dim weight) (n - 2);
   py_assert (x =? y)
   (t ← output0 outs;
    d ← foldM (λ i d, x ← pget (dim input) i; pset d i x) (py_range (n - 1)) (dim t);
    w ← pget (dim weight) (n - 1);
    d ← pset d (n - 1) w;
    '(s, size) ← matmul_strides n d (stride t);
    let t := set_layout t n d s in
    v ← volume t;
    py_assert (size =? v)
    (sp ← foldM (λ i sp,
       a ← pget (split input) i; b ← pget (split weight) i;
       e ← eq_split h a b;
       pset sp i (if e : bool then a else NO_SPLIT)) (py_range (n - 2)) (split t);
     a ← pget (split input) (n - 2);
     sp ← pset sp (n - 2) a;
     b ← pget (split weight) (n - 1);
     sp ← pset sp (n - 1) b;
     Ok (h, finish OP_MATMUL 2 ins outs (set_split t sp) (MatmulAttrs activation))))).

Definition Reshape (h : heap) (input : Tensor) (shape : list Z) : res (heap * OpBase) :=
  '(h, ins, outs) ← OpBase_init h [input] OP_RESHAPE;
  t ← output0 outs;
  let n := zlen shape in
  '(d, s, sp, size) ← foldM (λ i '(d, s, sp, size),
     x ← pget shape i;
     d ← pset d i x;
     s ← pset s i size;
     sp ← pset sp i NO_SPLIT;
     Ok (d, s, sp, size * x)) (py_range_down n) (dim t, stride t, split t, 1);
  v ← volume input;
  py_assert (v =? size)
  (Ok (h, finish OP_RESHAPE 1 ins outs (set_split (set_layout t n d s) sp) NoAttrs)).

Definition Transpose (h : heap) (input : Tensor) (perm : list Z) (shuffle : bool) : res (heap * OpBase) :=
  '(h, ins, outs) ← OpBase_init h [input] OP_TRANSPOSE;
  py_assert shuffle
  (permIdx ← permutation_to_index perm;
   py_assert (numDim input =? zlen perm)
   (t ← output0 outs;
    '(d, sp) ← foldM (λ i '(d, sp),
       p ← pget perm i;
       x ← pget (dim input) p;
       d ← pset d i x;
       l ← pget (split input) p;
       sp ← pset sp i l;
       Ok (d, sp)) (py_range (zlen perm)) (dim t, split t);
    '(s, size) ← stride_loop (zlen perm) d (stride t);
    let t := set_split (set_layout t (numDim input) d s) sp in
    v ← volume t;
    py_assert (size =? v)
    (Ok (h, finish OP_TRANSPOSE 1 ins outs t (TransposeAttrs permIdx shuffle))))).

(** ** Parameters that rules ask for *)

(** [None]: the method returns [False].  A boolean is 0 or 1. *)
Definition base_int_parameter (o : OpBase) (para : PMParameter) : option keyval :=
  match para with
  | PM_OP_TYPE => Some (KType (type o))
  | PM_NUM_INPUTS => Some (KInt (numInputs o))
  | PM_NUM_OUTPUTS => Some (KInt (numOutputs o))
  | _ => None
  end.
Definition get_int_parameter (o : OpBase) (para : PMParameter) : res (option keyval) :=
  match attrs o with
  | Conv2DAttrs strideH strideW padding activation =>
      match para with
      | PM_GROUP =>
          a ← pget (inputs o) 0; b ← pget (inputs o) 1;
          inputC ← pget (dim a) 1; weightC ← pget (dim b) 1;
          r ← py_mod inputC weightC;
          py_assert (r =? 0) (Ok (Some (KInt (inputC / weightC))))
      | PM_KERNEL_H => b ← pget (inputs o) 1; x ← pget (dim b) 2; Ok (Some (KInt x))
      | PM_KERNEL_W => b ← pget (inputs o) 1; x ← pget (dim b) 3; Ok (Some (KInt x))
      | PM_STRIDE_H => Ok (Some (KInt strideH))
      | PM_STRIDE_W => Ok (Some (KInt strideW))
      | PM_PAD => Ok (Some (KPad padding))
      | PM_ACTI => Ok (Some (KActi activation))
      | _ => Ok (base_int_parameter o para)
      end
  | Pool2DAttrs kernelH kernelW strideH strideW padding activation =>
      Ok (match para with
          | PM_KERNEL_H => Some (KInt kernelH)
          | PM_KERNEL_W => Some (KInt kernelW)
          | PM_STRIDE_H => Some (KInt strideH)
          | PM_STRIDE_W => Some (KInt strideW)
          | PM_PAD => Some (KPad padding)
          | PM_ACTI => Some (KActi activation)
          | _ => base_int_parameter o para
          end)
  | MatmulAttrs activation =>
      Ok (match para with PM_ACTI => Some (KActi activation) | _ => base_int_parameter o para end)
  | TransposeAttrs permIdx shuffle =>
      match para with
      | PM_NUMDIM => t ← pget (outputs o) 0; Ok (Some (KInt (numDim t)))
      | PM_PERM => Ok (Some (KInt permIdx))
      | PM_OUTSHUFFLE => Ok (Some (KInt (Z.b2z shuffle)))
      | _ => Ok (base_int_parameter o para)
      end
  | _ => Ok (base_int_parameter o para)
  end.

(** The index moves by one for every input but the first, and for every axis but the
    first. *)
Definition get_input_parameter (o : OpBase) (tnp : TNParameter) (dm : DIMParameter) : res (option Z) :=
  let inputIdx := match tnp with
    | IN_5 | IN_4 | IN_3 | IN_2 | IN_1 => Some 1 | IN_0 => Some 0 | _ => None end in
  match inputIdx with
  | None => Ok None
  | Some i =>
      if numInputs o <=? i then Ok None
      else
        t ← pget (inputs o) i;
        match (match dm with DIM_3 | DIM_2 | DIM_1 => Some 1 | DIM_0 => Some 0 | DIM_ND => None end) with
        | None => Ok (Some (numDim t))
        | Some j => if numDim t <=? j then Ok None else x ← pget (dim t) j; Ok (Some x)
        end
  end.

(** ** Calls of constructors and their shapes *)

Inductive call :=
  | CallNoOp (input : Tensor) (ty : OpType)
  | CallActivation (input : Tensor) (ty : OpType) (inPlace : bool)
  | CallConv2D (input weight : Tensor) (strideH strideW : Z) (padding : PaddingMode) (activation : ActiMode)
  | CallPool2D (input weight : Tensor) (ty : OpType) (kernelH kernelW strideH strideW : Z) (padding : PaddingMode)
      (activation : ActiMode)
  | CallElement (ty : OpType) (t1 t2 : Tensor)
  | CallMatmul (input weight : Tensor) (activation : ActiMode)
  | CallReshape (input : Tensor) (shape : list Z)
  | CallTranspose (input : Tensor) (perm : list Z).

Definition construct (h : heap) (c : call) : res (heap * OpBase) :=
  match c with
  | CallNoOp t ty => NoOp h t ty
  | CallActivation t ty b => Activation h t ty b
  | CallConv2D t w sh sw p a => Conv2D h t w sh sw p a
  | CallPool2D t w ty kh kw sh sw p a => Pool2D h t w ty kh kw sh sw p a
  | CallElement ty t u => Element h ty t u
  | CallMatmul t w a => Matmul h t w a
  | CallReshape t s => Reshape h t s
  | CallTranspose t p => Transpose h t p true
  end.
Definition call_args (c : call) : list Tensor :=
  match c with
  | CallNoOp t _ | CallActivation t _ _ | CallReshape t _ | CallTranspose t _ => [t]
  | CallConv2D t w _ _ _ _ | CallPool2D t w _ _ _ _ _ _ _ | CallElement _ t w | CallMatmul t w _ => [t; w]
  end.
Definition call_type (c : call) : OpType :=
  match c with
  | CallNoOp _ ty | CallActivation _ ty _ | CallPool2D _ _ ty _ _ _ _ _ _ | CallElement ty _ _ => ty
  | CallConv2D _ _ _ _ _ _ => OP_CONV2D
  | CallMatmul _ _ _ => OP_MATMUL
  | CallReshape _ _ => OP_RESHAPE
  | CallTranspose _ _ => OP_TRANSPOSE
  end.

(** Axes are aligned at the end; a missing axis has extent 1. *)
Definition broadcast (ds es : list Z) : list Z :=
  reverse ((λ k, Z.max (default 1 (reverse ds !! k)) (default 1 (reverse es !! k))) <$> seq 0 (max (length ds) (length es))).

Definition extent (padding : PaddingMode) (size kernel stride : Z) : Z :=
  match padding with PD_MODE_SAME => (size + stride - 1) / stride | PD_MODE_VALID => (size - kernel) / stride + 1 end.

(** The dimensions of the result, where the arguments are acceptable. *)
Definition shape_rule (c : call) (shapes : list (list Z)) : option (list Z) :=
  match c, shapes with
  | CallNoOp _ _, [ds] | CallActivation _ _ _, [ds] => Some ds
  | CallConv2D _ _ sh sw p _, [[n; ci; ih; iw]; [co; cw; kh; kw]] =>
      if (0 <? sh) && (0 <? sw) && (0 <? ci) && (0 <? cw) && (ci mod cw =? 0) && (co mod (ci / cw) =? 0)
      then Some [n; co; extent p ih kh sh; extent p iw kw sw] else None
  | CallPool2D _ _ ty kh kw sh sw p _, [[n; c; ih; iw]; _] =>
      if (0 <? sh) && (0 <? sw) && bool_decide (ty = OP_POOL2D_AVG ∨ ty = OP_POOL2D_MAX)
      then Some [n; c; extent p ih kh sh; extent p iw kw sw] else None
  | CallElement _ _ _, [ds; es] => Some (broadcast ds es)
  | CallMatmul _ _ _, [ds; es] =>
      match reverse ds, reverse es with
      | k :: m :: batch, n :: k' :: batch' =>
          if bool_decide (batch = batch') && (k =? k') then Some (reverse batch ++ [m; n]) else None
      | _, _ => None
      end
  | CallReshape _ shape, [ds] =>
      if (zlen shape <=? MAX_DIM) && (product ds =? product shape) then Some shape else None
  | CallTranspose _ perm, [ds] =>
      if is_perm perm && (zlen perm =? zlen ds) then Some ((λ p, default 0 (ds !! Z.to_nat p)) <$> perm) else None
  | _, _ => None
  end.

(** An operator of type [ty] on the arguments [ins], whose output has dimensions [ds]. *)
Record typed (h : heap) (o : OpBase) (ty : OpType) (ins : list Tensor) (ds : list Z) : Prop := {
  ty_type : type o = ty;
  ty_inputs : numInputs o = zlen ins;
  ty_args : Forall2 (λ t u, t = u ∨ t = set_idx u 0) (take (length ins) (inputs o)) ins;
  ty_outputs : numOutputs o = 1;
  ty_output : ∃ t, outputs o !! 0%nat = Some t ∧ has_shape t ds ∧ unsplit h t ∧ idx t = 0
}.

Lemma new_Tensors_ok n h : heap_ok h → ∃ h' ts, new_Tensors n h = (h', ts) ∧ heap_ok h' ∧ heap_le h h' ∧ length ts = n.
Proof.
  revert h. induction n as [|n IH]; intros h Hh; [by exists h, []|]. cbn [new_Tensors].
  destruct (new_Tensor_ok h Hh) as (h1 & t & -> & Hb & _). destruct (IH h1 (bl_heap _ _ _ Hb)) as (h' & ts & -> & Hok & Hle & Hlen).
  exists h', (t :: ts). split_and!; [done|done|etrans; [apply Hb|done]|by simpl; rewrite Hlen].
Qed.

Lemma new_Tensors_S n h : new_Tensors (S n) h = let '(h, t) := new_Tensor h in let '(h, ts) := new_Tensors n h in (h, t :: ts).
Proof. reflexivity. Qed.

Lemma OpBase_init_ok h args ty :
  heap_ok h → 0 < zlen args <= MAX_NUM_INPUTS →
  ∃ h' ins outs t, OpBase_init h args ty = Ok (h', ins, outs) ∧ output0 outs = Ok t ∧ length outs = 6%nat
    ∧ take (length args) ins = args ∧ blank h h' t.
Proof.
  intros Hh Hn. unfold OpBase_init, py_assert. rewrite !check_true by lia.
  destruct (new_Tensor_ok h Hh) as (h1 & u & -> & Hb1 & _).
  rewrite new_Tensors_S.
  destruct (new_Tensor_ok h1 (bl_heap _ _ _ Hb1)) as (h2 & t & -> & Hb2 & _).
  destruct (new_Tensors_ok 5 h2 (bl_heap _ _ _ Hb2)) as (h' & ts & -> & Hok & Hle & Hlen).
  eexists _, _, _, t. split; [reflexivity|]. split; [by apply pget_ok|]. split; [simpl; lia|]. split; [by rewrite take_app_length|].
  destruct Hb1 as [_ Hle1 _ _ _ _]. destruct Hb2 as [_ Hle2 Hd Hs Hsp Hfr]. split; try assumption.
  - etrans; [apply Hle1|]. by etrans.
  - intros l Hl. destruct (Hfr l Hl) as (Hnone & s & Hsl & H0). split; [|exists s; split; [by apply Hle|done]].
    destruct (splits h !! l) eqn:Hx; [|done]. apply Hle1 in Hx. congruence.
Qed.

Lemma elem_of_insert {A} (l : list A) i x y : y ∈ <[i := x]> l → y = x ∨ y ∈ l.
Proof.
  intros [j Hj]%list_elem_of_lookup. apply list_lookup_insert_Some in Hj as [(_ & -> & _)|[_ Hj]]; [by left|].
  right. by eapply list_elem_of_lookup_2.
Qed.

Lemma finish_typed h ty n args ins outs t a ds :
  n = zlen args → length outs = 6%nat → Forall2 (λ t u, t = u ∨ t = set_idx u 0) (take (length args) ins) args →
  has_shape t ds → unsplit h t → typed h (finish ty n ins outs t a) ty args ds.
Proof.
  intros -> Hlen Hargs Ht Hu. split; simpl; try done. exists (set_idx t 0). split_and!; try done.
  - apply list_lookup_insert_eq. lia.
  - by destruct Ht; split.
  - by destruct Hu; split.
Qed.
Lemma args_same ins args : take (length args) ins = args → Forall2 (λ t u, t = u ∨ t = set_idx u 0) (take (length args) ins) args.
Proof. intros ->. apply Forall2_same_length_lookup_2; [done|]. intros i x y Hx Hy. left. congruence. Qed.

Lemma layout4_shape t n c oh ow : length (dim t) = 8%nat → length (stride t) = 8%nat → has_shape (layout4 t n c oh ow) [n; c; oh; ow].
Proof.
  intros Hd Hs. split; cbn [layout4 set_layout numDim dim stride]; try done.
  - rewrite length_app, length_drop. simpl. lia.
  - rewrite length_app, length_drop. simpl. lia.
  - intros i d Hi. by rewrite lookup_app_l by (by apply lookup_lt_Some in Hi).
  - intros i Hi. rewrite lookup_app_l by done. unfold product.
    do 4 (destruct i as [|i]; [simpl; f_equal; lia|]). simpl in Hi. lia.
Qed.

(** A list of four splits in front of those of a blank tensor. *)
Lemma unsplit_front h h' t ls tail :
  blank h h' t → length ls = 4%nat → (∀ l, l ∈ ls → ∃ s, splits h' !! l = Some s ∧ num s = 0) →
  split tail = ls ++ drop 4 (split t) → unsplit h' tail.
Proof.
  intros Hb Hl Hls Heq. split; rewrite Heq.
  - rewrite length_app, length_drop, (bl_split _ _ _ Hb). lia.
  - intros l [Hin|Hin]%elem_of_app; [by apply Hls|]. apply (bl_fresh _ _ _ Hb l).
    rewrite <-(take_drop 4 (split t)). apply elem_of_app. by right.
Qed.

Lemma out_extent_ok p size k s : 0 < s → out_extent p size k s = Ok (extent p size k s).
Proof. intros Hs. unfold out_extent, py_div. destruct p; rewrite check_true by lia; done. Qed.

Lemma eq_split_empty h a b s1 s2 :
  splits h !! a = Some s1 → splits h !! b = Some s2 → num s1 = 0 → num s2 = 0 → eq_split h a b = Ok true.
Proof. intros Ha Hb H1 H2. unfold eq_split, load. rewrite Ha, Hb. cbn [mbind res_bind]. unfold split_eq. by rewrite H1, H2. Qed.

Section typing.
  Context (h : heap) (Hh : heap_ok h) (Hclean : no_split_clean h).

Definition result_ok (r : res (heap * OpBase)) (ty : OpType) (args : list Tensor) (ds : list Z) : Prop :=
  ∃ h' o, r = Ok (h', o) ∧ heap_ok h' ∧ heap_le h h' ∧ typed h' o ty args ds.

Ltac start_op :=
  match goal with |- context [OpBase_init h ?args ?ty] =>
    destruct (OpBase_init_ok h args ty Hh ltac:(by cbv)) as (h1 & ins & outs & t0 & -> & Hout & Houts & Hins & Hblank);
    pose proof (bl_le _ _ _ Hblank) as Hle; pose proof (bl_heap _ _ _ Hblank) as Hok;
    cbn [mbind res_bind] end.

Lemma NoOp_typed t ty ds : has_shape t ds → unsplit h t → result_ok (NoOp h t ty) ty [t] ds.
Proof.
  intros Ht Hu. unfold NoOp. start_op. eexists _, _. split; [done|]. split_and!; try done.
  apply finish_typed; try done; [|by eapply unsplit_le].
  destruct ins as [|x ins]; [done|]. simpl. constructor; [by right|constructor].
Qed.
Lemma Activation_typed t ty b ds : has_shape t ds → unsplit h t → result_ok (Activation h t ty b) ty [t] ds.
Proof.
  intros Ht Hu. unfold Activation. start_op. eexists _, _. split; [done|]. split_and!; try done.
  apply finish_typed; try done; [|by eapply unsplit_le].
  destruct ins as [|x ins]; [done|]. simpl. constructor; [by right|constructor].
Qed.

Lemma Conv2D_typed t w sh sw p a n ci ih iw co cw kh kw :
  has_shape t [n; ci; ih; iw] → unsplit h t → has_shape w [co; cw; kh; kw] →
  0 < sh → 0 < sw → 0 < ci → 0 < cw → ci mod cw = 0 → co mod (ci / cw) = 0 →
  result_ok (Conv2D h t w sh sw p a) OP_CONV2D [t; w] [n; co; extent p ih kh sh; extent p iw kw sw].
Proof.
  intros Ht Hu Hw Hsh Hsw Hci Hcw Hm Hg. unfold Conv2D. start_op.
  assert (0 < ci / cw) as Hgr.
  { pose proof (Z.div_mod ci cw ltac:(lia)) as Hdm. rewrite Hm in Hdm. pose proof (Z.div_pos ci cw ltac:(lia) ltac:(lia)). nia. }
  unfold py_assert. rewrite (hs_num _ _ Ht), (hs_num _ _ Hw). rewrite !check_true by done.
  rewrite (shape_dim_at t _ 1 ci Ht), (shape_dim_at w _ 1 cw Hw) by done. cbn [mbind res_bind].
  unfold py_mod. rewrite check_true by lia. cbn [mbind res_bind]. rewrite Hm, check_true by done.
  rewrite (shape_dim_at w _ 0 co Hw) by done. cbn [mbind res_bind]. rewrite check_true by lia. cbn [mbind res_bind]. rewrite Hg, check_true by done.
  rewrite (shape_dim_at t _ 2 ih Ht), (shape_dim_at t _ 3 iw Ht), (shape_dim_at w _ 2 kh Hw), (shape_dim_at w _ 3 kw Hw) by done.
  cbn [mbind res_bind]. rewrite !out_extent_ok by done. cbn [mbind res_bind]. rewrite Hout, (shape_dim_at t _ 0 n Ht) by done. cbn [mbind res_bind].
  pose proof (unsplit_le _ _ _ Hle Hu) as Hu1. pose proof (no_split_clean_le _ _ Hle Hclean) as (s & Hs & Hs0).
  destruct (unsplit_at h1 t 0 Hu1 ltac:(lia)) as (l0 & s0 & -> & _ & H0 & E0).
  destruct (unsplit_at h1 t 2 Hu1 ltac:(lia)) as (l2 & s2 & -> & _ & H2 & E2).
  destruct (unsplit_at h1 t 3 Hu1 ltac:(lia)) as (l3 & s3 & -> & _ & H3 & E3). cbn [mbind res_bind].
  rewrite (eq_split_empty h1 l2 NO_SPLIT s2 s H2 Hs E2 Hs0), (eq_split_empty h1 l3 NO_SPLIT s3 s H3 Hs E3 Hs0). cbn [mbind res_bind check].
  eexists _, _. split; [done|]. split_and!; try done. apply finish_typed; try done; [by apply args_same| |].
  - destruct (layout4_shape t0 n co (extent p ih kh sh) (extent p iw kw sw) (bl_dim _ _ _ Hblank) (bl_stride _ _ _ Hblank)); by split.
  - eapply (unsplit_front h h1 t0 [l0; l0; l2; l3]); try done.
    intros l Hl. rewrite !elem_of_cons in Hl. destruct Hl as [->|[->|[->|[->|Hl]]]]; eauto. by apply not_elem_of_nil in Hl.
Qed.

Lemma Pool2D_typed t w ty kh kw sh sw p a n c ih iw :
  has_shape t [n; c; ih; iw] → unsplit h t → 0 < sh → 0 < sw → ty = OP_POOL2D_AVG ∨ ty = OP_POOL2D_MAX →
  result_ok (Pool2D h t w ty kh kw sh sw p a) ty [t; w] [n; c; extent p ih kh sh; extent p iw kw sw].
Proof.
  intros Ht Hu Hsh Hsw Hty. unfold Pool2D. start_op. unfold py_assert. rewrite (bool_decide_true (_ ∨ _)) by done.
  rewrite (hs_num _ _ Ht). rewrite !check_true by done.
  rewrite (shape_dim_at t _ 2 ih Ht), (shape_dim_at t _ 3 iw Ht) by done.
  cbn [mbind res_bind]. rewrite !out_extent_ok by done. cbn [mbind res_bind].
  rewrite Hout, (shape_dim_at t _ 0 n Ht), (shape_dim_at t _ 1 c Ht) by done. cbn [mbind res_bind].
  pose proof (unsplit_le _ _ _ Hle Hu) as Hu1. pose proof (no_split_clean_le _ _ Hle Hclean) as (s & Hs & Hs0).
  destruct (unsplit_at h1 t 0 Hu1 ltac:(lia)) as (l0 & s0 & -> & _ & H0 & E0).
  destruct (unsplit_at h1 t 1 Hu1 ltac:(lia)) as (l1 & s1 & -> & _ & H1 & E1). cbn [mbind res_bind].
  eexists _, _. split; [done|]. split_and!; try done. apply finish_typed; try done; [by apply args_same| |].
  - destruct (layout4_shape t0 n c (extent p ih kh sh) (extent p iw kw sw) (bl_dim _ _ _ Hblank) (bl_stride _ _ _ Hblank)); by split.
  - eapply (unsplit_front h h1 t0 [l0; l1; NO_SPLIT; NO_SPLIT]); try done.
    intros l Hl. rewrite !elem_of_cons in Hl. destruct Hl as [->|[->|[->|[->|Hl]]]]; eauto. by apply not_elem_of_nil in Hl.
Qed.

Lemma dim_from_end_ok t ds i :
  has_shape t ds → 0 <= i → dim_from_end t i = Ok (default 1 (reverse ds !! Z.to_nat i)).
Proof.
  intros Ht Hi. unfold dim_from_end. rewrite (hs_num _ _ Ht). unfold zlen. destruct (Z.ltb_spec (length ds - 1 - i) 0) as [Hlt|Hge].
  - by rewrite lookup_ge_None_2 by (rewrite length_reverse; lia).
  - rewrite reverse_lookup by lia. destruct (lookup_lt_is_Some_2 ds (length ds - S (Z.to_nat i))) as [d Hd]; [lia|]. rewrite Hd.
    apply (shape_dim_at t ds); [done| |lia]. by replace (Z.to_nat (length ds - 1 - i)) with (length ds - S (Z.to_nat i))%nat by lia.
Qed.

Lemma combine_empty h1 a b s1 s2 :
  splits h1 !! a = Some s1 → splits h1 !! b = Some s2 → num s1 = 0 → num s2 = 0 → combine_split h1 a b = Ok h1.
Proof.
  intros Ha Hb E1 E2. unfold combine_split, load. rewrite Ha, Hb. cbn [mbind res_bind]. unfold combine. rewrite E1, E2. simpl.
  unfold store. rewrite E1. simpl. rewrite insert_id by done. by destruct h1.
Qed.

Lemma element_split_ok h1 t1 t2 ds es i :
  has_shape t1 ds → has_shape t2 es → unsplit h1 t1 → unsplit h1 t2 → no_split_clean h1 → 0 <= i →
  ∃ l s, element_split h1 t1 t2 i = Ok (h1, l) ∧ splits h1 !! l = Some s ∧ num s = 0.
Proof.
  intros H1 H2 U1 U2 (s & Hs & Hs0) Hi. unfold element_split. rewrite (dim_from_end_ok t1 ds i H1 Hi), (dim_from_end_ok t2 es i H2 Hi). cbn [mbind res_bind].
  pose proof (hs_max _ _ H1) as M1. pose proof (hs_max _ _ H2) as M2. rewrite (hs_num _ _ H1), (hs_num _ _ H2). unfold MAX_DIM in *.
  destruct ((0 <=? zlen ds - 1 - i) && (1 <? _)) eqn:E1.
  - destruct (unsplit_at h1 t1 (zlen ds - 1 - i) U1 ltac:(lia)) as (l1 & s1 & -> & _ & ? & ?). cbn [mbind res_bind].
    destruct ((0 <=? zlen es - 1 - i) && (1 <? _)) eqn:E2; [|by exists l1, s1].
    destruct (unsplit_at h1 t2 (zlen es - 1 - i) U2 ltac:(lia)) as (l2 & s2 & -> & _ & ? & ?). cbn [mbind res_bind].
    rewrite (combine_empty h1 l1 l2 s1 s2) by done. by exists l1, s1.
  - destruct ((0 <=? zlen es - 1 - i) && (1 <? _)) eqn:E2; [|by exists NO_SPLIT, s].
    destruct (unsplit_at h1 t2 (zlen es - 1 - i) U2 ltac:(lia)) as (l2 & s2 & -> & _ & ? & ?). by exists l2, s2.
Qed.

Lemma product_reverse ds : product (reverse ds) = product ds.
Proof.
  induction ds as [|d ds IH]; [done|]. rewrite reverse_cons, product_app, IH. unfold product at 2. simpl. unfold product. simpl. lia.
Qed.

Lemma Element_typed t1 t2 ty ds es :
  has_shape t1 ds → unsplit h t1 → has_shape t2 es → unsplit h t2 →
  result_ok (Element h ty t1 t2) ty [t1; t2] (broadcast ds es).
Proof.
  intros H1 U1 H2 U2. unfold Element. start_op. rewrite Hout. cbn [mbind res_bind].
  rewrite (hs_num _ _ H1), (hs_num _ _ H2). pose proof (hs_max _ _ H1) as M1. pose proof (hs_max _ _ H2) as M2. unfold MAX_DIM in *.
  set (N := Z.max (zlen ds) (zlen es)). set (bd := λ k, Z.max (default 1 (reverse ds !! k)) (default 1 (reverse es !! k))).
  set (front := λ n, bd <$> seq 0 n).
  assert (∀ n, front (S n) = front n ++ [bd n]) as HfS by (intros n; unfold front; rewrite seq_S, fmap_app; done).
  match goal with |- context [foldM ?f (py_range _) ?st] =>
    destruct (foldM_up (λ i '(h', d, s, sp, total), h' = h1 ∧ length d = 8%nat ∧ length s = 8%nat ∧ length sp = 8%nat
        ∧ total = product (front (Z.to_nat i)) ∧ (∀ l, l ∈ sp → ∃ x, splits h1 !! l = Some x ∧ num x = 0)
        ∧ ∀ k : nat, k < i → d !! Z.to_nat (N - 1 - k) = Some (bd k) ∧ s !! Z.to_nat (N - 1 - k) = Some (product (front k))) f 0 N st)
      as ([[[[h' d] s] sp] total] & Hrun & -> & Hd & Hs & Hsp & -> & Hspl & Hcells) end.
  - pose proof (zlen_nonneg ds). lia.
  - destruct Hblank as [_ _ Bd Bs Bsp Bf]. split_and!; [done|done|done|done|done|by apply Bf|lia].
  - intros i [[[[h' d] s] sp] total] Hi (-> & Hd & Hs & Hsp & -> & Hspl & Hcells).
    rewrite (dim_from_end_ok t1 ds i H1), (dim_from_end_ok t2 es i H2) by lia. cbn [mbind res_bind]. fold (bd (Z.to_nat i)).
    rewrite pset_ok by (unfold zlen in *; lia). cbn [mbind res_bind]. rewrite pset_ok by (unfold zlen in *; lia). cbn [mbind res_bind].
    destruct (element_split_ok h1 t1 t2 ds es i H1 H2) as (l & x & -> & Hl & Hx);
      [by eapply unsplit_le|by eapply unsplit_le|by eapply no_split_clean_le|lia|]. cbn [mbind res_bind].
    rewrite pset_ok by (unfold zlen in *; lia). cbn [mbind res_bind]. eexists. split; [done|].
    split_and!; try (by rewrite length_insert); [done| | |].
    + replace (Z.to_nat (i + 1)) with (S (Z.to_nat i)) by lia. rewrite HfS, product_app. unfold product at 3. simpl. lia.
    + intros l' Hl'. apply elem_of_insert in Hl' as [->|Hl']; eauto.
    + intros k Hk. destruct (decide (k = Z.to_nat i)) as [->|Hne].
      * replace (Z.to_nat (N - 1 - Z.to_nat i)) with (Z.to_nat (N - 1 - i)) by lia. rewrite !list_lookup_insert_eq by lia. done.
      * rewrite !list_lookup_insert_ne by lia. apply Hcells. lia.
  - unfold py_range. rewrite Hrun. cbn [mbind res_bind]. eexists _, _. split; [done|]. split_and!; try done.
    assert (N = Z.of_nat (max (length ds) (length es))) as HN by (unfold N, zlen; lia).
    assert (length (broadcast ds es) = Z.to_nat N) as Hbl by (unfold broadcast; rewrite length_reverse, length_fmap, length_seq; lia).
    apply finish_typed; [done|done|by apply args_same| |].
    + assert (∀ i : nat, (i < Z.to_nat N)%nat → broadcast ds es !! i = Some (bd (Z.to_nat N - S i)%nat)) as Hlook.
      { intros i Hi. unfold broadcast. fold bd. rewrite reverse_lookup by (rewrite length_fmap, length_seq; lia).
        rewrite length_fmap, length_seq, list_lookup_fmap, lookup_seq_lt by lia. simpl. do 2 f_equal. lia. }
      split; cbn [set_split set_layout numDim dim stride]; try done; [unfold zlen; rewrite Hbl; lia|unfold zlen, MAX_DIM; rewrite Hbl; lia| |].
      * intros i x Hx. pose proof (lookup_lt_Some _ _ _ Hx) as Hi. rewrite Hlook in Hx by lia. rewrite <-Hx.
        destruct (Hcells (Z.to_nat N - S i)%nat ltac:(lia)) as [<- _]. f_equal. lia.
      * intros i Hi. destruct (Hcells (Z.to_nat N - S i)%nat ltac:(lia)) as [_ Hst]. replace (Z.to_nat (N - 1 - (Z.to_nat N - S i)%nat)) with i in Hst by lia.
        rewrite Hst. f_equal. unfold broadcast. fold bd.
        replace (max (length ds) (length es)) with (Z.to_nat N) by lia. fold (front (Z.to_nat N)).
        assert (front (Z.to_nat N) = front (Z.to_nat N - S i)%nat ++ (bd <$> seq (Z.to_nat N - S i)%nat (S i))) as Hsplit.
        { unfold front. rewrite <-fmap_app, <-seq_app. do 2 f_equal. lia. }
        rewrite Hsplit, reverse_app, drop_app_length'; [by rewrite product_reverse|]. rewrite length_reverse, length_fmap, length_seq. done.
    + split; simpl; [done|]. exact Hspl.
Qed.

(** The loops that copy dimensions and fill in strides. *)
Lemma copy_dims_ok (src d : list Z) n :
  0 <= n <= zlen src → n <= zlen d →
  ∃ d', foldM (λ i d, x ← pget src i; pset d i x) (py_range n) d = Ok d' ∧ length d' = length d
    ∧ (∀ j : nat, j < n → d' !! j = src !! j).
Proof.
  intros Hn Hd. unfold py_range.
  destruct (foldM_up (λ i d', length d' = length d ∧ ∀ j : nat, j < i → d' !! j = src !! j)
    (λ i d, x ← pget src i; pset d i x) 0 n d) as (d' & -> & Hl & Hc); [lia|split; [done|lia]| |eauto].
  intros i d' Hi [Hl Hc]. destruct (lookup_lt_is_Some_2 src (Z.to_nat i)) as [x Hx]; [unfold zlen in Hn; lia|].
  rewrite (pget_ok src i x) by (done || lia). cbn [mbind res_bind]. rewrite pset_ok by (unfold zlen in *; lia).
  eexists. split; [done|]. split; [by rewrite length_insert|]. intros j Hj. unfold zlen in *. destruct (decide (j = Z.to_nat i)) as [->|].
  - by rewrite list_lookup_insert_eq by lia.
  - rewrite list_lookup_insert_ne by lia. apply Hc. lia.
Qed.

Lemma strides_down_ok (d s ds : list Z) (n : Z) :
  0 <= n <= zlen ds → zlen ds <= zlen s → (∀ j x, ds !! j = Some x → d !! j = Some x) →
  ∃ s', foldM (λ i '(s, size), s ← pset s i size; x ← pget d i; Ok (s, size * x)) (py_range_down n) (s, product (drop (Z.to_nat n) ds))
        = Ok (s', product ds)
    ∧ length s' = length s ∧ (∀ j : nat, j < n → s' !! j = Some (product (drop (S j) ds))) ∧ (∀ j : nat, n <= j → s' !! j = s !! j).
Proof.
  intros Hn Hs Hd.
  match goal with |- context [foldM ?f (py_range_down n) ?st] =>
    destruct (foldM_down (λ i '(s', c), c = product (drop (Z.to_nat i) ds) ∧ length s' = length s
      ∧ (∀ j : nat, i <= j < n → s' !! j = Some (product (drop (S j) ds))) ∧ (∀ j : nat, n <= j → s' !! j = s !! j)) f n st)
    as ([s' c] & -> & -> & Hl & Hc & Hu) end; [lia|split_and!; [done|done|lia|done]| |].
  - intros i [s' c] Hi (-> & Hl & Hc & Hu). destruct (lookup_lt_is_Some_2 ds (Z.to_nat i)) as [x Hx]; [unfold zlen in Hn; lia|].
    rewrite pset_ok by (unfold zlen in *; lia). cbn [mbind res_bind]. rewrite (pget_ok d i x) by (lia || by apply Hd). cbn [mbind res_bind].
    eexists. split; [done|]. replace (Z.to_nat (i + 1)) with (S (Z.to_nat i)) by lia. split_and!.
    + rewrite (drop_lookup _ _ _ Hx). simpl. lia.
    + by rewrite length_insert.
    + intros j Hj. unfold zlen in *. destruct (decide (j = Z.to_nat i)) as [->|]; [by rewrite list_lookup_insert_eq by lia|].
      rewrite list_lookup_insert_ne by lia. apply Hc. lia.
    + intros j Hj. rewrite list_lookup_insert_ne by lia. by apply Hu.
  - exists s'. split_and!; try done. intros j Hj. apply Hc. lia.
Qed.

(** Lists of references to empty splits. *)
Definition empties (h1 : heap) (sp : list loc) : Prop := length sp = 8%nat ∧ ∀ l, l ∈ sp → ∃ x, splits h1 !! l = Some x ∧ num x = 0.
Lemma empties_set h1 sp i l x :
  empties h1 sp → 0 <= i < 8 → splits h1 !! l = Some x → num x = 0 → ∃ sp', pset sp i l = Ok sp' ∧ empties h1 sp'.
Proof.
  intros [Hl He] Hi Hx H0. exists (<[Z.to_nat i := l]> sp). split; [apply pset_ok; unfold zlen; lia|]. split; [by rewrite length_insert|].
  intros l' [->|Hl']%elem_of_insert; eauto.
Qed.
Lemma empties_unsplit h1 t : empties h1 (split t) → unsplit h1 t.
Proof. by intros [??]; split. Qed.
Lemma blank_empties h0 h1 t : blank h0 h1 t → empties h1 (split t).
Proof. intros Hb. split; [apply Hb|]. intros l Hl. apply (bl_fresh _ _ _ Hb l Hl). Qed.

Lemma has_shape_layout t ds d s n :
  n = zlen ds → zlen ds <= 8 → length d = 8%nat → length s = 8%nat → (∀ (j : nat) x, ds !! j = Some x → d !! j = Some x) →
  (∀ j : nat, j < zlen ds → s !! j = Some (product (drop (S j) ds))) → has_shape (set_layout t n d s) ds.
Proof. intros -> Hm Hd Hs Hc Hl. split; simpl; try done. intros i Hi. apply Hl. unfold zlen. lia. Qed.
Lemma has_shape_split t ds sp : has_shape t ds → has_shape (set_split t sp) ds.
Proof. intros []. by split. Qed.

Lemma Reshape_typed t ds shape :
  has_shape t ds → zlen shape <= MAX_DIM → product ds = product shape → result_ok (Reshape h t shape) OP_RESHAPE [t] shape.
Proof.
  intros Ht Hm Hp. unfold Reshape. start_op. rewrite Hout. cbn [mbind res_bind]. unfold MAX_DIM in Hm.
  destruct (no_split_clean_le _ _ Hle Hclean) as (s0 & Hs0 & E0). pose proof (blank_empties _ _ _ Hblank) as Hemp.
  match goal with |- context [foldM ?f (py_range_down _) ?st] =>
    destruct (foldM_down (λ i '(d, s, sp, size), length d = 8%nat ∧ length s = 8%nat ∧ empties h1 sp
      ∧ size = product (drop (Z.to_nat i) shape)
      ∧ ∀ j : nat, i <= j < zlen shape → d !! j = shape !! j ∧ s !! j = Some (product (drop (S j) shape))) f (zlen shape) st)
    as ([[[d s] sp] size] & -> & Hd & Hs & Hsp & -> & Hc) end.
  - apply zlen_nonneg.
  - destruct Hblank as [_ _ Bd Bs _ _]. split_and!; [done|done|done| |lia]. by rewrite drop_ge by (unfold zlen; lia).
  - intros i [[[d s] sp] size] Hi (Hd & Hs & Hsp & -> & Hc).
    destruct (lookup_lt_is_Some_2 shape (Z.to_nat i)) as [x Hx]; [unfold zlen in Hi; lia|].
    rewrite (pget_ok shape i x) by (done || lia). cbn [mbind res_bind]. rewrite (pset_ok d) by (unfold zlen in *; lia). cbn [mbind res_bind].
    rewrite (pset_ok s) by (unfold zlen in *; lia). cbn [mbind res_bind].
    destruct (empties_set h1 sp i NO_SPLIT s0 Hsp ltac:(lia) Hs0 E0) as (sp' & -> & Hsp'). cbn [mbind res_bind].
    eexists. split; [done|]. split_and!; try (by rewrite length_insert); [done| |].
    + replace (Z.to_nat (i + 1)) with (S (Z.to_nat i)) by lia. rewrite (drop_lookup _ _ _ Hx). simpl. lia.
    + intros j Hj. destruct (decide (j = Z.to_nat i)) as [->|].
      * rewrite !list_lookup_insert_eq by lia. split; [done|]. do 3 f_equal. lia.
      * rewrite !list_lookup_insert_ne by lia. apply Hc. lia.
  - cbn [mbind res_bind]. rewrite (volume_ok t ds Ht). cbn [mbind res_bind]. unfold py_assert. rewrite check_true by (apply Z.eqb_eq, Hp).
    eexists _, _. split; [done|]. split_and!; try done. apply finish_typed; [done|done|by apply args_same| |by apply empties_unsplit].
    apply has_shape_split, has_shape_layout; try done.
    + intros j x Hx. destruct (Hc j) as [-> _]; [|done]. apply lookup_lt_Some in Hx. unfold zlen. lia.
    + intros j Hj. apply Hc. lia.
Qed.

Lemma Transpose_typed t ds perm :
  has_shape t ds → unsplit h t → is_perm perm = true → zlen perm = zlen ds →
  result_ok (Transpose h t perm true) OP_TRANSPOSE [t] ((λ p, default 0 (ds !! Z.to_nat p)) <$> perm).
Proof.
  intros Ht Hu Hperm Hlen. unfold Transpose. start_op. rewrite permutation_to_index_eq, Hperm. unfold py_assert. rewrite check_true by done.
  cbn [mbind res_bind]. rewrite (hs_num _ _ Ht). rewrite check_true by lia. rewrite Hout. cbn [mbind res_bind].
  pose proof (hs_max _ _ Ht) as Hm. unfold MAX_DIM in Hm. pose proof (unsplit_le _ _ _ Hle Hu) as Hu1. set (g := λ p, default 0 (ds !! Z.to_nat p)).
  apply bool_decide_eq_true in Hperm as [_ Hrange]. rewrite Forall_lookup in Hrange.
  match goal with |- context [foldM ?f (py_range _) ?st] =>
    destruct (foldM_up (λ i '(d, sp), length d = 8%nat ∧ empties h1 sp ∧ ∀ j : nat, j < i → d !! j = g <$> perm !! j) f 0 (zlen perm) st)
    as ([d sp] & Hrun & Hd & Hsp & Hc) end.
  - apply zlen_nonneg.
  - split_and!; [apply Hblank|by eapply blank_empties|lia].
  - intros i [d sp] Hi (Hd & Hsp & Hc). destruct (lookup_lt_is_Some_2 perm (Z.to_nat i)) as [p Hp]; [unfold zlen in Hi; lia|].
    pose proof (Hrange _ _ Hp) as Hr. rewrite (pget_ok perm i p) by (done || lia). cbn [mbind res_bind].
    rewrite (shape_dim t ds p Ht) by lia. cbn [mbind res_bind]. rewrite (pset_ok d) by (unfold zlen in *; lia). cbn [mbind res_bind].
    destruct (unsplit_at h1 t p Hu1 ltac:(lia)) as (l & x & -> & _ & Hx & E). cbn [mbind res_bind].
    destruct (empties_set h1 sp i l x Hsp ltac:(lia) Hx E) as (sp' & -> & Hsp'). cbn [mbind res_bind]. eexists. split; [done|].
    split_and!; [by rewrite length_insert|done|]. intros j Hj. destruct (decide (j = Z.to_nat i)) as [->|].
    + rewrite list_lookup_insert_eq by lia. by rewrite Hp.
    + rewrite list_lookup_insert_ne by lia. apply Hc. lia.
  - unfold py_range. rewrite Hrun. cbn [mbind res_bind]. set (ds' := g <$> perm).
    assert (zlen ds' = zlen perm) as Hlen' by (unfold ds', zlen; by rewrite length_fmap).
    assert (∀ (j : nat) x, ds' !! j = Some x → d !! j = Some x) as Hdd.
    { intros j x Hx. rewrite Hc; [by rewrite <-list_lookup_fmap|]. apply lookup_lt_Some in Hx. unfold zlen in *. lia. }
    destruct (strides_down_ok d (stride t0) ds' (zlen ds')) as (s & Hst & Hsl & Hsc & _); [pose proof (zlen_nonneg ds'); lia| |done|].
    { unfold zlen in *. rewrite (bl_stride _ _ _ Hblank). lia. }
    unfold stride_loop. rewrite <-Hlen'. rewrite drop_ge in Hst by (unfold zlen; lia). change (product []) with 1 in Hst. rewrite Hst. cbn [mbind res_bind].
    assert (has_shape (set_split (set_layout t0 (zlen ds) d s) sp) ds') as Hshape.
    { apply has_shape_split, has_shape_layout; try done; [lia|lia|]. rewrite Hsl. apply Hblank. }
    rewrite (volume_ok _ _ Hshape). cbn [mbind res_bind]. rewrite check_true by lia.
    eexists _, _. split; [done|]. split_and!; try done. apply finish_typed; [done|done|by apply args_same|done|by apply empties_unsplit].
Qed.

(** Dimensions of [b ++ [x; y]], by position. *)
Lemma shape_tail t b x y :
  has_shape t (b ++ [x; y]) →
  pget (dim t) (zlen b) = Ok x ∧ pget (dim t) (zlen b + 1) = Ok y ∧ ∀ i, 0 <= i < zlen b → pget (dim t) i = Ok (default 0 (b !! Z.to_nat i)).
Proof.
  intros Ht. pose proof (zlen_nonneg b). split_and!.
  - apply (shape_dim_at t _ _ _ Ht); [|done]. unfold zlen. rewrite Nat2Z.id. by apply list_lookup_middle.
  - apply (shape_dim_at t _ _ _ Ht); [|lia]. rewrite lookup_app_r by (unfold zlen; lia).
    by replace (Z.to_nat (zlen b + 1) - length b)%nat with 1%nat by (unfold zlen; lia).
  - intros i Hi. rewrite (shape_dim t _ i Ht) by (unfold zlen in *; rewrite length_app; lia).
    by rewrite lookup_app_l by (unfold zlen in Hi; lia).
Qed.

Lemma matmul_strides_ok d s b m n :
  length s = 8%nat → zlen b + 2 <= 8 → (∀ j x, (b ++ [m; n]) !! j = Some x → d !! j = Some x) →
  ∃ s', matmul_strides (zlen b + 2) d s = Ok (s', product (b ++ [m; n])) ∧ length s' = 8%nat
    ∧ ∀ j : nat, j < zlen b + 2 → s' !! j = Some (product (drop (S j) (b ++ [m; n]))).
Proof.
  intros Hs Hb Hd. pose proof (zlen_nonneg b) as H0. set (ds := b ++ [m; n]) in *.
  assert (zlen ds = zlen b + 2) as Hl by (unfold ds, zlen; rewrite length_app; simpl; lia).
  assert (ds !! length b = Some m ∧ ds !! S (length b) = Some n) as [Hm Hn].
  { unfold ds. split; [by apply list_lookup_middle|]. rewrite lookup_app_r by lia. by replace (S (length b) - length b)%nat with 1%nat by lia. }
  unfold matmul_strides. replace (zlen b + 2 - 1) with (zlen b + 1) by lia. replace (zlen b + 2 - 2) with (zlen b) by lia.
  rewrite pset_ok by (unfold zlen in *; lia). cbn [mbind res_bind].
  rewrite (pget_ok d (zlen b + 1) n); [|lia|apply Hd; by replace (Z.to_nat (zlen b + 1)) with (S (length b)) by (unfold zlen; lia)]. cbn [mbind res_bind].
  rewrite pset_ok by (unfold zlen in *; rewrite length_insert; lia). cbn [mbind res_bind].
  rewrite (pget_ok d (zlen b) m); [|lia|apply Hd; by replace (Z.to_nat (zlen b)) with (length b) by (unfold zlen; lia)]. cbn [mbind res_bind].
  set (s1 := <[Z.to_nat (zlen b) := n]> (<[Z.to_nat (zlen b + 1) := 1]> s)).
  assert (drop (Z.to_nat (zlen b)) ds = [m; n]) as Hdrop by (unfold ds, zlen; rewrite Nat2Z.id; by rewrite drop_app_length).
  destruct (strides_down_ok d s1 ds (zlen b)) as (s' & Hrun & Hsl & Hc & Hu); [lia|unfold s1, zlen in *; rewrite !length_insert; lia|done|].
  rewrite Hdrop in Hrun. change (product [m; n]) with (m * (n * 1)) in Hrun. rewrite Z.mul_1_r in Hrun. rewrite Hrun. exists s'.
  split; [done|]. split; [rewrite Hsl; unfold s1; by rewrite !length_insert|]. intros j Hj.
  destruct (decide (j < zlen b)) as [Hlt|Hge]; [by apply Hc|]. rewrite Hu by lia. unfold s1.
  destruct (decide (j = length b)) as [->|Hne].
  - unfold zlen at 1. rewrite Nat2Z.id, list_lookup_insert_eq by (rewrite length_insert; unfold zlen in *; lia).
    pose proof (drop_lookup ds (S (length b)) n Hn) as Hdn. rewrite Hdn. rewrite drop_ge by (unfold zlen in Hl; lia). unfold product. simpl. f_equal. lia.
  - assert (j = S (length b)) as -> by (unfold zlen in *; lia). rewrite list_lookup_insert_ne by (unfold zlen; lia).
    replace (Z.to_nat (zlen b + 1)) with (S (length b)) by (unfold zlen; lia). rewrite list_lookup_insert_eq by (unfold zlen in *; lia).
    by rewrite drop_ge by (unfold zlen in Hl; lia).
Qed.

Lemma matmul_dims t b m k n d :
  has_shape t (b ++ [m; k]) → length d = 8%nat → zlen b + 2 <= 8 → (∀ j : nat, j < zlen b + 1 → d !! j = dim t !! j) →
  ∀ (j : nat) x, (b ++ [m; n]) !! j = Some x → <[Z.to_nat (zlen b + 1) := n]> d !! j = Some x.
Proof.
  intros Ht Hd Hb Hdc j x Hx. destruct (decide (j = Z.to_nat (zlen b + 1))) as [->|Hne].
  - rewrite list_lookup_insert_eq by (unfold zlen in *; lia). rewrite <-Hx. rewrite lookup_app_r by (unfold zlen; lia).
    by replace (Z.to_nat (zlen b + 1) - length b)%nat with 1%nat by (unfold zlen; lia).
  - rewrite list_lookup_insert_ne by lia. pose proof (lookup_lt_Some _ _ _ Hx) as Hj. rewrite length_app in Hj. simpl in Hj.
    rewrite Hdc by (unfold zlen in *; lia). apply (hs_dims _ _ Ht). rewrite <-Hx. unfold zlen in Hne.
    destruct (decide (j < length b)%nat); [by rewrite !lookup_app_l|]. assert (j = length b) as -> by lia. by rewrite !list_lookup_middle.
Qed.

Lemma Matmul_typed t w a b m k n :
  has_shape t (b ++ [m; k]) → unsplit h t → has_shape w (b ++ [k; n]) → unsplit h w →
  result_ok (Matmul h t w a) OP_MATMUL [t; w] (b ++ [m; n]).
Proof.
  intros Ht Ut Hw Uw. unfold Matmul. start_op. pose proof (hs_max _ _ Ht) as Hmax. unfold MAX_DIM in Hmax. pose proof (zlen_nonneg b) as H0.
  assert (∀ x y : Z, zlen (b ++ [x; y]) = zlen b + 2) as Hl by (intros; unfold zlen; rewrite length_app; simpl; lia).
  rewrite (hs_num _ _ Ht), (hs_num _ _ Hw), !Hl in *. unfold py_assert. rewrite check_true by lia.
  replace (zlen b + 2 - 2) with (zlen b) by lia. replace (zlen b + 2 - 1) with (zlen b + 1) by lia.
  destruct (shape_tail t b m k Ht) as (T0 & T1 & Tb). destruct (shape_tail w b k n Hw) as (W0 & W1 & Wb).
  rewrite (foldM_tests _ (λ _, true) AssertionError).
  2:{ intros i Hi%elem_of_seqZ. rewrite Tb, Wb by lia. cbn [mbind res_bind]. by rewrite check_true by lia. }
  replace (forallb (λ _ : Z, true) (py_range (zlen b))) with true by (symmetry; by apply forallb_forall).
  cbn [mbind res_bind]. rewrite T1, W0. cbn [mbind res_bind]. rewrite check_true by lia. rewrite Hout. cbn [mbind res_bind].
  destruct Hblank as [B1 B2 B3 B4 B5 B6] eqn:HB. pose proof (blank_empties _ _ _ Hblank) as Hemp.
  destruct (copy_dims_ok (dim t) (dim t0) (zlen b + 1)) as (d & -> & Hd & Hdc); [unfold zlen in *; rewrite (hs_dim _ _ Ht); lia|unfold zlen in *; lia|]. cbn [mbind res_bind].
  rewrite W1. cbn [mbind res_bind]. rewrite pset_ok by (unfold zlen in *; lia). cbn [mbind res_bind].
  set (d1 := <[Z.to_nat (zlen b + 1) := n]> d). set (ds := b ++ [m; n]).
  assert (∀ (j : nat) x, ds !! j = Some x → d1 !! j = Some x) as Hd1 by (eapply matmul_dims; [done|lia|done|done]).
  destruct (matmul_strides_ok d1 (stride t0) b m n B4 ltac:(lia) Hd1) as (s & -> & Hsl & Hsc). cbn [mbind res_bind].
  assert (has_shape (set_layout t0 (zlen b + 2) d1 s) ds) as Hshape.
  { apply has_shape_layout; [by unfold ds; rewrite Hl|unfold ds; rewrite Hl; lia|unfold d1; rewrite length_insert; lia|done|done|unfold ds; rewrite Hl; done]. }
  rewrite (volume_ok _ _ Hshape). cbn [mbind res_bind]. rewrite check_true by (apply Z.eqb_eq; done).
  pose proof (unsplit_le _ _ _ Hle Ut) as U1. pose proof (unsplit_le _ _ _ Hle Uw) as U2. unfold py_range. cbn [set_layout split].
  match goal with |- context [foldM ?f (seqZ 0 _) (split t0)] =>
    destruct (foldM_up (λ i sp, empties h1 sp) f 0 (zlen b) (split t0)) as (sp & -> & Hsp) end; [done|done| |].
  { intros i sp Hi Hsp. destruct (unsplit_at h1 t i U1 ltac:(lia)) as (l1 & x1 & -> & _ & Hx1 & E1).
    destruct (unsplit_at h1 w i U2 ltac:(lia)) as (l2 & x2 & -> & _ & Hx2 & E2). cbn [mbind res_bind].
    rewrite (eq_split_empty h1 l1 l2 x1 x2 Hx1 Hx2 E1 E2). cbn [mbind res_bind]. by apply (empties_set h1 sp i l1 x1 Hsp ltac:(lia)). }
  cbn [mbind res_bind]. destruct (unsplit_at h1 t (zlen b) U1 ltac:(lia)) as (l1 & x1 & -> & _ & Hx1 & E1). cbn [mbind res_bind].
  destruct (empties_set h1 sp (zlen b) l1 x1 Hsp ltac:(lia) Hx1 E1) as (sp1 & -> & Hsp1). cbn [mbind res_bind].
  destruct (unsplit_at h1 w (zlen b + 1) U2 ltac:(lia)) as (l2 & x2 & -> & _ & Hx2 & E2). cbn [mbind res_bind].
  destruct (empties_set h1 sp1 (zlen b + 1) l2 x2 Hsp1 ltac:(lia) Hx2 E2) as (sp2 & -> & Hsp2). cbn [mbind res_bind].
  eexists _, _. split; [done|]. split_and!; try done. apply finish_typed; [done|done|by apply args_same|by apply has_shape_split|by apply empties_unsplit].
Qed.

End typing.

(** C11: operators are well typed.  Whatever constructor is called, on unsplit tensors
    whose dimensions its rule accepts, it returns an operator of its type with one
    output: a tensor of the dimensions the rule gives, laid out row by row, not
    split.  No other object of the store changes. *)
Theorem construct_typed h c shapes ds :
  heap_ok h → no_split_clean h → Forall2 (λ t es, has_shape t es ∧ unsplit h t) (call_args c) shapes →
  shape_rule c shapes = Some ds →
  ∃ h' o, construct h c = Ok (h', o) ∧ heap_ok h' ∧ heap_le h h' ∧ typed h' o (call_type c) (call_args c) ds.
Proof.
  intros Hh Hc Hargs Hrule. change (result_ok h (construct h c) (call_type c) (call_args c) ds). destruct c as [t ty|t ty b|t w sh sw p a|t w ty kh kw sh sw p a|ty t u|t w a|t s|t p]; simpl in Hargs;
    repeat match goal with H : Forall2 _ (_ :: _) _ |- _ => apply Forall2_cons_inv_l in H as (? & ? & [??] & H & ->) end;
    apply Forall2_nil_inv_l in Hargs as ->; cbn [shape_rule] in Hrule; cbn [construct call_type call_args].
  - simplify_eq. by apply NoOp_typed.
  - simplify_eq. by apply Activation_typed.
  - match goal with Hs : has_shape t ?l, Hw : has_shape w ?m |- _ => rename l into l1, m into l2 end.
    destruct l1 as [|n [|ci [|ih [|iw [|??]]]]]; try done. destruct l2 as [|co [|cw [|xh [|xw [|??]]]]]; try done.
    destruct (_ && _) eqn:Hb in Hrule; [|done]. injection Hrule as <-. rewrite !andb_true_iff in Hb.
    destruct Hb as [[[[[?%Z.ltb_lt ?%Z.ltb_lt] ?%Z.ltb_lt] ?%Z.ltb_lt] ?%Z.eqb_eq] ?%Z.eqb_eq]. by apply Conv2D_typed with ci cw.
  - match goal with Hs : has_shape t ?l |- _ => rename l into l1 end.
    destruct l1 as [|n [|ci [|ih [|iw [|??]]]]]; try done.
    destruct (_ && _) eqn:Hb in Hrule; [|done]. injection Hrule as <-. rewrite !andb_true_iff in Hb.
    destruct Hb as [[?%Z.ltb_lt ?%Z.ltb_lt] ?%bool_decide_eq_true]. by apply Pool2D_typed.
  - simplify_eq. by apply Element_typed.
  - destruct (reverse _) as [|k [|m batch]] eqn:E1 in Hrule; [done|done|].
    destruct (reverse _) as [|n [|k' batch']] eqn:E2 in Hrule; [done|done|].
    destruct (_ && _) eqn:Hb in Hrule; [|done]. injection Hrule as <-. apply andb_true_iff in Hb as [<-%bool_decide_eq_true <-%Z.eqb_eq].
    apply (f_equal reverse) in E1, E2. rewrite reverse_involutive, !reverse_cons, <-app_assoc in E1, E2. subst. by apply Matmul_typed with k.
  - case_match; [|done]. simplify_eq. eapply Reshape_typed; [done|done|done|lia|lia].
  - case_match; [|done]. simplify_eq. apply Transpose_typed; try done; [|lia]. by destruct (is_perm p).
Qed.

Lemma construct_typed_witness :
  ∃ h t w h' o, has_shape t [1; 3; 8; 8] ∧ has_shape w [4; 3; 3; 3]
    ∧ construct h (CallConv2D t w 2 2 PD_MODE_SAME AC_MODE_NONE) = Ok (h', o)
    ∧ typed h' o OP_CONV2D [t; w] [1; 4; 4; 4].
Proof.
  destruct (Tensor_init_ok initial_heap [1; 3; 8; 8] GUID_INPUT None) as (h1 & t & _ & Ht & Bt & _);
    [apply initial_heap_ok|by eexists|done|done|done|].
  assert (no_split_clean h1) as Hc1 by (eapply no_split_clean_le; [apply Bt|by eexists]).
  destruct (Tensor_init_ok h1 [4; 3; 3; 3] GUID_WEIGHT None) as (h2 & w & _ & Hw & Bw & _);
    [apply Bt|done|done|done|done|].
  destruct (construct_typed h2 (CallConv2D t w 2 2 PD_MODE_SAME AC_MODE_NONE) [[1; 3; 8; 8]; [4; 3; 3; 3]] [1; 4; 4; 4])
    as (h' & o & Hrun & _ & _ & Hty); [apply Bw|eapply no_split_clean_le; [apply Bw|done]| |reflexivity|].
  - apply Forall2_cons_2; [|apply Forall2_cons_2; [|apply Forall2_nil_2]].
    + split; [done|]. eapply unsplit_le; [apply Bw|by eapply blank_unsplit].
    + split; [done|]. by eapply blank_unsplit.
  - exists h2, t, w, h', o. exact (conj Ht (conj Hw (conj Hrun Hty))).
Defined.

(** [Pool2D] and [Element] hand out [NO_SPLIT] itself, and [Concat] merges into the
    object it finds: concatenating the outputs of two poolings along the third axis
    changes what [NO_SPLIT] means for every tensor. *)
Definition pooled (h : heap) : res (heap * Tensor) :=
  '(h, t) ← Tensor_init h 4 [1; 1; 4; 4] GUID_INPUT None;
  '(h, o) ← Pool2D h t t OP_POOL2D_MAX 2 2 2 2 PD_MODE_VALID AC_MODE_NONE;
  t ← pget (outputs o) 0;
  Ok (h, t).
Lemma concat_changes_no_split :
  (r ← ('(h, a) ← pooled initial_heap; '(h, b) ← pooled h; '(h, o) ← Concat h 2 2 [a; b] [false; false]; load h NO_SPLIT); Ok (held r))
  = Ok [2].
Proof. vm_compute. reflexivity. Qed.
