(* ===== verification/DbModel.v ===== *)
(** * DbModel: the operators a graph is built from, and their cache

    [model.py]: [Model] hands out operators with unique numbers and keeps those it has
    built in dictionaries, under keys made of the parameters and the tensors of the
    call.  The eight dictionaries are lists of entries; they are never iterated over.

    A [SortedDict] compares a new key with the last one, by [KeyCompare.__lt__], which
    looks at the first elements only.  Enumeration members have no order, so two keys
    that start with different ones cannot be in one dictionary.  [SortedDict(key=C)]
    enters [C] under the name [key]; no operator's key equals that name or is less, so
    that entry is left out here.

    The theorems show what a call returns when the cache has no entry for it, and that
    the keys of two-argument operators do not depend on the first argument. *)

From S2P Require Import Prelude PgArray DbTensor DbOp.

Open Scope Z_scope.

Abbreviation key := (list keyval).
Abbreviation cache := (list (key * loc)).

Record Model := mkModel {
  global_unique_id : Z; m_heap : heap; m_ops : gmap loc OpBase; next_op : loc;
  concat : cache; conv2d : cache; element : cache; reshape : cache; activation : cache; pool2d : cache; matmul : cache
}.

Definition new_Model (h : heap) : Model := mkModel 100 h ∅ 1%positive [] [] [] [] [] [] [].

(** ** Keys *)

Definition blank_key (n : Z) : key := replicate (Z.to_nat n) (KInt 0).

Definition ActivationKey (h : heap) (input : Tensor) (ty : OpType) (inPlace : bool) : res key :=
  let keys := blank_key (MAX_KEY_LENGTH + 2) in
  keys ← pset keys 0 (KType ty);
  keys ← pset keys 1 (KInt (Z.b2z inPlace));
  serialize h input keys 2.

Definition ElementKey (h : heap) (t1 t2 : Tensor) (ty : OpType) : res key :=
  let keys := blank_key (MAX_KEY_LENGTH * 2 + 1) in
  keys ← pset keys 0 (KType ty);
  keys ← serialize h t1 keys 1;
  serialize h t2 keys 1.

(** [bitmask] has no [self] parameter: called as a method it iterates over the key. *)
Definition ConcatKey (axis n : Z) (ins : list Tensor) (needCopy : list bool) : res key := Ereport TypeError.

(** [keys[:len(l)] = l] *)
Definition set_front (keys l : key) : key := l ++ drop (length l) keys.

Definition Conv2DKey (h : heap) (input weight : Tensor) (strideH strideW : Z) (padding : PaddingMode) (acti : ActiMode) : res key :=
  let keys := blank_key (MAX_KEY_LENGTH * 2 + 4) in
  ic ← pget (dim input) 1; wc ← pget (dim weight) 1;
  r ← py_mod ic wc;
  py_assert (r =? 0)
  (let groups := ic / wc in
   oc ← pget (dim weight) 0;
   r ← py_mod oc groups;
   py_assert (r =? 0)
   (let keys := set_front keys [KInt strideH; KInt strideW; KPad padding; KActi acti] in
    keys ← serialize h input keys 4;
    serialize h weight keys 4)).

Definition ActiMode_value (m : ActiMode) : Z :=
  match m with AC_MODE_NONE => 0 | AC_MODE_SIGMOID => 1 | AC_MODE_RELU => 2 | AC_MODE_TANH => 3 end.
Definition MatmulKey (h : heap) (input weight : Tensor) (mode : ActiMode) : res key :=
  let keys := blank_key (MAX_KEY_LENGTH * 2 + 1) in
  py_assert (numDim input =? numDim weight)
  (keys ← pset keys 0 (KInt (ActiMode_value mode));
   keys ← serialize h input keys 1;
   serialize h weight keys 1).

Definition Pool2DKey (h : heap) (input : Tensor) (ty : OpType) (kernelH kernelW strideH strideW : Z) (padding : PaddingMode)
    (acti : ActiMode) : res key :=
  let keys := blank_key (MAX_KEY_LENGTH + 7) in
  let keys := set_front keys [KInt kernelH; KInt kernelW; KInt strideH; KInt strideW; KPad padding; KActi acti; KType ty] in
  serialize h input keys 7.

Definition ReshapeKey (h : heap) (input : Tensor) (shape : list Z) : res key :=
  let keys := blank_key (MAX_KEY_LENGTH + MAX_DIM + 1) in
  keys ← pset keys 0 (KInt (zlen shape));
  '(keys, idx) ← put_ints shape (zlen shape) keys 1;
  serialize h input keys idx.

Definition TransposeKey (h : heap) (input : Tensor) (perm : list Z) (shuffle : bool) : res key :=
  let keys := blank_key (MAX_KEY_LENGTH + 2) in
  i ← permutation_to_index perm;
  keys ← pset keys 0 (KInt i);
  keys ← pset keys 1 (KInt (Z.b2z shuffle));
  serialize h input keys 2.

(** ** Dictionaries *)

Fixpoint cache_lookup (c : cache) (k : key) : option loc :=
  match c with
  | [] => None
  | (k', l) :: c => if bool_decide (k = k') then Some l else cache_lookup c k
  end.
Definition comparable (a b : key) : bool :=
  match head a, head b with Some (KType x), Some (KType y) => bool_decide (x = y) | _, _ => true end.
Definition cache_add (c : cache) (k : key) (l : loc) : res cache :=
  match last c with
  | Some (k', _) => check (comparable k k') TypeError (Ok (c ++ [(k, l)]))
  | None => Ok (c ++ [(k, l)])
  end.

(** ** Handing out operators *)

Definition set_m_heap (m : Model) (h : heap) : Model :=
  mkModel (global_unique_id m) h (m_ops m) (next_op m) (concat m) (conv2d m) (element m) (reshape m) (activation m) (pool2d m) (matmul m).
(** A new operator object. *)
Definition add_op (m : Model) (h : heap) (o : OpBase) : Model * loc :=
  (mkModel (global_unique_id m) h (<[next_op m := o]> (m_ops m)) (next_op m + 1)%positive
     (concat m) (conv2d m) (element m) (reshape m) (activation m) (pool2d m) (matmul m), next_op m).
(** [ret.ptr = o; ret.guid = self.global_unique_id; self.global_unique_id += 1] *)
Definition next_Op (m : Model) (l : loc) : Model * Op :=
  (mkModel (global_unique_id m + 1) (m_heap m) (m_ops m) (next_op m)
     (concat m) (conv2d m) (element m) (reshape m) (activation m) (pool2d m) (matmul m), mkOp (global_unique_id m) (Some l)).

Inductive dict := DConcat | DConv2d | DElement | DReshape | DActivation | DPool2d | DMatmul.
Definition get_dict (m : Model) (d : dict) : cache :=
  match d with
  | DConcat => concat m | DConv2d => conv2d m | DElement => element m | DReshape => reshape m | DActivation => activation m
  | DPool2d => pool2d m | DMatmul => matmul m
  end.
Definition set_dict (m : Model) (d : dict) (c : cache) : Model :=
  let get d' c' := match d, d' with
    | DConcat, DConcat | DConv2d, DConv2d | DElement, DElement | DReshape, DReshape | DActivation, DActivation | DPool2d, DPool2d
    | DMatmul, DMatmul => c | _, _ => c' end in
  mkModel (global_unique_id m) (m_heap m) (m_ops m) (next_op m) (get DConcat (concat m)) (get DConv2d (conv2d m)) (get DElement (element m))
    (get DReshape (reshape m)) (get DActivation (activation m)) (get DPool2d (pool2d m)) (get DMatmul (matmul m)).

(** [if key in d: o = d[key] else: o = C(...); d[key] = o], then a new number. *)
Definition get_or_create (m : Model) (d : dict) (k : res key) (build : heap → res (heap * OpBase)) : res (Model * Op) :=
  k ← k;
  match cache_lookup (get_dict m d) k with
  | Some l => Ok (next_Op m l)
  | None =>
      '(h, o) ← build (m_heap m);
      let '(m, l) := add_op m h o in
      entries ← cache_add (get_dict m d) k l;
      Ok (next_Op (set_dict m d entries) l)
  end.

Definition create_input (m : Model) (input : Tensor) (ty : OpType) : res (Model * Op) :=
  py_assert (bool_decide (ty = OP_INPUT))
  ('(h, o) ← NoOp (m_heap m) input ty;
   let '(m, l) := add_op m h o in Ok (next_Op m l)).

Definition create_weight (m : Model) (weight : Tensor) (ty : OpType) : res (Model * Op) :=
  py_assert (bool_decide (ty = OP_WEIGHT))
  (match data_ptr weight with
   | None => Ereport NotImplementedError
   | Some _ =>
       '(h, o) ← NoOp (m_heap m) weight ty;
       let '(m, l) := add_op m h o in Ok (next_Op m l)
   end).

(** Axes are compared from the last one. *)
Definition broadcastable (t1 t2 : Tensor) : res bool :=
  foldM (λ i ok,
    x ← pget (dim t1) (numDim t1 - 1 - i); y ← pget (dim t2) (numDim t2 - 1 - i);
    Ok (ok && negb (negb (x =? 1) && negb (y =? 1) && negb (x =? y)))) (py_range (Z.min (numDim t1) (numDim t2))) true.

Definition get_or_create_element (m : Model) (ty : OpType) (t1 t2 : Tensor) : res (Model * Op) :=
  b ← broadcastable t1 t2;
  if negb b then Ok (m, INVALID_OP)
  else get_or_create m DElement (ElementKey (m_heap m) t1 t2 ty) (λ h, Element h ty t1 t2).

Definition get_or_create_conv2d (m : Model) (input weight : Tensor) (strideH strideW : Z) (padding : PaddingMode) (acti : ActiMode)
    : res (Model * Op) :=
  ic ← pget (dim input) 1; wc ← pget (dim weight) 1;
  r ← py_mod ic wc;
  if negb (r =? 0) then Ok (m, INVALID_OP)
  else get_or_create m DConv2d (Conv2DKey (m_heap m) input weight strideH strideW padding acti)
         (λ h, Conv2D h input weight strideH strideW padding acti).

Definition get_or_create_pool2d (m : Model) (input weight : Tensor) (ty : OpType) (kernelH kernelW strideH strideW : Z)
    (padding : PaddingMode) (acti : ActiMode) : res (Model * Op) :=
  get_or_create m DPool2d (Pool2DKey (m_heap m) input ty kernelH kernelW strideH strideW padding acti)
    (λ h, Pool2D h input weight ty kernelH kernelW strideH strideW padding acti).

Definition get_or_create_activation (m : Model) (input : Tensor) (ty : OpType) (inPlace : bool) : res (Model * Op) :=
  get_or_create m DActivation (ActivationKey (m_heap m) input ty inPlace) (λ h, Activation h input ty inPlace).

(** Whether all axes but the last two agree. *)
Definition same_batch (input weight : Tensor) : res bool :=
  foldM (λ i same, x ← pget (dim input) i; y ← pget (dim weight) i; Ok (same && (x =? y))) (py_range (numDim input - 2)) true.
Definition get_or_create_matmul (m : Model) (input weight : Tensor) (acti : ActiMode) : res (Model * Op) :=
  if negb (numDim input =? numDim weight) then Ok (m, INVALID_OP)
  else
    same ← same_batch input weight;
    if negb same then Ok (m, INVALID_OP)
    else
      x ← pget (dim input) (numDim input - 1); y ← pget (dim weight) (numDim weight - 2);
      if negb (x =? y) then Ok (m, INVALID_OP)
      else get_or_create m DMatmul (MatmulKey (m_heap m) input weight acti) (λ h, Matmul h input weight acti).

Definition get_or_create_reshape (m : Model) (input : Tensor) (shape : list Z) : res (Model * Op) :=
  get_or_create m DReshape (ReshapeKey (m_heap m) input shape) (λ h, Reshape h input shape).

(** Never stored: the dictionary stays empty. *)
Definition get_or_create_transpose (m : Model) (input : Tensor) (perm : list Z) (shuffle : bool) : res (Model * Op) :=
  _ ← TransposeKey (m_heap m) input perm shuffle;
  '(h, o) ← Transpose (m_heap m) input perm shuffle;
  let '(m, l) := add_op m h o in Ok (next_Op m l).

(** Whether [n] inputs agree on all axes but [axis]. *)
Definition concat_compatible (axis n : Z) (ins : list Tensor) : res bool :=
  foldM (λ i ok,
    if negb ok then Ok false else
    t ← pget ins i; first ← pget ins 0;
    if negb (numDim t =? numDim first) then Ok false
    else foldM (λ j ok,
           if negb ok then Ok false else x ← pget (dim t) j; y ← pget (dim first) j; Ok ((j =? axis) || (x =? y)))
           (py_range (numDim first)) true) (py_range n) true.
Definition get_or_create_concat (m : Model) (axis n : Z) (ins : list Tensor) (needCopy : list bool) : res (Model * Op) :=
  ok ← concat_compatible axis n ins;
  if negb ok then Ok (m, INVALID_OP)
  else get_or_create m DConcat (ConcatKey axis n ins needCopy) (λ h, Concat h axis n ins needCopy).

(** ** What a key holds *)

(** [l] written over [keys] from position [i]. *)
Definition splice {A} (keys : list A) (i : Z) (l : list A) : list A :=
  take (Z.to_nat i) keys ++ l ++ drop (Z.to_nat i + length l) keys.

Section splice.
  Context {A : Type}.
  Implicit Types (k a b : list A).

Lemma length_splice k i a : 0 <= i → i + zlen a <= zlen k → length (splice k i a) = length k.
Proof. intros Hi Hl. unfold splice, zlen in *. rewrite !length_app, length_take, length_drop. lia. Qed.
Lemma splice_nil k i : splice k i [] = k.
Proof. unfold splice. simpl. rewrite Nat.add_0_r. apply take_drop. Qed.
Lemma splice_splice k i a b :
  0 <= i → i + zlen a + zlen b <= zlen k → splice (splice k i a) (i + zlen a) b = splice k i (a ++ b).
Proof.
  intros Hi Hl. unfold splice, zlen in *. replace (Z.to_nat (i + length a)) with (Z.to_nat i + length a)%nat by lia.
  set (I := Z.to_nat i). assert (length (take I k ++ a) = I + length a)%nat as Hlen by (rewrite length_app, length_take; lia).
  rewrite (app_assoc (take I k) a (drop _ k)). rewrite take_app_length' by done.
  rewrite drop_app_ge by lia. rewrite drop_drop, Hlen, <-!app_assoc, length_app. do 4 f_equal. lia.
Qed.
(** Writing a list of the same length again. *)
Lemma splice_over k i a b : 0 <= i → i + zlen a <= zlen k → length a = length b → splice (splice k i a) i b = splice k i b.
Proof.
  intros Hi Hl Hab. unfold splice, zlen in *. rewrite take_app_length' by (rewrite length_take; lia). f_equal. f_equal.
  rewrite drop_app_ge by (rewrite length_take; lia). rewrite drop_app_ge by (rewrite length_take; lia).
  rewrite drop_drop, length_take. f_equal. lia.
Qed.
Lemma pset_splice k i x : 0 <= i < zlen k → pset k i x = Ok (splice k i [x]).
Proof.
  intros Hi. rewrite pset_ok by done. f_equal. unfold splice, zlen in *. simpl. rewrite Nat.add_1_r.
  rewrite insert_take_drop by lia. done.
Qed.
End splice.

Lemma put_ints_ok l n keys i :
  0 <= n <= zlen l → 0 <= i → i + n <= zlen keys →
  put_ints l n keys i = Ok (splice keys i (KInt <$> take (Z.to_nat n) l), i + n).
Proof.
  intros Hn Hi Hk. unfold put_ints, py_range.
  match goal with |- foldM ?f _ ?st = _ =>
    destruct (foldM_up (λ j '(ks, p), ks = splice keys i (KInt <$> take (Z.to_nat j) l) ∧ p = i + j) f 0 n st)
      as ([ks p] & -> & -> & ->) end; [lia|split; [symmetry; apply splice_nil|lia]| |done].
  intros j [ks p] Hj [-> ->]. destruct (lookup_lt_is_Some_2 l (Z.to_nat j)) as [x Hx]; [unfold zlen in Hn; lia|].
  assert (zlen (KInt <$> take (Z.to_nat j) l) = j) as Hz by (unfold zlen in *; rewrite length_fmap, length_take; lia).
  rewrite (pget_ok l j x) by (done || lia). cbn [mbind res_bind].
  rewrite pset_splice by (unfold zlen in *; rewrite length_splice by (unfold zlen; lia); lia). cbn [mbind res_bind].
  eexists. split; [done|]. split; [|lia]. rewrite <-Hz at 2. rewrite splice_splice by (rewrite ?Hz; unfold zlen in *; simpl; lia).
  replace (Z.to_nat (j + 1)) with (S (Z.to_nat j)) by lia. by rewrite (take_S_r _ _ _ Hx), fmap_app.
Qed.

Definition row_major (ds : list Z) : list Z := (λ i, product (drop (S i) ds)) <$> seq 0 (length ds).
(** What [serialize] writes for an unsplit tensor. *)
Definition ser (ds : list Z) : key :=
  [KInt MAGIC_NUMBER; KInt (zlen ds)] ++ (KInt <$> ds) ++ (KInt <$> row_major ds) ++ (if decide (ds = []) then [] else [KInt 0]).
Lemma length_ser ds es : length ds = length es → length (ser ds) = length (ser es).
Proof.
  intros Hl. unfold ser, row_major. simpl. rewrite !length_app, !length_fmap, !length_seq, Hl. destruct ds, es; try done.
Qed.
Lemma zlen_ser ds : zlen (ser ds) <= 2 + zlen ds + zlen ds + 1.
Proof. unfold ser, row_major, zlen. simpl. rewrite !length_app, !length_fmap, length_seq. case_decide; simpl; lia. Qed.

Lemma take_dims t ds : has_shape t ds → take (Z.to_nat (numDim t)) (dim t) = ds.
Proof.
  intros Ht. rewrite (hs_num _ _ Ht). unfold zlen. rewrite Nat2Z.id. pose proof (hs_max _ _ Ht) as Hm. unfold MAX_DIM, zlen in Hm.
  apply list_eq. intros i. destruct (ds !! i) as [d|] eqn:Hd.
  - pose proof (lookup_lt_Some _ _ _ Hd). rewrite lookup_take_lt by done. by apply (hs_dims _ _ Ht).
  - apply lookup_ge_None in Hd. by rewrite lookup_take_ge by done.
Qed.
Lemma take_strides t ds : has_shape t ds → take (Z.to_nat (numDim t)) (stride t) = row_major ds.
Proof.
  intros Ht. rewrite (hs_num _ _ Ht). unfold zlen. rewrite Nat2Z.id. pose proof (hs_max _ _ Ht) as Hm. unfold MAX_DIM, zlen in Hm.
  apply list_eq. intros i. unfold row_major. rewrite list_lookup_fmap. destruct (decide (i < length ds)%nat) as [Hi|Hi].
  - rewrite lookup_take_lt, lookup_seq_lt by done. simpl. by apply (hs_layout _ _ Ht).
  - rewrite lookup_take_ge by lia. by rewrite lookup_seq_ge by lia.
Qed.

Lemma serialize_ok h t ds keys i :
  has_shape t ds → unsplit h t → 0 <= i → i + 2 + 2 * zlen ds + 1 <= zlen keys →
  serialize h t keys i = Ok (splice keys i (ser ds)).
Proof.
  intros Ht Hu Hi Hk. unfold serialize. pose proof (zlen_nonneg ds) as H0. pose proof (hs_max _ _ Ht) as Hm. unfold MAX_DIM in Hm.
  rewrite pset_splice by lia. cbn [mbind res_bind]. set (k1 := splice keys i [KInt MAGIC_NUMBER]).
  assert (length k1 = length keys) as L1 by (apply length_splice; unfold zlen in *; simpl; lia).
  rewrite pset_splice by (unfold zlen in *; lia). cbn [mbind res_bind]. rewrite (hs_num _ _ Ht).
  assert (splice k1 (i + 1) [KInt (zlen ds)] = splice keys i [KInt MAGIC_NUMBER; KInt (zlen ds)]) as ->.
  { apply (splice_splice keys i [KInt MAGIC_NUMBER]); [lia|unfold zlen in *; simpl; lia]. }
  set (p2 := [KInt MAGIC_NUMBER; KInt (zlen ds)]).
  assert (∀ p, i + zlen p <= zlen keys → zlen (splice keys i p) = zlen keys) as Lp by (intros p Hp; unfold zlen in *; rewrite length_splice by (unfold zlen; lia); done).
  assert (zlen p2 = 2) as Z2 by done. pose proof (take_dims t ds Ht) as Hd. pose proof (take_strides t ds Ht) as Hs. rewrite (hs_num _ _ Ht) in Hd, Hs.
  rewrite put_ints_ok by (rewrite ?Lp by lia; unfold zlen in *; rewrite ?(hs_dim _ _ Ht); lia). cbn [mbind res_bind]. rewrite Hd.
  rewrite <-Z2 at 1. rewrite splice_splice by (rewrite ?Z2; unfold zlen in *; rewrite ?length_fmap; lia). set (p3 := p2 ++ (KInt <$> ds)).
  assert (zlen p3 = 2 + zlen ds) as Z3 by (unfold p3, zlen; rewrite length_app, length_fmap; simpl; lia).
  rewrite put_ints_ok by (rewrite ?Lp by lia; unfold zlen in *; rewrite ?(hs_stride _ _ Ht); lia). cbn [mbind res_bind]. rewrite Hs.
  replace (i + 2 + zlen ds) with (i + zlen p3) by lia.
  assert (zlen (KInt <$> row_major ds) = zlen ds) as Zr by (unfold zlen, row_major; rewrite !length_fmap, length_seq; done).
  rewrite splice_splice by (rewrite ?Zr; lia). set (p4 := p3 ++ (KInt <$> row_major ds)).
  assert (zlen p4 = 2 + 2 * zlen ds) as Z4 by (unfold p4, zlen in *; rewrite length_app; lia).
  replace (i + zlen p3 + zlen ds) with (i + zlen p4) by lia.
  assert (ser ds = p4 ++ (if decide (ds = []) then [] else [KInt 0])) as -> by (unfold ser, p4, p3, p2; by rewrite <-!app_assoc).
  unfold py_range.
  match goal with |- foldM ?f _ ?st = _ =>
    destruct (foldM_up (λ j ks, ks = splice keys i (p4 ++ (if decide (j = 0) then [] else [KInt 0]))) f 0 (zlen ds) st) as (ks & -> & ->) end.
  - done.
  - by rewrite decide_True, app_nil_r by done.
  - intros j ks Hj ->. destruct (unsplit_at h t j Hu ltac:(lia)) as (l & s & -> & _ & Hl & Hn). cbn [mbind res_bind].
    unfold load. rewrite Hl. cbn [mbind res_bind]. unfold split_serialize. rewrite Hn. set (e := if decide (j = 0) then [] else [KInt 0]).
    assert (zlen e <= 1) as He by (unfold e; case_decide; done). pose proof (zlen_nonneg e).
    assert (zlen (p4 ++ e) <= zlen p4 + 1) as Hpe by (unfold zlen in *; rewrite length_app; lia).
    rewrite pset_splice by (rewrite Lp by lia; lia). cbn [mbind res_bind]. eexists. split; [done|]. rewrite decide_False by lia.
    unfold e. case_decide; [rewrite app_nil_r; by apply splice_splice; [lia|rewrite Z4; change (zlen [KInt 0]) with 1; lia]|].
    rewrite <-(splice_splice keys i p4 [KInt 0]) by (rewrite ?Z4; change (zlen [KInt 0]) with 1; lia).
    apply splice_over; [lia| |done]. rewrite Lp by lia. change (zlen [KInt 0]) with 1. lia.
  - f_equal. f_equal. f_equal. simpl. destruct ds; [done|]. rewrite decide_False, decide_False by (done || unfold zlen; simpl; lia). done.
Qed.

(** The second tensor of a key overwrites the first. *)
Lemma two_tensors h t u ds es keys i :
  has_shape t ds → unsplit h t → has_shape u es → unsplit h u → length ds = length es →
  0 <= i → i + 19 <= zlen keys → (k ← serialize h t keys i; serialize h u k i) = Ok (splice keys i (ser es)).
Proof.
  intros Ht Ut Hu Uu Hl Hi Hk. pose proof (hs_max _ _ Ht). pose proof (hs_max _ _ Hu). unfold MAX_DIM in *. pose proof (zlen_ser ds).
  rewrite (serialize_ok h t ds) by (done || lia). cbn [mbind res_bind].
  assert (zlen (splice keys i (ser ds)) = zlen keys) as Hz by (unfold zlen in *; rewrite length_splice by (unfold zlen; lia); done).
  rewrite (serialize_ok h u es) by (done || rewrite ?Hz; lia). f_equal. apply splice_over; [done|lia|by apply length_ser].
Qed.

Lemma Conv2DKey_ok h t w n ci ih iw co cw kh kw sh sw p a :
  has_shape t [n; ci; ih; iw] → unsplit h t → has_shape w [co; cw; kh; kw] → unsplit h w →
  0 < ci → 0 < cw → ci mod cw = 0 → co mod (ci / cw) = 0 →
  Conv2DKey h t w sh sw p a
  = Ok (splice (set_front (blank_key (MAX_KEY_LENGTH * 2 + 4)) [KInt sh; KInt sw; KPad p; KActi a]) 4 (ser [co; cw; kh; kw])).
Proof.
  intros Ht Ut Hw Uw Hci Hcw Hm Hg. unfold Conv2DKey.
  assert (0 < ci / cw) as Hgr.
  { pose proof (Z.div_mod ci cw ltac:(lia)) as Hdm. rewrite Hm in Hdm. pose proof (Z.div_pos ci cw ltac:(lia) ltac:(lia)). nia. }
  rewrite (shape_dim_at t _ 1 ci Ht), (shape_dim_at w _ 1 cw Hw) by done. cbn [mbind res_bind].
  unfold py_mod, py_assert. rewrite check_true by lia. cbn [mbind res_bind]. rewrite Hm, check_true by done.
  rewrite (shape_dim_at w _ 0 co Hw) by done. cbn [mbind res_bind]. rewrite check_true by lia. cbn [mbind res_bind]. rewrite Hg, check_true by done.
  apply (two_tensors h t w [n; ci; ih; iw]); done.
Qed.

Lemma ElementKey_ok h t u ds es ty :
  has_shape t ds → unsplit h t → has_shape u es → unsplit h u → length ds = length es →
  ElementKey h t u ty = Ok (splice (<[0%nat := KType ty]> (blank_key (MAX_KEY_LENGTH * 2 + 1))) 1 (ser es)).
Proof.
  intros Ht Ut Hu Uu Hl. unfold ElementKey. rewrite pset_ok by done. cbn [mbind res_bind].
  apply (two_tensors h t u ds); done.
Qed.

(** ** The cache *)

Lemma cache_lookup_last c k l : cache_lookup (c ++ [(k, l)]) k = Some (default l (cache_lookup c k)).
Proof.
  induction c as [|[k' l'] c IH]; simpl; [by rewrite bool_decide_true|]. by case_bool_decide.
Qed.
Lemma get_set_dict m d c : get_dict (set_dict m d c) d = c.
Proof. by destruct d. Qed.

(** A call whose key is in the dictionary builds nothing. *)
Lemma get_or_create_hit m d k build l :
  cache_lookup (get_dict m d) k = Some l → get_or_create m d (Ok k) build = Ok (next_Op m l).
Proof. intros Hl. unfold get_or_create. cbn [mbind res_bind]. by rewrite Hl. Qed.

(** A call whose key is not builds an operator and enters it. *)
Lemma get_or_create_miss m d k build h o :
  cache_lookup (get_dict m d) k = None → build (m_heap m) = Ok (h, o) →
  (∀ k' l', last (get_dict m d) = Some (k', l') → comparable k k' = true) →
  ∃ m', get_or_create m d (Ok k) build = Ok (m', mkOp (global_unique_id m) (Some (next_op m)))
    ∧ cache_lookup (get_dict m' d) k = Some (next_op m) ∧ m_heap m' = h ∧ m_ops m' = <[next_op m := o]> (m_ops m)
    ∧ global_unique_id m' = global_unique_id m + 1.
Proof.
  intros Hl Hb Hc. unfold get_or_create. cbn [mbind res_bind]. rewrite Hl, Hb. cbn [mbind res_bind].
  unfold cache_add. assert (get_dict (add_op m h o).1 d = get_dict m d) as Hd by by destruct d. unfold add_op in *. cbn [fst] in Hd. rewrite Hd.
  assert (∀ (c : cache) m1, (∃ m', Ok (next_Op (set_dict m1 d c) (next_op m)) = Ok (m', mkOp (global_unique_id m1) (Some (next_op m)))
      ∧ get_dict m' d = c ∧ m_heap m' = m_heap m1 ∧ m_ops m' = m_ops m1 ∧ global_unique_id m' = global_unique_id m1 + 1)) as Hset.
  { intros c m1. eexists. split; [reflexivity|]. by destruct d. }
  destruct (last (get_dict m d)) as [[k' l']|] eqn:Hlast; [rewrite check_true by (by eapply Hc)|]; cbn [mbind res_bind].
  all: match goal with |- context [set_dict ?m1 _ ?c] => destruct (Hset c m1) as (m' & -> & Hg & ? & ? & ?) end.
  all: exists m'; split_and!; try done; by rewrite Hg, cache_lookup_last, Hl.
Qed.

(** C38: convolutions of equal kernels share an operator.  The key of a convolution
    does not depend on its first argument.  In a model that has built none yet, a second
    convolution with the same kernel shape and parameters, of a map of any other size,
    gets the operator of the first: its recorded input and the shape of its output are
    those of the first map. *)
Theorem conv2d_cache_collision m t t' w sh sw p a n ci ih iw n' ih' iw' co cw kh kw :
  heap_ok (m_heap m) → no_split_clean (m_heap m) → conv2d m = [] →
  has_shape t [n; ci; ih; iw] → unsplit (m_heap m) t → has_shape t' [n'; ci; ih'; iw'] → unsplit (m_heap m) t' →
  has_shape w [co; cw; kh; kw] → unsplit (m_heap m) w → 0 < sh → 0 < sw → 0 < ci → 0 < cw → ci mod cw = 0 → co mod (ci / cw) = 0 →
  ∃ m1 o1 m2 o2 l op, get_or_create_conv2d m t w sh sw p a = Ok (m1, o1) ∧ get_or_create_conv2d m1 t' w sh sw p a = Ok (m2, o2)
    ∧ guid o1 ≠ guid o2 ∧ ptr o1 = Some l ∧ ptr o2 = Some l ∧ m_ops m2 !! l = Some op
    ∧ typed (m_heap m2) op OP_CONV2D [t; w] [n; co; extent p ih kh sh; extent p iw kw sw].
Proof.
  intros Hh Hc Hempty Ht Ut Ht' Ut' Hw Uw Hsh Hsw Hci Hcw Hm Hg.
  pose proof (Conv2D_typed (m_heap m) Hh Hc t w sh sw p a n ci ih iw co cw kh kw Ht Ut Hw Hsh Hsw Hci Hcw Hm Hg) as (h & o & Hb & Hh' & Hle & Hty).
  pose proof (Conv2DKey_ok (m_heap m) t w n ci ih iw co cw kh kw sh sw p a Ht Ut Hw Uw Hci Hcw Hm Hg) as Hk. set (k := splice _ 4 _) in Hk.
  destruct (get_or_create_miss m DConv2d k (λ h, Conv2D h t w sh sw p a) h o) as (m1 & Hrun & Hl & Hm1 & Hops & Hid);
    [simpl; by rewrite Hempty|done|simpl; by rewrite Hempty|].
  assert (Conv2DKey (m_heap m1) t' w sh sw p a = Ok k) as Hk'.
  { rewrite Hm1. exact (Conv2DKey_ok h t' w n' ci ih' iw' co cw kh kw sh sw p a Ht' (unsplit_le _ _ _ Hle Ut') Hw (unsplit_le _ _ _ Hle Uw) Hci Hcw Hm Hg). }
  exists m1, (mkOp (global_unique_id m) (Some (next_op m))). eexists _, _, (next_op m), o. split_and!.
  - unfold get_or_create_conv2d. rewrite (shape_dim_at t _ 1 ci Ht), (shape_dim_at w _ 1 cw Hw) by done. cbn [mbind res_bind].
    unfold py_mod. rewrite check_true by lia. cbn [mbind res_bind]. rewrite Hm. simpl (negb (0 =? 0)). by rewrite Hk, Hrun.
  - unfold get_or_create_conv2d. rewrite (shape_dim_at t' _ 1 ci Ht'), (shape_dim_at w _ 1 cw Hw) by done. cbn [mbind res_bind].
    unfold py_mod. rewrite check_true by lia. cbn [mbind res_bind]. rewrite Hm. simpl (negb (0 =? 0)). rewrite Hk'.
    by rewrite (get_or_create_hit _ _ _ _ (next_op m)).
  - simpl. rewrite Hid. lia.
  - done.
  - done.
  - simpl. rewrite Hops. apply lookup_insert_eq.
  - simpl. by rewrite Hm1.
Qed.

(** The first layer of a network on 32 x 32 maps, and then on 8 x 8 maps: the second is
    recorded as giving 32 x 32 maps too. *)
Lemma conv2d_cache_collision_witness :
  ∃ m t t' w m1 o1 m2 o2 l op,
    has_shape t [1; 3; 32; 32] ∧ has_shape t' [1; 3; 8; 8] ∧ has_shape w [4; 3; 3; 3]
    ∧ get_or_create_conv2d m t w 1 1 PD_MODE_SAME AC_MODE_NONE = Ok (m1, o1)
    ∧ get_or_create_conv2d m1 t' w 1 1 PD_MODE_SAME AC_MODE_NONE = Ok (m2, o2)
    ∧ ptr o2 = Some l ∧ m_ops m2 !! l = Some op ∧ typed (m_heap m2) op OP_CONV2D [t; w] [1; 4; 32; 32].
Proof.
  destruct (Tensor_init_ok initial_heap [1; 3; 32; 32] GUID_INPUT None) as (h1 & t & _ & Ht & Bt & _);
    [apply initial_heap_ok|by eexists|done|done|done|].
  assert (no_split_clean h1) as Hc1 by (eapply no_split_clean_le; [apply Bt|by eexists]).
  destruct (Tensor_init_ok h1 [1; 3; 8; 8] GUID_INPUT None) as (h2 & t' & _ & Ht' & Bt' & _);
    [apply Bt|done|done|done|done|].
  assert (no_split_clean h2) as Hc2 by (eapply no_split_clean_le; [apply Bt'|done]).
  destruct (Tensor_init_ok h2 [4; 3; 3; 3] GUID_WEIGHT None) as (h3 & w & _ & Hw & Bw & _);
    [apply Bt'|done|done|done|done|].
  assert (unsplit h3 t) as Ut by (eapply unsplit_le; [apply Bw|eapply unsplit_le; [apply Bt'|by eapply blank_unsplit]]).
  assert (unsplit h3 t') as Ut' by (eapply unsplit_le; [apply Bw|by eapply blank_unsplit]).
  assert (unsplit h3 w) as Uw by (by eapply blank_unsplit).
  assert (no_split_clean h3) as Hc3 by (eapply no_split_clean_le; [apply Bw|done]).
  destruct (conv2d_cache_collision (new_Model h3) t t' w 1 1 PD_MODE_SAME AC_MODE_NONE 1 3 32 32 1 8 8 4 3 3 3
    (bl_heap _ _ _ Bw) Hc3 eq_refl Ht Ut Ht' Ut' Hw Uw ltac:(lia) ltac:(lia) ltac:(lia) ltac:(lia) eq_refl eq_refl)
    as (m1 & o1 & m2 & o2 & l & op & H1 & H2 & _ & _ & Hp & Hop & Hty).
  exists (new_Model h3), t, t', w, m1, o1, m2, o2, l, op.
  exact (conj Ht (conj Ht' (conj Hw (conj H1 (conj H2 (conj Hp (conj Hop Hty))))))).
Defined.
