(* ===== verification/Kahn.v ===== *)
(** * Kahn: visiting a graph in the order of its dependencies

    The work list shared by [has_loop], [preprocess_weights] and [get_operator_list] of
    [graph.py] and by [load_onnx] of [nudf.py].  Every node has a counter of the edges
    that lead to it; a node whose counter reaches zero is appended to the list that is
    being walked, and visiting a node decrements the counters of its successors.

    [kahn] is that loop, for a visit [expand] that may change a state and fail.  The
    theorem shows that it ends after as many visits as there are nodes, that the list
    holds every node after all its predecessors, and that a node is left out only if
    an edge comes from outside or from another node left out. *)

From stdpp Require Import relations.
From S2P Require Import Prelude DbTensor.

Open Scope Z_scope.

Section Kahn.
  Context {K St : Type} `{Countable K}.
  Variable expand : K → St → res (St * list K).

(** [todos[k] -= 1; if todos[k] == 0: l.append(k)] *)
Definition release (k : K) (st : gmap K Z * list K) : res (gmap K Z * list K) :=
  match st.1 !! k with
  | None => Ereport KeyError
  | Some n => Ok (<[k := n - 1]> st.1, if n - 1 =? 0 then st.2 ++ [k] else st.2)
  end.

(** [while i < len(l)] *)
Fixpoint kahn (fuel i : nat) (todos : gmap K Z) (l : list K) (s : St) : res (St * list K) :=
  match l !! i with
  | None => Ok (s, l)
  | Some k =>
      match fuel with
      | O => Stuck NoProgress
      | S fuel =>
          '(s, out) ← expand k s;
          '(todos, l) ← foldM release out (todos, l);
          kahn fuel (S i) todos l s
      end
  end.
End Kahn.

(** [todos[k] = cnt; if cnt == 0: l.append(k)] for every node. *)
Definition count_node {K} `{Countable K} (st : gmap K Z * list K) (e : K * Z) : gmap K Z * list K :=
  (<[e.1 := e.2]> st.1, if e.2 =? 0 then st.2 ++ [e.1] else st.2).
Definition count_nodes {K} `{Countable K} (es : list (K * Z)) : gmap K Z * list K := foldl count_node (∅, []) es.

(** ** Occurrences *)

Definition occ {K} `{EqDecision K} (k : K) (l : list K) : Z := zlen (filter (k =.) l).

Section occ.
  Context {K : Type} `{EqDecision K}.
  Implicit Types (k x : K) (l : list K).

Lemma occ_nonneg k l : 0 <= occ k l.
Proof. unfold occ, zlen. lia. Qed.
Lemma occ_cons k x l : occ k (x :: l) = (if decide (k = x) then 1 else 0) + occ k l.
Proof. unfold occ. rewrite filter_cons. case_decide; unfold zlen; simpl; lia. Qed.
Lemma occ_app k l1 l2 : occ k (l1 ++ l2) = occ k l1 + occ k l2.
Proof. unfold occ, zlen. rewrite filter_app, length_app. lia. Qed.
Lemma occ_pos k l : 0 < occ k l ↔ k ∈ l.
Proof.
  induction l as [|x l IH]; [split; [done|]; by intros ?%elem_of_nil|].
  rewrite occ_cons, elem_of_cons. pose proof (occ_nonneg k l). case_decide; intuition lia.
Qed.
Lemma occ_perm k l1 l2 : l1 ≡ₚ l2 → occ k l1 = occ k l2.
Proof. intros Hp. unfold occ, zlen. by rewrite Hp. Qed.
Lemma occ_fmap {A} (f : A → K) k (l : list A) : occ k (f <$> l) = zlen (filter (λ a : A, k = f a) l).
Proof.
  induction l as [|x l IH]; [done|]. csimpl. rewrite occ_cons, IH, filter_cons. case_decide; unfold zlen; simpl; lia.
Qed.

Context (succs : K → list K).
Lemma occ_bind_perm k l1 l2 : l1 ≡ₚ l2 → occ k (l1 ≫= succs) = occ k (l2 ≫= succs).
Proof. induction 1; csimpl; rewrite ?occ_app; lia. Qed.
Lemma occ_bind_pos k l : 0 < occ k (l ≫= succs) ↔ ∃ a, a ∈ l ∧ k ∈ succs a.
Proof. rewrite occ_pos, list_elem_of_bind. naive_solver. Qed.

(** The nodes of a list apart. *)
Lemma occ_bind_split k (l keys : list K) : NoDup l → NoDup keys → l ⊆ keys →
  occ k (keys ≫= succs) = occ k (l ≫= succs) + occ k ((filter (.∉ l) keys) ≫= succs).
Proof.
  intros Hl Hk Hsub. rewrite <-occ_app, <-bind_app. apply occ_bind_perm, NoDup_Permutation; [done| |].
  - apply NoDup_app. split_and!; [done| |by apply NoDup_filter]. intros x Hx Hf. by apply list_elem_of_filter in Hf as [??].
  - intros x. rewrite elem_of_app, list_elem_of_filter. destruct (decide (x ∈ l)); naive_solver.
Qed.
End occ.

(** ** One visit *)

(** Decrementing the counters of [es] appends the nodes whose counter was their number
    of occurrences in [es]. *)
Lemma release_ok {K} `{Countable K} (es : list K) : ∀ (todos : gmap K Z) l,
  (∀ k, k ∈ es → ∃ n, todos !! k = Some n ∧ occ k es <= n) →
  ∃ todos' new, foldM release es (todos, l) = Ok (todos', l ++ new)
    ∧ (∀ k n, todos !! k = Some n → todos' !! k = Some (n - occ k es))
    ∧ NoDup new ∧ ∀ k, k ∈ new ↔ k ∈ es ∧ todos !! k = Some (occ k es).
Proof.
  induction es as [|x es IH]; intros todos l Hes.
  { exists todos, []. split_and!; [by rewrite app_nil_r|intros k n ->; f_equal; unfold occ, zlen; simpl; lia|constructor|].
    intros k. split; [by intros ?%elem_of_nil|by intros [?%elem_of_nil _]]. }
  destruct (Hes x) as (n & Hn & Hx); [left|]. rewrite occ_cons, decide_True in Hx by done.
  destruct (IH (<[x := n - 1]> todos) (if n - 1 =? 0 then l ++ [x] else l)) as (todos' & new & Hrun & Hcnt & Hnd & Hnew).
  { intros k Hk. destruct (decide (k = x)) as [->|Hne]; [exists (n - 1); rewrite lookup_insert_eq; split; [done|lia]|].
    destruct (Hes k) as (p & Hp & Hle); [by right|]. rewrite occ_cons, decide_False in Hle by done.
    exists p. rewrite lookup_insert_ne by done. split; [done|lia]. }
  pose proof (occ_nonneg x es) as Hpos. pose proof (occ_pos x es) as Hin.
  exists todos', (if n - 1 =? 0 then x :: new else new). cbn [foldM].
  assert (release x (todos, l) = Ok (<[x := n - 1]> todos, if n - 1 =? 0 then l ++ [x] else l)) as -> by (unfold release; simpl; by rewrite Hn).
  cbn [mbind res_bind]. rewrite Hrun. split_and!.
  - destruct (n - 1 =? 0); [by rewrite <-app_assoc|done].
  - intros k p Hp. rewrite occ_cons. case_decide as Hk; [subst k|].
    + rewrite Hn in Hp. injection Hp as <-. rewrite (Hcnt x (n - 1)) by apply lookup_insert_eq. f_equal. lia.
    + rewrite (Hcnt k p) by (by rewrite lookup_insert_ne). f_equal.
  - case_match eqn:E; [|done]. apply Z.eqb_eq in E. constructor; [|done]. intros [Hc _]%Hnew. apply Hin in Hc. lia.
  - intros k. assert (k ∈ new ↔ k ∈ es ∧ <[x := n - 1]> todos !! k = Some (occ k es)) as Hk by apply Hnew. rewrite occ_cons, elem_of_cons.
    destruct (decide (k = x)) as [->|Hne].
    + rewrite lookup_insert_eq in Hk. rewrite Hn. case_match eqn:E; [apply Z.eqb_eq in E|apply Z.eqb_neq in E].
      * rewrite elem_of_cons. split; [intros _; split; [by left|f_equal; lia]|by left].
      * rewrite Hk. split; [intros [? [=]]; split; [by left|f_equal; lia]|intros [_ [=]]; split; [apply Hin; lia|f_equal; lia]].
    + rewrite lookup_insert_ne in Hk by done. case_match; rewrite ?elem_of_cons, Hk; naive_solver.
Qed.

(** ** The first counters *)

Lemma count_nodes_ok {K} `{Countable K} (cnt : K → Z) keys : NoDup keys →
  ∃ todos, count_nodes ((λ k, (k, cnt k)) <$> keys) = (todos, filter (λ k, cnt k = 0) keys)
    ∧ ∀ k, k ∈ keys → todos !! k = Some (cnt k).
Proof.
  induction keys as [|k keys IH] using rev_ind; intros Hnd; [exists ∅; split; [done|by intros k ?%elem_of_nil]|].
  apply NoDup_app in Hnd as (Hnd & Hk & _). destruct (IH Hnd) as (todos & Hc & Hin).
  exists (<[k := cnt k]> todos). unfold count_nodes in *. rewrite fmap_app, foldl_app, Hc. simpl. unfold count_node. simpl. split.
  - f_equal. rewrite filter_app, filter_cons, filter_nil. destruct (decide (cnt k = 0)) as [->|Hz]; [done|].
    apply Z.eqb_neq in Hz. by rewrite Hz, app_nil_r.
  - intros x Hx. destruct (decide (x = k)) as [->|Hne]; [by rewrite lookup_insert_eq|]. rewrite lookup_insert_ne by done.
    apply elem_of_app in Hx as [Hx|Hx]; [by apply Hin|set_solver].
Qed.

(** ** The list that is walked *)

Section Correct.
  Context {K St : Type} `{Countable K}.
  Variables (expand : K → St → res (St * list K)) (keys : list K) (succs : K → list K) (extra : K → Z) (Inv : list K → St → Prop).
  Hypothesis keys_nodup : NoDup keys.
  Hypothesis closed : ∀ a, a ∈ keys → succs a ⊆ keys.
  Hypothesis extra_nonneg : ∀ k, k ∈ keys → 0 <= extra k.
  Hypothesis expand_ok : ∀ pre k s, Inv pre s → k ∈ keys → ∃ s', expand k s = Ok (s', succs k) ∧ Inv (pre ++ [k]) s'.

(** What the list is in the end. *)
Record kahn_list (l : list K) : Prop := {
  kl_nodup : NoDup l;
  kl_sub : l ⊆ keys;
  kl_order : ∀ (j : nat) b, l !! j = Some b → extra b = 0 ∧ ∀ a, a ∈ keys → b ∈ succs a → (∃ i : nat, (i < j)%nat ∧ l !! i = Some a);
  kl_rest : ∀ b, b ∈ keys → b ∉ l → 0 < extra b ∨ (∃ a, a ∈ keys ∧ (a ∉ l) ∧ b ∈ succs a)
}.

(** The counter of a node once [pre] has been visited. *)
Definition left_in (pre : list K) (k : K) : Z := occ k (keys ≫= succs) + extra k - occ k (pre ≫= succs).

Record kahn_inv (i : nat) (todos : gmap K Z) (l : list K) : Prop := {
  ki_nodup : NoDup l;
  ki_sub : l ⊆ keys;
  ki_le : (i <= length l)%nat;
  ki_todos : ∀ k, k ∈ keys → todos !! k = Some (left_in (take i l) k);
  ki_in : ∀ k, k ∈ keys → k ∈ l ↔ left_in (take i l) k = 0;
  ki_order : ∀ (j : nat) b, l !! j = Some b → extra b = 0 ∧ ∀ a, a ∈ keys → b ∈ succs a → ∃ i : nat, (i < j)%nat ∧ l !! i = Some a
}.

Lemma left_in_split pre k : NoDup pre → pre ⊆ keys → left_in pre k = occ k ((filter (.∉ pre) keys) ≫= succs) + extra k.
Proof. intros Hn Hs. unfold left_in. rewrite (occ_bind_split succs k pre keys) by done. lia. Qed.

(** A node with nothing left has all its predecessors among the visited. *)
Lemma left_in_zero pre k : NoDup pre → pre ⊆ keys → k ∈ keys → left_in pre k = 0 →
  extra k = 0 ∧ ∀ a, a ∈ keys → k ∈ succs a → a ∈ pre.
Proof.
  intros Hn Hs Hk. rewrite left_in_split by done. pose proof (extra_nonneg k Hk). pose proof (occ_nonneg k ((filter (.∉ pre) keys) ≫= succs)).
  intros Hz. split; [lia|]. intros a Ha Hka. destruct (decide (a ∈ pre)) as [|Hna]; [done|].
  assert (0 < occ k ((filter (.∉ pre) keys) ≫= succs)); [|lia].
  apply occ_bind_pos. exists a. split; [|done]. by apply list_elem_of_filter.
Qed.
Lemma left_in_pos pre k : NoDup pre → pre ⊆ keys → k ∈ keys → left_in pre k ≠ 0 →
  0 < extra k ∨ (∃ a, a ∈ keys ∧ (a ∉ pre) ∧ k ∈ succs a).
Proof.
  intros Hn Hs Hk. rewrite left_in_split by done. pose proof (extra_nonneg k Hk). pose proof (occ_nonneg k ((filter (.∉ pre) keys) ≫= succs)).
  intros Hz. destruct (decide (0 < extra k)); [by left|right].
  destruct (proj1 (occ_bind_pos succs k (filter (.∉ pre) keys))) as (a & [??]%list_elem_of_filter & ?); [lia|]. by exists a.
Qed.

Lemma left_in_snoc pre k x : left_in (pre ++ [k]) x = left_in pre x - occ x (succs k).
Proof. unfold left_in. rewrite bind_app, occ_app. csimpl. rewrite app_nil_r. lia. Qed.
Lemma left_in_nonneg pre k : NoDup pre → pre ⊆ keys → k ∈ keys → 0 <= left_in pre k.
Proof.
  intros Hn Hs Hk. rewrite left_in_split by done. pose proof (extra_nonneg k Hk).
  pose proof (occ_nonneg k ((filter (.∉ pre) keys) ≫= succs)). lia.
Qed.

Lemma kahn_step i todos l k : kahn_inv i todos l → l !! i = Some k →
  ∃ todos' l', foldM release (succs k) (todos, l) = Ok (todos', l') ∧ kahn_inv (S i) todos' l' ∧ take (S i) l' = take i l ++ [k].
Proof.
  intros [Hnd Hsub Hle Htodos Hin Hord] Hk. assert (k ∈ keys) as Hkk by (by eapply Hsub, list_elem_of_lookup_2).
  assert (S i <= length l)%nat as Hlen by (by apply lookup_lt_Some in Hk).
  set (pre := take i l) in *. assert (take (S i) l = pre ++ [k]) as Hpre by (by apply take_S_r).
  assert (NoDup (pre ++ [k])) as Hnd' by (rewrite <-Hpre; eapply sublist_NoDup; [done|apply sublist_take]).
  assert (pre ++ [k] ⊆ keys) as Hsub'.
  { rewrite <-Hpre. intros x Hx. by eapply Hsub, subseteq_take. }
  destruct (release_ok (succs k) todos l) as (todos' & new & Hrun & Hcnt & Hnew & Hnewin).
  { intros x Hx. exists (left_in pre x). assert (x ∈ keys) by (by eapply closed). split; [by apply Htodos|].
    pose proof (left_in_nonneg (pre ++ [k]) x Hnd' Hsub' ltac:(done)) as Hx0. rewrite left_in_snoc in Hx0. lia. }
  assert (∀ x, x ∈ new → x ∈ succs k ∧ x ∈ keys ∧ left_in pre x = occ x (succs k)) as Hnew'.
  { intros x [Hx Hc]%Hnewin. assert (x ∈ keys) as Hxk by (by eapply closed). rewrite Htodos in Hc by done. by injection Hc. }
  exists todos', (l ++ new). assert (take (S i) (l ++ new) = pre ++ [k]) as Htake by (rewrite take_app_le by lia; done).
  split_and!; [done| |done]. split.
  - apply NoDup_app. split_and!; [done| |done]. intros x Hxl Hxn%Hnew'. destruct Hxn as (Hx%occ_pos & ? & ?). apply Hin in Hxl; [lia|done].
  - intros x [?|(_ & ? & _)%Hnew']%elem_of_app; [by apply Hsub|done].
  - rewrite length_app. lia.
  - intros x Hx. rewrite Htake, left_in_snoc. by apply Hcnt, Htodos.
  - intros x Hx. rewrite Htake, left_in_snoc, elem_of_app, Hin, Hnewin, Htodos by done.
    pose proof (left_in_nonneg (pre ++ [k]) x Hnd' Hsub' Hx) as Hx0. rewrite left_in_snoc in Hx0.
    pose proof (occ_pos x (succs k)) as Hpos. pose proof (occ_nonneg x (succs k)). split; [intros [?|[? [= ?]]]; lia|].
    intros ?. destruct (decide (occ x (succs k) = 0)); [left; lia|right]. split; [apply Hpos; lia|f_equal; lia].
  - intros j b [Hb|[Hj Hb]]%lookup_app_Some.
    + destruct (Hord j b Hb) as [? Hp]. split; [done|]. intros a Ha Hba. destruct (Hp a Ha Hba) as (i' & ? & ?).
      exists i'. split; [done|by apply lookup_app_l_Some].
    + apply list_elem_of_lookup_2, Hnew' in Hb as (? & ? & Hz).
      destruct (left_in_zero (pre ++ [k]) b Hnd' Hsub') as [? Hp]; [done|rewrite left_in_snoc; lia|]. split; [done|].
      intros a Ha Hba. apply (Hp a Ha) in Hba. rewrite <-Hpre in Hba. apply elem_of_take in Hba as (i' & ? & ?).
      exists i'. split; [lia|by apply lookup_app_l_Some].
Qed.

Lemma kahn_ok fuel : ∀ i todos l s, kahn_inv i todos l → Inv (take i l) s → (length keys <= fuel + i)%nat →
  ∃ s' l', kahn expand fuel i todos l s = Ok (s', l') ∧ kahn_list l' ∧ Inv l' s'.
Proof.
  induction fuel as [|fuel IH]; intros i todos l s Hinv Hs Hfuel; cbn [kahn].
  all: destruct (l !! i) as [k|] eqn:Hk; [|apply lookup_ge_None in Hk; rewrite take_ge in Hs by lia; exists s, l; split_and!; [done| |done]].
  2,4: destruct Hinv as [Hnd Hsub Hle Htodos Hin Hord]; rewrite take_ge in Hin by lia; split; try done;
       intros b Hb Hnb; apply left_in_pos; try done; intros Hz; apply Hnb, Hin; done.
  - apply lookup_lt_Some in Hk. pose proof (NoDup_submseteq _ _ (ki_nodup _ _ _ Hinv) (ki_sub _ _ _ Hinv)) as Hlen%submseteq_length. lia.
  - destruct (expand_ok (take i l) k s Hs) as (s1 & -> & Hs1).
    { by eapply (ki_sub _ _ _ Hinv), list_elem_of_lookup_2. }
    destruct (kahn_step i todos l k Hinv Hk) as (todos' & l' & Hrun & Hinv' & Htake). cbn [mbind res_bind]. rewrite Hrun. cbn [mbind res_bind].
    apply IH; [done|by rewrite Htake|lia].
Qed.

(** From the counters of all nodes. *)
Lemma kahn_nodes s todos l fuel : Inv [] s → (length keys <= fuel)%nat →
  count_nodes ((λ k, (k, occ k (keys ≫= succs) + extra k)) <$> keys) = (todos, l) →
  ∃ s' l', kahn expand fuel 0 todos l s = Ok (s', l') ∧ kahn_list l' ∧ Inv l' s'.
Proof.
  intros Hs Hfuel Hc. destruct (count_nodes_ok (λ k, occ k (keys ≫= succs) + extra k) keys keys_nodup) as (todos' & Hc' & Hin).
  rewrite Hc in Hc'. injection Hc' as -> ->.
  assert (∀ k, left_in [] k = occ k (keys ≫= succs) + extra k) as H0 by (intros k; unfold left_in, occ at 2, zlen; simpl; lia).
  apply kahn_ok; [|done|lia]. split.
  - by apply NoDup_filter.
  - by intros k [_ ?]%list_elem_of_filter.
  - lia.
  - intros k Hk. simpl. rewrite H0. by apply Hin.
  - intros k Hk. simpl. rewrite H0, list_elem_of_filter. naive_solver.
  - intros j b Hb%list_elem_of_lookup_2. apply list_elem_of_filter in Hb as [Hb Hk]. rewrite <-H0 in Hb.
    destruct (left_in_zero [] b) as [? Hp]; [constructor|set_solver|done|done|]. split; [done|].
    intros a Ha Hba. by apply (Hp a Ha), elem_of_nil in Hba.
Qed.

(** ** Loops *)

Definition leads (a b : K) : Prop := a ∈ keys ∧ b ∈ succs a.
Definition acyclic : Prop := ∀ a, ¬ tc leads a a.

Lemma tc_leads_before l a b : kahn_list l → tc leads a b → ∀ j : nat, l !! j = Some b → ∃ i : nat, (i < j)%nat ∧ l !! i = Some a.
Proof.
  intros Hl. induction 1 as [x y [Hx Hy]|x y z [Hx Hy] _ IH]; intros j Hj.
  - destruct (kl_order _ Hl j y Hj) as [_ Hp]. by apply Hp.
  - destruct (IH j Hj) as (i & ? & Hi). destruct (kl_order _ Hl i y Hi) as [_ Hp]. destruct (Hp x Hx Hy) as (i' & ? & ?). exists i'. split; [lia|done].
Qed.

(** The list holds all nodes exactly if there is no loop. *)
Lemma kahn_complete l : (∀ k, k ∈ keys → extra k = 0) → kahn_list l → l ≡ₚ keys ↔ acyclic.
Proof.
  intros Hx Hl. split.
  - intros Hp a Ha. assert (a ∈ keys) as Hk by (inversion Ha; by destruct select (leads a _)).
    rewrite <-Hp in Hk. apply list_elem_of_lookup_1 in Hk as [j Hj]. destruct (tc_leads_before l a a Hl Ha j Hj) as (i & Hlt & Hi).
    assert (i = j); [|lia]. eapply NoDup_lookup; [by apply Hl|done|done].
  - intros Hac. apply NoDup_Permutation; [apply Hl|done|]. intros b. split; [apply Hl|]. intros Hb.
    destruct (decide (b ∈ l)) as [|Hnb]; [done|exfalso].
    set (R := λ b a, (b ∈ keys ∧ (b ∉ l)) ∧ (a ∈ keys ∧ (a ∉ l)) ∧ b ∈ succs a).
    assert (∀ x y, tc R x y → tc leads y x ∧ y ∈ keys) as Hflip.
    { induction 1 as [x y (? & [? ?] & ?)|x y z (? & [? ?] & ?) _ [IH ?]]; (split; [|done]); [by constructor|]. eapply tc_r; [exact IH|done]. }
    assert (sn R b) as Hsn.
    { apply tc_finite_sn; [intros x Hxx; by apply (Hac x), Hflip|]. exists keys. intros y Hy. by eapply Hflip. }
    induction Hsn as [b _ IH]. destruct (kl_rest _ Hl b Hb Hnb) as [Hpos|(a & Ha & Hna & Hba)]; [rewrite Hx in Hpos by done; lia|].
    by apply (IH a).
Qed.
End Correct.
