(* ===== verification/DbGraph.v ===== *)
(** * DbGraph: the graph of operators

    [graph.py]: [Graph] keeps the edges that enter and that leave every operator, in
    two [OpMap]s.  An [OpMap] is a [SortedDict] of [SortedSet]s: here a finite map of
    finite sets, iterated over in the order of the keys.  Reading an absent key enters
    an empty set, so the operations that read return the map.

    Entering an operator or an edge compares it with others.  Operators are compared by
    number, then by reference, which raises [TypeError] for two operators of the same
    number: [om_insert] and [set_add] check that there are none.

    An operator of the graph has a number from 100; the sources [GUID_INPUT] and
    [GUID_WEIGHT] are the other ends of the edges into inputs and weights.

    The theorems show that [has_loop] decides whether there is a loop, that
    [get_operator_list] lists the operators with every operator after those it reads
    from, and that it does so for every graph the builders of this file make. *)

From stdpp Require Import sorting relations.
From S2P Require Import Prelude PgArray DbTensor DbOp DbModel Kahn.

Open Scope Z_scope.

Definition AttributeError : string := "AttributeError".

(** ** Edges and maps *)

Record Edge := mkEdge { srcOp : Op; dstOp : Op; srcIdx : Z; dstIdx : Z }.
#[export] Instance Edge_eq_dec : EqDecision Edge.
Proof. solve_decision. Defined.
#[export] Instance Op_countable : Countable Op.
Proof. by apply (inj_countable' (λ o, (guid o, ptr o)) (λ p, mkOp p.1 p.2)); intros []. Defined.
#[export] Instance Edge_countable : Countable Edge.
Proof.
  by apply (inj_countable' (λ e, (srcOp e, dstOp e, srcIdx e, dstIdx e)) (λ '(a, b, i, j), mkEdge a b i j)); intros [].
Defined.

(** [Op.__lt__] does not raise. *)
Definition op_comparable (a b : Op) : bool := negb (guid a =? guid b) || bool_decide (a = b).
Definition edge_comparable (a b : Edge) : bool :=
  if negb (bool_decide (srcOp a = srcOp b)) then op_comparable (srcOp a) (srcOp b)
  else if negb (bool_decide (dstOp a = dstOp b)) then op_comparable (dstOp a) (dstOp b)
  else true.
(** [Edge.__lt__] *)
Definition edge_lt (a b : Edge) : bool :=
  if negb (bool_decide (srcOp a = srcOp b)) then guid (srcOp a) <? guid (srcOp b)
  else if negb (bool_decide (dstOp a = dstOp b)) then guid (dstOp a) <? guid (dstOp b)
  else if negb (srcIdx a =? srcIdx b) then srcIdx a <? srcIdx b
  else if negb (dstIdx a =? dstIdx b) then dstIdx a <? dstIdx b
  else false.

Abbreviation OpMap := (gmap Op (gset Edge)).

(** The order of iteration. *)
Definition edge_le (a b : Edge) : Prop := edge_lt b a = false.
#[export] Instance edge_le_dec a b : Decision (edge_le a b).
Proof. unfold edge_le. apply _. Defined.
Definition entry_le (a b : Op * gset Edge) : Prop := guid a.1 <= guid b.1.
#[export] Instance entry_le_dec a b : Decision (entry_le a b).
Proof. unfold entry_le. apply _. Defined.
Definition edges (s : gset Edge) : list Edge := merge_sort edge_le (elements s).
Definition map_items (m : OpMap) : list (Op * gset Edge) := merge_sort entry_le (map_to_list m).

Definition om_insert (m : OpMap) (k : Op) (s : gset Edge) : res OpMap :=
  check (forallb (op_comparable k) (elements (dom m))) TypeError (Ok (<[k := s]> m)).
(** [OpMap.__getitem__] *)
Definition getitem (m : OpMap) (k : Op) : res (OpMap * gset Edge) :=
  match m !! k with
  | Some s => Ok (m, s)
  | None => m ← om_insert m k ∅; Ok (m, ∅)
  end.
(** [m[k].add(e)] *)
Definition set_add (m : OpMap) (k : Op) (e : Edge) : res OpMap :=
  '(m, s) ← getitem m k;
  if bool_decide (e ∈ s) then Ok m
  else check (forallb (edge_comparable e) (elements s)) TypeError (Ok (<[k := {[e]} ∪ s]> m)).
(** [m[k].remove(e)] *)
Definition set_remove (m : OpMap) (k : Op) (e : Edge) : res OpMap :=
  '(m, s) ← getitem m k;
  check (bool_decide (e ∈ s)) KeyError (Ok (<[k := s ∖ {[e]}]> m)).

(** ** Graphs *)

Record Graph := mkGraph { g_model : Model; inEdges : OpMap; outEdges : OpMap }.
Definition new_Graph (m : Model) : Graph := mkGraph m ∅ ∅.
Definition set_model (g : Graph) (m : Model) : Graph := mkGraph m (inEdges g) (outEdges g).
Definition set_in (g : Graph) (m : OpMap) : Graph := mkGraph (g_model g) m (outEdges g).
Definition set_out (g : Graph) (m : OpMap) : Graph := mkGraph (g_model g) (inEdges g) m.

(** [assert dstOp.guid != OpType.OP_WEIGHT] compares a number with an enumeration
    member and never fails. *)
Definition add_edge (g : Graph) (src dst : Op) (si di : Z) : res Graph :=
  '(ins, _) ← getitem (inEdges g) dst;
  '(outs, _) ← getitem (outEdges g) src;
  let e := mkEdge src dst si di in
  ins ← set_add ins dst e;
  outs ← set_add outs src e;
  Ok (mkGraph (g_model g) ins outs).

Definition has_edge (g : Graph) (src dst : Op) (si di : Z) : res (Graph * bool) :=
  let e := mkEdge src dst si di in
  '(ins, s) ← getitem (inEdges g) dst;
  Ok (set_in g ins, bool_decide (e ∈ s)).

Definition remove_edge (g : Graph) (e : Edge) : res Graph :=
  py_assert (bool_decide (srcOp e ∈ dom (outEdges g))) (py_assert (bool_decide (dstOp e ∈ dom (inEdges g)))
  (outs ← set_remove (outEdges g) (srcOp e) e;
   ins ← set_remove (inEdges g) (dstOp e) e;
   Ok (mkGraph (g_model g) ins outs))).

Definition num_in_edges (g : Graph) (op : Op) : res (Graph * Z) :=
  '(ins, s) ← getitem (inEdges g) op; Ok (set_in g ins, Z.of_nat (size s)).
Definition num_out_edges (g : Graph) (op : Op) : res (Graph * Z) :=
  '(outs, s) ← getitem (outEdges g) op; Ok (set_out g outs, Z.of_nat (size s)).

Definition remove_node (g : Graph) (oldOp : Op) : res Graph :=
  py_assert (bool_decide (oldOp ∈ dom (outEdges g)))
  ('(g, n) ← num_out_edges g oldOp;
   py_assert (n =? 0)
   ('(ins, inSet) ← getitem (inEdges g) oldOp;
    g ← foldM (λ e g, remove_edge g e) (edges inSet) (set_in g ins);
    '(g, n) ← num_in_edges g oldOp;
    py_assert (n =? 0) (Ok (mkGraph (g_model g) (delete oldOp (inEdges g)) (delete oldOp (outEdges g)))))).

(** The object an operator refers to. *)
Definition op_object (m : Model) (op : Op) : res OpBase :=
  match ptr op with
  | None => Ereport AttributeError
  | Some l => match m_ops m !! l with Some o => Ok o | None => Stuck NullDeref end
  end.

(** ** Walking a graph *)

Definition counted (e : Edge) : bool := GUID_PRESERVED <? guid (srcOp e).
Definition num_edges (P : Edge → bool) (s : gset Edge) : Z := zlen (filter P (edges s)).
Definition first_counts (P : Edge → bool) (m : OpMap) : gmap Op Z * list Op :=
  count_nodes ((λ kv, (kv.1, num_edges P kv.2)) <$> map_items m).
Definition out_ops (op : Op) (outs : OpMap) : res (OpMap * list Op) :=
  '(outs, s) ← getitem outs op; Ok (outs, dstOp <$> edges s).

Definition has_loop (g : Graph) : res (Graph * bool) :=
  let '(todos, opList) := first_counts counted (inEdges g) in
  '(outs, opList) ← kahn out_ops (size (inEdges g)) 0 todos opList (outEdges g);
  Ok (set_out g outs, zlen opList <? size (inEdges g)).

(** [ops] collects the operators that are neither inputs nor weights. *)
Definition list_op (m : Model) (op : Op) (st : OpMap * list Op) : res (OpMap * list Op * list Op) :=
  o ← op_object m op;
  let ops := if bool_decide (type o = OP_INPUT) || bool_decide (type o = OP_WEIGHT) then st.2 else st.2 ++ [op] in
  '(outs, out) ← out_ops op st.1;
  Ok (outs, ops, out).
Definition get_operator_list (g : Graph) : res (Graph * list Op) :=
  let '(todos, opList) := first_counts counted (inEdges g) in
  '(st, opList) ← kahn (list_op (g_model g)) (size (inEdges g)) 0 todos opList (outEdges g, []);
  py_assert (zlen opList =? size (inEdges g)) (Ok (set_out g st.1, st.2)).

(** ** preprocess_weights *)

(** [Model()], over the objects there are. *)
Definition fresh_model (m : Model) : Model := mkModel 100 (m_heap m) (m_ops m) (next_op m) [] [] [] [] [] [] [].

Definition clone_edges (ins : OpMap) (g : Graph) : res Graph :=
  foldM (λ kv g, foldM (λ e g, add_edge g (srcOp e) (dstOp e) (srcIdx e) (dstIdx e)) (edges kv.2) g) (map_items ins) g.

(** Step 2 reads the types of the operators and changes nothing. *)
Fixpoint all_weights (m : Model) (es : list Edge) : res bool :=
  match es with
  | [] => Ok true
  | e :: es =>
      o ← op_object m (srcOp e);
      if negb (bool_decide (type o = OP_WEIGHT)) then Ok false else all_weights m es
  end.
Definition read_types (g : Graph) : res unit :=
  foldM (λ kv _,
    o ← op_object (g_model g) kv.1;
    if bool_decide (type o ∈ [OP_INPUT; OP_WEIGHT]) then Ok tt
    else if bool_decide (type o = OP_TRANSPOSE) then Ok tt
    else _ ← all_weights (g_model g) (edges kv.2); Ok tt) (map_items (inEdges g)) tt.

Definition not_weight_source (e : Edge) : bool := negb (guid (srcOp e) =? GUID_WEIGHT).
Definition add_weight (op : Op) (st : OpMap * gset Op) : res (OpMap * gset Op * list Op) :=
  '(outs, out) ← out_ops op st.1;
  Ok (outs, {[op]} ∪ st.2, out).

(** The first operator of [ops] that is a weight nothing reads. *)
Fixpoint find_dead (weightOps : gset Op) (ops : list Op) (g : Graph) : res (Graph * option Op) :=
  match ops with
  | [] => Ok (g, None)
  | op :: ops =>
      if bool_decide (op ∈ weightOps) then
        '(g, n) ← num_out_edges g op;
        if n =? 0 then Ok (g, Some op) else find_dead weightOps ops g
      else find_dead weightOps ops g
  end.
Fixpoint remove_dead (fuel : nat) (weightOps : gset Op) (g : Graph) : res Graph :=
  match fuel with
  | O => Stuck NoProgress
  | S fuel =>
      '(g, dead) ← find_dead weightOps (map_items (inEdges g)).*1 g;
      match dead with
      | None => Ok g
      | Some op => g ← remove_node g op; remove_dead fuel weightOps g
      end
  end.

Definition preprocess_weights (g : Graph) : res Graph :=
  newGraph ← clone_edges (inEdges g) (new_Graph (fresh_model (g_model g)));
  _ ← read_types newGraph;
  let '(todos, weightList) := first_counts not_weight_source (inEdges newGraph) in
  '(st, _) ← kahn add_weight (size (inEdges newGraph)) 0 todos weightList (outEdges newGraph, ∅);
  remove_dead (S (size (inEdges newGraph))) st.2 (set_out newGraph st.1).

(** ** check_correctness *)

Definition check_dims (g : Graph) (src dst : OpBase) (s d : Tensor) : res unit :=
  foldM (λ i _,
    x ← pget (dim s) i; y ← pget (dim d) i;
    if negb (x =? y) then
      if bool_decide (type src = OP_CONV2D) && (i =? 0) then Ok tt
      else
        b ← broadcastable s d;
        py_assert (b && bool_decide (type dst = OP_EW_ADD)) (Ok tt)
    else
      _ ← pget (stride s) i; _ ← pget (stride d) i; Ok tt) (py_range (numDim s)) tt.
Definition check_edge (e : Edge) (g : Graph) : res Graph :=
  '(g, b) ← has_edge g (srcOp e) (dstOp e) (srcIdx e) (dstIdx e);
  py_assert b
  (match ptr (srcOp e) with
   | None => Ok g
   | Some _ =>
       src ← op_object (g_model g) (srcOp e);
       s ← pget (outputs src) (srcIdx e);
       dst ← op_object (g_model g) (dstOp e);
       d ← pget (inputs dst) (dstIdx e);
       py_assert (numDim s =? numDim d)
       (_ ← check_dims g src dst s d; Ok g)
   end).
Definition check_correctness (g : Graph) : res (Graph * bool) :=
  g ← foldM (λ kv g, foldM check_edge (edges kv.2) g) (map_items (outEdges g)) g;
  Ok (g, true).

(** ** Builders *)

(** [copy.deepcopy] of a list of references: an object met twice is copied once. *)
Fixpoint copy_splits (memo : gmap loc loc) (h : heap) (ls : list loc) : res (heap * list loc) :=
  match ls with
  | [] => Ok (h, [])
  | l :: ls =>
      match memo !! l with
      | Some l' => '(h, ls) ← copy_splits memo h ls; Ok (h, l' :: ls)
      | None =>
          s ← load h l;
          let '(h, l') := alloc h s in
          '(h, ls) ← copy_splits (<[l := l']> memo) h ls; Ok (h, l' :: ls)
      end
  end.
(** The arrays of weights are never written: a copy is the same value. *)
Definition deepcopy (h : heap) (t : Tensor) : res (heap * Tensor) :=
  '(h, ls) ← copy_splits ∅ h (split t); Ok (h, set_split t ls).

(** [t = copy.deepcopy(op.ptr.outputs[0]); t.op = op; return t] *)
Definition out_tensor (g : Graph) (op : Op) : res (Graph * Tensor) :=
  o ← op_object (g_model g) op;
  t ← pget (outputs o) 0;
  '(h, t) ← deepcopy (m_heap (g_model g)) t;
  Ok (set_model g (set_m_heap (g_model g) h), set_op t op).
(** One edge from every argument. *)
Definition add_edges (g : Graph) (args : list Tensor) (op : Op) : res Graph :=
  foldM (λ a g, add_edge g (t_op a.2) op (idx a.2) a.1) (zip (seqZ 0 (zlen args)) args) g.
Definition connect (args : list Tensor) (g : Graph) (op : Op) : res (Graph * Tensor) :=
  g ← add_edges g args op; out_tensor g op.

Definition new_input (g : Graph) (dims : list Z) : res (Graph * Tensor) :=
  py_assert (zlen dims <? 16)
  ('(h, input) ← Tensor_init (m_heap (g_model g)) (zlen dims) dims GUID_INPUT None;
   '(m, op) ← create_input (set_m_heap (g_model g) h) input OP_INPUT;
   connect [input] (set_model g m) op).

Definition new_weight (g : Graph) (dims : list Z) (data : option loc) : res (Graph * Tensor) :=
  py_assert (zlen dims <? 16)
  ('(h, weight) ← Tensor_init (m_heap (g_model g)) (zlen dims) dims GUID_WEIGHT data;
   '(m, op) ← create_weight (set_m_heap (g_model g) h) weight OP_WEIGHT;
   connect [weight] (set_model g m) op).

Definition Graph_conv2d (g : Graph) (input weight : Tensor) (strideH strideW : Z) (padding : PaddingMode) (acti : ActiMode)
    : res (Graph * Tensor) :=
  '(m, op) ← get_or_create_conv2d (g_model g) input weight strideH strideW padding acti;
  py_assert (negb (bool_decide (op = INVALID_OP))) (connect [input; weight] (set_model g m) op).

Definition Graph_element (g : Graph) (ty : OpType) (t1 t2 : Tensor) : res (Graph * Tensor) :=
  b ← broadcastable t1 t2;
  py_assert b
  ('(m, op) ← get_or_create_element (g_model g) ty t1 t2;
   connect [t1; t2] (set_model g m) op).

Definition Graph_matmul (g : Graph) (input weight : Tensor) (acti : ActiMode) : res (Graph * Tensor) :=
  '(m, op) ← get_or_create_matmul (g_model g) input weight acti;
  py_assert (negb (bool_decide (op = INVALID_OP))) (connect [input; weight] (set_model g m) op).

(** [data] is the list of [dim[1] * kernelH * kernelW] times [1 / (kernelH * kernelW)]. *)
Definition pool2d_avg (g : Graph) (input : Tensor) (kernelH kernelW strideH strideW : Z) (padding : PaddingMode) (acti : ActiMode)
    (data : loc) : res (Graph * Tensor) :=
  c ← pget (dim input) 1;
  '(g, weight) ← new_weight g [c; 1; kernelH; kernelW] (Some data);
  '(m, op) ← get_or_create_pool2d (g_model g) input weight OP_POOL2D_AVG kernelH kernelW strideH strideW padding acti;
  connect [input; weight] (set_model g m) op.

Definition Graph_relu (g : Graph) (input : Tensor) (inPlace : bool) : res (Graph * Tensor) :=
  '(m, op) ← get_or_create_activation (g_model g) input OP_RELU inPlace;
  py_assert (negb (bool_decide (op = INVALID_OP))) (connect [input] (set_model g m) op).

(** The shape with its zeros and its [-1]s replaced. *)
Definition resolve_shape (input : Tensor) (shape : list Z) : res (list Z) :=
  let n := zlen shape in
  shape ← foldM (λ i s, x ← pget s i; if x =? 0 then d ← pget (dim input) i; pset s i d else Ok s) (py_range n) shape;
  input_size ← volume input;
  input_size ← foldM (λ i size,
    x ← pget shape i;
    if negb (x =? -1) then
      r ← py_mod size x;
      py_assert (r =? 0) (py_div size x)
    else Ok size) (py_range n) input_size;
  '(shape, input_size) ← foldM (λ i '(s, size),
    x ← pget s i;
    if x =? -1 then s ← pset s i size; Ok (s, 1) else Ok (s, size)) (py_range n) (shape, input_size);
  py_assert (input_size =? 1) (Ok shape).
Definition Graph_reshape (g : Graph) (input : Tensor) (shape : list Z) : res (Graph * Tensor) :=
  shape ← resolve_shape input shape;
  '(m, op) ← get_or_create_reshape (g_model g) input shape;
  connect [input] (set_model g m) op.

Definition Graph_transpose (g : Graph) (input : Tensor) (perm : list Z) (shuffle : bool) : res (Graph * Tensor) :=
  '(m, op) ← get_or_create_transpose (g_model g) input perm shuffle;
  connect [input] (set_model g m) op.

(** A sequence of calls; arguments are earlier results, by position. *)
Inductive build :=
  | BInput (dims : list Z)
  | BWeight (dims : list Z) (data : loc)
  | BConv2d (i w : nat) (strideH strideW : Z) (padding : PaddingMode) (acti : ActiMode)
  | BElement (ty : OpType) (i j : nat)
  | BMatmul (i w : nat) (acti : ActiMode)
  | BPool (i : nat) (kernelH kernelW strideH strideW : Z) (padding : PaddingMode) (acti : ActiMode) (data : loc)
  | BRelu (i : nat) (inPlace : bool)
  | BReshape (i : nat) (shape : list Z)
  | BTranspose (i : nat) (perm : list Z) (shuffle : bool).
Definition arg (ts : list Tensor) (i : nat) : res Tensor := pget ts (Z.of_nat i).
Definition run_build (b : build) (st : Graph * list Tensor) : res (Graph * list Tensor) :=
  let '(g, ts) := st in
  '(g, t) ← match b with
    | BInput dims => new_input g dims
    | BWeight dims data => new_weight g dims (Some data)
    | BConv2d i w sh sw p a => x ← arg ts i; y ← arg ts w; Graph_conv2d g x y sh sw p a
    | BElement ty i j => x ← arg ts i; y ← arg ts j; Graph_element g ty x y
    | BMatmul i w a => x ← arg ts i; y ← arg ts w; Graph_matmul g x y a
    | BPool i kh kw sh sw p a data => x ← arg ts i; pool2d_avg g x kh kw sh sw p a data
    | BRelu i b => x ← arg ts i; Graph_relu g x b
    | BReshape i shape => x ← arg ts i; Graph_reshape g x shape
    | BTranspose i perm b => x ← arg ts i; Graph_transpose g x perm b
    end;
  Ok (g, ts ++ [t]).
Definition run_builds (bs : list build) : res (Graph * list Tensor) :=
  foldM run_build bs (new_Graph (new_Model initial_heap), []).

(** ** Iteration and maps *)

Lemma edges_perm s : edges s ≡ₚ elements s.
Proof. apply merge_sort_Permutation. Qed.
Lemma elem_of_edges s e : e ∈ edges s ↔ e ∈ s.
Proof. by rewrite edges_perm, elem_of_elements. Qed.
Lemma NoDup_edges s : NoDup (edges s).
Proof. rewrite edges_perm. apply NoDup_elements. Qed.

Definition keys (m : OpMap) : list Op := (map_items m).*1.
Lemma map_items_perm m : map_items m ≡ₚ map_to_list m.
Proof. apply merge_sort_Permutation. Qed.
Lemma elem_of_map_items m k s : (k, s) ∈ map_items m ↔ m !! k = Some s.
Proof. by rewrite map_items_perm, elem_of_map_to_list. Qed.
Lemma NoDup_keys m : NoDup (keys m).
Proof. unfold keys. rewrite map_items_perm. apply NoDup_fst_map_to_list. Qed.
Lemma elem_of_keys m k : k ∈ keys m ↔ k ∈ dom m.
Proof.
  unfold keys. rewrite list_elem_of_fmap, elem_of_dom. split.
  - intros ([? s] & -> & Hk%elem_of_map_items). by exists s.
  - intros [s Hs]. exists (k, s). by rewrite elem_of_map_items.
Qed.
Lemma length_keys m : length (keys m) = size m.
Proof. unfold keys. rewrite map_items_perm, length_fmap. apply length_map_to_list. Qed.

(** The set under a key, empty if there is none. *)
Definition ends (m : OpMap) (k : Op) : gset Edge := default ∅ (m !! k).

(** Operators of the same number are the same. *)
Definition comparable_with (X : gset Op) (k : Op) : Prop := ∀ k', k' ∈ X → guid k = guid k' → k = k'.

Lemma getitem_ok m k : comparable_with (dom m) k →
  ∃ m', getitem m k = Ok (m', ends m k) ∧ (∀ k', ends m' k' = ends m k') ∧ dom m' = {[k]} ∪ dom m ∧ m' !! k = Some (ends m k).
Proof.
  intros Hc. unfold getitem, ends. destruct (m !! k) as [s|] eqn:Hk; simpl.
  { exists m. apply elem_of_dom_2 in Hk as Hd. split_and!; [done|done|set_solver|done]. }
  exists (<[k := ∅]> m). unfold om_insert. rewrite check_true.
  - simpl. split_and!; [done| |by rewrite dom_insert_L|by rewrite lookup_insert_eq].
    intros k'. destruct (decide (k' = k)) as [->|?]; [by rewrite lookup_insert_eq, Hk|by rewrite lookup_insert_ne].
  - apply forallb_forall. intros k' Hk'%list_elem_of_In%elem_of_elements. unfold op_comparable.
    destruct (Z.eqb_spec (guid k) (guid k')) as [He|He]; [|done]. simpl. apply bool_decide_eq_true. by apply Hc.
Qed.
(** Conversely. *)
Lemma getitem_inv m k m' s : getitem m k = Ok (m', s) →
  s = ends m k ∧ (∀ k', ends m' k' = ends m k') ∧ dom m' = {[k]} ∪ dom m ∧ m' !! k = Some s ∧ (k ∉ dom m → comparable_with (dom m) k).
Proof.
  unfold getitem, ends. destruct (m !! k) as [s'|] eqn:Hk; simpl.
  { intros [= <- <-]. apply elem_of_dom_2 in Hk as Hd. split_and!; try done; set_solver. }
  unfold om_insert. destruct (forallb _ _) eqn:Hall; simpl; [|done]. intros [= <- <-].
  rewrite forallb_forall in Hall. split_and!; [done| |by rewrite dom_insert_L|by rewrite lookup_insert_eq|].
  - intros k'. destruct (decide (k' = k)) as [->|?]; [by rewrite lookup_insert_eq, Hk|by rewrite lookup_insert_ne].
  - intros _ k' Hk' He. specialize (Hall k'). rewrite <-list_elem_of_In, elem_of_elements in Hall. specialize (Hall Hk').
    unfold op_comparable in Hall. rewrite He, Z.eqb_refl in Hall. by apply bool_decide_eq_true in Hall.
Qed.

(** ** Well-formed graphs *)

Definition edge_of (g : Graph) (e : Edge) : Prop := e ∈ ends (inEdges g) (dstOp e).
Definition nodes (g : Graph) : gset Op := dom (inEdges g).
Record graph_pre (g : Graph) : Prop := {
  gw_in : ∀ op e, e ∈ ends (inEdges g) op → dstOp e = op;
  gw_out : ∀ op e, e ∈ ends (outEdges g) op → srcOp e = op;
  gw_mirror : ∀ e, edge_of g e ↔ e ∈ ends (outEdges g) (srcOp e);
  gw_keys : ∀ op, op ∈ nodes g → GUID_PRESERVED < guid op;
  gw_unique : ∀ op, op ∈ nodes g ∪ dom (outEdges g) → comparable_with (nodes g ∪ dom (outEdges g)) op
}.
(** What is read is an operator of the graph, or one of the sources of inputs and weights. *)
Record graph_wf (g : Graph) : Prop := {
  gw_pre :> graph_pre g;
  gw_src : ∀ op, op ∈ dom (outEdges g) → op ∈ nodes g ∨ guid op <= GUID_PRESERVED
}.

(** The operators an operator of the graph is read by. *)
Definition readers (g : Graph) (op : Op) : list Op := dstOp <$> edges (ends (outEdges g) op).

Lemma ends_dom m k e : e ∈ ends m k → k ∈ dom m.
Proof. unfold ends. destruct (m !! k) eqn:Hk; simpl; [by intros _; apply elem_of_dom_2 in Hk|set_solver]. Qed.

Section Walk.
  Context (g : Graph) (Hwf : graph_pre g).

Lemma elem_of_readers a b : b ∈ readers g a ↔ ∃ e, edge_of g e ∧ srcOp e = a ∧ dstOp e = b.
Proof.
  unfold readers. rewrite list_elem_of_fmap. split.
  - intros (e & -> & He%elem_of_edges). exists e. pose proof (gw_out g Hwf a e He) as <-. by rewrite (gw_mirror g Hwf).
  - intros (e & He & <- & <-). exists e. split; [done|]. by apply elem_of_edges, (gw_mirror g Hwf).
Qed.
Lemma readers_closed a : readers g a ⊆ keys (inEdges g).
Proof. intros b (e & He & _ & <-)%elem_of_readers. by apply elem_of_keys, (ends_dom _ _ e). Qed.

(** The edges into an operator that come from operators of the graph, counted at the
    other end. *)
Lemma num_edges_split P op s : (∀ e, srcOp e ∈ nodes g → P e = true) → inEdges g !! op = Some s →
  num_edges P s = occ op (keys (inEdges g) ≫= readers g) + num_edges (λ e, P e && bool_decide (srcOp e ∉ nodes g)) s.
Proof.
  intros HP Hs. set (E := keys (inEdges g) ≫= (λ k, edges (ends (outEdges g) k))).
  assert (keys (inEdges g) ≫= readers g = dstOp <$> E) as ->.
  { subst E. generalize (keys (inEdges g)) as ks. induction ks as [|k ks IH]; csimpl; [done|]. by rewrite fmap_app, IH. }
  assert (NoDup E) as HE.
  { apply NoDup_bind; [|intros; apply NoDup_edges|apply NoDup_keys].
    intros x y e _ _ He1%elem_of_edges He2%elem_of_edges. by rewrite <-(gw_out g Hwf x e), <-(gw_out g Hwf y e). }
  rewrite occ_fmap. unfold num_edges, zlen. rewrite <-Nat2Z.inj_add, <-length_app. f_equal. apply Permutation_length, NoDup_Permutation.
  - apply NoDup_filter, NoDup_edges.
  - apply NoDup_app. split_and!; [by apply NoDup_filter| |apply NoDup_filter, NoDup_edges].
    intros e [_ (k & He & Hk)%list_elem_of_bind]%list_elem_of_filter [Hn _]%list_elem_of_filter.
    apply elem_of_edges, (gw_out g Hwf) in He. subst k. apply elem_of_keys in Hk. apply Is_true_true, andb_true_iff in Hn as [_ Hn%bool_decide_eq_true]. done.
  - intros e. rewrite elem_of_app, !list_elem_of_filter, !elem_of_edges. subst E. rewrite list_elem_of_bind.
    assert (e ∈ s ↔ edge_of g e ∧ dstOp e = op) as ->.
    { split.
      - intros He. assert (dstOp e = op) as <-; [apply (gw_in g Hwf); unfold ends; by rewrite Hs|]. split; [|done]. unfold edge_of, ends. by rewrite Hs.
      - intros [He <-]. unfold edge_of, ends in He. by rewrite Hs in He. }
    rewrite (gw_mirror g Hwf), !Is_true_true, andb_true_iff, bool_decide_eq_true. split.
    + intros (HPe & He & <-). destruct (decide (srcOp e ∈ nodes g)) as [Hn|Hn]; [left|by right].
      split; [done|]. exists (srcOp e). by rewrite elem_of_edges, elem_of_keys.
    + intros [(-> & k & He%elem_of_edges & Hk%elem_of_keys)|([??] & ? & ?)]; [|done].
      pose proof (gw_out g Hwf k e He) as <-. by rewrite HP.
Qed.

(** The edges into an operator that come from elsewhere. *)
Definition foreign (P : Edge → bool) (op : Op) : Z := num_edges (λ e, P e && bool_decide (srcOp e ∉ nodes g)) (ends (inEdges g) op).

Lemma first_counts_eq P : (∀ e, srcOp e ∈ nodes g → P e = true) →
  first_counts P (inEdges g) =
    count_nodes ((λ k, (k, occ k (keys (inEdges g) ≫= readers g) + foreign P k)) <$> keys (inEdges g)).
Proof.
  intros HP. unfold first_counts. f_equal. unfold keys at 2. rewrite <-list_fmap_compose. apply list_fmap_ext.
  intros i [k s] Hi%list_elem_of_lookup_2. apply elem_of_map_items in Hi. simpl. f_equal.
  rewrite (num_edges_split P k s) by done. unfold foreign, ends. by rewrite Hi.
Qed.
Lemma foreign_nonneg P op : 0 <= foreign P op.
Proof. unfold foreign, num_edges, zlen. lia. Qed.
Lemma counted_nodes e : srcOp e ∈ nodes g → counted e = true.
Proof. intros He%(gw_keys g Hwf). unfold counted. lia. Qed.
(** What reading does to the edges that leave. *)
Record touched (outs : OpMap) : Prop := {
  to_ends : ∀ k, ends outs k = ends (outEdges g) k;
  to_dom : dom (outEdges g) ⊆ dom outs;
  to_nodes : dom outs ⊆ nodes g ∪ dom (outEdges g)
}.
Lemma touched_refl : touched (outEdges g).
Proof. by split; [|set_solver|set_solver]. Qed.
Lemma out_ops_ok outs k : touched outs → k ∈ keys (inEdges g) → ∃ outs', out_ops k outs = Ok (outs', readers g k) ∧ touched outs'.
Proof.
  intros [He Hd Hn] Hk%elem_of_keys. destruct (getitem_ok outs k) as (outs' & Hget & He' & Hd' & _).
  { intros k' Hk' Heq. eapply (gw_unique g Hwf); [|by apply Hn|done]. unfold nodes. set_solver. }
  exists outs'. unfold out_ops. rewrite Hget. cbn [mbind res_bind]. rewrite He. split; [done|]. split.
  - intros k'. by rewrite He'.
  - set_solver.
  - rewrite Hd'. unfold nodes in *. set_solver.
Qed.
Lemma touched_pre outs : touched outs → graph_pre (set_out g outs).
Proof.
  intros [He Hd Hn]. split; simpl.
  - apply (gw_in g Hwf).
  - intros op e. rewrite He. apply (gw_out g Hwf).
  - intros e. rewrite He. apply (gw_mirror g Hwf).
  - apply (gw_keys g Hwf).
  - unfold nodes in *. simpl. intros op Hop k' Hk'. apply (gw_unique g Hwf); unfold nodes; set_solver.
Qed.
End Walk.

Lemma touched_wf g outs : graph_wf g → touched g outs → graph_wf (set_out g outs).
Proof.
  intros Hwf Ht. split; [exact (touched_pre g Hwf outs Ht)|]. intros op Hop%(to_nodes _ _ Ht). pose proof (gw_src g Hwf op). unfold nodes in *. simpl. set_solver.
Qed.
Lemma foreign_counted g op : graph_wf g → foreign g counted op = 0.
Proof.
  intros Hwf. unfold foreign, num_edges. rewrite (elem_of_nil_inv (filter _ _)); [done|].
  intros e [Hc He%elem_of_edges]%list_elem_of_filter. apply Is_true_true, andb_true_iff in Hc as [Hc Hn%bool_decide_eq_true].
  pose proof (gw_in g Hwf op e He) as <-. apply (gw_mirror g Hwf), ends_dom, (gw_src g Hwf) in He. unfold counted in Hc. destruct He; [done|lia].
Qed.


(** ** Loops *)

(** [b] reads an output of [a]. *)
Definition feeds (g : Graph) (a b : Op) : Prop := ∃ e, edge_of g e ∧ srcOp e = a ∧ dstOp e = b.
Definition loop_free (g : Graph) : Prop := ∀ op, ¬ tc (feeds g) op op.

Lemma feeds_node g a b : tc (feeds g) a b → b ∈ nodes g.
Proof. induction 1 as [a b (e & He & _ & <-)|]; [by apply ends_dom in He|done]. Qed.
Lemma feeds_leads g a b : graph_pre g → a ∈ nodes g → tc (feeds g) a b → tc (leads (keys (inEdges g)) (readers g)) a b.
Proof.
  intros Hwf Ha. induction 1 as [a b Hab|a b c Hab _ IH].
  - apply tc_once. split; [by apply elem_of_keys|by apply elem_of_readers].
  - eapply tc_l; [split; [by apply elem_of_keys|by apply elem_of_readers]|]. apply IH. by eapply feeds_node, tc_once.
Qed.
Lemma leads_feeds g a b : graph_pre g → tc (leads (keys (inEdges g)) (readers g)) a b → tc (feeds g) a b.
Proof.
  intros Hwf. induction 1 as [x y [_ Hy]|x y z [_ Hy] _ IH]; [apply tc_once|eapply tc_l; [|done]]; exact (proj1 (elem_of_readers g Hwf _ _) Hy).
Qed.
Lemma loop_free_acyclic g : graph_pre g → loop_free g ↔ acyclic (keys (inEdges g)) (readers g).
Proof.
  intros Hwf. split.
  - intros Hlf a Ha. by apply (Hlf a), leads_feeds.
  - intros Hac a Ha. apply (Hac a). apply feeds_leads; [done|by eapply feeds_node|done].
Qed.

(** The list is complete if it is as long as the graph is large. *)
Lemma full_list g l : kahn_list (keys (inEdges g)) (readers g) (foreign g counted) l →
  l ≡ₚ keys (inEdges g) ↔ zlen l = size (inEdges g).
Proof.
  intros Hl. rewrite <-length_keys. unfold zlen. split; [by intros ->|]. intros Heq.
  apply submseteq_length_Permutation; [|lia]. apply NoDup_submseteq; [by apply Hl|]. intros x. by apply Hl.
Qed.

Lemma has_loop_run g : graph_pre g → ∃ outs l, has_loop g = Ok (set_out g outs, zlen l <? size (inEdges g)) ∧ touched g outs
  ∧ kahn_list (keys (inEdges g)) (readers g) (foreign g counted) l.
Proof.
  intros Hwf. unfold has_loop. rewrite (first_counts_eq g Hwf counted) by apply (counted_nodes g Hwf).
  destruct (count_nodes _) as [todos l0] eqn:Hc.
  destruct (kahn_nodes out_ops (keys (inEdges g)) (readers g) (foreign g counted) (λ _, touched g) (NoDup_keys _)
    (λ a _, readers_closed g Hwf a) (λ k _, foreign_nonneg g counted k) (λ _ k outs Ho, out_ops_ok g Hwf outs k Ho)
    (outEdges g) todos l0 _ (touched_refl g Hwf) (Nat.le_refl _) Hc) as (outs & l & Hrun & Hl & Htouched).
  rewrite length_keys in Hrun. rewrite Hrun. cbn [mbind res_bind]. by exists outs, l.
Qed.
Lemma short_list g l : kahn_list (keys (inEdges g)) (readers g) (foreign g counted) l →
  (zlen l <? size (inEdges g)) = false ↔ l ≡ₚ keys (inEdges g).
Proof.
  intros Hl. rewrite full_list by done. pose proof (NoDup_submseteq _ _ (kl_nodup _ _ _ _ Hl) (kl_sub _ _ _ _ Hl)) as Hlen%submseteq_length.
  rewrite length_keys in Hlen. unfold zlen. rewrite Z.ltb_ge. lia.
Qed.

(** C12: [has_loop] returns on every well-formed graph, answers whether some operator
    depends on itself, and leaves all edges as they are. *)
Theorem has_loop_correct g : graph_wf g →
  ∃ g' b, has_loop g = Ok (g', b) ∧ (b = false ↔ loop_free g)
    ∧ g_model g' = g_model g ∧ inEdges g' = inEdges g ∧ (∀ k, ends (outEdges g') k = ends (outEdges g) k) ∧ graph_wf g'.
Proof.
  intros Hwf. destruct (has_loop_run g Hwf) as (outs & l & Hrun & Ht & Hl). rewrite Hrun. eexists _, _.
  split_and!; [done| |done|done|apply Ht|exact (touched_wf g outs Hwf Ht)].
  rewrite (loop_free_acyclic g Hwf), (short_list g l Hl). apply (kahn_complete _ _ (foreign g counted) (NoDup_keys _) l); [|done].
  intros; by apply foreign_counted.
Qed.

(** [has_loop] also answers that there is a loop if an operator reads one that is not in the
    graph. *)
Lemma has_loop_closed g g' : graph_pre g → has_loop g = Ok (g', false) →
  loop_free g ∧ ∀ e, edge_of g e → srcOp e ∈ nodes g ∨ guid (srcOp e) <= GUID_PRESERVED.
Proof.
  intros Hwf Hf. destruct (has_loop_run g Hwf) as (outs & l & Hrun & _ & Hl). rewrite Hrun in Hf. injection Hf as _ Hp%(short_list g l Hl).
  assert (∀ k, k ∈ keys (inEdges g) → foreign g counted k = 0) as Hx.
  { intros k Hk. rewrite <-Hp in Hk. apply list_elem_of_lookup_1 in Hk as [j Hj]. by apply (kl_order _ _ _ _ Hl j). }
  split.
  - apply (loop_free_acyclic g Hwf). by apply (kahn_complete _ _ (foreign g counted) (NoDup_keys _) l Hx Hl).
  - intros e He. destruct (decide (srcOp e ∈ nodes g)) as [|Hn]; [by left|right]. apply ends_dom in He as Hd. apply elem_of_keys, Hx in Hd.
    unfold foreign, num_edges in Hd. set (P := λ e, _) in Hd. destruct (decide (guid (srcOp e) <= GUID_PRESERVED)) as [|Hg]; [done|].
    assert (e ∈ filter P (edges (ends (inEdges g) (dstOp e)))) as Hin.
    { apply list_elem_of_filter. rewrite elem_of_edges. split; [|done]. subst P. apply Is_true_true, andb_true_iff.
      split; [unfold counted; lia|by apply bool_decide_eq_true]. }
    destruct (filter P _); [by apply elem_of_nil in Hin|]. unfold zlen in Hd. simpl in Hd. lia.
Qed.

(** ** The operator list *)

(** Every element comes after those it depends on. *)
Definition ordered {A} (R : A → A → Prop) (l : list A) : Prop := ∀ l1 b l2, l = l1 ++ b :: l2 → ∀ a, R a b → a ∈ l1.

Lemma filter_middle {A} (P : A → Prop) `{∀ x, Decision (P x)} l : ∀ m1 b m2, filter P l = m1 ++ b :: m2 →
  ∃ l1 l2, l = l1 ++ b :: l2 ∧ m1 = filter P l1.
Proof.
  induction l as [|x l IH]; intros m1 b m2 Hf; [by destruct m1|]. rewrite filter_cons in Hf. case_decide as HP.
  - destruct m1 as [|y m1]; injection Hf as -> Hf; [by exists [], l|]. destruct (IH m1 b m2 Hf) as (l1 & l2 & -> & ->).
    exists (y :: l1), l2. by rewrite filter_cons, decide_True.
  - destruct (IH m1 b m2 Hf) as (l1 & l2 & -> & ->). exists (x :: l1), l2. by rewrite filter_cons, decide_False.
Qed.
Lemma ordered_filter {A} (R : A → A → Prop) (P : A → Prop) `{∀ x, Decision (P x)} l :
  ordered R l → ordered (λ a b, R a b ∧ P a) (filter P l).
Proof.
  intros Ho m1 b m2 Hf a [HR HP]. destruct (filter_middle P l m1 b m2 Hf) as (l1 & l2 & -> & ->).
  apply list_elem_of_filter. split; [done|]. by eapply Ho.
Qed.

(** Neither an input nor a weight. *)
Definition operation (m : Model) (op : Op) : Prop :=
  match op_object m op with Ok o => type o ≠ OP_INPUT ∧ type o ≠ OP_WEIGHT | _ => False end.
#[export] Instance operation_dec m op : Decision (operation m op).
Proof. unfold operation. destruct (op_object m op); apply _. Defined.

(** All operators of the graph exist. *)
Definition objects_ok (g : Graph) : Prop := ∀ op, op ∈ nodes g → ∃ o, op_object (g_model g) op = Ok o.

Lemma list_op_ok g : graph_wf g → objects_ok g → ∀ pre k st,
  touched g st.1 ∧ st.2 = filter (operation (g_model g)) pre → k ∈ keys (inEdges g) →
  ∃ st', list_op (g_model g) k st = Ok (st', readers g k) ∧ touched g st'.1 ∧ st'.2 = filter (operation (g_model g)) (pre ++ [k]).
Proof.
  intros Hwf Hobj pre k [outs ops] [Ht Hops] Hk. simpl in *. destruct (Hobj k) as [o Ho]; [by apply elem_of_keys|].
  destruct (out_ops_ok g Hwf outs k Ht Hk) as (outs' & Hrun & Ht'). unfold list_op. simpl. rewrite Ho. cbn [mbind res_bind]. rewrite Hrun.
  cbn [mbind res_bind]. eexists (_, _). split; [done|]. split; [done|]. simpl. rewrite filter_app, filter_cons, filter_nil, <-Hops.
  assert (operation (g_model g) k ↔ type o ≠ OP_INPUT ∧ type o ≠ OP_WEIGHT) as Hiff by (unfold operation; by rewrite Ho).
  repeat case_bool_decide; case_decide; simpl; rewrite ?app_nil_r; naive_solver.
Qed.

Lemma kahn_list_ordered g l : graph_pre g → kahn_list (keys (inEdges g)) (readers g) (foreign g counted) l →
  ordered (λ a b, feeds g a b ∧ a ∈ nodes g) l.
Proof.
  intros Hwf Hl l1 b l2 Heq a [Hf Ha]. destruct (kl_order _ _ _ _ Hl (length l1) b) as [_ Hp]; [by rewrite Heq, list_lookup_middle|].
  destruct (Hp a) as (i & Hi & Hla); [by apply elem_of_keys|by apply elem_of_readers|].
  rewrite Heq, lookup_app_l in Hla by done. by eapply list_elem_of_lookup_2.
Qed.

(** [get_operator_list] of a graph without loops lists every operator that is neither
    an input nor a weight once, after all the operators it reads from; for a graph with
    a loop its assertion fails. *)
Lemma get_operator_list_correct g : graph_wf g → objects_ok g →
  (loop_free g → ∃ g' ops, get_operator_list g = Ok (g', ops) ∧ NoDup ops
     ∧ (∀ op, op ∈ ops ↔ op ∈ nodes g ∧ operation (g_model g) op)
     ∧ ordered (λ a b, feeds g a b ∧ a ∈ nodes g ∧ operation (g_model g) a) ops
     ∧ g_model g' = g_model g ∧ inEdges g' = inEdges g)
  ∧ (¬ loop_free g → get_operator_list g = Ereport AssertionError).
Proof.
  intros Hwf Hobj. unfold get_operator_list. rewrite (first_counts_eq g Hwf counted) by apply (counted_nodes g Hwf).
  destruct (count_nodes _) as [todos l0] eqn:Hc.
  destruct (kahn_nodes (list_op (g_model g)) (keys (inEdges g)) (readers g) (foreign g counted)
    (λ pre st, touched g st.1 ∧ st.2 = filter (operation (g_model g)) pre) (NoDup_keys _)
    (λ a _, readers_closed g Hwf a) (λ k _, foreign_nonneg g counted k) (list_op_ok g Hwf Hobj)
    (outEdges g, []) todos l0 _ (conj (touched_refl g Hwf) eq_refl) (Nat.le_refl _) Hc) as ([outs ops] & l & Hrun & Hl & Ht & Hops).
  rewrite length_keys in Hrun. rewrite Hrun. cbn [mbind res_bind]. simpl in *.
  rewrite (loop_free_acyclic g Hwf), <-(kahn_complete _ _ (foreign g counted) (NoDup_keys _) l) by (done || intros; by apply foreign_counted).
  split; intros Hp.
  - assert (zlen l = size (inEdges g)) as Hlen by (by apply full_list). unfold py_assert. rewrite check_true by lia.
    exists (set_out g outs), ops. subst ops. split_and!; [done|by apply NoDup_filter, Hl| | |done|done].
    + intros op. rewrite list_elem_of_filter, Hp, elem_of_keys. naive_solver.
    + intros m1 b m2 Heq a (Hf & Ha & Hop). eapply (ordered_filter _ (operation (g_model g)) l (kahn_list_ordered g l Hwf Hl)); naive_solver.
  - rewrite full_list in Hp by done. unfold py_assert, check. by rewrite (proj2 (Z.eqb_neq _ _)).
Qed.

(** ** Adding an edge *)

Lemma set_add_inv m k e m' : set_add m k e = Ok m' →
  (∀ k', ends m' k' = if decide (k' = k) then {[e]} ∪ ends m k else ends m k') ∧ dom m' = {[k]} ∪ dom m.
Proof.
  unfold set_add. destruct (getitem m k) as [[m1 s]| |] eqn:Hg; try done. apply getitem_inv in Hg as (-> & He & Hd & Hk & _).
  cbn [mbind res_bind]. case_bool_decide as Hin.
  - intros [= <-]. split; [|done]. intros k'. case_decide as Heq; [|apply He]. subst k'. rewrite He. set_solver.
  - destruct (forallb _ _); simpl; [|done]. intros [= <-]. split.
    + intros k'. unfold ends at 1. case_decide as Heq; [subst k'; by rewrite lookup_insert_eq|].
      rewrite lookup_insert_ne by done. apply He.
    + rewrite dom_insert_L, Hd. set_solver.
Qed.
Lemma add_edge_inv g src dst si di g' : add_edge g src dst si di = Ok g' →
  g_model g' = g_model g ∧ nodes g' = {[dst]} ∪ nodes g ∧ dom (outEdges g') = {[src]} ∪ dom (outEdges g)
  ∧ (∀ k, ends (inEdges g') k = if decide (k = dst) then {[mkEdge src dst si di]} ∪ ends (inEdges g) dst else ends (inEdges g) k)
  ∧ (∀ k, ends (outEdges g') k = if decide (k = src) then {[mkEdge src dst si di]} ∪ ends (outEdges g) src else ends (outEdges g) k).
Proof.
  unfold add_edge. destruct (getitem (inEdges g) dst) as [[ins ?]| |] eqn:H1; try done. cbn [mbind res_bind].
  destruct (getitem (outEdges g) src) as [[outs ?]| |] eqn:H2; try done. cbn [mbind res_bind].
  apply getitem_inv in H1 as (_ & He1 & Hd1 & _). apply getitem_inv in H2 as (_ & He2 & Hd2 & _).
  destruct (set_add ins _ _) as [ins'| |] eqn:H3; try done. cbn [mbind res_bind].
  destruct (set_add outs _ _) as [outs'| |] eqn:H4; try done. cbn [mbind res_bind]. intros [= <-].
  apply set_add_inv in H3 as [He3 Hd3], H4 as [He4 Hd4]. unfold nodes. simpl. split_and!; [done| | | |].
  - rewrite Hd3, Hd1. set_solver.
  - rewrite Hd4, Hd2. set_solver.
  - intros k. rewrite He3. case_decide; by rewrite He1.
  - intros k. rewrite He4. case_decide; by rewrite He2.
Qed.
Lemma add_edge_edges g src dst si di g' e : add_edge g src dst si di = Ok g' →
  edge_of g' e ↔ edge_of g e ∨ e = mkEdge src dst si di.
Proof.
  intros (_ & _ & _ & He & _)%add_edge_inv. unfold edge_of. rewrite He. case_decide as Hd; [rewrite elem_of_union, elem_of_singleton, Hd; naive_solver|].
  split; [by left|]. intros [?| ->]; done.
Qed.

Lemma add_edge_wf g src dst si di g' : graph_wf g → add_edge g src dst si di = Ok g' →
  GUID_PRESERVED < guid dst → src ∈ nodes g ∨ guid src <= GUID_PRESERVED →
  (∀ op, op ∈ {[src; dst]} ∪ (nodes g ∪ dom (outEdges g)) → comparable_with ({[src; dst]} ∪ (nodes g ∪ dom (outEdges g))) op) →
  graph_wf g'.
Proof.
  intros Hwf Hadd Hdst Hsrc Hcmp. pose proof (add_edge_edges g src dst si di g') as Hedge. apply add_edge_inv in Hadd as Hinv.
  destruct Hinv as (_ & Hn & Ho & He1 & He2). split; [split|].
  - intros op e. rewrite He1. case_decide as Hd; [subst op; rewrite elem_of_union, elem_of_singleton; intros [->|?]; [done|]|]; by apply (gw_in g Hwf).
  - intros op e. rewrite He2. case_decide as Hd; [subst op; rewrite elem_of_union, elem_of_singleton; intros [->|?]; [done|]|]; by apply (gw_out g Hwf).
  - intros e. rewrite (Hedge e Hadd), (gw_mirror g Hwf), He2. case_decide as Hd; [rewrite elem_of_union, elem_of_singleton, Hd; naive_solver|].
    split; [intros [?| ->]; done|by left].
  - intros op. rewrite Hn, elem_of_union, elem_of_singleton. intros [->|?]; [done|by apply (gw_keys g Hwf)].
  - rewrite Hn, Ho. intros op Hop k' Hk'. apply Hcmp; set_solver.
  - intros op. rewrite Hn, Ho. pose proof (gw_src g Hwf op). set_solver.
Qed.

(** ** What the builders keep *)

#[export] Instance dict_eq_dec : EqDecision dict.
Proof. solve_decision. Defined.

(** Going back through a computation that succeeded. *)
Lemma assert_Ok {A} b (k : res A) y : py_assert b k = Ok y → b = true ∧ k = Ok y.
Proof. by destruct b. Qed.
Lemma check_Ok {A} b msg (k : res A) y : check b msg k = Ok y → b = true ∧ k = Ok y.
Proof. by destruct b. Qed.
Ltac inv_step H :=
  match type of H with
  | (x ← ?m; _) = Ok _ => let E := fresh "E" in let x := fresh "x" in apply res_bind_Ok in H as (x & E & H)
  | py_assert ?b _ = Ok _ => let E := fresh "E" in apply assert_Ok in H as [E H]
  | match ?p with pair _ _ => _ end = Ok _ => is_var p; destruct p
  end.
Ltac inv_run H := repeat inv_step H.

(** How many inputs the operators of a dictionary have. *)
Definition dict_inputs (d : dict) : option Z :=
  match d with
  | DConcat => None
  | DConv2d | DElement | DPool2d | DMatmul => Some 2
  | DReshape | DActivation => Some 1
  end.
(** The operators in the caches exist and have the right number of inputs; objects have been
    handed out in order. *)
Record model_ok (m : Model) : Prop := {
  mo_guid : 100 <= global_unique_id m;
  mo_cached : ∀ d k l, (k, l) ∈ get_dict m d → l ∈ dom (m_ops m);
  mo_inputs : ∀ d n k l o, dict_inputs d = Some n → (k, l) ∈ get_dict m d → m_ops m !! l = Some o → numInputs o = n;
  mo_numbered : ∀ l, l ∈ dom (m_ops m) → (l < next_op m)%positive
}.

(** [op] is a new operator of [m'] with [n] inputs; [m'] keeps the objects of [m]. *)
Record handed (n : Z) (m m' : Model) (op : Op) : Prop := {
  ha_guid : guid op = global_unique_id m;
  ha_next : global_unique_id m' = global_unique_id m + 1;
  ha_object : ∃ o, op_object m' op = Ok o ∧ numInputs o = n;
  ha_ops : m_ops m ⊆ m_ops m';
  ha_ok : model_ok m'
}.
Lemma object_kept m m' op o : m_ops m ⊆ m_ops m' → op_object m op = Ok o → op_object m' op = Ok o.
Proof.
  intros Hops. unfold op_object. destruct (ptr op) as [l|]; [|done]. destruct (m_ops m !! l) as [o'|] eqn:Hl; [|done].
  by rewrite (lookup_weaken _ _ l o' Hl Hops).
Qed.

Lemma model_ok_same m m' : (∀ d, get_dict m' d = get_dict m d) → m_ops m' = m_ops m → next_op m' = next_op m →
  global_unique_id m <= global_unique_id m' → model_ok m → model_ok m'.
Proof. intros Hd Ho Hn Hle [Hg Hc Hi Hl]. split; rewrite ?Ho, ?Hn; [lia| | |done]; intros d; rewrite Hd; [apply Hc|apply Hi]. Qed.
Lemma model_ok_heap m h : model_ok m → model_ok (set_m_heap m h).
Proof. apply model_ok_same; [by intros []|done..]. Qed.
Lemma handed_heap n m h m' op : handed n (set_m_heap m h) m' op → handed n m m' op.
Proof. by intros []; split. Qed.
Lemma model_ok_next m l : model_ok m → model_ok (next_Op m l).1.
Proof. apply model_ok_same; [by intros []|done..|simpl; lia]. Qed.
Lemma cache_lookup_elem c k l : cache_lookup c k = Some l → (k, l) ∈ c.
Proof.
  induction c as [|[k' l'] c IH]; simpl; [done|]. case_bool_decide as Hk; [|intros ?%IH; by right]. intros [= ->]. subst. left.
Qed.
Lemma cache_add_inv c k l c' : cache_add c k l = Ok c' → c' = c ++ [(k, l)].
Proof. unfold cache_add. destruct (last _) as [[k1 ?]|]; [destruct (comparable k k1); [|done]|]; by intros [= <-]. Qed.

(** A new object, which may be entered in a dictionary. *)
Lemma model_ok_add m h o : model_ok m → model_ok (add_op m h o).1 ∧ m_ops m ⊆ m_ops (add_op m h o).1.
Proof.
  intros [Hg Hc Hi Hn]. assert (next_op m ∉ dom (m_ops m)) as Hnew by (intros Hin%Hn; lia).
  split; [|simpl; by apply insert_subseteq, not_elem_of_dom]. split; simpl; [done| | |].
  - intros d k l Hin. rewrite dom_insert. apply elem_of_union_r. apply (Hc d k). by destruct d.
  - intros d n k l o' Hd Hin. rewrite lookup_insert_Some. intros [[<- _]|[_ Ho]].
    + destruct Hnew. apply (Hc d k). by destruct d.
    + apply (Hi d n k l); [done| |done]. by destruct d.
  - intros l. rewrite dom_insert, elem_of_union, elem_of_singleton. intros [->|Hl%Hn]; lia.
Qed.
Lemma handed_new n m h o m' op : model_ok m → numInputs o = n → (let '(m1, l) := add_op m h o in Ok (next_Op m1 l)) = Ok (m', op) → handed n m m' op.
Proof.
  intros Hm Ho. destruct (model_ok_add m h o Hm) as [Hok Hsub]. apply (model_ok_next _ (next_op m)) in Hok. intros [= <- <-].
  split; simpl; [done|done| |done|done]. exists o. unfold op_object. simpl. by rewrite lookup_insert_eq.
Qed.
Lemma set_dict_keeps m d c : m_ops (set_dict m d c) = m_ops m ∧ global_unique_id (set_dict m d c) = global_unique_id m ∧ next_op (set_dict m d c) = next_op m.
Proof. by destruct d. Qed.
Lemma model_ok_enter m d n k l o c : model_ok m → dict_inputs d = Some n → m_ops m !! l = Some o → numInputs o = n →
  cache_add (get_dict m d) k l = Ok c → model_ok (set_dict m d c).
Proof.
  intros [Hg Hc Hi Hn] Hd Hl Ho ->%cache_add_inv. destruct (set_dict_keeps m d (get_dict m d ++ [(k, l)])) as (H1 & H2 & H3).
  assert (∀ d' k' l', (k', l') ∈ get_dict (set_dict m d (get_dict m d ++ [(k, l)])) d' → (d' = d ∧ l' = l) ∨ (k', l') ∈ get_dict m d') as Hin.
  { intros d' k' l'. destruct (decide (d' = d)) as [->|Hne]; [|right; by destruct d, d'].
    rewrite get_set_dict. intros [?|[= _ ->]%list_elem_of_singleton]%elem_of_app; [by right|by left]. }
  split; rewrite ?H1, ?H2, ?H3; [done| | |done].
  - intros d' k' l' [[_ ->]|?]%Hin; [by apply elem_of_dom_2 in Hl|by apply (Hc d' k')].
  - intros d' n' k' l' o' Hd' [[-> ->]|?]%Hin Ho'; [congruence|by apply (Hi d' n' k' l')].
Qed.
Lemma get_or_create_handed m d n k build m' op : model_ok m → dict_inputs d = Some n → (∀ h h' o, build h = Ok (h', o) → numInputs o = n) →
  get_or_create m d k build = Ok (m', op) → handed n m m' op.
Proof.
  intros Hm Hd Hbuild. unfold get_or_create. intros (key & _ & Hr)%res_bind_Ok. destruct (cache_lookup (get_dict m d) key) as [l|] eqn:Hl.
  { apply cache_lookup_elem in Hl. pose proof (mo_cached m Hm d key l Hl) as [o Ho]%elem_of_dom. injection Hr as <- <-. apply (model_ok_next m l) in Hm as Hok.
    split; simpl; try done. exists o. unfold op_object. simpl. rewrite Ho. split; [done|]. by apply (mo_inputs m Hm d n key l). }
  apply res_bind_Ok in Hr as ([h o] & Ho%Hbuild & Hr). destruct (model_ok_add m h o Hm) as [Hok Hsub]. apply res_bind_Ok in Hr as (c & Hadd & Hr).
  assert (m_ops (add_op m h o).1 !! next_op m = Some o) as Hlook by (simpl; by rewrite lookup_insert_eq).
  pose proof (model_ok_enter (add_op m h o).1 d n key (next_op m) o c Hok Hd Hlook Ho Hadd) as Hok'. apply (model_ok_next _ (next_op m)) in Hok'.
  destruct (set_dict_keeps (add_op m h o).1 d c) as (H1 & H2 & H3).
  assert (m' = (next_Op (set_dict (add_op m h o).1 d c) (next_op m)).1 ∧ op = mkOp (global_unique_id m) (Some (next_op m))) as [-> ->] by (injection Hr as <- <-; by destruct d).
  split; [done|by destruct d| |cbn [next_Op fst m_ops]; by rewrite H1|done]. exists o. split; [|done]. unfold op_object. cbn [ptr next_Op fst m_ops]. by rewrite H1, Hlook.
Qed.

(** A tensor without dimensions has no source of its own. *)
Definition source (op : Op) : Prop := op = mkOp GUID_INPUT None ∨ op = mkOp GUID_WEIGHT None ∨ op = INVALID_OP.
(** Every operator reads something. *)
Definition fed (g : Graph) : Prop := ∀ op, op ∈ nodes g → ∃ e, edge_of g e ∧ dstOp e = op.
(** Every input of an operator has at most one edge. *)
Definition slots (g : Graph) : Prop :=
  ∀ e e', edge_of g e → edge_of g e' → dstOp e = dstOp e' → dstIdx e = dstIdx e' → e = e'.
(** Every input of every operator has one edge. *)
Record full_slots (m : Model) (g : Graph) : Prop := {
  fs_unique : slots g;
  fs_range : ∀ e o, edge_of g e → op_object m (dstOp e) = Ok o → 0 <= dstIdx e < numInputs o;
  fs_all : ∀ op o i, op ∈ nodes g → op_object m op = Ok o → 0 <= i < numInputs o → ∃ e, edge_of g e ∧ dstOp e = op ∧ dstIdx e = i
}.
(** A graph under construction, with the tensors handed out: while edges are added to its
    newest operator, and when they are there. *)
Record building (g : Graph) (ts : list Tensor) : Prop := {
  bu_wf : graph_wf g;
  bu_model : model_ok (g_model g);
  bu_nodes : ∀ op, op ∈ nodes g → 100 <= guid op < global_unique_id (g_model g) ∧ ∃ o, op_object (g_model g) op = Ok o;
  bu_sources : ∀ op, op ∈ dom (outEdges g) → op ∈ nodes g ∨ source op;
  bu_forward : ∀ e, edge_of g e → guid (srcOp e) < guid (dstOp e);
  bu_fed : fed g;
  bu_tensors : ∀ t, t ∈ ts → t_op t ∈ nodes g
}.
Record built (g : Graph) (ts : list Tensor) : Prop := {
  bu_building :> building g ts;
  bu_slots : full_slots (g_model g) g
}.

Lemma graph_wf_model g m : graph_wf g → graph_wf (set_model g m).
Proof. intros [[]]. by split. Qed.
Lemma building_model g ts n m op : building g ts → handed n (g_model g) m op → building (set_model g m) ts.
Proof.
  intros [Hwf Hm Hn Hs Hf Hfed Ht] [Hg Hnext _ Hops Hok]. split; simpl; try done.
  - by apply graph_wf_model.
  - intros x (Hx & o & Ho)%Hn. split; [lia|]. exists o. by eapply object_kept.
Qed.
Lemma full_slots_model m m' g : m_ops m ⊆ m_ops m' → (∀ op, op ∈ nodes g → ∃ o, op_object m op = Ok o) → full_slots m g → full_slots m' g.
Proof.
  intros Hops Ho [Hu Hr Hall]. assert (∀ op o, op ∈ nodes g → op_object m' op = Ok o → op_object m op = Ok o) as Hback.
  { intros op o Hop Ho'. destruct (Ho op Hop) as [o0 Ho0]. by rewrite Ho0, <-Ho', (object_kept m m' op o0). }
  split; [done| |].
  - intros e o He Ho'. apply Hr; [done|]. apply Hback; [by apply ends_dom in He|done].
  - intros op o i Hop Ho'. apply Hall; [done|]. by apply Hback.
Qed.

(** An edge into the newest operator. *)
Lemma add_edge_building g ts src dst si di g' : building g ts → add_edge g src dst si di = Ok g' →
  guid dst = global_unique_id (g_model g) - 1 → 100 <= guid dst → (∃ o, op_object (g_model g) dst = Ok o) →
  comparable_with (nodes g) dst → src ∈ nodes g ∧ src ≠ dst ∨ source src → building g' ts.
Proof.
  intros [Hwf Hm Hn Hs Hf Hfed Ht] Hadd Hg Hbig Hptr Hcmp Hsrc. apply add_edge_inv in Hadd as Hinv. destruct Hinv as (Hmodel & Hnodes & Ho & _).
  assert (guid src < guid dst) as Hlt.
  { destruct Hsrc as [[Hin Hne]|[->|[->| ->]]]; [|simpl; unfold GUID_INPUT, GUID_WEIGHT, GUID_INVALID; lia..].
    apply Hn in Hin as Hb. destruct (decide (guid src = guid dst)) as [Heq|]; [|lia]. destruct Hne. symmetry. by apply Hcmp. }
  split.
  - eapply add_edge_wf; [done..|unfold GUID_PRESERVED; lia| |].
    + destruct Hsrc as [[? _]|[->|[->| ->]]]; [by left|by right..].
    + assert (∀ x, x ∈ {[src; dst]} ∪ (nodes g ∪ dom (outEdges g)) → x = dst ∨ x ∈ nodes g ∨ source x) as Hcases by set_solver.
      intros x Hx%Hcases y Hy%Hcases Heq. unfold source, INVALID_OP, comparable_with, GUID_INPUT, GUID_WEIGHT, GUID_INVALID in *.
      assert (∀ z, z ∈ nodes g → 100 <= guid z) as Hz by (intros z Hz%Hn; lia).
      destruct Hx as [->|[Hx|[->|[->| ->]]]], Hy as [->|[Hy|[->|[->| ->]]]]; simpl in *; try done; try lia.
      all: try (by apply Hcmp). all: try (symmetry; by apply Hcmp). all: try (apply Hz in Hx; lia). all: try (apply Hz in Hy; lia).
      apply (gw_unique g Hwf); [set_solver|set_solver|done].
  - by rewrite Hmodel.
  - rewrite Hnodes, Hmodel. intros x [->%elem_of_singleton|?]%elem_of_union; [split; [lia|done]|by apply Hn].
  - rewrite Hnodes, Ho. intros x [->%elem_of_singleton|Hx]%elem_of_union; [destruct Hsrc as [[??]|?]; [left; set_solver|by right]|].
    apply Hs in Hx as [?|?]; [left; set_solver|by right].
  - intros e He. apply (add_edge_edges _ _ _ _ _ _ _ Hadd) in He as [?| ->]; [by apply Hf|done].
  - intros x. setoid_rewrite (add_edge_edges _ _ _ _ _ _ _ Hadd). rewrite Hnodes. intros [->%elem_of_singleton|(e & ? & ?)%Hfed]%elem_of_union; eauto.
  - rewrite Hnodes. intros t Hin%Ht. set_solver.
Qed.

Lemma add_edges_building op (args : list (Z * Tensor)) ts : ∀ g g', building g ts →
  guid op = global_unique_id (g_model g) - 1 → 100 <= guid op → (∃ o, op_object (g_model g) op = Ok o) →
  comparable_with (nodes g) op → (∀ a, a ∈ args → t_op a.2 ∈ nodes g ∧ t_op a.2 ≠ op ∨ source (t_op a.2)) →
  foldM (λ a g, add_edge g (t_op a.2) op (idx a.2) a.1) args g = Ok g' →
  building g' ts ∧ g_model g' = g_model g ∧ (op ∈ nodes g ∨ args ≠ [] → op ∈ nodes g') ∧ nodes g' ⊆ {[op]} ∪ nodes g
  ∧ ∀ e, edge_of g' e ↔ edge_of g e ∨ ∃ a, a ∈ args ∧ e = mkEdge (t_op a.2) op (idx a.2) a.1.
Proof.
  induction args as [|a args IH]; intros g g' Hb Hg Hbig Hptr Hcmp Hargs; cbn [foldM].
  { intros [= <-]. split_and!; [done|done|naive_solver|set_solver|]. intros e. split; [by left|]. by intros [?|(a & ?%elem_of_nil & _)]. }
  destruct (add_edge _ _ _ _ _) as [g1| |] eqn:Hadd; try done. cbn [mbind res_bind]. intros Hrun.
  pose proof (λ e, add_edge_edges _ _ _ _ _ _ e Hadd) as Hedge. apply add_edge_inv in Hadd as Hinv. destruct Hinv as (Hm & Hn & _).
  destruct (IH g1 g') as (Hb' & Hm' & Hop & Hnodes & He); rewrite ?Hm; try done.
  - eapply add_edge_building; try done. apply Hargs. left.
  - rewrite Hn. intros y [->%elem_of_singleton|?]%elem_of_union; [done|by apply Hcmp].
  - rewrite Hn. intros x Hx. destruct (Hargs x) as [[??]|?]; [by right|left; set_solver|by right].
  - split_and!; [done|by rewrite Hm'| |set_solver|].
    + intros _. apply Hop. left. rewrite Hn. set_solver.
    + intros e. rewrite He, Hedge. setoid_rewrite elem_of_cons. naive_solver.
Qed.

Lemma elem_of_numbered {A} (l : list A) i a : (i, a) ∈ zip (seqZ 0 (zlen l)) l ↔ 0 <= i ∧ l !! Z.to_nat i = Some a.
Proof.
  rewrite list_elem_of_lookup. split.
  - intros (k & Hk). rewrite lookup_zip_Some, lookup_seqZ in Hk. destruct Hk as [[-> _] Hk]. split; [lia|]. by rewrite Z.add_0_l, Nat2Z.id.
  - intros [Hi Ha]. exists (Z.to_nat i). rewrite lookup_zip_Some, lookup_seqZ. apply lookup_lt_Some in Ha as Hl. unfold zlen. split; [lia|done].
Qed.
(** The newest operator gets an edge for each of its inputs. *)
Lemma connect_slots g g' op o args : (∀ e, edge_of g e → dstOp e ≠ op) → full_slots (g_model g') g → op_object (g_model g') op = Ok o → numInputs o = zlen args →
  nodes g' ⊆ {[op]} ∪ nodes g →
  (∀ e, edge_of g' e ↔ edge_of g e ∨ ∃ a, a ∈ zip (seqZ 0 (zlen args)) args ∧ e = mkEdge (t_op a.2) op (idx a.2) a.1) → full_slots (g_model g') g'.
Proof.
  intros Hnew [Hu Hr Hall] Ho Hn Hnodes He. split.
  - intros e e' [Hx|([i a] & Ha & ->)]%He [Hx'|([i' a'] & Ha' & ->)]%He Hd Hi; simpl in *; [by apply Hu|destruct (Hnew e Hx Hd)|destruct (Hnew e' Hx' (eq_sym Hd))|].
    subst i'. apply elem_of_numbered in Ha as [_ Ha], Ha' as [_ Ha']. congruence.
  - intros e o' [Hx|([i a] & [Hi Ha]%elem_of_numbered & ->)]%He Ho'; [by apply Hr|]. simpl in *. assert (o' = o) as -> by congruence.
    apply lookup_lt_Some in Ha. unfold zlen in Hn. lia.
  - intros x o' i Hx Ho' Hi. destruct (decide (x = op)) as [->|Hne].
    + assert (o' = o) as -> by congruence. destruct (lookup_lt_is_Some_2 args (Z.to_nat i)) as [a Ha]; [unfold zlen in Hn; lia|].
      exists (mkEdge (t_op a) op (idx a) i). split_and!; [|done|done]. apply He. right. exists (i, a). split; [|done]. apply elem_of_numbered. split; [lia|done].
    + destruct (Hall x o' i) as (e & ? & ? & ?); [set_solver|done|done|]. exists e. split_and!; [|done|done]. apply He. by left.
Qed.
Lemma connect_built g ts n m op args g' t : built g ts → handed n (g_model g) m op → args ≠ [] → zlen args = n →
  (∀ a, a ∈ args → t_op a ∈ nodes g ∨ source (t_op a)) → connect args (set_model g m) op = Ok (g', t) → built g' (ts ++ [t]).
Proof.
  intros [Hb Hsl] Hh Hne Hlen Hargs. pose proof (building_model g ts n m op Hb Hh) as Hb1. destruct Hh as [Hguid Hnext (o & Ho & Hin) Hops _].
  unfold connect, add_edges. destruct (foldM _ _ _) as [g1| |] eqn:Hrun; try done. cbn [mbind res_bind].
  assert (∀ y, y ∈ nodes g → guid y < guid op) as Hold by (intros y Hy%(bu_nodes _ _ Hb); lia).
  apply add_edges_building with (ts := ts) in Hrun as (Hb2 & Hm2 & Hop & Hnodes & He); simpl; try done; try lia.
  - unfold out_tensor. intros (o1 & _ & (t1 & _ & ([h t2] & _ & [= <- <-])%res_bind_Ok)%res_bind_Ok)%res_bind_Ok. simpl in Hm2.
    assert (full_slots m g) as Hsl1.
    { apply (full_slots_model (g_model g) m g Hops); [|done]. intros x (_ & ?)%(bu_nodes _ _ Hb). done. }
    assert (full_slots (g_model g1) g1) as Hsl2.
    { apply (connect_slots g g1 op o args); rewrite ?Hm2; try done; [|by rewrite Hin].
      intros e Hx%ends_dom Hd. apply Hold in Hx. rewrite Hd in Hx. lia. }
    split; [|by destruct Hsl2; split]. destruct Hb2 as [Hwf Hmo Hn Hs Hf Hfed Ht]. split; simpl; try done; [exact (graph_wf_model g1 _ Hwf)|by apply model_ok_heap|].
    intros x [Hx| ->%list_elem_of_singleton]%elem_of_app; [by apply Ht|]. apply Hop. right.
    destruct args as [|x args]; [done|]. by rewrite seqZ_cons by (unfold zlen; simpl; lia).
  - destruct (bu_model _ _ Hb). lia.
  - by exists o.
  - intros y Hy%Hold Heq. lia.
  - intros [i a] Ha. apply elem_of_zip_r in Ha. simpl. destruct (Hargs a Ha) as [Hx|?]; [left|by right].
    split; [done|]. intros Heq. apply Hold in Hx. rewrite Heq in Hx. lia.
Qed.

Lemma Tensor_init_op h n dims g d h' t : Tensor_init h n dims g d = Ok (h', t) → t_op t = Op_init g None ∨ t_op t = INVALID_OP.
Proof. unfold Tensor_init. case_match; [|intros [= <- <-]; by right]. intros H1. inv_run H1. destruct (alloc_splits 8 h). inv_run H1. injection H1 as <- <-. by left. Qed.

(** The constructors record how many inputs they take. *)
Lemma NoOp_inputs h t ty h' o : NoOp h t ty = Ok (h', o) → numInputs o = 1.
Proof. unfold NoOp. intros Hr. inv_run Hr. by injection Hr as <- <-. Qed.
Lemma Activation_inputs h t ty b h' o : Activation h t ty b = Ok (h', o) → numInputs o = 1.
Proof. unfold Activation. intros Hr. inv_run Hr. by injection Hr as <- <-. Qed.
Lemma Conv2D_inputs h t w sh sw p a h' o : Conv2D h t w sh sw p a = Ok (h', o) → numInputs o = 2.
Proof. unfold Conv2D. intros Hr. inv_run Hr. by injection Hr as <- <-. Qed.
Lemma Pool2D_inputs h t w ty kh kw sh sw p a h' o : Pool2D h t w ty kh kw sh sw p a = Ok (h', o) → numInputs o = 2.
Proof. unfold Pool2D. intros Hr. inv_run Hr. by injection Hr as <- <-. Qed.
Lemma Element_inputs h ty t u h' o : Element h ty t u = Ok (h', o) → numInputs o = 2.
Proof. unfold Element. intros Hr. inv_run Hr. by injection Hr as <- <-. Qed.
Lemma Matmul_inputs h t w a h' o : Matmul h t w a = Ok (h', o) → numInputs o = 2.
Proof. unfold Matmul. intros Hr. inv_run Hr. by injection Hr as <- <-. Qed.
Lemma Reshape_inputs h t s h' o : Reshape h t s = Ok (h', o) → numInputs o = 1.
Proof. unfold Reshape. intros Hr. inv_run Hr. by injection Hr as <- <-. Qed.
Lemma Transpose_inputs h t perm b h' o : Transpose h t perm b = Ok (h', o) → numInputs o = 1.
Proof. unfold Transpose. intros Hr. inv_run Hr. by injection Hr as <- <-. Qed.

Lemma create_input_handed m t ty m' op : model_ok m → create_input m t ty = Ok (m', op) → handed 1 m m' op.
Proof. intros Hm Hr. unfold create_input in Hr. inv_run Hr. exact (handed_new 1 m h o m' op Hm (NoOp_inputs _ _ _ _ _ E0) Hr). Qed.
Lemma create_weight_handed m t ty m' op : model_ok m → create_weight m t ty = Ok (m', op) → handed 1 m m' op.
Proof.
  intros Hm Hr. unfold create_weight in Hr. inv_run Hr. destruct (data_ptr t); [|done]. inv_run Hr. exact (handed_new 1 m h o m' op Hm (NoOp_inputs _ _ _ _ _ E0) Hr).
Qed.
Lemma transpose_handed m t perm b m' op : model_ok m → get_or_create_transpose m t perm b = Ok (m', op) → handed 1 m m' op.
Proof. intros Hm Hr. unfold get_or_create_transpose in Hr. inv_run Hr. exact (handed_new 1 m h o m' op Hm (Transpose_inputs _ _ _ _ _ _ E0) Hr). Qed.
Lemma conv2d_handed m t w sh sw p a m' op : model_ok m → get_or_create_conv2d m t w sh sw p a = Ok (m', op) → (m' = m ∧ op = INVALID_OP) ∨ handed 2 m m' op.
Proof.
  intros Hm Hr. unfold get_or_create_conv2d in Hr. inv_run Hr. destruct (negb _); [injection Hr as <- <-; by left|right].
  eapply get_or_create_handed, Hr; [done..|]. intros h h' o Ho. exact (Conv2D_inputs _ _ _ _ _ _ _ _ _ Ho).
Qed.
Lemma matmul_handed m t w a m' op : model_ok m → get_or_create_matmul m t w a = Ok (m', op) → (m' = m ∧ op = INVALID_OP) ∨ handed 2 m m' op.
Proof.
  intros Hm Hr. unfold get_or_create_matmul in Hr. destruct (negb _); [injection Hr as <- <-; by left|]. inv_run Hr.
  destruct (negb _); [injection Hr as <- <-; by left|]. inv_run Hr. destruct (negb _); [injection Hr as <- <-; by left|right].
  eapply get_or_create_handed, Hr; [done..|]. intros h h' o Ho. exact (Matmul_inputs _ _ _ _ _ _ Ho).
Qed.
Lemma element_handed m ty t u m' op : model_ok m → get_or_create_element m ty t u = Ok (m', op) →
  (m' = m ∧ op = INVALID_OP ∧ broadcastable t u = Ok false) ∨ handed 2 m m' op.
Proof.
  intros Hm Hr. unfold get_or_create_element in Hr. apply res_bind_Ok in Hr as ([] & Hb & Hr); [right|by injection Hr as <- <-; left].
  eapply get_or_create_handed, Hr; [done..|]. intros h h' o Ho. exact (Element_inputs _ _ _ _ _ _ Ho).
Qed.

Section Built.
  Context (g : Graph) (ts : list Tensor) (Hb : built g ts).

Lemma connect_new m h op t0 g' t : handed 1 (set_m_heap (g_model g) h) m op → source (t_op t0) →
  connect [t0] (set_model g m) op = Ok (g', t) → built g' (ts ++ [t]).
Proof.
  intros Hh Hs Hr. apply handed_heap in Hh. apply (connect_built g ts 1 m op [t0] g' t); [exact Hb|exact Hh|done|done| |exact Hr].
  intros a ->%list_elem_of_singleton. by right.
Qed.
Lemma new_input_built dims g' t : new_input g dims = Ok (g', t) → built g' (ts ++ [t]).
Proof.
  intros Hr. unfold new_input in Hr. inv_run Hr. apply Tensor_init_op in E0.
  apply create_input_handed in E1; [|exact (model_ok_heap _ _ (bu_model _ _ Hb))]. eapply connect_new; [exact E1| |exact Hr].
  unfold source. destruct E0 as [->| ->]; [by left|by right; right].
Qed.
Lemma new_weight_built dims data g' t : new_weight g dims data = Ok (g', t) → built g' (ts ++ [t]).
Proof.
  intros Hr. unfold new_weight in Hr. inv_run Hr. apply Tensor_init_op in E0.
  apply create_weight_handed in E1; [|exact (model_ok_heap _ _ (bu_model _ _ Hb))]. eapply connect_new; [exact E1| |exact Hr].
  unfold source. destruct E0 as [->| ->]; [by right; left|by right; right].
Qed.

(** The arguments are tensors handed out before. *)
Lemma connect_known n m op args g' t : handed n (g_model g) m op → args ≠ [] → zlen args = n → (∀ a, a ∈ args → a ∈ ts) →
  connect args (set_model g m) op = Ok (g', t) → built g' (ts ++ [t]).
Proof. intros Hh Hne Hlen Hargs. apply (connect_built g ts n); [exact Hb|exact Hh|exact Hne|exact Hlen|]. intros a Ha%Hargs. left. by apply (bu_tensors _ _ Hb). Qed.
Lemma conv2d_built x w sh sw p a g' t : x ∈ ts → w ∈ ts → Graph_conv2d g x w sh sw p a = Ok (g', t) → built g' (ts ++ [t]).
Proof.
  intros Hx Hw Hr. unfold Graph_conv2d in Hr. inv_run Hr. apply (conv2d_handed _ _ _ _ _ _ _ _ _ (bu_model _ _ Hb)) in E as [[_ ->]|Hh].
  - by rewrite bool_decide_true in E0.
  - eapply connect_known; [exact Hh| | | |exact Hr]; [done|done|set_solver].
Qed.
Lemma matmul_built x w a g' t : x ∈ ts → w ∈ ts → Graph_matmul g x w a = Ok (g', t) → built g' (ts ++ [t]).
Proof.
  intros Hx Hw Hr. unfold Graph_matmul in Hr. inv_run Hr. apply (matmul_handed _ _ _ _ _ _ (bu_model _ _ Hb)) in E as [[_ ->]|Hh].
  - by rewrite bool_decide_true in E0.
  - eapply connect_known; [exact Hh| | | |exact Hr]; [done|done|set_solver].
Qed.
Lemma element_built ty x y g' t : x ∈ ts → y ∈ ts → Graph_element g ty x y = Ok (g', t) → built g' (ts ++ [t]).
Proof.
  intros Hx Hy Hr. unfold Graph_element in Hr. inv_run Hr. subst. apply (element_handed _ _ _ _ _ _ (bu_model _ _ Hb)) in E1 as [(_ & _ & ?)|Hh]; [congruence|].
  eapply connect_known; [exact Hh| | | |exact Hr]; [done|done|set_solver].
Qed.
Lemma relu_built x b g' t : x ∈ ts → Graph_relu g x b = Ok (g', t) → built g' (ts ++ [t]).
Proof.
  intros Hx Hr. unfold Graph_relu in Hr. inv_run Hr. eapply (get_or_create_handed _ _ 1 _ _ _ _ (bu_model _ _ Hb)) in E; [|done|intros ??? Ho; exact (Activation_inputs _ _ _ _ _ _ Ho)].
  eapply connect_known; [exact E| | | |exact Hr]; [done|done|set_solver].
Qed.
Lemma reshape_built x s g' t : x ∈ ts → Graph_reshape g x s = Ok (g', t) → built g' (ts ++ [t]).
Proof.
  intros Hx Hr. unfold Graph_reshape in Hr. inv_run Hr. eapply (get_or_create_handed _ _ 1 _ _ _ _ (bu_model _ _ Hb)) in E0; [|done|intros ??? Ho; exact (Reshape_inputs _ _ _ _ _ Ho)].
  eapply connect_known; [exact E0| | | |exact Hr]; [done|done|set_solver].
Qed.
Lemma transpose_built x perm b g' t : x ∈ ts → Graph_transpose g x perm b = Ok (g', t) → built g' (ts ++ [t]).
Proof.
  intros Hx Hr. unfold Graph_transpose in Hr. inv_run Hr. apply (transpose_handed _ _ _ _ _ _ (bu_model _ _ Hb)) in E.
  eapply connect_known; [exact E| | | |exact Hr]; [done|done|set_solver].
Qed.
End Built.

Lemma built_sub g ts ts' : (∀ t, t ∈ ts' → t ∈ ts) → built g ts → built g ts'.
Proof. intros Hsub [[] Hs]. split; [split; auto|exact Hs]. Qed.
Lemma pool2d_avg_built g ts x kh kw sh sw p a data g' t : built g ts → x ∈ ts →
  pool2d_avg g x kh kw sh sw p a data = Ok (g', t) → built g' (ts ++ [t]).
Proof.
  intros Hb Hx Hr. unfold pool2d_avg in Hr. inv_run Hr. apply (new_weight_built g ts Hb) in E0. rename t0 into w.
  eapply (get_or_create_handed _ _ 2 _ _ _ _ (bu_model _ _ E0)) in E1; [|done|intros ??? Ho; exact (Pool2D_inputs _ _ _ _ _ _ _ _ _ _ _ _ Ho)].
  apply (connect_known _ _ E0 2) in Hr; [|exact E1|done|done|set_solver]. eapply built_sub; [|exact Hr]. set_solver.
Qed.

Lemma arg_elem ts i x : arg ts i = Ok x → x ∈ ts.
Proof.
  unfold arg, pget. destruct (py_index ts i) as [n|]; simpl; [|done]. destruct (ts !! n) eqn:Hn; [|done]. intros [= <-]. by eapply list_elem_of_lookup_2.
Qed.
Lemma run_build_built b g ts g' ts' : built g ts → run_build b (g, ts) = Ok (g', ts') → built g' ts'.
Proof.
  intros Hb Hr. unfold run_build in Hr. apply res_bind_Ok in Hr as ([g1 t1] & Hr & [= <- <-]).
  destruct b; inv_run Hr; repeat match goal with H : arg _ _ = Ok _ |- _ => apply arg_elem in H end.
  - by eapply new_input_built.
  - by eapply new_weight_built.
  - by eapply conv2d_built in Hr.
  - by eapply element_built in Hr.
  - by eapply matmul_built in Hr.
  - by eapply pool2d_avg_built in Hr.
  - by eapply relu_built in Hr.
  - by eapply reshape_built in Hr.
  - by eapply transpose_built in Hr.
Qed.
Lemma built_new : built (new_Graph (new_Model initial_heap)) [].
Proof.
  assert (∀ k, ends ∅ k = ∅) as He by (intros k; unfold ends; by rewrite lookup_empty).
  assert (∀ e, ¬ edge_of (new_Graph (new_Model initial_heap)) e) as Hno by (intros e; unfold edge_of; simpl; rewrite He; set_solver).
  assert (∀ d k l, (k, l) ∉ get_dict (new_Model initial_heap) d) as Hd by (intros d k l Hin; destruct d; by apply elem_of_nil in Hin).
  split; [split|split]; unfold nodes, fed; simpl; try set_solver.
  - split; [split|]; unfold nodes, edge_of; simpl; intros; rewrite ?He in *; set_solver.
  - split; [done|..]; simpl; try set_solver; intros; by edestruct Hd.
  - intros e e' He1. by destruct (Hno e).
Qed.
Lemma run_builds_built bs g ts : run_builds bs = Ok (g, ts) → built g ts.
Proof.
  unfold run_builds. generalize built_new. generalize (new_Graph (new_Model initial_heap)) as g0. generalize (@nil Tensor) as ts0.
  induction bs as [|b bs IH]; intros ts0 g0 Hb Hr; [injection Hr as <- <-; done|].
  cbn [foldM] in Hr. apply res_bind_Ok in Hr as ([g1 ts1] & H1 & Hr). eapply IH; [|exact Hr]. by eapply run_build_built.
Qed.

(** Numbers grow along the edges. *)
Lemma built_loop_free g ts : built g ts → loop_free g.
Proof.
  intros Hb op Hop. assert (∀ a b, tc (feeds g) a b → guid a < guid b) as Hlt; [|specialize (Hlt op op Hop); lia].
  induction 1 as [a b (e & He & <- & <-)|a b c (e & He & <- & <-) _ IH]; apply (bu_forward _ _ Hb) in He; lia.
Qed.
Lemma built_objects g ts : built g ts → objects_ok g.
Proof.
  by intros Hb op (_ & ?)%(bu_nodes _ _ Hb).
Qed.

(** ** The shape given to [reshape] *)

(** A loop over [range(n)] that has ended well. *)
Lemma foldM_up_inv {S} (I : Z → S → Prop) (body : Z → S → res S) n : ∀ lo s s', 0 <= n → I lo s →
  (∀ i s s', lo <= i < lo + n → I i s → body i s = Ok s' → I (i + 1) s') → foldM body (seqZ lo n) s = Ok s' → I (lo + n) s'.
Proof.
  intros lo s s' Hn. replace n with (Z.of_nat (Z.to_nat n)) by lia. generalize (Z.to_nat n) as k. clear n Hn. intros k. revert lo s s'.
  induction k as [|k IH]; intros lo s s' H0 Hstep Hrun.
  { simpl in Hrun. injection Hrun as <-. by rewrite Z.add_0_r. }
  rewrite seqZ_cons in Hrun by lia. cbn [foldM] in Hrun. apply res_bind_Ok in Hrun as (s1 & H1 & Hrun).
  replace (Z.pred (Z.of_nat (Datatypes.S k))) with (Z.of_nat k) in Hrun by lia. replace (lo + Z.of_nat (Datatypes.S k)) with (Z.succ lo + Z.of_nat k) by lia.
  apply (IH (Z.succ lo) s1 s'); [|intros i t t' Hi; apply Hstep; lia|done]. apply (Hstep lo s s1); [lia|done|done].
Qed.
(** A loop over a list. *)
Lemma foldM_list_inv {A S} (I : S → Prop) (body : A → S → res S) xs : ∀ s s', I s →
  (∀ x s s', x ∈ xs → I s → body x s = Ok s' → I s') → foldM body xs s = Ok s' → I s'.
Proof.
  induction xs as [|x xs IH]; intros s s' H0 Hstep Hr; cbn [foldM] in Hr; [by injection Hr as <-|].
  apply res_bind_Ok in Hr as (s1 & H1 & Hr). apply (IH s1); [|intros y ??? ; apply Hstep; by right|done]. eapply Hstep; [left|done|done].
Qed.
Lemma pget_lookup {A} (l : list A) i x : 0 <= i → pget l i = Ok x → l !! Z.to_nat i = Some x.
Proof.
  intros Hi. unfold pget, py_index. replace (0 <=? i) with true by lia. simpl. destruct (i <? zlen l); simpl.
  - destruct (l !! Z.to_nat i); [by intros [= ->]|done].
  - replace (i <? 0) with false by lia. rewrite ?andb_false_r. simpl. done.
Qed.
Lemma length_pset {A} (l l' : list A) i x : pset l i x = Ok l' → length l' = length l.
Proof. unfold pset. destruct (py_index l i); [|done]. intros [= <-]. apply length_insert. Qed.

(** The product of the entries that are given. *)
Definition known (s : list Z) : Z := product (filter (λ x, x ≠ -1) s).
Lemma known_take_S s (n : nat) x : s !! n = Some x → known (take (S n) s) = known (take n s) * (if decide (x = -1) then 1 else x).
Proof.
  intros Hx. unfold known. rewrite (take_S_r _ _ _ Hx), filter_app, product_app, filter_cons, filter_nil.
  destruct (decide (x = -1)) as [->|Hne]; [by rewrite decide_False by lia|]. rewrite decide_True by done. simpl. ring.
Qed.

(** The second loop divides the volume by the entries that are given. *)
Lemma divide_known s n size0 size : 0 <= n → n = zlen s →
  foldM (λ i size, x ← pget s i; if negb (x =? -1) then r ← py_mod size x; py_assert (r =? 0) (py_div size x) else Ok size) (seqZ 0 n) size0 = Ok size →
  size * known s = size0.
Proof.
  intros Hn Hlen H2. apply (foldM_up_inv (λ i size, size * known (take (Z.to_nat i) s) = size0)) in H2; [|done|unfold known; simpl; ring|].
  { rewrite take_ge in H2 by (unfold zlen in *; lia). done. }
  intros i t t' Hi Ht Hb. apply res_bind_Ok in Hb as (x & Hx%pget_lookup & Hb); [|lia].
  replace (Z.to_nat (i + 1)) with (S (Z.to_nat i)) by lia. rewrite (known_take_S _ _ _ Hx).
  destruct (decide (x = -1)) as [->|Hne]; [injection Hb as <-; by rewrite Z.mul_1_r|].
  replace (x =? -1) with false in Hb by lia. cbn [negb] in Hb. apply res_bind_Ok in Hb as (r & Hm & Hb). apply assert_Ok in Hb as [->%Z.eqb_eq Hb].
  unfold py_mod, py_div in *. destruct (Z.eqb_spec x 0) as [|Hx0]; [done|]. simpl in *. injection Hm as Hm. injection Hb as <-.
  rewrite <-Ht. pose proof (Z.div_mod t x Hx0) as Hd. rewrite Hm in Hd. rewrite Hd at 2. ring.
Qed.
(** The third puts what is left in the place of the first [-1]. *)
Lemma fill_known s n size s' last : 0 <= n → n = zlen s →
  foldM (λ i '(s, size), x ← pget s i; if x =? -1 then s ← pset s i size; Ok (s, 1) else Ok (s, size)) (seqZ 0 n) (s, size) = Ok (s', last) →
  length s' = length s ∧ product s' * last = size * known s.
Proof.
  intros Hn Hlen H3.
  apply (foldM_up_inv (λ i '(t, sz), length t = length s ∧ (∀ j : nat, i <= j → t !! j = s !! j)
    ∧ product (take (Z.to_nat i) t) * sz = size * known (take (Z.to_nat i) s))) in H3; [|done|split_and!; [done|done|unfold known; simpl; ring]|].
  { destruct H3 as (Hl & _ & Hp). rewrite !take_ge in Hp by (unfold zlen in *; lia). done. }
  intros i [t sz] [t' sz'] Hi (Hl & Hsame & Hprod) Hb. apply res_bind_Ok in Hb as (x & Hx%pget_lookup & Hb); [|lia].
  replace (Z.to_nat (i + 1)) with (S (Z.to_nat i)) by lia. assert (s !! Z.to_nat i = Some x) as Hx1 by (rewrite <-Hsame by lia; done).
  rewrite (known_take_S _ _ _ Hx1). destruct (Z.eqb_spec x (-1)) as [->|Hne].
  - rewrite pset_ok in Hb by (unfold zlen in *; lia). injection Hb as <- <-. rewrite length_insert, decide_True by done. split_and!; [done| |].
    + intros j Hj. rewrite list_lookup_insert_ne by lia. apply Hsame. lia.
    + rewrite (product_take_S _ _ sz) by (apply list_lookup_insert_eq; unfold zlen in *; lia).
      rewrite take_insert_ge by lia. lia.
  - injection Hb as <- <-. rewrite decide_False by done. split_and!; [done|intros j Hj; apply Hsame; lia|].
    rewrite (product_take_S _ _ _ Hx). transitivity (product (take (Z.to_nat i) t) * sz * x); [ring|]. rewrite Hprod. ring.
Qed.

(** The shape [reshape] passes on has as many elements as its argument.  If the
    loops over the shape end without an assertion, zeros having been replaced by the
    dimensions and [-1] by what is left, the product of the result is the volume. *)
Theorem resolve_shape_volume input shape s v : volume input = Ok v → resolve_shape input shape = Ok s →
  zlen s = zlen shape ∧ product s = v.
Proof.
  intros Hv Hr. unfold resolve_shape in Hr. rewrite Hv in Hr. apply res_bind_Ok in Hr as (s1 & H1 & Hr). cbn [mbind res_bind] in Hr.
  apply res_bind_Ok in Hr as (size & H2 & Hr). apply res_bind_Ok in Hr as ([s2 last] & H3 & Hr). apply assert_Ok in Hr as [->%Z.eqb_eq [= <-]].
  assert (0 <= zlen shape) as Hn by (unfold zlen; lia). unfold py_range in *.
  apply (foldM_up_inv (λ _ s, length s = length shape)) in H1; [|done|done|].
  2:{ intros i t t' _ Ht Hb. apply res_bind_Ok in Hb as (x & _ & Hb). destruct (x =? 0); [|by injection Hb as <-].
      apply res_bind_Ok in Hb as (d & _ & Hb%length_pset). by rewrite Hb. }
  apply divide_known in H2; [|done|unfold zlen; by rewrite H1]. apply fill_known in H3 as [Hl Hp]; [|done|unfold zlen; by rewrite H1].
  split; [unfold zlen; by rewrite Hl, H1|]. rewrite Z.mul_1_r in Hp. by rewrite Hp.
Qed.

Lemma resolve_shape_volume_witness :
  ∃ h t, Tensor_init initial_heap 4 [2; 4; 3; 3] GUID_INPUT None = Ok (h, t)
    ∧ resolve_shape t [0; -1; 9] = Ok [2; 4; 9] ∧ zlen [2; 4; 9] = zlen [0; -1; 9] ∧ product [2; 4; 9] = 72.
Proof.
  destruct (Tensor_init initial_heap 4 [2; 4; 3; 3] GUID_INPUT None) as [[h t]| |] eqn:E; [|vm_compute in E; discriminate E|vm_compute in E; discriminate E].
  exists h, t. assert (volume t = Ok 72 ∧ resolve_shape t [0; -1; 9] = Ok [2; 4; 9]) as [Hv Hr].
  { vm_compute in E. injection E as _ <-. split; reflexivity. }
  exact (conj eq_refl (conj Hr (resolve_shape_volume t [0; -1; 9] [2; 4; 9] 72 Hv Hr))).
Defined.

(** A network of one convolution, a pooling and a fully connected layer. *)
Definition small_net : list build :=
  [BInput [1; 3; 8; 8]; BWeight [4; 3; 3; 3] 1%positive; BConv2d 0 1 1 1 PD_MODE_SAME AC_MODE_NONE; BRelu 2 false;
   BPool 3 8 8 1 1 PD_MODE_VALID AC_MODE_NONE 2%positive; BReshape 4 [1; -1]; BWeight [4; 10] 3%positive; BMatmul 5 6 AC_MODE_NONE].

Lemma small_net_ok : ∃ g ts, run_builds small_net = Ok (g, ts).
Proof.
  assert ((_ ← run_builds small_net; Ok tt) = Ok tt) as H by (vm_compute; reflexivity).
  apply res_bind_Ok in H as ([g ts] & E & _). by exists g, ts.
Qed.

Lemma has_loop_correct_witness : ∃ g ts g', run_builds small_net = Ok (g, ts) ∧ has_loop g = Ok (g', false).
Proof.
  destruct small_net_ok as (g & ts & E).
  pose proof (run_builds_built _ _ _ E) as Hb. destruct (has_loop_correct g (bu_wf _ _ Hb)) as (g' & b & Hrun & Hb' & _).
  exists g, ts, g'. refine (conj E _). rewrite Hrun. do 2 f_equal. apply Hb'. exact (built_loop_free _ _ Hb).
Defined.

(** ** Finding a graph correct *)

(** A network that convolves two images of different sizes with kernels of one shape.
    It is valid, but the second convolution gets the operator of the first, and
    [check_correctness] finds an input of the wrong size. *)
Definition two_sizes : list build :=
  [BInput [1; 3; 8; 8]; BInput [1; 3; 4; 4]; BWeight [4; 3; 3; 3] 1%positive;
   BConv2d 0 2 1 1 PD_MODE_SAME AC_MODE_NONE; BConv2d 1 2 1 1 PD_MODE_SAME AC_MODE_NONE].
Lemma check_correctness_two_sizes :
  (st ← run_builds small_net; r ← check_correctness st.1; Ok r.2) = Ok true
  ∧ (st ← run_builds two_sizes; r ← check_correctness st.1; Ok r.2) = Ereport AssertionError.
Proof. split; vm_compute; reflexivity. Qed.
