(* ===== verification/DbEdges.v ===== *)
(** * DbEdges: graphs that are made edge by edge, and preprocess_weights

    [preprocess_weights] copies a graph by adding its edges to a new one, and then removes
    operators; [create_new_graph] ([substitution.py]) makes a graph in the same way.  A graph
    made like this is given by its edges.

    The theorem shows what [preprocess_weights] keeps: it removes exactly the operators that
    are computed from weights alone and that no operator it keeps reads. *)

From stdpp Require Import sorting relations.
From S2P Require Import Prelude PgArray DbTensor DbOp DbModel Kahn DbGraph.

Open Scope Z_scope.

(** ** Graphs made of edges *)

Record woven (g : Graph) : Prop := {
  wo_in : ∀ op e, e ∈ ends (inEdges g) op → dstOp e = op;
  wo_out : ∀ op e, e ∈ ends (outEdges g) op → srcOp e = op;
  wo_mirror : ∀ e, edge_of g e ↔ e ∈ ends (outEdges g) (srcOp e);
  wo_fed : fed g;
  wo_outs : ∀ op, op ∈ dom (outEdges g) → op ∈ nodes g ∨ ∃ e, edge_of g e ∧ srcOp e = op
}.

Lemma woven_new m : woven (new_Graph m).
Proof. split; unfold new_Graph, nodes, edge_of, ends, fed; simpl; intros; set_solver. Qed.
Lemma add_edge_woven g src dst si di g' : woven g → add_edge g src dst si di = Ok g' → woven g'.
Proof.
  intros [Hin Hout Hmir Hfed Houts] Hadd. pose proof (λ e, add_edge_edges g src dst si di g' e Hadd) as Hedge.
  apply add_edge_inv in Hadd as (_ & Hn & Ho & He1 & He2). split.
  - intros op e. rewrite He1. case_decide as Hd; [subst op; rewrite elem_of_union, elem_of_singleton; intros [->|?]; [done|]|]; by apply Hin.
  - intros op e. rewrite He2. case_decide as Hd; [subst op; rewrite elem_of_union, elem_of_singleton; intros [->|?]; [done|]|]; by apply Hout.
  - intros e. rewrite Hedge, Hmir, He2. case_decide as Hd; [rewrite elem_of_union, elem_of_singleton, Hd; naive_solver|].
    split; [intros [?| ->]; done|by left].
  - intros op. setoid_rewrite Hedge. rewrite Hn. intros [->%elem_of_singleton|(e & ? & ?)%Hfed]%elem_of_union; eauto.
  - intros op. setoid_rewrite Hedge. rewrite Hn, Ho. intros [->%elem_of_singleton|[?|(e & ? & ?)]%Houts]%elem_of_union; [right; eauto|left; set_solver|right; eauto].
Qed.

(** Numbers tell the operators of [U] apart. *)
Definition numbered (U : Op → Prop) : Prop := ∀ a b, U a → U b → guid a = guid b → a = b.
Definition within (U : Op → Prop) (g : Graph) : Prop := ∀ e, edge_of g e → U (srcOp e) ∧ U (dstOp e).

Lemma woven_nodes U g op : woven g → within U g → op ∈ nodes g ∪ dom (outEdges g) → U op.
Proof.
  intros Hw HU. assert (∀ x, x ∈ nodes g → U x) as Hn by (intros x (e & He & <-)%(wo_fed g Hw); by apply HU).
  intros [?|[?|(e & He & <-)]%(wo_outs g Hw)]%elem_of_union; [by apply Hn..|by apply HU].
Qed.
Lemma set_add_ok m k e : comparable_with (dom m) k → (∀ e', e' ∈ ends m k → edge_comparable e e' = true) → ∃ m', set_add m k e = Ok m'.
Proof.
  intros Hc He. unfold set_add. destruct (getitem_ok m k Hc) as (m1 & -> & _). cbn [mbind res_bind]. case_bool_decide; [eauto|].
  rewrite check_true; [eauto|]. apply forallb_forall. intros e' Hin%list_elem_of_In%elem_of_elements. by apply He.
Qed.
Lemma numbered_comparable U a b : numbered U → U a → U b → op_comparable a b = true.
Proof.
  intros HU Ha Hb. unfold op_comparable. destruct (Z.eqb_spec (guid a) (guid b)); [|done]. simpl. apply bool_decide_eq_true. by apply HU.
Qed.
Lemma add_edge_ok U g src dst si di : woven g → numbered U → within U g → U src → U dst → ∃ g', add_edge g src dst si di = Ok g'.
Proof.
  intros Hw HU Hg Hs Hd. pose proof (λ op, woven_nodes U g op Hw Hg) as Hn.
  assert (∀ k X, U k → (∀ k', k' ∈ X → U k') → comparable_with X k) as Hcmp by (intros k X Hk HX k' Hk' Heq; apply HU; auto).
  assert (∀ e e', U (srcOp e) → U (dstOp e) → U (srcOp e') → U (dstOp e') → edge_comparable e e' = true) as Hec.
  { intros e e' ????. unfold edge_comparable. destruct (negb _); [by apply (numbered_comparable U)|]. destruct (negb _); [by apply (numbered_comparable U)|done]. }
  unfold add_edge. destruct (getitem_ok (inEdges g) dst) as (ins & -> & Hi1 & Hi2 & _); [apply Hcmp; [done|]; intros; apply Hn; unfold nodes; set_solver|].
  cbn [mbind res_bind]. destruct (getitem_ok (outEdges g) src) as (outs & -> & Ho1 & Ho2 & _); [apply Hcmp; [done|]; intros; apply Hn; set_solver|].
  cbn [mbind res_bind]. destruct (set_add_ok ins dst (mkEdge src dst si di)) as [ins' ->].
  { rewrite Hi2. apply Hcmp; [done|]. intros k [->%elem_of_singleton|?]%elem_of_union; [done|]. apply Hn. unfold nodes. set_solver. }
  { intros e'. rewrite Hi1. intros He. assert (edge_of g e') as [??]%Hg; [|by apply Hec]. unfold edge_of. by rewrite (wo_in g Hw dst e' He). }
  cbn [mbind res_bind]. destruct (set_add_ok outs src (mkEdge src dst si di)) as [outs' ->]; [| |simpl; eauto].
  - rewrite Ho2. apply Hcmp; [done|]. intros k [->%elem_of_singleton|?]%elem_of_union; [done|]. apply Hn. set_solver.
  - intros e'. rewrite Ho1. intros He. assert (edge_of g e') as [??]%Hg; [|by apply Hec]. apply (wo_mirror g Hw). by rewrite (wo_out g Hw src e' He).
Qed.

(** A loop each step of which adds edges. *)
Definition adds {A} (f : A → Graph → res Graph) (R : A → Edge → Prop) (a : A) : Prop :=
  ∀ g g', woven g → f a g = Ok g' → woven g' ∧ g_model g' = g_model g ∧ ∀ e, edge_of g' e ↔ edge_of g e ∨ R a e.
Lemma foldM_adds {A} (f : A → Graph → res Graph) R l : (∀ a, a ∈ l → adds f R a) → ∀ g g', woven g → foldM f l g = Ok g' →
  woven g' ∧ g_model g' = g_model g ∧ ∀ e, edge_of g' e ↔ edge_of g e ∨ ∃ a, a ∈ l ∧ R a e.
Proof.
  induction l as [|a l IH]; intros Hf g g' Hw; cbn [foldM].
  { intros [= <-]. split_and!; [done..|]. intros e. split; [by left|]. intros [?|(a & Ha%elem_of_nil & _)]; done. }
  intros (g1 & H1 & H2)%res_bind_Ok. destruct (Hf a (list_elem_of_here _ _) g g1 Hw H1) as (Hw1 & Hm1 & He1).
  destruct (IH (λ b Hb, Hf b (list_elem_of_further _ _ _ Hb)) g1 g' Hw1 H2) as (Hw' & Hm' & He'). split_and!; [done|congruence|].
  intros e. rewrite He', He1. setoid_rewrite elem_of_cons. naive_solver.
Qed.
Lemma foldM_progress {A} (f : A → Graph → res Graph) R U l : (∀ a, a ∈ l → adds f R a) →
  (∀ a g, a ∈ l → woven g → within U g → ∃ g', f a g = Ok g') → (∀ a e, a ∈ l → R a e → U (srcOp e) ∧ U (dstOp e)) →
  ∀ g, woven g → within U g → ∃ g', foldM f l g = Ok g'.
Proof.
  intros Hf Hok HR. assert (∀ l', l' ⊆ l → ∀ g, woven g → within U g → ∃ g', foldM f l' g = Ok g') as Hall; [|by apply Hall].
  induction l' as [|a l' IH]; intros Hsub g Hw Hg; cbn [foldM]; [by exists g|]. assert (a ∈ l) as Ha by (apply Hsub; left).
  destruct (Hok a g Ha Hw Hg) as [g1 H1]. rewrite H1. cbn [mbind res_bind]. destruct (Hf a Ha g g1 Hw H1) as (Hw1 & _ & He1).
  apply IH; [by intros x ?; apply Hsub; right|done|]. intros e [?|?]%He1; [by apply Hg|by apply (HR a)].
Qed.

Lemma woven_pre U g : woven g → numbered U → within U g → (∀ e, edge_of g e → GUID_PRESERVED < guid (dstOp e)) → graph_pre g.
Proof.
  intros Hw HU Hg Hdst. split; [apply Hw..| |].
  - intros op (e & He & <-)%(wo_fed g Hw). by apply Hdst.
  - intros a Ha b Hb. apply HU; by eapply woven_nodes.
Qed.
Lemma woven_wf U g : woven g → numbered U → within U g → (∀ e, edge_of g e → GUID_PRESERVED < guid (dstOp e)) →
  (∀ e, edge_of g e → srcOp e ∈ nodes g ∨ guid (srcOp e) <= GUID_PRESERVED) → graph_wf g.
Proof.
  intros Hw HU Hg Hdst Hsrc. split; [exact (woven_pre U g Hw HU Hg Hdst)|].
  intros op [?|(e & He & <-)]%(wo_outs g Hw); [by left|by apply Hsrc].
Qed.
Lemma add_edge_adds (e : Edge) : adds (λ e g, add_edge g (srcOp e) (dstOp e) (srcIdx e) (dstIdx e)) (λ e e', e' = e) e.
Proof.
  intros g g' Hw Hadd. split_and!; [by eapply add_edge_woven|by apply add_edge_inv in Hadd as (? & _)|].
  intros e'. rewrite (add_edge_edges _ _ _ _ _ _ _ Hadd). by destruct e.
Qed.

(** ** Copying *)

Definition of_graph (g : Graph) (op : Op) : Prop := op ∈ nodes g ∪ dom (outEdges g).
Lemma of_graph_numbered g : graph_wf g → numbered (of_graph g).
Proof. intros Hwf a b Ha Hb. by apply (gw_unique g Hwf). Qed.
Lemma of_graph_within g : graph_wf g → within (of_graph g) g.
Proof.
  intros Hwf e He. unfold of_graph, nodes. apply (gw_mirror g Hwf) in He as Ho. apply ends_dom in He, Ho. set_solver.
Qed.

(** The edges determine [inEdges]. *)
Lemma inEdges_eq g g' : (∀ op e, e ∈ ends (inEdges g') op → dstOp e = op) → fed g' → (∀ op e, e ∈ ends (inEdges g) op → dstOp e = op) → fed g →
  (∀ e, edge_of g' e ↔ edge_of g e) → inEdges g' = inEdges g.
Proof.
  intros Hin' Hfed' Hin Hfed He. apply map_eq. intros k.
  assert (∀ g1, fed g1 → k ∈ nodes g1 ↔ ∃ e, edge_of g1 e ∧ dstOp e = k) as Hk.
  { intros g1 Hf. split; [apply Hf|]. intros (e & Hd & <-). by apply ends_dom in Hd. }
  assert (k ∈ dom (inEdges g') ↔ k ∈ dom (inEdges g)) as Hdom.
  { change (k ∈ nodes g' ↔ k ∈ nodes g). rewrite (Hk g'), (Hk g) by done. by setoid_rewrite He. }
  assert (ends (inEdges g') k = ends (inEdges g) k) as Heq.
  { apply set_eq. intros e. split; intros Hm; [pose proof (Hin' k e Hm) as <-|pose proof (Hin k e Hm) as <-]; by apply He. }
  unfold ends in Heq. rewrite !elem_of_dom in Hdom. destruct (inEdges g' !! k) as [s|], (inEdges g !! k) as [s'|]; simpl in *.
  - by subst.
  - destruct (proj1 Hdom) as [? ?]; [eauto|done].
  - destruct (proj2 Hdom) as [? ?]; [eauto|done].
  - done.
Qed.

Section Copy.
  Context (g : Graph) (Hwf : graph_wf g).

Lemma row_edges kv e : kv ∈ map_items (inEdges g) → e ∈ edges kv.2 ↔ edge_of g e ∧ dstOp e = kv.1.
Proof.
  destruct kv as [k s]. intros Hkv%elem_of_map_items. simpl. rewrite elem_of_edges. unfold edge_of. split.
  - intros He. assert (dstOp e = k) as <-; [apply (gw_in g Hwf); unfold ends; by rewrite Hkv|]. unfold ends. by rewrite Hkv.
  - intros [He <-]. unfold ends in He. by rewrite Hkv in He.
Qed.
Lemma edge_row e : edge_of g e → ∃ kv, kv ∈ map_items (inEdges g) ∧ kv.1 = dstOp e.
Proof. intros [s Hs]%ends_dom%elem_of_dom. exists (dstOp e, s). by rewrite elem_of_map_items. Qed.

Lemma clone_row kv : kv ∈ map_items (inEdges g) →
  adds (λ kv g, foldM (λ e g, add_edge g (srcOp e) (dstOp e) (srcIdx e) (dstIdx e)) (edges kv.2) g) (λ kv e, edge_of g e ∧ dstOp e = kv.1) kv.
Proof.
  intros Hkv g0 g' Hw Hrun. destruct (foldM_adds _ (λ e e', e' = e) (edges kv.2) (λ e _, add_edge_adds e) g0 g' Hw Hrun) as (Hw' & Hm & He).
  split_and!; [done..|]. intros e. rewrite He, <-(row_edges kv e Hkv). naive_solver.
Qed.
Lemma clone_edges_ok m : fed g →
  ∃ g', clone_edges (inEdges g) (new_Graph m) = Ok g' ∧ woven g' ∧ g_model g' = m ∧ inEdges g' = inEdges g ∧ ∀ e, edge_of g' e ↔ edge_of g e.
Proof.
  intros Hfed. destruct (foldM_progress _ (λ kv e, edge_of g e ∧ dstOp e = kv.1) (of_graph g) (map_items (inEdges g)) clone_row) with (g := new_Graph m) as [g' Hrun].
  - intros kv g0 Hkv Hw0 Hg0. apply (foldM_progress _ (λ e e', e' = e) (of_graph g)); [intros e _; apply add_edge_adds| | |done..].
    + intros e g1 [He _]%(row_edges kv e Hkv) Hw1 Hg1. apply (add_edge_ok (of_graph g)); [done|by apply of_graph_numbered|done|apply (of_graph_within g Hwf e He)..].
    + intros e ? [He _]%(row_edges kv e Hkv) ->. by apply of_graph_within.
  - intros kv e _ [He _]. by apply of_graph_within.
  - apply woven_new.
  - intros e He. unfold edge_of, ends, new_Graph in He. simpl in He. set_solver.
  - exists g'. destruct (foldM_adds _ _ _ clone_row _ _ (woven_new m) Hrun) as (Hw & Hm & He).
    assert (∀ e, edge_of g' e ↔ edge_of g e) as He'.
    { intros e. rewrite He. split; [intros [Hn|(kv & _ & ? & _)]; [|done]|].
      - unfold edge_of, ends, new_Graph in Hn. simpl in Hn. set_solver.
      - intros Hg. right. destruct (edge_row e Hg) as (kv & ? & ?). by exists kv. }
    split_and!; [done..| |done]. by apply inEdges_eq; [apply Hw..|apply Hwf|done|].
Qed.
End Copy.

(** ** What is computed from weights alone *)

Inductive from_weights (g : Graph) : Op → Prop :=
  | from_weights_intro op :
      (∀ e, edge_of g e → dstOp e = op → guid (srcOp e) ≠ GUID_WEIGHT → srcOp e ∈ nodes g) →
      (∀ e, edge_of g e → dstOp e = op → guid (srcOp e) ≠ GUID_WEIGHT → from_weights g (srcOp e)) → from_weights g op.

Section Weights.
  Context (g : Graph) (Hwf : graph_pre g).

Lemma node_not_weight e : srcOp e ∈ nodes g → not_weight_source e = true.
Proof. intros Hn%(gw_keys g Hwf). unfold not_weight_source, GUID_WEIGHT, GUID_PRESERVED in *. lia. Qed.
Lemma foreign_edge op : op ∈ nodes g → 0 < foreign g not_weight_source op ↔
  ∃ e, edge_of g e ∧ dstOp e = op ∧ guid (srcOp e) ≠ GUID_WEIGHT ∧ srcOp e ∉ nodes g.
Proof.
  intros Hop. unfold foreign, num_edges. set (P := λ e, _). split.
  - destruct (filter P _) as [|e l] eqn:Hf; [unfold zlen; simpl; lia|]. intros _. exists e.
    assert (e ∈ filter P (edges (ends (inEdges g) op))) as [HP He]%list_elem_of_filter by (rewrite Hf; left).
    subst P. apply Is_true_true, andb_true_iff in HP as [H1 H2%bool_decide_eq_true]. apply elem_of_edges in He.
    pose proof (gw_in g Hwf op e He) as <-. unfold not_weight_source in H1. split_and!; [done..|lia|done].
  - intros (e & He & <- & Hw & Hn). assert (e ∈ filter P (edges (ends (inEdges g) (dstOp e)))) as Hin.
    { apply list_elem_of_filter. rewrite elem_of_edges. split; [|done]. subst P. apply Is_true_true, andb_true_iff.
      split; [unfold not_weight_source; lia|by apply bool_decide_eq_true]. }
    destruct (filter P _); [by apply elem_of_nil in Hin|]. unfold zlen. simpl. lia.
Qed.

Lemma kahn_from_weights l : kahn_list (keys (inEdges g)) (readers g) (foreign g not_weight_source) l →
  ∀ op, op ∈ l ↔ op ∈ nodes g ∧ from_weights g op.
Proof.
  intros [_ Hsub Hord Hrest] op. split.
  - intros Hop. split; [by apply elem_of_keys, Hsub|]. apply list_elem_of_lookup_1 in Hop as [j Hj].
    revert op Hj. induction j as [j IH] using lt_wf_ind. intros op Hj. destruct (Hord j op Hj) as [Hx Hp].
    assert (op ∈ nodes g) as Hn by (by apply elem_of_keys, Hsub, (list_elem_of_lookup_2 _ j)).
    assert (∀ e, edge_of g e → dstOp e = op → guid (srcOp e) ≠ GUID_WEIGHT → srcOp e ∈ nodes g) as Hin.
    { intros e He Hd Hw. destruct (decide (srcOp e ∈ nodes g)) as [|Hne]; [done|].
      pose proof (proj2 (foreign_edge op Hn) (ex_intro _ e (conj He (conj Hd (conj Hw Hne))))). lia. }
    constructor; [done|]. intros e He Hd Hw. destruct (Hp (srcOp e)) as (i & Hlt & Hi).
    + by apply elem_of_keys, Hin.
    + apply (elem_of_readers g Hwf). by exists e.
    + by apply (IH i).
  - intros [Hn Hf]. induction Hf as [op Hin _ IH]. destruct (decide (op ∈ l)) as [|Hne]; [done|].
    destruct (Hrest op) as [Hx|(a & Ha & Hal & Hr)]; [by apply elem_of_keys|done| |].
    + apply (foreign_edge op Hn) in Hx as (e & He & Hd & Hw & Hne'). by destruct Hne'; apply Hin.
    + apply (elem_of_readers g Hwf) in Hr as (e & He & <- & Hd). destruct Hal. apply elem_of_keys in Ha.
      apply (IH e He Hd); [|done]. apply (gw_keys g Hwf) in Ha. unfold GUID_WEIGHT, GUID_PRESERVED in *. lia.
Qed.

(** The loop that collects them. *)
Lemma add_weight_ok (pre : list Op) k (st : OpMap * gset Op) : touched g st.1 ∧ st.2 = list_to_set pre → k ∈ keys (inEdges g) →
  ∃ st', add_weight k st = Ok (st', readers g k) ∧ touched g st'.1 ∧ st'.2 = list_to_set (pre ++ [k]).
Proof.
  intros [Ht Hs] Hk. destruct (out_ops_ok g Hwf st.1 k Ht Hk) as (outs & Ho & Ht'). unfold add_weight. rewrite Ho. cbn [mbind res_bind].
  eexists. split_and!; [done..|]. simpl. rewrite Hs. set_solver.
Qed.
Lemma weights_ok todos l0 : first_counts not_weight_source (inEdges g) = (todos, l0) →
  ∃ outs W l, kahn add_weight (size (inEdges g)) 0 todos l0 (outEdges g, ∅) = Ok (outs, W, l)
    ∧ touched g outs ∧ ∀ op, op ∈ W ↔ op ∈ nodes g ∧ from_weights g op.
Proof.
  rewrite (first_counts_eq g Hwf not_weight_source) by apply node_not_weight. intros Hc.
  destruct (kahn_nodes add_weight (keys (inEdges g)) (readers g) (foreign g not_weight_source)
    (λ pre st, touched g st.1 ∧ st.2 = list_to_set pre) (NoDup_keys _)
    (λ a _, readers_closed g Hwf a) (λ k _, foreign_nonneg g not_weight_source k) (λ pre k st Hst Hk, add_weight_ok pre k st Hst Hk)
    (outEdges g, ∅) todos l0 (size (inEdges g))) as ([outs W] & l & Hrun & Hl & Ht & HW).
  - split; [by apply touched_refl|done].
  - by rewrite length_keys.
  - done.
  - exists outs, W, l. split_and!; [done..|]. intros op. simpl in HW. rewrite HW, elem_of_list_to_set. by apply kahn_from_weights.
Qed.
End Weights.

(** ** Removing *)

(** [g'] lacks the edges [X]. *)
Record cut (g g' : Graph) (X : gset Edge) : Prop := {
  cu_model : g_model g' = g_model g;
  cu_nodes : nodes g' = nodes g;
  cu_outs : dom (outEdges g') = dom (outEdges g);
  cu_in : ∀ k, ends (inEdges g') k = ends (inEdges g) k ∖ X;
  cu_out : ∀ k, ends (outEdges g') k = ends (outEdges g) k ∖ X
}.
Lemma cut_edges g g' X e : cut g g' X → edge_of g' e ↔ edge_of g e ∧ e ∉ X.
Proof. intros Hc. unfold edge_of. rewrite (cu_in _ _ _ Hc). set_solver. Qed.
Lemma cut_wf g g' X : graph_wf g → cut g g' X → graph_wf g'.
Proof.
  intros Hwf Hc. split; [split|].
  - intros op e. rewrite (cu_in _ _ _ Hc). intros [? _]%elem_of_difference. by apply (gw_in g Hwf).
  - intros op e. rewrite (cu_out _ _ _ Hc). intros [? _]%elem_of_difference. by apply (gw_out g Hwf).
  - intros e. rewrite (cut_edges _ _ _ _ Hc), (cu_out _ _ _ Hc), elem_of_difference. by rewrite (gw_mirror g Hwf).
  - rewrite (cu_nodes _ _ _ Hc). apply (gw_keys g Hwf).
  - rewrite (cu_nodes _ _ _ Hc), (cu_outs _ _ _ Hc). apply (gw_unique g Hwf).
  - rewrite (cu_nodes _ _ _ Hc), (cu_outs _ _ _ Hc). apply (gw_src g Hwf).
Qed.
Lemma cut_trans g g1 g2 X Y : cut g g1 X → cut g1 g2 Y → cut g g2 (X ∪ Y).
Proof. intros [????] [????]. split; [congruence..| |]; intros k; set_solver. Qed.

Lemma set_remove_ok m k e : e ∈ ends m k → ∃ m', set_remove m k e = Ok m' ∧ dom m' = dom m ∧ ∀ k', ends m' k' = if decide (k' = k) then ends m k ∖ {[e]} else ends m k'.
Proof.
  intros He. apply ends_dom in He as Hd. apply elem_of_dom in Hd as [s Hs]. unfold set_remove, getitem, ends in *. rewrite Hs in *. cbn [mbind res_bind default] in *.
  rewrite check_true by (by apply bool_decide_eq_true). eexists. split_and!; [done| |].
  - rewrite dom_insert_L. apply elem_of_dom_2 in Hs. set_solver.
  - intros k'. case_decide as Heq; [subst; by rewrite lookup_insert_eq|by rewrite lookup_insert_ne].
Qed.
Lemma remove_edge_ok g e : graph_wf g → edge_of g e → ∃ g', remove_edge g e = Ok g' ∧ cut g g' {[e]}.
Proof.
  intros Hwf He. pose proof (proj1 (gw_mirror g Hwf e) He) as Ho. unfold remove_edge.
  destruct (set_remove_ok _ _ _ Ho) as (outs & Hr1 & Hd1 & He1), (set_remove_ok _ _ _ He) as (ins & Hr2 & Hd2 & He2).
  apply ends_dom in He as Hd, Ho as Hs. unfold py_assert. rewrite !check_true by (by apply bool_decide_eq_true).
  rewrite Hr1. cbn [mbind res_bind]. rewrite Hr2. cbn [mbind res_bind]. eexists. split; [done|].
  split; simpl; [done|exact Hd2|exact Hd1| |]; intros k.
  - rewrite He2. case_decide as Hk; [by subst|]. apply set_eq. intros x. rewrite elem_of_difference, elem_of_singleton.
    split; [|by intros []]. intros Hx. split; [done|]. intros ->. by rewrite (gw_in g Hwf k e Hx) in Hk.
  - rewrite He1. case_decide as Hk; [by subst|]. apply set_eq. intros x. rewrite elem_of_difference, elem_of_singleton.
    split; [|by intros []]. intros Hx. split; [done|]. intros ->. by rewrite (gw_out g Hwf k e Hx) in Hk.
Qed.
Lemma remove_edges_ok es : ∀ g, graph_wf g → NoDup es → (∀ e, e ∈ es → edge_of g e) →
  ∃ g', foldM (λ e g, remove_edge g e) es g = Ok g' ∧ cut g g' (list_to_set es).
Proof.
  induction es as [|e es IH]; intros g Hwf Hnd Hin; cbn [foldM]; [exists g; split; [done|]; split; [done..| |]; set_solver|].
  apply NoDup_cons in Hnd as [Hne Hnd]. destruct (remove_edge_ok g e Hwf (Hin e (list_elem_of_here _ _))) as (g1 & -> & Hc1). cbn [mbind res_bind].
  destruct (IH g1 (cut_wf _ _ _ Hwf Hc1) Hnd) as (g2 & -> & Hc2).
  - intros x Hx. apply (cut_edges _ _ _ _ Hc1). split; [apply Hin; by right|]. set_solver.
  - exists g2. split; [done|]. eapply cut_trans; done.
Qed.

Lemma getitem_present m k s : m !! k = Some s → getitem m k = Ok (m, s).
Proof. intros Hk. unfold getitem. by rewrite Hk. Qed.
Lemma set_in_same g : set_in g (inEdges g) = g.
Proof. by destruct g. Qed.
Lemma set_out_same g : set_out g (outEdges g) = g.
Proof. by destruct g. Qed.

Lemma elem_of_nodes g op : op ∈ nodes g ↔ is_Some (inEdges g !! op).
Proof. apply elem_of_dom. Qed.

Definition without (g : Graph) (op : Op) : Graph := mkGraph (g_model g) (delete op (inEdges g)) (delete op (outEdges g)).
Lemma remove_node_cut g op : graph_wf g → op ∈ nodes g → op ∈ dom (outEdges g) → ends (outEdges g) op = ∅ →
  ∃ g1, remove_node g op = Ok (without g1 op) ∧ cut g g1 (ends (inEdges g) op).
Proof.
  intros Hwf [s Hs]%elem_of_nodes Ho Hout. apply elem_of_dom in Ho as Hos. destruct Hos as [so Hso].
  unfold ends in *. rewrite Hso in Hout. simpl in Hout. subst so. rewrite Hs. simpl.
  destruct (remove_edges_ok (edges s) g Hwf (NoDup_edges s)) as (g1 & Hrun & Hc).
  { intros e He%elem_of_edges. assert (dstOp e = op) as <-; [apply (gw_in g Hwf); unfold ends; by rewrite Hs|]. unfold edge_of, ends. by rewrite Hs. }
  replace (list_to_set (edges s)) with s in Hc by (apply set_eq; intros e; by rewrite elem_of_list_to_set, elem_of_edges).
  exists g1. split; [|done]. assert (inEdges g1 !! op = Some ∅) as Hs1.
  { assert (op ∈ nodes g1) as [s1 Hs1]%elem_of_nodes by (rewrite (cu_nodes _ _ _ Hc), elem_of_nodes; eauto).
    pose proof (cu_in _ _ _ Hc op) as Hop. unfold ends in Hop. rewrite Hs, Hs1 in Hop. simpl in Hop. rewrite Hs1. f_equal. set_solver. }
  unfold remove_node, num_out_edges, num_in_edges, py_assert. rewrite check_true by (by apply bool_decide_eq_true).
  rewrite (getitem_present _ _ _ Hso). cbn [mbind res_bind]. rewrite size_empty, set_out_same, check_true by done.
  rewrite (getitem_present _ _ _ Hs). cbn [mbind res_bind]. rewrite set_in_same, Hrun. cbn [mbind res_bind].
  rewrite (getitem_present _ _ _ Hs1). cbn [mbind res_bind]. by rewrite size_empty, set_in_same, check_true.
Qed.

Lemma ends_delete m op k : ends (delete op m) k = if decide (k = op) then ∅ else ends m k.
Proof. unfold ends. case_decide as Hk; [subst; by rewrite lookup_delete_eq|by rewrite lookup_delete_ne]. Qed.
Lemma remove_node_ok g op : graph_wf g → op ∈ nodes g → op ∈ dom (outEdges g) → ends (outEdges g) op = ∅ →
  ∃ g', remove_node g op = Ok g' ∧ g_model g' = g_model g ∧ graph_wf g' ∧ nodes g' = nodes g ∖ {[op]}
    ∧ ∀ e, edge_of g' e ↔ edge_of g e ∧ dstOp e ≠ op.
Proof.
  intros Hwf Hn Ho Hout. destruct (remove_node_cut g op Hwf Hn Ho Hout) as (g1 & Hrun & Hc). exists (without g1 op). split; [done|].
  assert (∀ e, edge_of (without g1 op) e ↔ edge_of g e ∧ dstOp e ≠ op) as He.
  { intros e. unfold edge_of, without. simpl. rewrite ends_delete, (cu_in _ _ _ Hc). case_decide as Hd; [set_solver|].
    rewrite elem_of_difference. split; [by intros [? _]|]. intros [? _]. split; [done|]. intros Hx%(gw_in g Hwf). done. }
  assert (nodes (without g1 op) = nodes g ∖ {[op]}) as Hnodes.
  { rewrite <-(cu_nodes _ _ _ Hc). unfold nodes, without. simpl. by rewrite dom_delete_L. }
  assert (dom (outEdges (without g1 op)) = dom (outEdges g) ∖ {[op]}) as Houts by (unfold without; simpl; by rewrite dom_delete_L, (cu_outs _ _ _ Hc)).
  split_and!; [apply Hc| |done..]. split; [split|].
  - intros k e. unfold without. simpl. rewrite ends_delete, (cu_in _ _ _ Hc). case_decide; [set_solver|]. intros [? _]%elem_of_difference. by apply (gw_in g Hwf).
  - intros k e. unfold without. simpl. rewrite ends_delete, (cu_out _ _ _ Hc). case_decide; [set_solver|]. intros [? _]%elem_of_difference. by apply (gw_out g Hwf).
  - intros e. rewrite He. unfold without. simpl. rewrite ends_delete, (cu_out _ _ _ Hc), (gw_mirror g Hwf). case_decide as Hs.
    { rewrite Hs, Hout. set_solver. }
    rewrite elem_of_difference. split; intros [Hx Hy]; (split; [done|]).
    + intros Hi. by apply Hy, (gw_in g Hwf).
    + intros <-. apply Hy. by apply (gw_mirror g Hwf).
  - rewrite Hnodes. intros k [? _]%elem_of_difference. by apply (gw_keys g Hwf).
  - rewrite Hnodes, Houts. intros k Hk k' Hk'. apply (gw_unique g Hwf); set_solver.
  - rewrite Hnodes, Houts. intros k [Hk Hne]%elem_of_difference. apply (gw_src g Hwf) in Hk as [?|?]; [left; set_solver|by right].
Qed.

(** ** preprocess_weights *)

Lemma touched_trans g outs outs' : touched g outs → touched (set_out g outs) outs' → touched g outs'.
Proof.
  intros [He Hd Hn] [He' Hd' Hn']. split; simpl in *.
  - intros k. by rewrite He', He.
  - set_solver.
  - unfold nodes in *. simpl in *. set_solver.
Qed.
Lemma find_dead_ok W ops : ∀ g, graph_wf g → ops ⊆ keys (inEdges g) →
  ∃ outs r, find_dead W ops g = Ok (set_out g outs, r) ∧ touched g outs
    ∧ match r with
      | None => ∀ op, op ∈ ops → op ∈ W → ends (outEdges g) op ≠ ∅
      | Some op => op ∈ ops ∧ op ∈ W ∧ ends (outEdges g) op = ∅ ∧ op ∈ dom outs
      end.
Proof.
  induction ops as [|op ops IH]; intros g Hwf Hsub; cbn [find_dead].
  { exists (outEdges g), None. rewrite set_out_same. split_and!; [done|exact (touched_refl g Hwf)|]. by intros op ?%elem_of_nil. }
  assert (ops ⊆ keys (inEdges g)) as Hsub' by (intros x ?; apply Hsub; by right). case_bool_decide as HW.
  - assert (op ∈ nodes g) as Hn by (by apply elem_of_keys, Hsub; left).
    destruct (getitem_ok (outEdges g) op) as (outs & Hget & He & Hd & _).
    { intros k Hk Heq. apply (gw_unique g Hwf); set_solver. }
    assert (touched g outs) as Ht by (split; [done|set_solver|rewrite Hd; set_solver]).
    unfold num_out_edges. rewrite Hget. cbn [mbind res_bind]. destruct (Z.eqb_spec (Z.of_nat (size (ends (outEdges g) op))) 0) as [Hz|Hz].
    + exists outs, (Some op). split_and!; [done..|by left|done| |rewrite Hd; set_solver]. apply leibniz_equiv, size_empty_inv. lia.
    + destruct (IH (set_out g outs) (touched_wf g outs Hwf Ht) Hsub') as (outs' & r & -> & Ht' & Hr). exists outs', r. split_and!; [done|by eapply touched_trans|].
      simpl in Hr. destruct r as [op'|].
      * destruct Hr as (Hin & ? & Hempty & ?). rewrite He in Hempty. split_and!; [by right|done..].
      * intros k [->|Hk]%elem_of_cons Hkw; [intros Hempty; by rewrite Hempty in Hz|]. rewrite <-He. by apply Hr.
  - destruct (IH g Hwf Hsub') as (outs & r & -> & Ht & Hr). exists outs, r. split_and!; [done..|]. destruct r as [op'|].
    + destruct Hr as (? & ? & ? & ?). split_and!; [by right|done..].
    + intros k [->|Hk]%elem_of_cons Hkw; [done|by apply Hr].
Qed.

(** What is left of [g0] when some operators of [W] have been removed. *)
Record pruned (g0 : Graph) (W : gset Op) (g : Graph) : Prop := {
  pr_wf : graph_wf g;
  pr_model : g_model g = g_model g0;
  pr_nodes : nodes g ⊆ nodes g0;
  pr_edges : ∀ e, edge_of g e ↔ edge_of g0 e ∧ dstOp e ∈ nodes g;
  pr_removed : ∀ op, op ∈ nodes g0 → op ∉ nodes g → op ∈ W ∧ ∀ e, edge_of g0 e → srcOp e = op → dstOp e ∉ nodes g
}.
Lemma pruned_refl g W : graph_wf g → pruned g W g.
Proof.
  intros Hwf. split; [done..| |by intros]. intros e. split; [|by intros []]. intros He. split; [done|]. by apply ends_dom in He.
Qed.
Lemma pruned_touched g0 W g outs : pruned g0 W g → touched g outs → pruned g0 W (set_out g outs).
Proof. intros [Hwf Hm Hn He Hr] Ht. split; [by apply touched_wf|done..]. Qed.
Lemma pruned_step g0 W g op g' : pruned g0 W g → op ∈ W → ends (outEdges g) op = ∅ → g_model g' = g_model g → graph_wf g' →
  nodes g' = nodes g ∖ {[op]} → (∀ e, edge_of g' e ↔ edge_of g e ∧ dstOp e ≠ op) → pruned g0 W g'.
Proof.
  intros [Hwf Hm Hn He Hr] HW Hout Hm' Hwf' Hn' He'. split; [done|congruence|rewrite Hn'; set_solver| |].
  - intros e. rewrite He', He, Hn'. set_solver.
  - intros k Hk Hnk. rewrite Hn' in *. destruct (decide (k = op)) as [->|Hne].
    + split; [done|]. intros e He0 Hs Hd. assert (edge_of g e) as Hg by (apply He; set_solver).
      apply (gw_mirror g Hwf) in Hg. rewrite Hs, Hout in Hg. set_solver.
    + destruct (Hr k Hk) as [? Hall]; [set_solver|]. split; [done|]. intros e He0 Hs. specialize (Hall e He0 Hs). set_solver.
Qed.

Lemma remove_dead_ok g0 W fuel : ∀ g, pruned g0 W g → (size (nodes g) < fuel)%nat →
  ∃ g', remove_dead fuel W g = Ok g' ∧ pruned g0 W g' ∧ ∀ op, op ∈ nodes g' → op ∈ W → ends (outEdges g') op ≠ ∅.
Proof.
  induction fuel as [|fuel IH]; intros g Hp Hsize; [lia|]. cbn [remove_dead].
  destruct (find_dead_ok W (keys (inEdges g)) g (pr_wf _ _ _ Hp)) as (outs & r & Hf & Ht & Hr); [done|].
  unfold keys in Hf. rewrite Hf. cbn [mbind res_bind]. pose proof (pruned_touched _ _ _ _ Hp Ht) as Hp'. destruct r as [op|].
  - destruct Hr as (Hk%elem_of_keys & HW & Hout & Hdom). rewrite <-(to_ends _ _ Ht) in Hout.
    destruct (remove_node_ok (set_out g outs) op (pr_wf _ _ _ Hp') Hk Hdom Hout) as (g' & -> & Hm & Hwf' & Hn & He). cbn [mbind res_bind].
    apply IH; [by eapply pruned_step|]. rewrite Hn. change (nodes (set_out g outs)) with (nodes g).
    rewrite size_difference by (change (op ∈ nodes g) in Hk; set_solver). rewrite size_singleton.
    assert (size (nodes g) ≠ 0%nat); [|lia]. apply size_non_empty_iff. change (op ∈ nodes g) in Hk. set_solver.
  - exists (set_out g outs). split_and!; [done..|]. intros op Hop%elem_of_keys HW. simpl. rewrite (to_ends _ _ Ht). by apply Hr.
Qed.

Lemma all_weights_fresh m es : all_weights (fresh_model m) es = all_weights m es.
Proof. induction es as [|e es IH]; [done|]. cbn [all_weights]. by rewrite IH. Qed.
Lemma read_types_fresh g g' : inEdges g' = inEdges g → g_model g' = fresh_model (g_model g) → read_types g' = read_types g.
Proof.
  intros Hin Hm. unfold read_types. rewrite Hin, Hm. induction (map_items (inEdges g)) as [|kv l IH]; [done|].
  cbn [foldM]. rewrite all_weights_fresh. change (op_object (fresh_model (g_model g)) kv.1) with (op_object (g_model g) kv.1).
  destruct (op_object (g_model g) kv.1 ≫= _) as [[]| |]; [exact IH|done..].
Qed.

(** [g'] is [g] without its unused weights. *)
Record weights_removed (g g' : Graph) : Prop := {
  wr_wf : graph_wf g';
  wr_nodes : nodes g' ⊆ nodes g;
  wr_edges : ∀ e, edge_of g' e ↔ edge_of g e ∧ dstOp e ∈ nodes g';
  wr_removed : ∀ op, op ∈ nodes g → op ∉ nodes g' → from_weights g op ∧ ∀ e, edge_of g e → srcOp e = op → dstOp e ∉ nodes g';
  wr_kept : ∀ op, op ∈ nodes g' → from_weights g op → ∃ e, edge_of g' e ∧ srcOp e = op
}.
Lemma preprocess_weights_removes g : graph_wf g → fed g → read_types g = Ok tt → ∃ g', preprocess_weights g = Ok g' ∧ weights_removed g g'.
Proof.
  intros Hwf Hfed Htypes. unfold preprocess_weights.
  destruct (clone_edges_ok g Hwf (fresh_model (g_model g)) Hfed) as (g1 & -> & Hw & Hm & Hin & He). cbn [mbind res_bind].
  rewrite (read_types_fresh g g1 Hin Hm), Htypes. cbn [mbind res_bind].
  assert (nodes g1 = nodes g) as Hn by (unfold nodes; by rewrite Hin).
  assert (graph_wf g1) as Hwf1.
  { apply (woven_wf (of_graph g)); [done|by apply of_graph_numbered| | |]; intros e Hg%He.
    - by apply of_graph_within.
    - apply (gw_keys g Hwf). by apply ends_dom in Hg.
    - rewrite Hn. by apply (gw_mirror g Hwf), ends_dom, (gw_src g Hwf) in Hg. }
  assert (∀ op, from_weights g1 op ↔ from_weights g op) as Hfw.
  { intros op. split; induction 1 as [op H1 _ H2]; constructor; intros e Hx; first [rewrite <-Hn|rewrite Hn|idtac]; first [apply H1|apply H2]; by apply He. }
  destruct (first_counts _ _) as [todos l0] eqn:Hc. destruct (weights_ok g1 Hwf1 todos l0 Hc) as (outs & W & l & -> & Ht & HW). cbn [mbind res_bind].
  destruct (remove_dead_ok g1 W (S (size (inEdges g1))) (set_out g1 outs)) as (g' & Hrun & [Hwf' Hm' Hn' He' Hr'] & Hread).
  { by apply pruned_touched, Ht; apply pruned_refl. }
  { change (nodes (set_out g1 outs)) with (dom (inEdges g1)). rewrite size_dom. lia. }
  exists g'. split; [done|]. split; rewrite <-?Hn; [done..| | |].
  - intros e. by rewrite He', He.
  - intros op Hop Hno. destruct (Hr' op Hop Hno) as [Hx Hall]. split; [apply Hfw; by apply HW|]. intros e Hg. apply Hall. by apply He.
  - intros op Hop Hx%Hfw. assert (op ∈ W) as Hin' by (apply HW; split; [by apply Hn'|done]).
    destruct (set_choose_L _ (Hread op Hop Hin')) as [e Hed]. exists e. pose proof (gw_out g' Hwf' op e Hed) as <-. split; [|done]. by apply (gw_mirror g' Hwf').
Qed.
(** It only returns where the types can be read. *)
Lemma preprocess_weights_types g g' : graph_wf g → fed g → preprocess_weights g = Ok g' → read_types g = Ok tt.
Proof.
  intros Hwf Hfed. unfold preprocess_weights. destruct (clone_edges_ok g Hwf (fresh_model (g_model g)) Hfed) as (g1 & -> & _ & Hm & Hin & _). cbn [mbind res_bind].
  rewrite (read_types_fresh g g1 Hin Hm). by intros ([] & ? & _)%res_bind_Ok.
Qed.

(** C16: [preprocess_weights] removes the unused weights.  On every graph whose operators read
    something and whose types can be read, it returns a well-formed graph.  The operators it
    has removed are computed from weights alone, and no operator it has kept reads them; an
    operator it has kept that is computed from weights alone is read by another one it has
    kept; the edges between the operators kept are as before. *)
Theorem preprocess_weights_correct g : graph_wf g → fed g → read_types g = Ok tt → ∃ g', preprocess_weights g = Ok g' ∧ weights_removed g g'.
Proof. apply preprocess_weights_removes. Qed.

(** A network with a weight that nothing uses, and what is left of it. *)
Definition unused_weight_net : list build :=
  [BInput [1; 3; 8; 8]; BWeight [4; 3; 3; 3] 1%positive; BWeight [4; 3; 3; 3] 2%positive; BConv2d 0 1 1 1 PD_MODE_SAME AC_MODE_NONE].
Lemma preprocess_weights_correct_witness : ∃ g ts g', run_builds unused_weight_net = Ok (g, ts) ∧ read_types g = Ok tt
  ∧ preprocess_weights g = Ok g' ∧ graph_wf g' ∧ nodes g' ⊆ nodes g
  ∧ (r ← (st ← run_builds unused_weight_net; preprocess_weights st.1); Ok (guid <$> keys (inEdges r))) = Ok [100; 101; 103].
Proof.
  assert ((st ← run_builds unused_weight_net; read_types st.1) = Ok tt) as H by (vm_compute; reflexivity).
  apply res_bind_Ok in H as ([g ts] & E & Ht). pose proof (run_builds_built _ _ _ E) as Hb.
  destruct (preprocess_weights_correct g (bu_wf _ _ Hb) (bu_fed _ _ Hb) Ht) as (g' & Hrun & [Hwf Hn _ _ _]).
  exists g, ts, g'. refine (conj E (conj Ht (conj Hrun (conj Hwf (conj Hn _))))). vm_compute. reflexivity.
Defined.
