(* ===== verification/DbLoad.v ===== *)
(** * DbLoad: loading an ONNX model

    [nudf.py] up to [load_onnx], and what it uses of [utils.py].  An ONNX model is the
    list of its inputs, of its initializers and of its nodes; attributes have the types
    ONNX gives them.  Arrays are references; [array_values] is what [list] of an array
    of shapes gives.

    A handler of a node may raise [InputNotFoundError], which skips the node but keeps
    what the handler has added to the graph: handlers return the graph, and [None] for
    the tensor.  Messages are left out.

    The theorems show that the nodes are visited in the order of their dependencies, and
    that the graph of every model that loads can be listed. *)

From stdpp Require Import pretty relations.
From S2P Require Import Prelude PgArray DbTensor DbOp DbModel Kahn DbGraph.

Open Scope Z_scope.

(** ** Models *)

Inductive attr_value :=
  | AInt (i : Z) | AInts (l : list Z) | AFloat | AString (s : string) | ATensor (dims : list Z) (data : loc) | AOther.
Record NodeProto := mkNode {
  n_name : string; op_type : string; n_input : list string; n_output : list string; attribute : list (string * attr_value)
}.
Record TensorProto := mkTensorProto { tp_name : string; tp_dims : list Z; tp_data : loc }.
Record ModelProto := mkModelProto { graph_input : list (string * list Z); initializer : list TensorProto; node : list NodeProto }.

(** ** utils.py *)

Definition get_padding_mode (padding : string) : res PaddingMode :=
  if bool_decide (padding = "SAME") then Ok PD_MODE_SAME
  else if bool_decide (padding = "VALID") then Ok PD_MODE_VALID
  else Ereport AssertionError.
Definition get_activation_mode (activation : string) : res ActiMode :=
  if bool_decide (activation = "NONE") then Ok AC_MODE_NONE
  else if bool_decide (activation = "SIGMOID") then Ok AC_MODE_SIGMOID
  else if bool_decide (activation = "RELU") then Ok AC_MODE_RELU
  else if bool_decide (activation = "TANH") then Ok AC_MODE_TANH
  else Ereport AssertionError.

Abbreviation attributes := (gmap string attr_value).
Definition parse_attribute (atts : list (string * attr_value)) : res attributes :=
  foldM (λ att atts, match att.2 with AOther => Ereport AssertionError | v => Ok (<[att.1 := v]> atts) end) atts ∅.

(** [attrs[name]], where ONNX has a list of integers. *)
Definition ints_attr (attrs : attributes) (name : string) : res (list Z) :=
  match attrs !! name with Some (AInts l) => Ok l | Some _ => Ereport TypeError | None => Ereport KeyError end.
Definition sum (l : list Z) : Z := foldr Z.add 0 l.

Definition get_conv_pool_pads_attr (attrs : attributes) : res string :=
  early ← match attrs !! "auto_pad" with
    | None => Ok None
    | Some v =>
        let padding := match v with AString s => s | _ => EmptyString end in
        pads ← (if bool_decide (padding = "SAME_LOWER") || bool_decide (padding = "SAME_UPPER") then Ok "SAME"
                else if bool_decide (padding = "VALID") then Ok "VALID"
                else py_assert (bool_decide (padding = "NOTSET")) (Ok EmptyString));
        kernel ← ints_attr attrs "kernel_shape";
        let pads := if sum kernel <=? 2 then "SAME" else pads in
        Ok (if bool_decide (padding ≠ "NOTSET") then Some pads else None)
    end;
  match early with
  | Some pads => Ok pads
  | None =>
      pads ← match attrs !! "pads" with
        | None => kernel ← ints_attr attrs "kernel_shape"; Ok (replicate (length kernel * 2) 0)
        | Some _ => ints_attr attrs "pads"
        end;
      if sum pads =? 0 then
        kernel ← ints_attr attrs "kernel_shape";
        Ok (if 2 <? sum kernel then "VALID" else "SAME")
      else Ok "SAME"
  end.

Abbreviation tensors := (gmap string Tensor).
(** [None] where it raises [InputNotFoundError]. *)
Fixpoint get_inputs (g : Graph) (ts : tensors) (init : list TensorProto) (names : list string) : res (Graph * option (list Tensor)) :=
  match names with
  | [] => Ok (g, Some [])
  | i :: names =>
      '(g, input_tensor) ← match ts !! i with
        | Some t => Ok (g, Some t)
        | None =>
            match list_find (λ w, tp_name w = i) init with
            | Some (_, w) => '(g, t) ← new_weight g (tp_dims w) (Some (tp_data w)); Ok (g, Some t)
            | None => Ok (g, None)
            end
        end;
      match input_tensor with
      | None => Ok (g, None)
      | Some t =>
          '(g, rest) ← get_inputs g ts init names;
          Ok (g, option_map (cons t) rest)
      end
  end.

(** ** Handlers *)

Section Handlers.
  Context (array_values : loc → list Z) (pool_data : loc) (ts : tensors) (init : list TensorProto).

Definition handler : Type := NodeProto → Graph → res (Graph * option Tensor).
Definition with_inputs (op : NodeProto) (g : Graph) (k : list Tensor → Graph → res (Graph * Tensor)) : res (Graph * option Tensor) :=
  '(g, ins) ← get_inputs g ts init (n_input op);
  match ins with
  | None => Ok (g, None)
  | Some ins => '(g, t) ← k ins g; Ok (g, Some t)
  end.

Definition op_add : handler := λ op g, with_inputs op g (λ ins g,
  x ← pget ins 0; y ← pget ins 1; Graph_element g OP_EW_ADD x y).

Definition op_avgpool2d : handler := λ op g, with_inputs op g (λ ins g,
  py_assert (zlen ins =? 1)
  (attrs ← parse_attribute (attribute op);
   kernels ← ints_attr attrs "kernel_shape";
   strides ← ints_attr attrs "strides";
   pads ← get_conv_pool_pads_attr attrs;
   padding ← get_padding_mode pads;
   activation ← get_activation_mode "NONE";
   x ← pget ins 0; k0 ← pget kernels 0; k1 ← pget kernels 1; s0 ← pget strides 0; s1 ← pget strides 1;
   pool2d_avg g x k0 k1 s0 s1 padding activation pool_data)).

Definition op_constant : handler := λ op g,
  attrs ← parse_attribute (attribute op);
  match attrs !! "value" with
  | None => Ereport AssertionError
  | Some (ATensor dims data) => '(g, t) ← new_weight g dims (Some data); Ok (g, Some t)
  | Some _ => Ereport AttributeError
  end.

Definition op_conv2d : handler := λ op g, with_inputs op g (λ ins g,
  attrs ← parse_attribute (attribute op);
  pads ← get_conv_pool_pads_attr attrs;
  strides ← ints_attr attrs "strides";
  padding ← get_padding_mode pads;
  activation ← get_activation_mode "NONE";
  x ← pget ins 0; w ← pget ins 1; s0 ← pget strides 0; s1 ← pget strides 1;
  '(g, out) ← Graph_conv2d g x w s0 s1 padding activation;
  if 2 <? zlen ins then
    bias ← pget ins 2;
    d ← pget (dim bias) 0;
    '(g, reshaped_bias) ← Graph_reshape g bias [1; d; 1; 1];
    Graph_element g OP_EW_ADD out reshaped_bias
  else Ok (g, out)).

(** [inputs[i] = graph.transpose(inputs[i], (1, 0), _shuffle=True)], if the attribute is 1. *)
Definition transposed (attrs : attributes) (name : string) (i : Z) (ins : list Tensor) (g : Graph) : res (Graph * list Tensor) :=
  match attrs !! name with
  | Some (AInt 1) =>
      x ← pget ins i;
      '(g, t) ← Graph_transpose g x [1; 0] true;
      ins ← pset ins i t;
      Ok (g, ins)
  | _ => Ok (g, ins)
  end.
Definition op_gemm : handler := λ op g, with_inputs op g (λ ins g,
  attrs ← parse_attribute (attribute op);
  '(g, ins) ← transposed attrs "transA" 0 ins g;
  '(g, ins) ← transposed attrs "transB" 1 ins g;
  x ← pget ins 0; w ← pget ins 1;
  '(g, out) ← Graph_matmul g x w AC_MODE_NONE;
  if 2 <? zlen ins then b ← pget ins 2; Graph_element g OP_EW_ADD out b
  else Ok (g, out)).

Definition op_pad : handler := λ op g, with_inputs op g (λ ins g,
  _ ← parse_attribute (attribute op);
  x ← pget ins 0; Ok (g, x)).

Definition op_relu : handler := λ op g, with_inputs op g (λ ins g,
  py_assert (zlen ins =? 1) (x ← pget ins 0; Graph_relu g x false)).

Definition op_reshape : handler := λ op g, with_inputs op g (λ ins g,
  py_assert (zlen ins =? 2)
  (s ← pget ins 1;
   match data_ptr s with
   | None => Ereport TypeError
   | Some data => x ← pget ins 0; Graph_reshape g x (array_values data)
   end)).

Definition dbocg_operators (ty : string) : option handler :=
  if bool_decide (ty = "Add") then Some op_add
  else if bool_decide (ty = "AveragePool") then Some op_avgpool2d
  else if bool_decide (ty = "Constant") then Some op_constant
  else if bool_decide (ty = "Conv") then Some op_conv2d
  else if bool_decide (ty = "Gemm") then Some op_gemm
  else if bool_decide (ty = "Pad") then Some op_pad
  else if bool_decide (ty = "Relu") then Some op_relu
  else if bool_decide (ty = "Reshape") then Some op_reshape
  else None.
End Handlers.

(** ** The order of the nodes *)

Definition set_name (op : NodeProto) (s : string) : NodeProto := mkNode s (op_type op) (n_input op) (n_output op) (attribute op).
Fixpoint assign_names (idx : Z) (ops : list NodeProto) : list NodeProto :=
  match ops with
  | [] => []
  | op :: ops =>
      (if bool_decide (n_name op = EmptyString) then set_name op (op_type op +:+ "_" +:+ pretty idx) else op) :: assign_names (idx + 1) ops
  end.
Definition name_to_op (ops : list NodeProto) : gmap string NodeProto := foldl (λ m op, <[n_name op := op]> m) ∅ ops.
Definition tensor_owner (ops : list NodeProto) : gmap string string :=
  foldl (λ m op, foldl (λ m out, <[out := n_name op]> m) m (n_output op)) ∅ ops.

(** [dependents], [out_edges] and [node_list] while the nodes are read. *)
Record reading := mkReading { dependents : gmap string Z; out_edges : gmap string (list string); node_list : list string }.
Definition read_input (owner : gmap string string) (name : string) (st : Z * gmap string (list string)) (input : string)
    : Z * gmap string (list string) :=
  match owner !! input with
  | None => st
  | Some input_node => (st.1 + 1, <[input_node := default [] (st.2 !! input_node) ++ [name]]> st.2)
  end.
Definition read_node (owner : gmap string string) (st : reading) (op : NodeProto) : reading :=
  let '(cnt, outs) := foldl (read_input owner (n_name op)) (0, out_edges st) (n_input op) in
  mkReading (<[n_name op := cnt]> (dependents st)) outs (if cnt =? 0 then node_list st ++ [n_name op] else node_list st).
Definition follow (outs : gmap string (list string)) (opname : string) (s : unit) : res (unit * list string) :=
  Ok (s, default [] (outs !! opname)).

(** A name is appended at most once for a node and once for its counter. *)
Definition reorder (ops : list NodeProto) : res (list string) :=
  let st := foldl (read_node (tensor_owner ops)) (mkReading ∅ ∅ []) ops in
  '(_, l) ← kahn (follow (out_edges st)) (2 * length ops) 0 (dependents st) (node_list st) tt;
  py_assert (zlen l =? zlen ops) (Ok l).

(** ** load_onnx *)

Section Load.
  Context (array_values : loc → list Z) (pool_data : loc).

Definition load_input (init : list TensorProto) (t : string * list Z) (st : Graph * tensors) : res (Graph * tensors) :=
  let '(g, ts) := st in
  '(g, x) ← match last (filter (λ w, tp_name w = t.1) init) with
    | None => new_input g t.2
    | Some weight => new_weight g t.2 (Some (tp_data weight))
    end;
  Ok (g, <[t.1 := x]> ts).
Definition load_initializer (weight : TensorProto) (st : Graph * tensors) : res (Graph * tensors) :=
  let '(g, ts) := st in
  match ts !! tp_name weight with
  | Some _ => Ok (g, ts)
  | None =>
      if bool_decide (tp_dims weight ≠ []) then
        '(g, x) ← new_weight g (tp_dims weight) (Some (tp_data weight));
        Ok (g, <[tp_name weight := x]> ts)
      else Ok (g, ts)
  end.
Definition load_node (ops : gmap string NodeProto) (init : list TensorProto) (opname : string) (st : Graph * tensors) : res (Graph * tensors) :=
  let '(g, ts) := st in
  match ops !! opname with
  | None => Ereport KeyError
  | Some op =>
      match dbocg_operators array_values pool_data ts init (op_type op) with
      | None => Ok (g, ts)
      | Some h =>
          '(g, out) ← h op g;
          match out with
          | None => Ok (g, ts)
          | Some t => py_assert (zlen (n_output op) =? 1) (n ← pget (n_output op) 0; Ok (g, <[n := t]> ts))
          end
      end
  end.
Definition load_onnx (m : ModelProto) : res (Graph * tensors) :=
  st ← foldM (load_input (initializer m)) (graph_input m) (new_Graph (new_Model initial_heap), ∅);
  st ← foldM load_initializer (initializer m) st;
  let ops := assign_names 0 (node m) in
  order ← reorder ops;
  foldM (load_node (name_to_op ops) (initializer m)) order st.
End Load.

(** ** Counting dependencies *)

Section Sums.
  Context {A : Type}.
  Implicit Types (f h : A → Z) (l : list A).
Definition total (f : A → Z) (l : list A) : Z := foldr (λ a acc, f a + acc) 0 l.
Lemma total_ext f h l : (∀ a, a ∈ l → f a = h a) → total f l = total h l.
Proof. induction l as [|a l IH]; intros Heq; [done|]. simpl. rewrite Heq, IH by set_solver. done. Qed.
Lemma total_add f h l : total (λ a, f a + h a) l = total f l + total h l.
Proof. induction l as [|a l IH]; simpl; [done|]. rewrite IH. lia. Qed.
Lemma total_zero l : total (λ _, 0) l = 0.
Proof. by induction l. Qed.
Lemma occ_bind_total {K} `{EqDecision K} (x : K) (succs : A → list K) l : occ x (l ≫= succs) = total (λ a, occ x (succs a)) l.
Proof. induction l as [|a l IH]; csimpl; [done|]. rewrite occ_app, IH. done. Qed.
End Sums.

(** Over distinct names, the occurrences of each sum up to the length. *)
Lemma total_unit (names : list string) y : NoDup names → y ∈ names → total (λ a, if decide (a = y) then 1 else 0) names = 1.
Proof.
  induction 1 as [|a names Ha Hnd IH]; [by intros ?%elem_of_nil|]. intros [->|Hy]%elem_of_cons; simpl.
  - rewrite decide_True by done. rewrite (total_ext _ (λ _, 0)), total_zero; [done|]. intros b Hb. rewrite decide_False; [done|]. by intros ->.
  - rewrite decide_False by (by intros ->). by rewrite IH.
Qed.
Lemma total_occ (names l : list string) : NoDup names → l ⊆ names → total (λ a, occ a l) names = zlen l.
Proof.
  intros Hnd. induction l as [|y l IH]; intros Hsub; [apply total_zero|].
  rewrite (total_ext _ (λ a, (if decide (a = y) then 1 else 0) + occ a l)) by (intros; apply occ_cons).
  rewrite total_add, total_unit, IH by set_solver. unfold zlen. simpl. lia.
Qed.
Lemma occ_replicate `{EqDecision K} (x y : K) n : occ x (replicate n y) = if decide (x = y) then Z.of_nat n else 0.
Proof. induction n as [|n IH]; cbn [replicate]; [by case_decide|]. rewrite occ_cons, IH. case_decide; lia. Qed.

Section Reorder.
  Context (ops : list NodeProto) (Hnames : NoDup (n_name <$> ops)).

(** The nodes a node reads from, once for every input. *)
Definition owners (op : NodeProto) : list string := omap (tensor_owner ops !!.) (n_input op).
Definition followers (a : string) : list string := ops ≫= λ op, replicate (Z.to_nat (occ a (owners op))) (n_name op).

Lemma read_inputs owner name ins : ∀ c outs, ∃ outs',
  foldl (read_input owner name) (c, outs) ins = (c + zlen (omap (owner !!.) ins), outs')
  ∧ ∀ k, default [] (outs' !! k) = default [] (outs !! k) ++ replicate (Z.to_nat (occ k (omap (owner !!.) ins))) name.
Proof.
  induction ins as [|i ins IH]; intros c outs; cbn [foldl].
  { exists outs. csimpl. split; [f_equal; unfold zlen; simpl; lia|]. intros k. by rewrite app_nil_r. }
  unfold read_input at 2. csimpl. destruct (owner !! i) as [o|]; [|apply IH]. simpl.
  destruct (IH (c + 1) (<[o := default [] (outs !! o) ++ [name]]> outs)) as (outs' & -> & Hk). exists outs'.
  split; [f_equal; unfold zlen; simpl; lia|]. intros k. rewrite Hk, occ_cons. pose proof (occ_nonneg k (omap (owner !!.) ins)).
  destruct (decide (k = o)) as [->|Hne]; [rewrite lookup_insert_eq|by rewrite lookup_insert_ne].
  simpl. rewrite <-app_assoc. replace (Z.to_nat (1 + occ o (omap (owner !!.) ins))) with (S (Z.to_nat (occ o (omap (owner !!.) ins)))) by lia. done.
Qed.
Lemma read_nodes l : ∀ st, let st' := foldl (read_node (tensor_owner ops)) st l in
  foldl count_node (dependents st, node_list st) ((λ op, (n_name op, zlen (owners op))) <$> l) = (dependents st', node_list st')
  ∧ ∀ k, default [] (out_edges st' !! k) = default [] (out_edges st !! k) ++ (l ≫= λ op, replicate (Z.to_nat (occ k (owners op))) (n_name op)).
Proof.
  induction l as [|op l IH]; intros st; csimpl; [split; [done|]; intros k; by rewrite app_nil_r|].
  destruct (IH (read_node (tensor_owner ops) st op)) as [H1 H2]. rewrite <-H1. unfold read_node in *.
  destruct (read_inputs (tensor_owner ops) (n_name op) (n_input op) 0 (out_edges st)) as (outs' & Hrun & Hk). rewrite Hrun in *. simpl in *.
  split; [done|]. intros k. by rewrite H2, Hk, <-app_assoc.
Qed.

Lemma tensor_owner_name i a : tensor_owner ops !! i = Some a → a ∈ n_name <$> ops.
Proof.
  clear Hnames. assert (∀ l (m : gmap string string), (∀ i a, m !! i = Some a → a ∈ n_name <$> ops) → l ⊆ ops →
    ∀ i a, foldl (λ m op, foldl (λ m out, <[out := n_name op]> m) m (n_output op)) m l !! i = Some a → a ∈ n_name <$> ops) as Hgen.
  { induction l as [|op l IH]; intros m Hm Hsub; [done|]. cbn [foldl]. apply IH; [|set_solver].
    assert (n_name op ∈ n_name <$> ops) as Hop by (apply list_elem_of_fmap; exists op; set_solver).
    revert m Hm. induction (n_output op) as [|out outs IHo]; intros m Hm; [done|]. cbn [foldl]. apply IHo.
    intros j b [[_ <-]|[_ Hb]]%lookup_insert_Some; [done|by eapply Hm]. }
  apply (Hgen ops ∅); [|done]. intros j b. by rewrite lookup_empty.
Qed.
Lemma owners_names op : owners op ⊆ n_name <$> ops.
Proof. intros a (i & _ & Hi)%list_elem_of_omap. by eapply tensor_owner_name. Qed.

Lemma followers_count op : op ∈ ops → occ (n_name op) ((n_name <$> ops) ≫= followers) = zlen (owners op).
Proof.
  intros Hop. rewrite occ_bind_total, <-(total_occ (n_name <$> ops) (owners op) Hnames (owners_names op)).
  apply total_ext. intros a _. unfold followers. rewrite occ_bind_total.
  rewrite (total_ext _ (λ o, if decide (n_name o = n_name op) then occ a (owners op) else 0)).
  - clear -Hnames Hop. induction ops as [|o l IH]; [by apply elem_of_nil in Hop|]. cbn [fmap list_fmap] in Hnames. apply NoDup_cons in Hnames as [Hn Hnd].
    simpl. apply elem_of_cons in Hop as [<-|Hop].
    + rewrite decide_True by done. rewrite (total_ext _ (λ _, 0)), total_zero; [lia|]. intros b Hb. rewrite decide_False; [done|].
      intros Heq. apply Hn. rewrite <-Heq. apply list_elem_of_fmap. by exists b.
    + rewrite decide_False; [by rewrite IH|]. intros Heq. apply Hn. rewrite Heq. apply list_elem_of_fmap. by exists op.
  - intros o Ho. rewrite occ_replicate. pose proof (occ_nonneg a (owners o)).
    destruct (decide (n_name o = n_name op)) as [Heq|Hne]; [|by rewrite decide_False].
    rewrite decide_True by done. assert (o = op) as ->; [|lia]. clear -Hnames Ho Hop Heq.
    apply list_elem_of_lookup_1 in Ho as [i Hi], Hop as [j Hj]. assert (i = j) as ->; [|congruence].
    eapply NoDup_lookup; [exact Hnames|by rewrite list_lookup_fmap, Hi|by rewrite list_lookup_fmap, Hj, Heq].
Qed.
End Reorder.

(** [b] has an input that [a] puts out. *)
Definition depends (ops : list NodeProto) (a b : string) : Prop :=
  ∃ op i, op ∈ ops ∧ n_name op = b ∧ i ∈ n_input op ∧ tensor_owner ops !! i = Some a.

Lemma depends_leads ops a b : depends ops a b ↔ leads (n_name <$> ops) (followers ops) a b.
Proof.
  unfold leads, followers. rewrite list_elem_of_bind. split.
  - intros (op & i & Hop & <- & Hi & Ho). split; [by eapply tensor_owner_name|]. exists op. split; [|done].
    assert (a ∈ owners ops op) as Ha by (apply list_elem_of_omap; by exists i). apply occ_pos in Ha.
    destruct (Z.to_nat (occ a (owners ops op))) eqn:Hn; [lia|]. simpl. by left.
  - intros (_ & op & Hb & Hop). apply elem_of_replicate in Hb as [-> Hn]. assert (0 < occ a (owners ops op)) as Ha by lia.
    apply occ_pos, list_elem_of_omap in Ha as (i & Hi & Ho). by exists op, i.
Qed.
Lemma depends_acyclic ops : (∀ a, ¬ tc (depends ops) a a) ↔ acyclic (n_name <$> ops) (followers ops).
Proof.
  assert (∀ a b, tc (depends ops) a b ↔ tc (leads (n_name <$> ops) (followers ops)) a b) as Heq.
  { intros a b. split; (induction 1 as [x y Hxy|x y z Hxy _ IH]; [apply tc_once|eapply tc_l; [|exact IH]]); by apply depends_leads. }
  unfold acyclic. by setoid_rewrite Heq.
Qed.

Lemma reorder_list ops : NoDup (n_name <$> ops) → ∃ l, kahn_list (n_name <$> ops) (followers ops) (λ _, 0) l
  ∧ reorder ops = py_assert (zlen l =? zlen ops) (Ok l).
Proof.
  intros Hnd. unfold reorder. set (st := foldl _ _ ops). destruct (read_nodes ops ops (mkReading ∅ ∅ [])) as [Hc Hout]. fold st in Hc, Hout. cbn [dependents node_list out_edges] in Hc, Hout.
  assert (count_nodes ((λ k, (k, occ k ((n_name <$> ops) ≫= followers ops) + 0)) <$> (n_name <$> ops)) = (dependents st, node_list st)) as Hcount.
  { unfold count_nodes. rewrite <-Hc. f_equal. rewrite <-list_fmap_compose. apply list_fmap_ext. intros i op Hop%list_elem_of_lookup_2.
    simpl. rewrite followers_count by done. f_equal. lia. }
  destruct (kahn_nodes (follow (out_edges st)) (n_name <$> ops) (followers ops) (λ _, 0) (λ _ _, True) Hnd) with
    (s := tt) (todos := dependents st) (l := node_list st) (fuel := (2 * length ops)%nat) as ([] & l & Hrun & Hl & _); try done.
  - intros a _ b Hb. unfold followers in Hb. apply list_elem_of_bind in Hb as (op & Hb & Hop). apply elem_of_replicate in Hb as [-> _].
    apply list_elem_of_fmap. by exists op.
  - intros _ k [] _ _. exists tt. unfold follow. by rewrite Hout, lookup_empty.
  - rewrite length_fmap. lia.
  - exists l. split; [done|]. by rewrite Hrun.
Qed.

(** C17: [load_onnx] visits the nodes in the order of their dependencies.  If the names of
    the nodes are distinct and no node depends on itself, the order holds every node
    once, after all the nodes whose outputs it reads; if one does, the assertion fails. *)
Theorem reorder_correct ops : NoDup (n_name <$> ops) →
  ((∀ a, ¬ tc (depends ops) a a) → ∃ l, reorder ops = Ok l ∧ l ≡ₚ n_name <$> ops ∧ ordered (depends ops) l)
  ∧ ((∃ a, tc (depends ops) a a) → reorder ops = Ereport AssertionError).
Proof.
  intros Hnd. destruct (reorder_list ops Hnd) as (l & Hl & ->).
  pose proof (kahn_complete _ _ (λ _, 0) Hnd l ltac:(done) Hl) as Hiff. rewrite <-depends_acyclic in Hiff.
  assert (l ≡ₚ n_name <$> ops ↔ zlen l = zlen ops) as Hlen.
  { unfold zlen. split; [intros Hp; by rewrite Hp, length_fmap|]. intros Heq. apply submseteq_length_Permutation; [|rewrite length_fmap; lia].
    apply NoDup_submseteq; [by apply Hl|]. intros x. by apply Hl. }
  split.
  - intros Hac. apply Hiff in Hac. exists l. rewrite (proj1 Hlen Hac), Z.eqb_refl. split_and!; [done|done|].
    intros l1 b l2 Heq a Hab%depends_leads. destruct (kl_order _ _ _ _ Hl (length l1) b) as [_ Hp]; [by rewrite Heq, list_lookup_middle|].
    destruct Hab as [Ha Hb]. destruct (Hp a Ha Hb) as (i & Hi & Hla). rewrite Heq, lookup_app_l in Hla by done. by eapply list_elem_of_lookup_2.
  - intros (a & Ha). destruct (Z.eqb_spec (zlen l) (zlen ops)) as [Heq|]; [|done]. by destruct (proj1 Hiff (proj2 Hlen Heq) a).
Qed.

(** ** Loading builds graphs *)

Lemma pget_elem {A} (l : list A) i x : pget l i = Ok x → x ∈ l.
Proof.
  unfold pget. destruct (py_index l i) as [n|]; simpl; [|done]. destruct (l !! n) eqn:Hn; [|done]. intros [= <-]. by eapply list_elem_of_lookup_2.
Qed.
Lemma pset_elem {A} (l l' : list A) i x y : pset l i x = Ok l' → y ∈ l' → y = x ∨ y ∈ l.
Proof.
  unfold pset. destruct (py_index l i) as [n|]; [|done]. intros [= <-] Hy. apply list_elem_of_lookup_1 in Hy as [j Hj].
  apply list_lookup_insert_Some in Hj as [(_ & -> & _)|[_ Hj]]; [by left|right; by eapply list_elem_of_lookup_2].
Qed.

(** The graph has grown, and the tensors in [out] are its own. *)
Definition grown (l : list Tensor) (g' : Graph) (out : list Tensor) : Prop := ∃ l', built g' l' ∧ l ⊆ l' ∧ out ⊆ l'.
Lemma grown_refl l g out : built g l → out ⊆ l → grown l g out.
Proof. intros Hb Ho. by exists l. Qed.
Lemma grown_snoc l g t : built g (l ++ [t]) → grown l g [t].
Proof. intros Hb. exists (l ++ [t]). split; [done|]. set_solver. Qed.
Lemma grown_trans l l' g out : l ⊆ l' → grown l' g out → grown l g out.
Proof. intros Hsub (l2 & Hb & H1 & H2). exists l2. split_and!; [done|set_solver|done]. Qed.

Lemma get_inputs_grown names ts init : ∀ g l g' r, built g l → (∀ n t, ts !! n = Some t → t ∈ l) →
  get_inputs g ts init names = Ok (g', r) → grown l g' (default [] r).
Proof.
  induction names as [|i names IH]; intros g l g' r Hb Hts Hr; cbn [get_inputs] in Hr.
  { injection Hr as <- <-. apply grown_refl; [done|]. simpl. set_solver. }
  apply res_bind_Ok in Hr as ([g1 t] & H1 & Hr).
  assert (grown l g1 (option_list t)) as (l1 & Hb1 & Hsub & Ht).
  { destruct (ts !! i) as [x|] eqn:Hi; [injection H1 as <- <-; apply grown_refl; [done|]; apply Hts in Hi; simpl; set_solver|].
    destruct (list_find _ init) as [[j w]|]; [|injection H1 as <- <-; apply grown_refl; [done|]; simpl; set_solver].
    apply res_bind_Ok in H1 as ([g2 x] & H1 & [= <- <-]). apply (new_weight_built g l Hb) in H1. by apply grown_snoc. }
  destruct t as [x|]; [|injection Hr as <- <-; by exists l1]. apply res_bind_Ok in Hr as ([g2 rest] & H2 & [= <- <-]).
  destruct (IH g1 l1 g2 rest Hb1) as (l2 & Hb2 & Hsub2 & Hrest); [intros n y Hy%Hts; set_solver|done|].
  exists l2. split_and!; [done|set_solver|]. destruct rest as [rest|]; simpl in *; set_solver.
Qed.

Section Grown.
  Context (array_values : loc → list Z) (pool_data : loc) (ts : tensors) (init : list TensorProto) (l : list Tensor).
  Hypothesis tensors_known : ∀ n t, ts !! n = Some t → t ∈ l.

Lemma with_inputs_grown op g k g' r : built g l →
  (∀ g1 l1 ins g2 t, built g1 l1 → ins ⊆ l1 → k ins g1 = Ok (g2, t) → grown l1 g2 [t]) →
  with_inputs ts init op g k = Ok (g', r) → grown l g' (option_list r).
Proof.
  intros Hb Hk Hr. unfold with_inputs in Hr. apply res_bind_Ok in Hr as ([g1 ins] & H1 & Hr).
  destruct (get_inputs_grown _ _ _ _ _ _ _ Hb tensors_known H1) as (l1 & Hb1 & Hsub & Hins).
  destruct ins as [ins|]; [|injection Hr as <- <-; exists l1; split_and!; [done|done|simpl; set_solver]].
  apply res_bind_Ok in Hr as ([g2 t] & H2 & [= <- <-]). eapply grown_trans; [exact Hsub|]. by apply (Hk g1 l1 ins).
Qed.

Ltac known := repeat match goal with H : pget ?ins _ = Ok _ |- _ => apply pget_elem in H end.

Lemma op_add_grown op g g' r : built g l → op_add ts init op g = Ok (g', r) → grown l g' (option_list r).
Proof.
  intros Hb. apply with_inputs_grown; [done|]. intros g1 l1 ins g2 t Hb1 Hins Hr. inv_run Hr. known.
  apply grown_snoc. eapply element_built; [exact Hb1| | |exact Hr]; set_solver.
Qed.
Lemma op_avgpool2d_grown op g g' r : built g l → op_avgpool2d pool_data ts init op g = Ok (g', r) → grown l g' (option_list r).
Proof.
  intros Hb. apply with_inputs_grown; [done|]. intros g1 l1 ins g2 t Hb1 Hins Hr. inv_run Hr.
  apply grown_snoc. eapply pool2d_avg_built; [exact Hb1| |exact Hr]. known. set_solver.
Qed.
Lemma op_constant_grown op g g' r : built g l → op_constant op g = Ok (g', r) → grown l g' (option_list r).
Proof.
  intros Hb Hr. unfold op_constant in Hr. apply res_bind_Ok in Hr as (attrs & _ & Hr). destruct (attrs !! "value") as [[]|]; try done.
  apply res_bind_Ok in Hr as ([g1 t] & H1 & [= <- <-]). apply (new_weight_built g l Hb) in H1. by apply grown_snoc.
Qed.
Lemma op_conv2d_grown op g g' r : built g l → op_conv2d ts init op g = Ok (g', r) → grown l g' (option_list r).
Proof.
  intros Hb. apply with_inputs_grown; [done|]. intros g1 l1 ins g2 t Hb1 Hins Hr.
  apply res_bind_Ok in Hr as (attrs & _ & Hr). apply res_bind_Ok in Hr as (pads & _ & Hr). apply res_bind_Ok in Hr as (strides & _ & Hr).
  apply res_bind_Ok in Hr as (padding & _ & Hr). apply res_bind_Ok in Hr as (activation & _ & Hr).
  apply res_bind_Ok in Hr as (x & Hx%pget_elem & Hr). apply res_bind_Ok in Hr as (w & Hw%pget_elem & Hr).
  apply res_bind_Ok in Hr as (s0 & _ & Hr). apply res_bind_Ok in Hr as (s1 & _ & Hr). apply res_bind_Ok in Hr as ([g3 out] & H3 & Hr).
  apply (conv2d_built _ _ Hb1) in H3; [|set_solver|set_solver]. destruct (2 <? zlen ins); [|injection Hr as <- <-; by apply grown_snoc].
  apply res_bind_Ok in Hr as (bias & Hbias%pget_elem & Hr). apply res_bind_Ok in Hr as (d & _ & Hr). apply res_bind_Ok in Hr as ([g4 rb] & H4 & Hr).
  apply (reshape_built _ _ H3) in H4; [|set_solver]. apply (element_built _ _ H4) in Hr; [|set_solver|set_solver].
  apply grown_snoc in Hr. eapply grown_trans; [|exact Hr]. set_solver.
Qed.
Lemma transposed_grown attrs name i ins g l1 g' ins' : built g l1 → ins ⊆ l1 → transposed attrs name i ins g = Ok (g', ins') → grown l1 g' ins'.
Proof.
  intros Hb Hins Hr. unfold transposed in Hr. destruct (attrs !! name) as [[[|[]|]| | | | |]|]; try (injection Hr as <- <-; by apply grown_refl).
  apply res_bind_Ok in Hr as (x & Hx%pget_elem & Hr). apply res_bind_Ok in Hr as ([g1 t] & H1 & Hr). apply res_bind_Ok in Hr as (ins1 & Hset & [= <- <-]).
  apply (transpose_built _ _ Hb) in H1; [|set_solver]. exists (l1 ++ [t]). split_and!; [done|set_solver|].
  intros y Hy. apply (pset_elem _ _ _ _ _ Hset) in Hy. set_solver.
Qed.
Lemma op_gemm_grown op g g' r : built g l → op_gemm ts init op g = Ok (g', r) → grown l g' (option_list r).
Proof.
  intros Hb. apply with_inputs_grown; [done|]. intros g1 l1 ins g2 t Hb1 Hins Hr. apply res_bind_Ok in Hr as (attrs & _ & Hr).
  apply res_bind_Ok in Hr as ([g3 ins3] & H3 & Hr). apply (transposed_grown _ _ _ _ _ l1) in H3 as (l3 & Hb3 & Hs3 & Hi3); [|done|done].
  apply res_bind_Ok in Hr as ([g4 ins4] & H4 & Hr). apply (transposed_grown _ _ _ _ _ l3) in H4 as (l4 & Hb4 & Hs4 & Hi4); [|done|done].
  apply res_bind_Ok in Hr as (x & Hx%pget_elem & Hr). apply res_bind_Ok in Hr as (w & Hw%pget_elem & Hr). apply res_bind_Ok in Hr as ([g5 out] & H5 & Hr).
  apply (matmul_built _ _ Hb4) in H5; [|set_solver|set_solver]. apply (grown_trans _ l4); [set_solver|].
  destruct (2 <? zlen ins4); [|injection Hr as <- <-; by apply grown_snoc]. apply res_bind_Ok in Hr as (b & Hbias%pget_elem & Hr).
  apply (element_built _ _ H5) in Hr; [|set_solver|set_solver]. apply grown_snoc in Hr. eapply grown_trans; [|exact Hr]. set_solver.
Qed.
Lemma op_pad_grown op g g' r : built g l → op_pad ts init op g = Ok (g', r) → grown l g' (option_list r).
Proof.
  intros Hb. apply with_inputs_grown; [done|]. intros g1 l1 ins g2 t Hb1 Hins Hr. apply res_bind_Ok in Hr as (attrs & _ & Hr).
  apply res_bind_Ok in Hr as (x & Hx%pget_elem & [= <- <-]). apply grown_refl; [done|set_solver].
Qed.
Lemma op_relu_grown op g g' r : built g l → op_relu ts init op g = Ok (g', r) → grown l g' (option_list r).
Proof.
  intros Hb. apply with_inputs_grown; [done|]. intros g1 l1 ins g2 t Hb1 Hins Hr. inv_run Hr. known.
  apply grown_snoc. eapply relu_built; [exact Hb1| |exact Hr]. set_solver.
Qed.
Lemma op_reshape_grown op g g' r : built g l → op_reshape array_values ts init op g = Ok (g', r) → grown l g' (option_list r).
Proof.
  intros Hb. apply with_inputs_grown; [done|]. intros g1 l1 ins g2 t Hb1 Hins Hr. apply assert_Ok in Hr as [_ Hr].
  apply res_bind_Ok in Hr as (s & _ & Hr). destruct (data_ptr s); [|done]. apply res_bind_Ok in Hr as (x & Hx%pget_elem & Hr).
  apply grown_snoc. eapply reshape_built; [exact Hb1| |exact Hr]. set_solver.
Qed.
Lemma handler_grown ty h op g g' r : built g l → dbocg_operators array_values pool_data ts init ty = Some h → h op g = Ok (g', r) →
  grown l g' (option_list r).
Proof.
  intros Hb. unfold dbocg_operators.
  repeat (case_bool_decide; [intros [= <-]|]); [| | | | | | | |done].
  - by apply op_add_grown.
  - by apply op_avgpool2d_grown.
  - by apply op_constant_grown.
  - by apply op_conv2d_grown.
  - by apply op_gemm_grown.
  - by apply op_pad_grown.
  - by apply op_relu_grown.
  - by apply op_reshape_grown.
Qed.
End Grown.

(** The graph is built, and the tensors by name are its own. *)
Definition loaded (st : Graph * tensors) : Prop := ∃ l, built st.1 l ∧ ∀ n t, st.2 !! n = Some t → t ∈ l.
Lemma loaded_insert (g' : Graph) (ts : tensors) l n t : (∀ n t, ts !! n = Some t → t ∈ l) → grown l g' [t] → loaded (g', <[n := t]> ts).
Proof.
  intros Hts (l' & Hb & Hsub & Ht). exists l'. split; [done|]. simpl. intros n' t' [[_ <-]|[_ Hin]]%lookup_insert_Some; [set_solver|].
  apply Hts in Hin. set_solver.
Qed.

Section LoadBuilt.
  Context (array_values : loc → list Z) (pool_data : loc).

Lemma load_input_loaded init t st st' : loaded st → load_input init t st = Ok st' → loaded st'.
Proof.
  destruct st as [g ts]. intros (l & Hb & Hts) Hr. cbn [load_input] in Hr. apply res_bind_Ok in Hr as ([g1 x] & H1 & [= <-]).
  apply loaded_insert with l; [done|]. apply grown_snoc. destruct (last _); [by eapply new_weight_built|by eapply new_input_built].
Qed.
Lemma load_initializer_loaded w st st' : loaded st → load_initializer w st = Ok st' → loaded st'.
Proof.
  destruct st as [g ts]. intros (l & Hb & Hts) Hr. cbn [load_initializer] in Hr.
  destruct (ts !! tp_name w); [injection Hr as <-; by exists l|]. case_bool_decide; [|injection Hr as <-; by exists l].
  apply res_bind_Ok in Hr as ([g1 x] & H1 & [= <-]). apply loaded_insert with l; [done|]. by eapply grown_snoc, new_weight_built.
Qed.
Lemma load_node_loaded ops init opname st st' : loaded st → load_node array_values pool_data ops init opname st = Ok st' → loaded st'.
Proof.
  destruct st as [g ts]. intros (l & Hb & Hts) Hr. cbn [load_node] in Hr. destruct (ops !! opname) as [op|]; [|done].
  destruct (dbocg_operators _ _ _ _ _) as [h|] eqn:Hh; [|injection Hr as <-; by exists l]. apply res_bind_Ok in Hr as ([g1 out] & H1 & Hr).
  eapply handler_grown in H1; [|exact Hts|exact Hb|exact Hh].
  destruct out as [t|]; [|injection Hr as <-; destruct H1 as (l' & Hb' & Hsub & _); exists l'; split; [done|]; intros n t Ht%Hts; set_solver].
  apply assert_Ok in Hr as [_ Hr]. apply res_bind_Ok in Hr as (n & _ & [= <-]). by apply loaded_insert with l.
Qed.
Lemma load_onnx_loaded m st : load_onnx array_values pool_data m = Ok st → loaded st.
Proof.
  intros Hr. unfold load_onnx in Hr. apply res_bind_Ok in Hr as (st1 & H1 & Hr). apply res_bind_Ok in Hr as (st2 & H2 & Hr).
  apply res_bind_Ok in Hr as (order & _ & Hr).
  assert (loaded (new_Graph (new_Model initial_heap), ∅)) as H0 by (exists []; split; [apply built_new|]; simpl; intros n t; by rewrite lookup_empty).
  assert (loaded st1) as Hl1 by (refine (foldM_list_inv loaded _ _ _ _ H0 _ H1); intros; by eapply load_input_loaded).
  assert (loaded st2) as Hl2 by (refine (foldM_list_inv loaded _ _ _ _ Hl1 _ H2); intros; by eapply load_initializer_loaded).
  refine (foldM_list_inv loaded _ _ _ _ Hl2 _ Hr). intros; by eapply load_node_loaded.
Qed.
End LoadBuilt.

(** C7: the graph of every model that loads can be exported.  Whatever the file holds, if
    [load_onnx] returns a graph, [get_operator_list] reaches all its operators: it
    returns each one that is neither an input nor a weight once, after all the operators
    it reads from. *)
Theorem loaded_model_listed array_values pool_data m g ts : load_onnx array_values pool_data m = Ok (g, ts) →
  ∃ g' ops, get_operator_list g = Ok (g', ops) ∧ NoDup ops
    ∧ (∀ op, op ∈ ops ↔ op ∈ nodes g ∧ operation (g_model g) op)
    ∧ ordered (λ a b, feeds g a b ∧ a ∈ nodes g ∧ operation (g_model g) a) ops.
Proof.
  intros (l & Hb & _)%load_onnx_loaded. destruct (proj1 (get_operator_list_correct g (bu_wf _ _ Hb) (built_objects _ _ Hb)) (built_loop_free _ _ Hb))
    as (g' & ops & Hrun & Hnd & Hin & Hord & _). by exists g', ops.
Qed.

(** ** A model *)

(** A residual block, its nodes in the wrong order and only some of them named. *)
Definition conv_node (name x w b out : string) : NodeProto :=
  mkNode name "Conv" [x; w; b] [out] [("kernel_shape", AInts [3; 3]); ("strides", AInts [1; 1]); ("pads", AInts [1; 1; 1; 1])].
Definition residual_model : ModelProto :=
  mkModelProto [("x", [1; 4; 8; 8])]
    [mkTensorProto "w1" [4; 4; 3; 3] 1%positive; mkTensorProto "b1" [4] 2%positive;
     mkTensorProto "w2" [4; 4; 3; 3] 3%positive; mkTensorProto "b2" [4] 4%positive]
    [mkNode "last" "Relu" ["sum"] ["y"] []; mkNode EmptyString "Add" ["c2"; "r1"] ["sum"] []; conv_node "conv2" "r1" "w2" "b2" "c2";
     mkNode EmptyString "Relu" ["c1"] ["r1"] []; conv_node "conv1" "x" "w1" "b1" "c1"].
Definition no_values (l : loc) : list Z := [].

(** A numbering of the nodes that grows along the dependencies rules out loops. *)
Definition ranked (rank : string → Z) (ops : list NodeProto) : bool :=
  forallb (λ op, forallb (λ i, match tensor_owner ops !! i with Some a => rank a <? rank (n_name op) | None => true end) (n_input op)) ops.
Lemma ranked_acyclic rank ops : ranked rank ops = true → ∀ a, ¬ tc (depends ops) a a.
Proof.
  unfold ranked. rewrite forallb_forall. intros H a Ha.
  assert (∀ a b, tc (depends ops) a b → rank a < rank b) as Hlt; [|specialize (Hlt a a Ha); lia].
  assert (∀ a b, depends ops a b → rank a < rank b) as H1.
  { intros x y (op & i & Hop%list_elem_of_In & <- & Hi%list_elem_of_In & Ho). specialize (H op Hop). rewrite forallb_forall in H.
    specialize (H i Hi). rewrite Ho in H. lia. }
  induction 1 as [x y Hxy%H1|x y z Hxy%H1 _ IH]; lia.
Qed.

Lemma reorder_correct_witness :
  ∃ l, reorder (assign_names 0 (node residual_model)) = Ok l ∧ l ≡ₚ ["last"; "Add_1"; "conv2"; "Relu_3"; "conv1"].
Proof.
  assert (NoDup (n_name <$> assign_names 0 (node residual_model))) as Hnd by (apply (bool_decide_eq_true_1 _); vm_compute; reflexivity).
  set (rank := λ s : string, match s with "conv1" => 0 | "Relu_3" => 1 | "conv2" => 2 | "Add_1" => 3 | _ => 4 end%string).
  assert (ranked rank (assign_names 0 (node residual_model)) = true) as Hrank by (vm_compute; reflexivity).
  destruct (proj1 (reorder_correct _ Hnd) (ranked_acyclic _ _ Hrank)) as (l & Hl & Hp & _). exists l. exact (conj Hl Hp).
Defined.

Lemma loaded_model_listed_witness :
  ∃ g ts g' ops, load_onnx no_values 9%positive residual_model = Ok (g, ts) ∧ get_operator_list g = Ok (g', ops) ∧ NoDup ops.
Proof.
  assert ((_ ← load_onnx no_values 9%positive residual_model; Ok tt) = Ok tt) as H by (vm_compute; reflexivity).
  apply res_bind_Ok in H as ([g ts] & E & _).
  destruct (loaded_model_listed no_values 9%positive residual_model g ts E) as (g' & ops & Hrun & Hnd & _).
  exists g, ts, g', ops. exact (conj E (conj Hrun Hnd)).
Defined.
