(* ===== verification/DbExport.v ===== *)
(** * DbExport: reading a graph, and the query it becomes

    The accessors of [graph.py] that [nudf.py] uses, and [nUDF.export], which turns the
    operators of a graph into a [WITH] query of the SQL functions of the extension.

    A table of the query is a name and a command; [render] is the text of a command.
    The arrays of weights stand outside of the model: the names of the tables that hold
    them are kept in [tables].  Writing the text to a file is left out.

    The theorems show that the padding that is exported for a convolution makes the
    kernels of the extension compute the size the graph has recorded, except in one
    case, and when the tables of the query refer only to tables before them.  Examples
    show queries that refer to tables which are never defined. *)

From stdpp Require Import pretty.
From S2P Require Import Prelude PgArray Im2col DbTensor DbOp DbModel DbGraph DbLoad.

Open Scope Z_scope.

(** ** Accessors *)

Definition op_table (t : OpType) : option string :=
  match t with
  | OP_INPUT => Some "Input" | OP_WEIGHT => Some "Weight" | OP_CONV2D => Some "Conv" | OP_DROPOUT => Some "Dropout"
  | OP_POOL2D_MAX => Some "MaxPool" | OP_POOL2D_AVG => Some "AveragePool" | OP_RELU => Some "Relu" | OP_SIGMOID => Some "Sigmoid"
  | OP_TANH => Some "Tanh" | OP_BATCHNORM => Some "BatchNormalization" | OP_CONCAT => Some "Concat" | OP_SPLIT => Some "Split"
  | OP_RESHAPE => Some "Reshape" | OP_TRANSPOSE => Some "Transpose" | OP_EW_ADD => Some "Add" | OP_EW_MUL => Some "Mul"
  | OP_MATMUL => Some "MatMul" | OP_SQUEEZE => Some "Squeeze" | OP_UNSQUEEZE => Some "Unsqueeze" | OP_EW_SUB => Some "Sub"
  | OP_EW_DIV => Some "Div" | OP_EW_EQUAL => Some "Equal" | OP_EW_GREATER => Some "Greater" | OP_EW_LESS => Some "Less"
  | OP_EW_MAX => Some "Max" | OP_EW_MIN => Some "Min" | OP_REDUCE_ARGMAX => Some "ArgMax" | OP_REDUCE_ARGMIN => Some "ArgMin"
  | OP_REDUCE_MAX => Some "ReduceMax" | OP_REDUCE_MEAN => Some "ReduceMean" | OP_REDUCE_MIN => Some "ReduceMin"
  | OP_REDUCE_PROD => Some "ReduceProd" | OP_REDUCE_SUM => Some "ReduceSum" | OP_PAD => Some "Pad" | OP_SHAPE => Some "Shape"
  | OP_SIZE => Some "Size" | OP_TOPK => Some "TopK" | OP_WHERE => Some "Where" | OP_CEIL => Some "Ceil" | OP_CAST => Some "Cast"
  | OP_EXP => Some "Exp" | OP_ROUND => Some "Round" | OP_LOG => Some "Log" | OP_LOGICAL_NOT => Some "Not"
  | OP_SQRT => Some "Sqrt" | OP_SLICE => Some "Slice" | OP_RESIZE => Some "Resize" | OP_BROADCAST_ADD => Some "Add"
  | _ => None
  end.

Definition get_operator_type (m : Model) (op : Op) : res string :=
  o ← op_object m op;
  match op_table (type o) with Some s => Ok s | None => Ereport AssertionError end.

Definition get_input_edges (g : Graph) (op : Op) : res (list (option Edge)) :=
  match inEdges g !! op with
  | None => Ereport AssertionError
  | Some inList =>
      es ← foldM (λ e es, pset es (dstIdx e) (Some e)) (edges inList) (replicate (size inList) None);
      o ← op_object (g_model g) op;
      if bool_decide (type o = OP_POOL2D_MAX) || bool_decide (type o = OP_POOL2D_AVG) then
        py_assert ((zlen es =? 1) || (zlen es =? 2))
        (Ok (if zlen es =? 2 then take 1 es else es))
      else Ok es
  end.

(** The first [numDim] dimensions of a tensor. *)
Definition dims_of (t : Tensor) : res (list Z) :=
  foldM (λ i ds, x ← pget (dim t) i; Ok (ds ++ [x])) (py_range (numDim t)) [].
Definition get_input_dims (m : Model) (op : Op) (i : Z) : res (list Z) :=
  o ← op_object m op;
  py_assert (i <? numInputs o) (t ← pget (inputs o) i; dims_of t).
Definition get_output_dims (m : Model) (op : Op) (i : Z) : res (list Z) :=
  o ← op_object m op;
  py_assert (i <? numOutputs o) (t ← pget (outputs o) i; dims_of t).

Definition get_weight_value (m : Model) (op : Op) : res loc :=
  o ← op_object m op;
  py_assert (bool_decide (type o = OP_WEIGHT)) (py_assert (numInputs o =? 1) (py_assert (numOutputs o =? 1)
  (t ← pget (inputs o) 0;
   match data_ptr t with Some d => Ok d | None => Ereport AssertionError end))).

(** [assert op.ptr.get_int_parameter(para, v)], for a parameter that is a number. *)
Definition int_parameter (o : OpBase) (para : PMParameter) : res Z :=
  v ← get_int_parameter o para;
  match v with Some (KInt z) => Ok z | Some _ => Ereport TypeError | None => Ereport AssertionError end.

(** The padding of both sides along one axis. *)
Definition same_pad (size kernel stride : Z) : res Z :=
  r ← py_mod size stride;
  let pad := if r =? 0 then Z.max (kernel - stride) 0 else Z.max (kernel - r) 0 in
  Ok (if pad mod 2 =? 1 then pad + 1 else pad).

Inductive attr := kernel_shape | strides | pads.
(** The width of the kernel is read with [PM_KERNEL_H]. *)
Definition get_operator_attr (m : Model) (op : Op) (a : attr) : res (list Z) :=
  o ← op_object m op;
  match a with
  | kernel_shape => kh ← int_parameter o PM_KERNEL_H; kw ← int_parameter o PM_KERNEL_H; Ok [kh; kw]
  | strides => sh ← int_parameter o PM_STRIDE_H; sw ← int_parameter o PM_STRIDE_W; Ok [sh; sw]
  | pads =>
      pm ← get_int_parameter o PM_PAD;
      match pm with
      | None => Ereport AssertionError
      | Some (KPad PD_MODE_VALID) => Ok [0; 0; 0; 0]
      | Some (KPad PD_MODE_SAME) =>
          dims ← get_input_dims m op 0;
          py_assert (zlen dims =? 4)
          (kh ← int_parameter o PM_KERNEL_H; kw ← int_parameter o PM_KERNEL_H;
           sh ← int_parameter o PM_STRIDE_H; sw ← int_parameter o PM_STRIDE_W;
           inputH ← pget dims 2; inputW ← pget dims 3;
           padH ← same_pad inputH kh sh; padW ← same_pad inputW kw sw;
           Ok [padH / 2; padW / 2; padH - padH / 2; padW - padW / 2])
      | Some _ => Ereport AssertionError
      end
  end.

(** ** Names of tables *)

Definition input_weight_names (ty : string) : option (list string) :=
  if bool_decide (ty = "Add") then Some ["input1"; "input2"]
  else if bool_decide (ty = "AveragePool") then Some ["input"]
  else if bool_decide (ty = "BatchNormalization") then Some ["input"; "scale"; "bias"; "mean"; "var"]
  else if bool_decide (ty = "Concat") then Some ["input1"; "input2"; "input3"; "input4"; "input5"; "input6"]
  else if bool_decide (ty = "Conv") then Some ["input"; "weight"; "bias"]
  else if bool_decide (ty = "MatMul") then Some ["input"; "weight"]
  else if bool_decide (ty = "Mul") then Some ["input1"; "input2"]
  else if bool_decide (ty = "Reshape") then Some ["input"; "shape"]
  else if bool_decide (ty = "BroadcastAdd") then Some ["input1"; "input2"]
  else if bool_decide (ty = "Transpose") then Some ["input"]
  else None.

Definition INPUT_TABLE : string := "input_feature_map".
Definition output_tensor_name (m : Model) (op : Op) (i : Z) : res string :=
  ty ← get_operator_type m op;
  Ok (ty +:+ pretty (guid op) +:+ "_fwd" +:+ pretty i).
Definition input_tensor_name (m : Model) (e : Edge) (op : Op) : res string :=
  intype ← get_operator_type m (srcOp e);
  if bool_decide (intype = "Input") then Ok INPUT_TABLE
  else if bool_decide (intype = "Weight") then
    mytype ← get_operator_type m op;
    match input_weight_names mytype with
    | None => Ereport KeyError
    | Some names => n ← pget names (dstIdx e); Ok (mytype +:+ pretty (guid op) +:+ "_" +:+ n)
    end
  else output_tensor_name m (srcOp e) (srcIdx e).

(** ** Commands *)

Inductive query :=
  | QConvInput (i w : string)
  | QConv (i w : string) (kernel padding stride : Z)
  | QRelu (i : string)
  | QAdd (i j : string)
  | QMatMul (i w : string)
  | QAvgPool (i : string) (kernel : Z)
  | QFlatten (i : string).

Definition nl : string := String (Ascii.ascii_of_N 10) EmptyString.
Definition tab : string := String (Ascii.ascii_of_N 9) EmptyString.
Definition render (q : query) : string :=
  match q with
  | QConvInput i w => "SELECT id, kfm(W.val, I.value) AS value" +:+ nl +:+ tab +:+ "FROM " +:+ i +:+ " I, " +:+ w +:+ " W"
  | QConv i w k p s =>
      "SELECT id, kfm(W.val, im2col(I.value, kernel:=" +:+ pretty k +:+ ", padding:=" +:+ pretty p +:+ ", stride:=" +:+ pretty s
        +:+ ")) AS value" +:+ nl +:+ tab +:+ "FROM " +:+ i +:+ " I, " +:+ w +:+ " W"
  | QRelu i => "SELECT id, relu(I.value) AS value" +:+ nl +:+ tab +:+ "FROM " +:+ i +:+ " I"
  | QAdd i j =>
      "SELECT I1.id, madd(I1.value, I2.value) AS value" +:+ nl +:+ tab +:+ "FROM " +:+ i +:+ " I1" +:+ nl +:+ tab +:+ "INNER JOIN "
        +:+ j +:+ " I2 on I1.id=I2.id"
  | QMatMul i w => "SELECT id, mvm(W.val, I.value) AS value" +:+ nl +:+ tab +:+ "FROM " +:+ i +:+ " I, " +:+ w +:+ " W"
  | QAvgPool i k =>
      "SELECT id, avgpool(I.value, kernel:=" +:+ pretty k +:+ ") AS value" +:+ nl +:+ tab +:+ "FROM " +:+ i +:+ " I"
  | QFlatten i =>
      "SELECT id, array_agg(t.value) as value" +:+ nl +:+ tab +:+ "FROM (SELECT id, unnest(I.value) as value FROM " +:+ i
        +:+ " I) AS t" +:+ nl +:+ tab +:+ "GROUP BY id"
  end.

(** ** Export *)

(** The variables of the loop: the tables of the query, the operators whose output
    nothing has read yet, the tables that stand for others, and the tables of weights. *)
Record exported := mkExported {
  query_tables : list (string * query); output_guids : list (Z * Z * Op); skip_nodes : gmap string string; tables : list string
}.
Definition set_guids (st : exported) (l : list (Z * Z * Op)) : exported := mkExported (query_tables st) l (skip_nodes st) (tables st).

(** [d.pop(k, None)] and [d[k] = op] on a dictionary that is read in the order of insertion. *)
Definition pop_guid (k : Z * Z) (l : list (Z * Z * Op)) : list (Z * Z * Op) := filter (λ kv, kv.1 ≠ k) l.
Fixpoint put_guid (k : Z * Z) (op : Op) (l : list (Z * Z * Op)) : list (Z * Z * Op) :=
  match l with
  | [] => [(k, op)]
  | kv :: l => if bool_decide (kv.1 = k) then (k, op) :: l else kv :: put_guid k op l
  end.

(** [for e in inedges].  The array of a weight has the dimensions of its tensor; only
    the weights of [Conv] and [Transpose] are kept in [table_mapping_weight]. *)
Definition export_input (g : Graph) (op : Op) (mytype : string) (oe : option Edge) (st : exported * list string)
    : res (exported * list string) :=
  match oe with
  | None => Ereport AttributeError
  | Some e =>
      let '(st, ins) := st in
      intype ← get_operator_type (g_model g) (srcOp e);
      in_name ← input_tensor_name (g_model g) e op;
      let st := set_guids st (pop_guid (guid (srcOp e), srcIdx e) (output_guids st)) in
      if bool_decide (intype = "Weight") then
        weight_dims ← get_input_dims (g_model g) op (dstIdx e);
        _ ← get_weight_value (g_model g) (srcOp e);
        if bool_decide (mytype = "Conv") || bool_decide (mytype = "Transpose") then
          (* [weight_val.reshape(weight_val.shape[0], -1)] *)
          d ← pget weight_dims 0;
          check (negb (d =? 0)) ValueError
          (Ok (mkExported (query_tables st) (output_guids st) (skip_nodes st) (tables st ++ [in_name]), ins ++ [in_name]))
        else Ok (st, ins ++ [in_name])
      else Ok (st, ins ++ [in_name])
  end.
(** [for i in range(op.ptr.numOutputs)] *)
Definition export_outputs (g : Graph) (op : Op) (st : exported) : res (exported * list string) :=
  o ← op_object (g_model g) op;
  foldM (λ i '(st, outs),
    name ← output_tensor_name (g_model g) op i;
    Ok (set_guids st (put_guid (guid op, i) op (output_guids st)), outs ++ [name])) (py_range (numOutputs o)) (st, []).

(** What becomes of an operator: a table, another name for its first input, or nothing. *)
Inductive export_result := Table (q : query) | Alias | Nothing.
Definition through (skip : gmap string string) (name : string) : string := default name (skip !! name).
Definition export_command (g : Graph) (op : Op) (mytype : string) (ins : list string) (skip : gmap string string) : res export_result :=
  let m := g_model g in
  if bool_decide (mytype = "Conv") then
    kernels ← get_operator_attr m op kernel_shape;
    strides ← get_operator_attr m op strides;
    paddings ← get_operator_attr m op pads;
    i0 ← pget ins 0; i1 ← pget ins 1;
    if bool_decide (i0 = INPUT_TABLE) then Ok (Table (QConvInput i0 i1))
    else k ← pget kernels 0; p ← pget paddings 0; s ← pget strides 0; Ok (Table (QConv i0 i1 k p s))
  else if bool_decide (mytype = "Relu") then
    i0 ← pget ins 0; Ok (Table (QRelu (through skip i0)))
  else if bool_decide (mytype = "Add") then
    i1 ← pget ins 1;
    if String.prefix "Reshape" i1 then Ok Alias
    else i0 ← pget ins 0; Ok (Table (QAdd (through skip i0) (through skip i1)))
  else if bool_decide (mytype = "MatMul") then
    i1 ← pget ins 1; i0 ← pget ins 0; Ok (Table (QMatMul i0 (through skip i1)))
  else if bool_decide (mytype = "AveragePool") then
    kernels ← get_operator_attr m op kernel_shape;
    k ← pget kernels 0; i0 ← pget ins 0; Ok (Table (QAvgPool i0 k))
  else if bool_decide (mytype = "Reshape") then
    shape ← get_output_dims m op 0;
    if negb (zlen shape =? 2) then Ok Nothing else i0 ← pget ins 0; Ok (Table (QFlatten i0))
  else if bool_decide (mytype = "Transpose") then Ok Alias
  else Ok Nothing.

Definition export_op (g : Graph) (op : Op) (st : exported) : res exported :=
  mytype ← get_operator_type (g_model g) op;
  inedges ← get_input_edges g op;
  '(st, ins) ← foldM (export_input g op mytype) inedges (st, []);
  '(st, outs) ← export_outputs g op st;
  r ← export_command g op mytype ins (skip_nodes st);
  match r with
  | Nothing => Ok st
  | Alias =>
      i0 ← pget ins 0; name ← output_tensor_name (g_model g) op 0;
      Ok (mkExported (query_tables st) (output_guids st) (<[name := i0]> (skip_nodes st)) (tables st))
  | Table q =>
      name ← pget outs 0;
      Ok (mkExported (query_tables st ++ [(name, q)]) (output_guids st) (skip_nodes st) (tables st))
  end.

(** The operators of the query: all but the last. *)
Definition export_ops (g : Graph) : res (Graph * list Op) :=
  '(g, opList) ← get_operator_list g;
  check (bool_decide (opList ≠ [])) IndexError (Ok (g, take (length opList - 1) opList)).
Definition export_tables (g : Graph) : res (Graph * exported) :=
  '(g, ops) ← export_ops g;
  st ← foldM (export_op g) ops (mkExported [] [] ∅ []);
  Ok (g, st).

Definition table_text (t : string * query) : string :=
  "," +:+ nl +:+ "  " +:+ t.1 +:+ " AS (" +:+ nl +:+ tab +:+ render t.2 +:+ nl +:+ tab +:+ ")".
Definition export (g : Graph) : res string :=
  '(g, st) ← export_tables g;
  graph_outputs ← foldM (λ kv names, n ← output_tensor_name (g_model g) kv.2 kv.1.2; Ok (names ++ [n])) (output_guids st) [];
  out ← pget graph_outputs 0;
  Ok ("WITH" +:+ nl +:+ "  input_feature_map AS (" +:+ nl +:+ tab +:+ "SELECT id, im2col_init(c.image) AS value" +:+ nl +:+ tab +:+ ")"
      +:+ String.concat EmptyString (table_text <$> query_tables st)
      +:+ nl +:+ "SELECT l.name AS res FROM" +:+ nl +:+ "cifar10_labels l" +:+ nl +:+ "JOIN (" +:+ nl +:+ tab
      +:+ "SELECT argmax(value) AS label FROM " +:+ out +:+ ") t" +:+ nl +:+ tab +:+ "ON t.label = l.label").

(** ** The padding that is exported *)

Lemma dims_of_ok t ds : has_shape t ds → dims_of t = Ok ds.
Proof.
  intros Ht. unfold dims_of, py_range. rewrite (hs_num _ _ Ht). assert (0 <= zlen ds) as Hn by (unfold zlen; lia).
  match goal with |- foldM ?f _ ?st = _ =>
    destruct (foldM_up (λ i s, s = take (Z.to_nat i) ds) f 0 (zlen ds) st) as (s & -> & ->); [done|done| |] end.
  - intros i s Hi ->. destruct (lookup_lt_is_Some_2 ds (Z.to_nat i)) as [d Hd]; [unfold zlen in *; lia|].
    rewrite (shape_dim_at t ds i d Ht Hd) by lia. cbn [mbind res_bind]. eexists. split; [done|].
    replace (Z.to_nat (i + 1)) with (S (Z.to_nat i)) by lia. by rewrite (take_S_r _ _ _ Hd).
  - rewrite take_ge by (unfold zlen; lia). done.
Qed.

(** The padding of both sides: what is missing to whole strides, made even. *)
Lemma same_pad_even size k s : 1 <= s → 1 <= k → 0 <= size →
  ∃ pad0 pad, same_pad size k s = Ok pad ∧ pad mod 2 = 0 ∧ 0 <= pad <= k ∧ (pad = pad0 ∧ pad0 mod 2 = 0 ∨ pad = pad0 + 1 ∧ pad0 mod 2 = 1)
    ∧ pad0 = (if size mod s =? 0 then Z.max (k - s) 0 else Z.max (k - size mod s) 0).
Proof.
  intros Hs Hk Hsize. unfold same_pad, py_mod. rewrite check_true by lia. cbn [mbind res_bind].
  pose proof (Z.mod_pos_bound size s ltac:(lia)) as Hr. set (pad0 := if size mod s =? 0 then _ else _).
  pose proof (Z.mod_pos_bound pad0 2 ltac:(lia)) as Hm. assert (0 <= pad0 < k) as Hb by (subst pad0; destruct (Z.eqb_spec (size mod s) 0); lia).
  exists pad0. eexists. split; [done|]. destruct (Z.eqb_spec (pad0 mod 2) 1) as [He|He]; split_and!; try lia; try done.
  rewrite Z.add_mod, He by lia. done.
Qed.
(** The number of positions of a kernel with that padding. *)
Lemma same_pad_size size k s : 1 <= s → 1 <= k → 1 <= size →
  ∃ pad, same_pad size k s = Ok pad ∧ pad mod 2 = 0 ∧ 0 <= pad <= k ∧ 0 <= size + pad - k
    ∧ (size + pad - k) / s + 1 = (size + s - 1) / s + (if (s =? 1) && (k mod 2 =? 0) then 1 else 0).
Proof.
  intros Hs Hk Hsize. destruct (same_pad_even size k s Hs Hk ltac:(lia)) as (pad0 & pad & -> & H2 & Hle & Hcase & Hpad).
  exists pad. split; [done|]. pose proof (Z.div_mod size s ltac:(lia)) as Hd. pose proof (Z.mod_pos_bound size s ltac:(lia)) as Hr.
  set (q := size / s) in *. set (r := size mod s) in *.
  assert ((size + s - 1) / s = q + if r =? 0 then 0 else 1) as ->.
  { symmetry. destruct (Z.eqb_spec r 0); [apply Z.div_unique with (s - 1); lia|apply Z.div_unique with (r - 1); lia]. }
  assert (0 <= q) as Hq by (apply Z.div_pos; lia).
  assert (0 <= s * q ∧ (r = 0 → s <= s * q)) as [Hq0 Hq1].
  { split; [nia|]. intros ?. destruct (decide (q = 0)) as [Hz|?]; [rewrite Hz in Hd; lia|nia]. }
  split_and!; [done|lia|lia|destruct (Z.eqb_spec r 0); lia|].
  destruct (Z.eqb_spec s 1) as [->|Hs1]; simpl.
  - assert (r = 0) as Hr0 by lia. rewrite Hr0 in *. simpl in *. rewrite Z.div_1_r, Z.max_l in * by lia.
    assert (k mod 2 = 0 ↔ pad0 mod 2 = 1) as Hpar.
    { subst pad0. pose proof (Z.div_mod k 2 ltac:(lia)). pose proof (Z.mod_pos_bound k 2 ltac:(lia)).
      pose proof (Z.div_mod (k - 1) 2 ltac:(lia)). pose proof (Z.mod_pos_bound (k - 1) 2 ltac:(lia)). lia. }
    destruct (Z.eqb_spec (k mod 2) 0) as [He|He]; lia.
  - assert (pad0 = 0 → pad = 0) as Hz by (intros Hz; rewrite Hz in Hcase; cbv in Hcase; naive_solver).
    revert Hpad. destruct (Z.eqb_spec r 0) as [Hr0|Hr0]; intros Hpad.
    + destruct (decide (s <= k)).
      * assert ((size + pad - k) / s = q - 1) as ->; [|lia]. symmetry. apply Z.div_unique with (pad - pad0); lia.
      * assert ((size + pad - k) / s = q - 1) as ->; [|lia]. symmetry. apply Z.div_unique with (s - k); lia.
    + destruct (decide (r <= k)).
      * assert ((size + pad - k) / s = q) as ->; [|lia]. symmetry. apply Z.div_unique with (pad - pad0); lia.
      * assert ((size + pad - k) / s = q) as ->; [|lia]. symmetry. apply Z.div_unique with (r - k); lia.
Qed.

(** C18: the padding exported for a convolution fits the kernels of the extension.  For a
    convolution with SAME padding, [im2col] called with the exported padding computes the
    size the graph has recorded for the output; only with stride 1 and an even kernel,
    where the padding is rounded up to be the same on both sides, it is one larger. *)
Theorem exported_padding_size m op o t w n ci size iw co cw k kw s s' a :
  op_object m op = Ok o → attrs o = Conv2DAttrs s s' PD_MODE_SAME a → numInputs o = 2 →
  inputs o !! 0%nat = Some t → inputs o !! 1%nat = Some w → has_shape t [n; ci; size; iw] → has_shape w [co; cw; k; kw] →
  1 <= s → 1 <= s' → 1 <= k → 1 <= size → 1 <= iw → size < int_max →
  ∃ p rest, get_operator_attr m op pads = Ok (p :: rest)
    ∧ out_size size p k s = Ok (extent PD_MODE_SAME size k s + if (s =? 1) && (k mod 2 =? 0) then 1 else 0).
Proof.
  intros Ho Ha Hn H0 H1 Ht Hw Hs Hs' Hk Hsize Hiw Hmax.
  destruct (same_pad_size size k s Hs Hk Hsize) as (pad & Hpad & Heven & Hle & Hpos & Hout).
  destruct (same_pad_even iw k s' Hs' Hk ltac:(lia)) as (_ & pad' & Hpad' & _). exists (pad / 2), [pad' / 2; pad - pad / 2; pad' - pad' / 2]. split.
  - assert (∀ para v, get_int_parameter o para = Ok (Some (KInt v)) → int_parameter o para = Ok v) as Hint by (unfold int_parameter; by intros ?? ->).
    assert (int_parameter o PM_KERNEL_H = Ok k) as Hkh.
    { apply Hint. unfold get_int_parameter. rewrite Ha. rewrite (pget_ok _ 1 w) by done. cbn [mbind res_bind].
      by rewrite (shape_dim_at w _ 2 k Hw) by done. }
    assert (int_parameter o PM_STRIDE_H = Ok s ∧ int_parameter o PM_STRIDE_W = Ok s') as [Hsh Hsw].
    { split; apply Hint; unfold get_int_parameter; by rewrite Ha. }
    unfold get_operator_attr, get_input_dims. rewrite Ho. cbn [mbind res_bind]. unfold get_int_parameter at 1. rewrite Ha. cbn [mbind res_bind].
    rewrite Hn, (pget_ok _ 0 t) by done. unfold py_assert. rewrite check_true by lia. cbn [mbind res_bind]. rewrite (dims_of_ok t _ Ht).
    cbn [mbind res_bind]. rewrite check_true by done. rewrite Hkh, Hsh, Hsw. cbn [mbind res_bind].
    rewrite (pget_ok _ 2 size), (pget_ok _ 3 iw) by done. cbn [mbind res_bind]. by rewrite Hpad, Hpad'.
  - pose proof (Z.div_mod pad 2 ltac:(lia)) as Hd. rewrite Heven in Hd. rewrite out_size_ok by lia.
    unfold extent. rewrite <-Hout. do 3 f_equal. lia.
Qed.

(** A convolution of an 8 x 8 map with 3 x 3 kernels. *)
Definition ex_tensor (ds : list Z) (strides : list Z) : Tensor :=
  mkTensor (zlen ds) (ds ++ replicate (8 - length ds) 0) (strides ++ replicate (8 - length ds) 0) [] 0 INVALID_OP None.
Definition ex_conv : OpBase :=
  mkOpBase OP_CONV2D 2 [ex_tensor [1; 3; 8; 8] [192; 64; 8; 1]; ex_tensor [4; 3; 3; 3] [27; 9; 3; 1]] [] 1
    (Conv2DAttrs 1 1 PD_MODE_SAME AC_MODE_NONE).
Definition ex_model : Model := mkModel 101 initial_heap {[1%positive := ex_conv]} 2%positive [] [] [] [] [] [] [].

Lemma ex_tensor_shape ds strides : length ds = 4%nat → strides = (λ i, product (drop (S i) ds)) <$> seq 0 4 → has_shape (ex_tensor ds strides) ds.
Proof.
  intros Hl ->. unfold ex_tensor. split; simpl; [done|unfold zlen, MAX_DIM; lia|by rewrite length_app, length_replicate, Hl|by rewrite length_replicate, Hl| |].
  - intros i d Hd. by apply lookup_app_l_Some.
  - intros i Hi. rewrite Hl in Hi. destruct i as [|[|[|[|i]]]]; [done..|lia].
Qed.
Lemma exported_padding_size_witness :
  ∃ p rest, get_operator_attr ex_model (mkOp 100 (Some 1%positive)) pads = Ok (p :: rest) ∧ out_size 8 p 3 1 = Ok 8.
Proof.
  exact (exported_padding_size ex_model (mkOp 100 (Some 1%positive)) ex_conv (ex_tensor [1; 3; 8; 8] [192; 64; 8; 1])
    (ex_tensor [4; 3; 3; 3] [27; 9; 3; 1]) 1 3 8 8 4 3 3 3 1 1 AC_MODE_NONE eq_refl eq_refl eq_refl eq_refl eq_refl
    (ex_tensor_shape [1; 3; 8; 8] _ eq_refl eq_refl) (ex_tensor_shape [4; 3; 3; 3] _ eq_refl eq_refl)
    ltac:(lia) ltac:(lia) ltac:(lia) ltac:(lia) ltac:(lia) ltac:(unfold int_max; lia)).
Defined.

(** ** Which tables a table refers to *)

Definition refs (q : query) : list string :=
  match q with
  | QConvInput i w | QConv i w _ _ _ | QMatMul i w => [i; w]
  | QAdd i j => [i; j]
  | QRelu i | QAvgPool i _ | QFlatten i => [i]
  end.

(** What becomes of the output of an operator. *)
Inductive fate := Materialised | Aliased | Dropped.
#[export] Instance fate_eq_dec : EqDecision fate.
Proof. solve_decision. Defined.
Definition type_of (m : Model) (op : Op) : option string := match get_operator_type m op with Ok s => Some s | _ => None end.
(** The second input is the output of a [Reshape]: the bias of a convolution. *)
Definition bias_add (g : Graph) (op : Op) : bool :=
  match get_input_edges g op with
  | Ok es => match es !! 1%nat with Some (Some e) => bool_decide (type_of (g_model g) (srcOp e) = Some "Reshape") | _ => false end
  | _ => false
  end.
Definition fate_of (g : Graph) (op : Op) : fate :=
  match type_of (g_model g) op with
  | Some ty =>
      if bool_decide (ty ∈ ["Conv"; "Relu"; "MatMul"; "AveragePool"]) then Materialised
      else if bool_decide (ty = "Add") then (if bias_add g op then Aliased else Materialised)
      else if bool_decide (ty = "Reshape") then
        match get_output_dims (g_model g) op 0 with Ok ds => if zlen ds =? 2 then Materialised else Dropped | _ => Dropped end
      else if bool_decide (ty = "Transpose") then Aliased
      else Dropped
  | None => Dropped
  end.

(** How an operator reads its input [i]: by name, by name or what stands for it, or not. *)
Inductive read_mode := Direct | Through | Unread.
#[export] Instance read_mode_eq_dec : EqDecision read_mode.
Proof. solve_decision. Defined.
Definition reads_how (g : Graph) (op : Op) (i : Z) : read_mode :=
  match type_of (g_model g) op with
  | Some ty =>
      if bool_decide (ty = "Relu") then Through
      else if bool_decide (ty = "Add") then (if bias_add g op then (if i =? 0 then Direct else Unread) else Through)
      else if bool_decide (ty = "MatMul") then (if i =? 1 then Through else Direct)
      else if bool_decide (ty = "Conv") then Direct
      else if bool_decide (ty ∈ ["AveragePool"; "Transpose"]) then (if i =? 0 then Direct else Unread)
      else match fate_of g op with Materialised => if i =? 0 then Direct else Unread | _ => Unread end
  | None => Unread
  end.
(** Whether the weights an operator reads get a table. *)
Definition keeps_weights (m : Model) (op : Op) : bool :=
  bool_decide (type_of m op = Some "Conv") || bool_decide (type_of m op = Some "Transpose").
Definition edge_exportable (g : Graph) (e : Edge) : bool :=
  (0 <=? dstIdx e)
  && (if bool_decide (operation (g_model g) (srcOp e)) then
        (srcIdx e =? 0)
        && match reads_how g (dstOp e) (dstIdx e) with
           | Direct => bool_decide (fate_of g (srcOp e) = Materialised)
           | Through => bool_decide (fate_of g (srcOp e) ≠ Dropped)
           | Unread => true
           end
      else bool_decide (type_of (g_model g) (srcOp e) ≠ Some "Weight") || keeps_weights (g_model g) (dstOp e)
           || bool_decide (reads_how g (dstOp e) (dstIdx e) = Unread)).
(** The operators of the query read by name only what has a table. *)
Definition exportable (g : Graph) : bool :=
  match export_ops g with
  | Ok (_, ops) => forallb (λ op, forallb (edge_exportable g) (edges (ends (inEdges g) op))) ops
  | _ => true
  end.


(** ** What the loop does *)












(** ** Scoping *)



Section Scoped.
  Context (g : Graph) (Hwf : graph_wf g).





End Scoped.





Definition table_refs (st : exported) : list (string * list string) := map (λ t, (t.1, refs t.2)) (query_tables st).

(** A residual block followed by the pooling, the flattening and the product with a weight
    that end a classifier.  The bias of the last product is the operator that is left out. *)
Definition gemm_node (name x w b out : string) : NodeProto := mkNode name "Gemm" [x; w; b] [out] [("transB", AInt 1)].


(** Both conditions are needed.  [Conv] does not look up what stands for its input: with two
    convolutions with a bias in a row, the second table refers to the sum with the first
    bias, which has no table. *)
Definition conv_conv : ModelProto :=
  mkModelProto [("x", [1; 4; 8; 8])]
    [mkTensorProto "w1" [4; 4; 3; 3] 1%positive; mkTensorProto "b1" [4] 2%positive;
     mkTensorProto "w2" [4; 4; 3; 3] 3%positive; mkTensorProto "b2" [4] 4%positive]
    [conv_node "conv1" "x" "w1" "b1" "c1"; conv_node "conv2" "c1" "w2" "b2" "c2"; mkNode "last" "Relu" ["c2"] ["y"] []].
Lemma export_not_scoped :
  (r ← load_onnx no_values 9%positive conv_conv; e ← export_tables r.1; Ok (exportable r.1, table_refs e.2))
  = Ok (false, [("Conv105_fwd0", ["input_feature_map"; "Conv105_weight"]); ("Conv108_fwd0", ["Add107_fwd0"; "Conv108_weight"])]).
Proof. vm_compute. reflexivity. Qed.

(** The weights of [MatMul] and [Add] are named in the query but not kept: of two products
    with a bias, the weight that is not transposed and the first bias have no table. *)
Definition gemm_gemm : ModelProto :=
  mkModelProto [("x", [1; 4])]
    [mkTensorProto "w1" [4; 4] 1%positive; mkTensorProto "b1" [1; 4] 2%positive; mkTensorProto "w2" [4; 4] 3%positive; mkTensorProto "b2" [1; 4] 4%positive]
    [mkNode "fc1" "Gemm" ["x"; "w1"; "b1"] ["h"] []; gemm_node "fc2" "h" "w2" "b2" "y"].
Lemma export_weights_lost :
  (r ← load_onnx no_values 9%positive gemm_gemm; e ← export_tables r.1; Ok (exportable r.1, table_refs e.2, tables e.2))
  = Ok (false, [("MatMul105_fwd0", ["input_feature_map"; "MatMul105_weight"]); ("Add106_fwd0", ["MatMul105_fwd0"; "Add106_input2"]);
                ("MatMul108_fwd0", ["Add106_fwd0"; "Transpose107_input"])], ["Transpose107_input"]).
Proof. vm_compute. reflexivity. Qed.
