(* ===== verification/DbSubst.v ===== *)
(** * DbSubst: rules that replace a part of a graph

    [substitution.py]: a rule has a source pattern and a target pattern.  Both are lists of
    operators ([OpX]) whose inputs ([TensorX]) are outputs of other operators of the pattern
    or numbered tensors from outside.  [can_match], [match] and [unmatch] assign operators of
    a graph to the source pattern one by one; [create_new_operator] builds the operators of
    the target pattern and [create_new_graph] the graph in which they stand for the matched
    ones.

    The operators of a pattern are shared and changed objects; they are referred to by the
    list they are in and their position.  [mapOp] is the only field that changes.  The rules
    come as [rules_pb2] hands them out.  Printing and the history of substitutions, which
    nothing reads, are left out.

    The theorems show that [unmatch] undoes [match] if no other operator of the pattern reads
    the same numbered tensor, that it forgets the tensor otherwise, and which edges the new
    graph has. *)

From stdpp Require Import relations.
From S2P Require Import Prelude PgArray DbTensor DbOp DbModel Kahn DbGraph DbEdges.

Open Scope Z_scope.

Definition UnboundLocalError : string := "UnboundLocalError".

(** ** Constraints *)

Inductive Compare := COMPARE_EQ | COMPARE_NE | COMPARE_LT | COMPARE_LE | COMPARE_GT | COMPARE_GE.
#[export] Instance Compare_eq_dec : EqDecision Compare.
Proof. solve_decision. Defined.

Record PMConstraint := mkPM { pm_comp : Compare; pm_para : PMParameter; pm_value : keyval }.

(** What is passed for the second parameter of a constraint: a member of [TNParameter] or,
    by [add_input_constraint], a number. *)
Inductive tn_operand := OTN (p : TNParameter) | OInt (z : Z).
Definition truthy (p : tn_operand) : bool := match p with OTN _ => true | OInt z => negb (z =? 0) end.
Record TNConstraint := mkTN {
  singlePara : bool; tn_comp : Compare; para1 : TNParameter; dim1 : DIMParameter;
  para2 : option tn_operand; dim2 : option DIMParameter; tn_value : option Z
}.
Definition TNConstraint_init (c : Compare) (p : TNParameter) (d : DIMParameter) (p2 : option tn_operand)
    (d2 : option DIMParameter) (v : Z) : TNConstraint :=
  mkTN false c p d (match p2 with Some q => if truthy q then Some q else None | None => None end) d2
    (if v =? 0 then None else Some v).

(** Enumeration members have no order. *)
Definition holds (c : Compare) (act exp : keyval) : res bool :=
  match c with
  | COMPARE_EQ => Ok (bool_decide (act = exp))
  | COMPARE_NE => Ok (negb (bool_decide (act = exp)))
  | _ =>
      match act, exp with
      | KInt x, KInt y =>
          Ok (match c with COMPARE_LT => x <? y | COMPARE_LE => x <=? y | COMPARE_GT => y <? x | _ => y <=? x end)
      | _, _ => Ereport TypeError
      end
  end.

(** ** Patterns *)

(** An operator of the source or of the target pattern. *)
Inductive xref := XSrc (i : nat) | XDst (i : nat).
Record TensorX := mkTensorX { x_op : option xref; x_idx : Z }.
Record OpX := mkOpX {
  x_type : OpType; mapOp : Op; x_inputs : list TensorX; x_outputs : list TensorX;
  pmConstraints : list PMConstraint; tnConstraints : list TNConstraint
}.
#[export] Instance xref_eq_dec : EqDecision xref.
Proof. solve_decision. Defined.
#[export] Instance TensorX_eq_dec : EqDecision TensorX.
Proof. solve_decision. Defined.
#[export] Instance xref_countable : Countable xref.
Proof.
  by apply (inj_countable' (λ r, match r with XSrc i => inl i | XDst i => inr i end) (λ s, match s with inl i => XSrc i | inr i => XDst i end)); intros [].
Defined.
#[export] Instance TensorX_countable : Countable TensorX.
Proof. by apply (inj_countable' (λ t, (x_op t, x_idx t)) (λ p, mkTensorX p.1 p.2)); intros []. Defined.

Definition INPUT1_OPTYPE : list OpType := [OP_RESHAPE; OP_TRANSPOSE; OP_RELU; OP_TANH; OP_SIGMOID; OP_MERGE_GCONV].
Definition INPUT2_OPTYPE : list OpType :=
  [OP_CONV2D; OP_EW_ADD; OP_EW_MUL; OP_POOL2D_AVG; OP_CONCAT; OP_MATMUL; OP_MUL; OP_ENLARGE; OP_BROADCAST_ADD].
Definition INPUT3_OPTYPE : list OpType := [OP_FUSE_CONV_BATCHNORM_ALPHA_VAR].
Definition INPUT4_OPTYPE : list OpType := [OP_FUSE_CONV_BATCHNORM_BIAS].
Definition INPUT5_OPTYPE : list OpType := [OP_BATCHNORM; OP_FUSE_CONV_BATCHNORM].

(** [OpX(type, *inputs, numOutputs=n)], as the object [self]. *)
Definition OpX_init (self : xref) (ty : OpType) (ins : list TensorX) (numOutputs : Z) : res OpX :=
  let make outs := mkOpX ty INVALID_OP ins outs [] [] in
  if bool_decide (ty ∈ INPUT1_OPTYPE ++ INPUT2_OPTYPE ++ INPUT3_OPTYPE ++ INPUT4_OPTYPE ++ INPUT5_OPTYPE) then
    Ok (make [mkTensorX (Some self) 0])
  else
    py_assert (bool_decide (ty = OP_SPLIT) && negb (numOutputs =? 1))
    (let outs := (λ i, mkTensorX (Some self) i) <$> py_range numOutputs in
     py_assert (bool_decide (outs ≠ [])) (Ok (make outs))).

Definition add_pm_constraint (o : OpX) (c : Compare) (para : PMParameter) (v : keyval) : OpX :=
  mkOpX (x_type o) (mapOp o) (x_inputs o) (x_outputs o) (pmConstraints o ++ [mkPM c para v]) (tnConstraints o).
Definition get_pm_constraint (o : OpX) (para : PMParameter) : option keyval :=
  pm_value <$> (list_find (λ p, pm_comp p = COMPARE_EQ ∧ pm_para p = para) (pmConstraints o) ≫= λ p, Some p.2).
Definition add_tn (o : OpX) (c : TNConstraint) : OpX :=
  mkOpX (x_type o) (mapOp o) (x_inputs o) (x_outputs o) (pmConstraints o) (tnConstraints o ++ [c]).
(** A value is passed in the place of the second parameter.  Without one, [tnc] is unbound. *)
Definition add_input_constraint (o : OpX) (c : Compare) (p1 : TNParameter) (d1 : DIMParameter)
    (p2 : option TNParameter) (d2 : option DIMParameter) (value : option Z) : res OpX :=
  match p2, d2, value with
  | Some p, Some d, _ => Ok (add_tn o (TNConstraint_init c p1 d1 (Some (OTN p)) (Some d) 0))
  | _, _, Some v =>
      check (negb (v =? 0)) UnboundLocalError (Ok (add_tn o (TNConstraint_init c p1 d1 (Some (OInt v)) None 0)))
  | _, _, None => Ereport UnboundLocalError
  end.
Definition set_mapOp (o : OpX) (op : Op) : OpX :=
  mkOpX (x_type o) op (x_inputs o) (x_outputs o) (pmConstraints o) (tnConstraints o).

(** ** Rules *)

(** [mappedOps] is sorted like the maps of a graph; [mappedInputs] is a [defaultdict]. *)
Record GraphXfer := mkXfer {
  xf_model : Model; tensorId : Z; srcOps : list (option OpX); dstOps : list (option OpX);
  mappedOps : gmap Op xref; mappedInputs : gmap Z (list (Op * Z)); mappedOutputs : gmap TensorX TensorX
}.
Definition GraphXfer_init (m : Model) : GraphXfer := mkXfer m 10 [] [] ∅ ∅ ∅.

Definition set_xf_model (x : GraphXfer) (m : Model) : GraphXfer :=
  mkXfer m (tensorId x) (srcOps x) (dstOps x) (mappedOps x) (mappedInputs x) (mappedOutputs x).
Definition set_tensorId (x : GraphXfer) (n : Z) : GraphXfer :=
  mkXfer (xf_model x) n (srcOps x) (dstOps x) (mappedOps x) (mappedInputs x) (mappedOutputs x).
Definition set_srcOps (x : GraphXfer) (l : list (option OpX)) : GraphXfer :=
  mkXfer (xf_model x) (tensorId x) l (dstOps x) (mappedOps x) (mappedInputs x) (mappedOutputs x).
Definition set_dstOps (x : GraphXfer) (l : list (option OpX)) : GraphXfer :=
  mkXfer (xf_model x) (tensorId x) (srcOps x) l (mappedOps x) (mappedInputs x) (mappedOutputs x).
Definition set_mappedOps (x : GraphXfer) (m : gmap Op xref) : GraphXfer :=
  mkXfer (xf_model x) (tensorId x) (srcOps x) (dstOps x) m (mappedInputs x) (mappedOutputs x).
Definition set_mappedInputs (x : GraphXfer) (m : gmap Z (list (Op * Z))) : GraphXfer :=
  mkXfer (xf_model x) (tensorId x) (srcOps x) (dstOps x) (mappedOps x) m (mappedOutputs x).
Definition map_output (x : GraphXfer) (src dst : TensorX) : GraphXfer :=
  mkXfer (xf_model x) (tensorId x) (srcOps x) (dstOps x) (mappedOps x) (mappedInputs x) (<[src := dst]> (mappedOutputs x)).

Definition new_tensor (x : GraphXfer) : GraphXfer * TensorX :=
  (set_tensorId x (tensorId x + 1), mkTensorX None (tensorId x)).

(** The object a reference stands for; an entry may be [None]. *)
Definition pattern (x : GraphXfer) (r : xref) : list (option OpX) := match r with XSrc _ => srcOps x | XDst _ => dstOps x end.
Definition opx (x : GraphXfer) (r : xref) : res OpX :=
  match pattern x r !! (match r with XSrc i | XDst i => i end) with
  | Some (Some o) => Ok o
  | Some None => Ereport AttributeError
  | None => Ereport IndexError
  end.

Definition create_activation (self : xref) (input : TensorX) (ty : OpType) : res OpX := OpX_init self ty [input] 1.
Definition to_tn_parameter (n : Z) : res TNParameter :=
  match n with
  | 0 => Ok IN_0 | 1 => Ok IN_1 | 2 => Ok IN_2 | 3 => Ok IN_3 | 4 => Ok IN_4 | 5 => Ok IN_5 | _ => Ereport AssertionError
  end.
Definition to_dim_parameter (n : Z) : res DIMParameter :=
  match n with 0 => Ok DIM_0 | 1 => Ok DIM_1 | 2 => Ok DIM_2 | 3 => Ok DIM_3 | _ => Ereport AssertionError end.
Definition create_concat (self : xref) (axis numDim n : Z) (ins : list TensorX) : res OpX :=
  concat ← OpX_init self OP_CONCAT ins 1;
  let concat := add_pm_constraint concat COMPARE_EQ PM_AXIS (KInt axis) in
  concat ← add_input_constraint concat COMPARE_EQ IN_0 DIM_ND None None (Some numDim);
  foldM (λ i concat,
    in_i ← to_tn_parameter i;
    concat ← add_input_constraint concat COMPARE_EQ IN_0 DIM_ND (Some in_i) (Some DIM_ND) None;
    foldM (λ j concat,
      dim_j ← to_dim_parameter j;
      if negb (j =? axis) then add_input_constraint concat COMPARE_EQ IN_0 dim_j (Some in_i) (Some dim_j) None
      else Ok concat) (py_range numDim) concat) (seqZ 1 (n - 1)) concat.
Definition create_conv2d (self : xref) (input weight : TensorX) (strideH strideW : Z) (padding : PaddingMode) (acti : ActiMode) : res OpX :=
  conv ← OpX_init self OP_CONV2D [input; weight] 1;
  let conv := add_pm_constraint conv COMPARE_EQ PM_STRIDE_H (KInt strideH) in
  let conv := add_pm_constraint conv COMPARE_EQ PM_STRIDE_W (KInt strideW) in
  let conv := add_pm_constraint conv COMPARE_EQ PM_PAD (KPad padding) in
  Ok (add_pm_constraint conv COMPARE_EQ PM_ACTI (KActi acti)).
Definition create_element (self : xref) (input0 input1 : TensorX) (ty : OpType) : res OpX := OpX_init self ty [input0; input1] 1.
Definition create_matmul (self : xref) (input weight : TensorX) (acti : ActiMode) : res OpX :=
  matmul ← OpX_init self OP_MATMUL [input; weight] 1;
  let matmul := add_pm_constraint matmul COMPARE_EQ PM_ACTI (KActi acti) in
  add_input_constraint matmul COMPARE_EQ IN_0 DIM_0 (Some IN_1) (Some DIM_1) None.
Definition create_split (self : xref) (input : TensorX) (axis n : Z) : res OpX :=
  split ← OpX_init self OP_SPLIT [input] n;
  Ok (add_pm_constraint split COMPARE_EQ PM_AXIS (KInt axis)).

(** The rule built into the program: a convolution and a rectifier become one operator. *)
Definition create_conv_relu (m : Model) (strideH strideW : Z) (mode : PaddingMode) : res GraphXfer :=
  let subst := GraphXfer_init m in
  let '(subst, input) := new_tensor subst in
  let '(subst, weight) := new_tensor subst in
  conv ← create_conv2d (XSrc 0) input weight strideH strideW mode AC_MODE_NONE;
  conv_out ← pget (x_outputs conv) 0;
  relu ← create_activation (XSrc 1) conv_out OP_RELU;
  fuse ← create_conv2d (XDst 0) input weight strideH strideW mode AC_MODE_RELU;
  relu_out ← pget (x_outputs relu) 0; fuse_out ← pget (x_outputs fuse) 0;
  let subst := map_output subst relu_out fuse_out in
  Ok (set_dstOps (set_srcOps subst [Some conv; Some relu]) [Some fuse]).

(** ** Reading rules *)

Record pb_Parameter := mkPara { pb_key : Z; pb_value : Z }.
Record pb_Tensor := mkPbTensor { opId : Z; tsId : Z }.
Record pb_Operator := mkPbOperator { pb_type : Z; pb_input : list pb_Tensor; pb_para : list pb_Parameter }.
Record pb_MapOutput := mkMapOutput { srcOpId : Z; dstOpId : Z; srcTsId : Z; dstTsId : Z }.
Record pb_Rule := mkRule { rule_srcOp : list pb_Operator; rule_dstOp : list pb_Operator; mappedOutput : list pb_MapOutput }.

Definition PMParameter_value (p : PMParameter) : Z :=
  match p with
  | PM_OP_TYPE => 0 | PM_NUM_INPUTS => 1 | PM_NUM_OUTPUTS => 2 | PM_GROUP => 3 | PM_KERNEL_H => 4 | PM_KERNEL_W => 5
  | PM_STRIDE_H => 6 | PM_STRIDE_W => 7 | PM_PAD => 8 | PM_ACTI => 9 | PM_NUMDIM => 10 | PM_AXIS => 11 | PM_PERM => 12
  | PM_OUTSHUFFLE => 13 | PM_MERGE_GCONV_COUNT => 14 | PM_AXES => 15 | PM_KEEP_DIMS => 16 | PM_EPSILON => 17
  end.
(** [assert self.get_parameter_from_pb(...)] *)
Definition get_parameter_from_pb (op : pb_Operator) (pm : PMParameter) : res Z :=
  match list_find (λ p, pb_key p = PMParameter_value pm) (pb_para op) with
  | Some (_, p) => Ok (pb_value p)
  | None => Ereport AssertionError
  end.
(** [PaddingMode(v)], [ActiMode(v)] *)
Definition PaddingMode_of (v : Z) : res PaddingMode :=
  match v with 0 => Ok PD_MODE_SAME | 1 => Ok PD_MODE_VALID | _ => Ereport ValueError end.
Definition ActiMode_of (v : Z) : res ActiMode :=
  match v with
  | 0 => Ok AC_MODE_NONE | 1 => Ok AC_MODE_SIGMOID | 2 => Ok AC_MODE_RELU | 3 => Ok AC_MODE_TANH | _ => Ereport ValueError
  end.

(** A negative number names a tensor from outside, which the source pattern introduces. *)
Definition pb_operand (isSrcOp : bool) (t : pb_Tensor) (st : GraphXfer * gmap Z TensorX) : res (GraphXfer * gmap Z TensorX * TensorX) :=
  let '(x, mapped) := st in
  if opId t <? 0 then
    match mapped !! opId t with
    | Some u => Ok (x, mapped, u)
    | None =>
        let '(x, u) := new_tensor x in
        py_assert isSrcOp (Ok (x, <[opId t := u]> mapped, u))
    end
  else
    o ← pget (if isSrcOp then srcOps x else dstOps x) (opId t);
    match o with
    | None => Ereport AttributeError
    | Some o => u ← pget (x_outputs o) (tsId t); Ok (x, mapped, u)
    end.

(** The types without a case leave [opx] unset. *)
Definition pb_opx (self : xref) (op : pb_Operator) (ty : OpType) (ins : list TensorX) : res (option OpX) :=
  let n := zlen ins in
  if bool_decide (ty = OP_CONV2D) then
    py_assert (n =? 2)
    (sh ← get_parameter_from_pb op PM_STRIDE_H; sw ← get_parameter_from_pb op PM_STRIDE_W;
     p ← get_parameter_from_pb op PM_PAD; a ← get_parameter_from_pb op PM_ACTI;
     i0 ← pget ins 0; i1 ← pget ins 1; p ← PaddingMode_of p; a ← ActiMode_of a;
     o ← create_conv2d self i0 i1 sh sw p a; Ok (Some o))
  else if bool_decide (ty = OP_CONCAT) then
    axis ← get_parameter_from_pb op PM_AXIS; nd ← get_parameter_from_pb op PM_NUMDIM;
    o ← create_concat self axis nd n ins; Ok (Some o)
  else if bool_decide (ty = OP_EW_ADD) || bool_decide (ty = OP_EW_MUL) then
    py_assert (n =? 2) (i0 ← pget ins 0; i1 ← pget ins 1; o ← create_element self i0 i1 ty; Ok (Some o))
  else if bool_decide (ty = OP_SPLIT) then
    py_assert (n =? 1)
    (axis ← get_parameter_from_pb op PM_AXIS; k ← get_parameter_from_pb op PM_NUM_OUTPUTS;
     i0 ← pget ins 0; o ← create_split self i0 axis k; Ok (Some o))
  else if bool_decide (ty ∈ [OP_RELU; OP_SIGMOID; OP_TANH]) then
    py_assert (n =? 1) (i0 ← pget ins 0; o ← create_activation self i0 ty; Ok (Some o))
  else if bool_decide (ty = OP_MATMUL) then
    py_assert (n =? 2)
    (a ← get_parameter_from_pb op PM_ACTI; i0 ← pget ins 0; i1 ← pget ins 1; a ← ActiMode_of a;
     o ← create_matmul self i0 i1 a; Ok (Some o))
  else
    py_assert (bool_decide (ty ∈ [OP_MUL; OP_ENLARGE; OP_TRANSPOSE; OP_POOL2D_MAX; OP_POOL2D_AVG; OP_BATCHNORM])) (Ok None).

Definition create_operator_from_pb (op : pb_Operator) (isSrcOp : bool) (st : GraphXfer * gmap Z TensorX) : res (GraphXfer * gmap Z TensorX) :=
  py_assert (zlen (pb_input op) <? MAX_NUM_INPUTS)
  ('(x, mapped, ins) ← foldM (λ t '(x, mapped, ins), '(x, mapped, u) ← pb_operand isSrcOp t (x, mapped); Ok (x, mapped, ins ++ [u]))
     (pb_input op) (st, []);
   ty ← (match OpType_of (pb_type op) with Some ty => Ok ty | None => Ereport ValueError end);
   let self := if isSrcOp then XSrc (length (srcOps x)) else XDst (length (dstOps x)) in
   o ← pb_opx self op ty ins;
   Ok (if isSrcOp then set_srcOps x (srcOps x ++ [o]) else set_dstOps x (dstOps x ++ [o]), mapped)).

(** [subst.srcOps[i].outputs] *)
Definition outputs_at (l : list (option OpX)) (i : Z) : res (list TensorX) :=
  o ← pget l i; match o with None => Ereport AttributeError | Some o => Ok (x_outputs o) end.
Definition read_mapped_output (m : pb_MapOutput) (x : GraphXfer) : res GraphXfer :=
  py_assert (srcOpId m <? zlen (srcOps x))
  (py_assert (dstOpId m <? zlen (dstOps x))
   (souts ← outputs_at (srcOps x) (srcOpId m);
    py_assert (srcTsId m <? zlen souts)
    (douts ← outputs_at (dstOps x) (dstOpId m);
     py_assert (dstTsId m <? zlen douts)
     (s ← pget souts (srcTsId m); d ← pget douts (dstTsId m);
      Ok (map_output x s d))))).
Definition read_rule (m : Model) (rule : pb_Rule) : res GraphXfer :=
  st ← foldM (λ op, create_operator_from_pb op true) (rule_srcOp rule) (GraphXfer_init m, ∅);
  st ← foldM (λ op, create_operator_from_pb op false) (rule_dstOp rule) st;
  foldM read_mapped_output (mappedOutput rule) st.1.
(** The first 133 rules of a collection. *)
Definition load_graph_xfer_from_pb_file (m : Model) (rules : list pb_Rule) : res (list GraphXfer) :=
  foldM (λ i xfers, rule ← pget rules i; x ← read_rule m rule; Ok (xfers ++ [x])) (py_range 133) [].

(** ** Matching *)

Definition is_some {A} (o : option A) : bool := match o with Some _ => true | None => false end.

(** [get_input_parameter] with what a constraint holds; anything but members is refused. *)
Definition tn_parameter (o : OpBase) (p : option tn_operand) (d : option DIMParameter) : res (option Z) :=
  match p, d with Some (OTN p), Some d => get_input_parameter o p d | _, _ => Ok None end.
Definition check_tnConstraints (m : Model) (tnc : TNConstraint) (op : Op) : res bool :=
  o ← op_object m op;
  act ← get_input_parameter o (para1 tnc) (dim1 tnc);
  match act with
  | None => Ereport AssertionError
  | Some act =>
      if singlePara tnc then
        match tn_value tnc with
        | Some v => holds (tn_comp tnc) (KInt act) (KInt v)
        | None =>
            match tn_comp tnc with COMPARE_EQ => Ok false | COMPARE_NE => Ok true | _ => Ereport TypeError end
        end
      else
        exp ← tn_parameter o (para2 tnc) (dim2 tnc);
        match exp with None => Ereport AssertionError | Some exp => holds (tn_comp tnc) (KInt act) (KInt exp) end
  end.
Fixpoint check_tns (m : Model) (l : list TNConstraint) (op : Op) : res bool :=
  match l with
  | [] => Ok true
  | tnc :: l => b ← check_tnConstraints m tnc op; if negb b then Ok false else check_tns m l op
  end.
Fixpoint check_pms (o : OpBase) (l : list PMConstraint) : res bool :=
  match l with
  | [] => Ok true
  | pmc :: l =>
      act ← get_int_parameter o (pm_para pmc);
      match act with
      | None => Ereport AssertionError
      | Some act => b ← holds (pm_comp pmc) act (pm_value pmc); if negb b then Ok false else check_pms o l
      end
  end.

(** The edges of [op] at input [i], as a list of what they come from. *)
Definition input_sources (s : gset Edge) (i : Z) : list (Op * Z) :=
  (λ e, (srcOp e, srcIdx e)) <$> filter (λ e, dstIdx e = i) (edges s).

(** The loop over the inputs of [can_match], from input [i] on. *)
Fixpoint match_inputs (x : GraphXfer) (op : Op) (ts : list TensorX) (i : Z) (newMapInputs : gmap Z (Op * Z)) (g : Graph) : res (Graph * bool) :=
  match ts with
  | [] => Ok (g, true)
  | t :: ts =>
      let go src := 
        '(g, b) ← has_edge g src.1 op src.2 i;
        if negb b then Ok (g, false) else match_inputs x op ts (i + 1) newMapInputs g in
      match x_op t with
      | Some r => so ← opx x r; py_assert (is_some (ptr (mapOp so))) (go (mapOp so, x_idx t))
      | None =>
          match mappedInputs x !! x_idx t with
          | Some l => src ← pget l 0; go src
          | None =>
              match newMapInputs !! x_idx t with
              | Some src => go src
              | None =>
                  '(ins, s) ← getitem (inEdges g) op;
                  let newMapInputs := foldl (λ m src, <[x_idx t := src]> m) newMapInputs (input_sources s i) in
                  match_inputs x op ts (i + 1) newMapInputs (set_in g ins)
              end
          end
      end
  end.
Definition can_match (x : GraphXfer) (depth : nat) (op : Op) (g : Graph) : res (Graph * bool) :=
  so ← opx x (XSrc depth);
  o ← op_object (xf_model x) op;
  if negb (bool_decide (x_type so = type o)) then Ok (g, false)
  else if negb (zlen (x_inputs so) =? numInputs o) then Ok (g, false)
  else
    b ← check_pms o (pmConstraints so);
    if negb b then Ok (g, false)
    else
      '(g, b) ← match_inputs x op (x_inputs so) 0 ∅ g;
      if negb b then Ok (g, false)
      else b ← check_tns (xf_model x) (tnConstraints so) op; Ok (g, b).

(** [self.mappedInputs[k].append(...)] for the edges at input [i]. *)
Definition match_input (op : Op) (i : Z) (t : TensorX) (st : Graph * gmap Z (list (Op * Z))) : res (Graph * gmap Z (list (Op * Z))) :=
  match x_op t with
  | Some _ => Ok st
  | None =>
      '(ins, s) ← getitem (inEdges st.1) op;
      Ok (set_in st.1 ins,
        foldl (λ m src, <[x_idx t := default [] (m !! x_idx t) ++ [src]]> m) st.2 (input_sources s i))
  end.
Definition set_src_mapOp (x : GraphXfer) (i : nat) (op : Op) : GraphXfer :=
  set_srcOps x (alter (fmap (λ o, set_mapOp o op)) i (srcOps x)).
(** The positions from [i] on, with the elements. *)
Fixpoint enum_from {A} (i : Z) (l : list A) : list (Z * A) :=
  match l with [] => [] | a :: l => (i, a) :: enum_from (i + 1) l end.
Definition enumerate {A} (l : list A) : list (Z * A) := enum_from 0 l.
(** [match] *)
Definition match_op (x : GraphXfer) (depth : nat) (op : Op) (g : Graph) : res (GraphXfer * Graph) :=
  so ← opx x (XSrc depth);
  '(g, inputs) ← foldM (λ it, match_input op it.1 it.2) (enumerate (x_inputs so)) (g, mappedInputs x);
  let x := set_src_mapOp (set_mappedInputs x inputs) depth op in
  check (forallb (op_comparable op) (elements (dom (mappedOps x)))) TypeError
    (Ok (set_mappedOps x (<[op := XSrc depth]> (mappedOps x)), g)).

(** [del m[k]] *)
Definition del {K A} `{Countable K} (k : K) (m : gmap K A) : res (gmap K A) :=
  check (is_some (m !! k)) KeyError (Ok (delete k m)).
Definition del_input (t : TensorX) (m : gmap Z (list (Op * Z))) : res (gmap Z (list (Op * Z))) :=
  match x_op t with Some _ => Ok m | None => del (x_idx t) m end.
Definition unmatch (x : GraphXfer) (depth : nat) (op : Op) : res GraphXfer :=
  so ← opx x (XSrc depth);
  inputs ← foldM del_input (x_inputs so) (mappedInputs x);
  ops ← del op (mappedOps x);
  Ok (set_src_mapOp (set_mappedOps (set_mappedInputs x inputs) ops) depth INVALID_OP).

(** ** Building *)

Definition to_tensor (x : GraphXfer) (t : TensorX) : res Tensor :=
  match x_op t with
  | Some r =>
      so ← opx x r;
      py_assert (is_some (ptr (mapOp so))) (o ← op_object (xf_model x) (mapOp so); pget (outputs o) (x_idx t))
  | None =>
      match mappedInputs x !! x_idx t with
      | None => Ereport AssertionError
      | Some it => src ← pget it 0; o ← op_object (xf_model x) src.1; pget (outputs o) src.2
      end
  end.

(** [assert opx.get_pm_constraint(...)].  The constraints of a convolution are those of
    [create_conv2d], which hold numbers and modes. *)
Definition pm_int (o : OpX) (p : PMParameter) : res Z :=
  match get_pm_constraint o p with Some (KInt z) => Ok z | Some _ => Ereport TypeError | None => Ereport AssertionError end.
Definition pm_padding (o : OpX) (p : PMParameter) : res PaddingMode :=
  match get_pm_constraint o p with Some (KPad z) => Ok z | Some _ => Ereport TypeError | None => Ereport AssertionError end.
Definition pm_activation (o : OpX) (p : PMParameter) : res ActiMode :=
  match get_pm_constraint o p with Some (KActi z) => Ok z | Some _ => Ereport TypeError | None => Ereport AssertionError end.

(** The operator of the branch for [opx.type]; that for a concatenation leaves it as it is. *)
Definition target_operator (x : GraphXfer) (o : OpX) : res (Model * Op) :=
  let m := xf_model x in
  if bool_decide (x_type o = OP_CONV2D) then
    py_assert (zlen (x_inputs o) =? 2)
    (i0 ← pget (x_inputs o) 0; input ← to_tensor x i0; i1 ← pget (x_inputs o) 1; weight ← to_tensor x i1;
     sh ← pm_int o PM_STRIDE_H; sw ← pm_int o PM_STRIDE_W; p ← pm_padding o PM_PAD; a ← pm_activation o PM_ACTI;
     get_or_create_conv2d m input weight sh sw p a)
  else if bool_decide (x_type o = OP_EW_ADD) || bool_decide (x_type o = OP_EW_MUL) then
    py_assert (zlen (x_inputs o) =? 2)
    (i0 ← pget (x_inputs o) 0; t0 ← to_tensor x i0; i1 ← pget (x_inputs o) 1; t1 ← to_tensor x i1;
     get_or_create_element m (x_type o) t0 t1)
  else if bool_decide (x_type o = OP_CONCAT) then
    _ ← foldM (λ t _, _ ← to_tensor x t; Ok tt) (x_inputs o) tt;
    check (zlen (x_inputs o) <=? MAX_NUM_INPUTS) IndexError
    (_ ← pm_int o PM_AXIS; Ok (m, mapOp o))
  else Ereport NotImplementedError.
Definition create_new_operator (x : GraphXfer) (i : nat) : res (GraphXfer * bool) :=
  o ← opx x (XDst i);
  '(m, op) ← target_operator x o;
  let x := set_xf_model x m in
  if bool_decide (op = INVALID_OP) then Ok (x, false)
  else
    b ← check_tns m (tnConstraints o) op;
    if negb b then Ok (x, false)
    else Ok (set_dstOps x (alter (fmap (λ o, set_mapOp o op)) i (dstOps x)), true).

(** What an edge of an operator that stays becomes. *)
Definition copy_edge (x : GraphXfer) (e : Edge) (g : Graph) : res Graph :=
  match mappedOps x !! srcOp e with
  | Some r =>
      match mappedOutputs x !! mkTensorX (Some r) (srcIdx e) with
      | None => Ereport AssertionError
      | Some d =>
          o ← (match x_op d with Some r => opx x r | None => Ereport AttributeError end);
          add_edge g (mapOp o) (dstOp e) (x_idx d) (dstIdx e)
      end
  | None => add_edge g (srcOp e) (dstOp e) (srcIdx e) (dstIdx e)
  end.
(** An edge into an operator of the target pattern. *)
Definition target_edge (x : GraphXfer) (o : OpX) (i : Z) (t : TensorX) (g : Graph) : res Graph :=
  match x_op t with
  | None =>
      match mappedInputs x !! x_idx t with
      | None => Ereport AssertionError
      | Some it => src ← pget it 0; add_edge g src.1 (mapOp o) src.2 i
      end
  | Some r => s ← opx x r; add_edge g (mapOp s) (mapOp o) (x_idx t) i
  end.
Definition create_new_graph (x : GraphXfer) (g : Graph) : res Graph :=
  check (forallb is_some (srcOps x ++ dstOps x)) AttributeError
  (new ← foldM (λ kv new,
    if bool_decide (kv.1 ∈ dom (mappedOps x)) then Ok new else foldM (copy_edge x) (edges kv.2) new)
    (map_items (inEdges g)) (new_Graph (fresh_model (xf_model x)));
  foldM (λ o new,
    match o with
    | None => Ereport AttributeError
    | Some o => foldM (λ it, target_edge x o it.1 it.2) (enumerate (x_inputs o)) new
    end) (dstOps x) new).

(** ** Matching and taking back *)

(** The numbers of the tensors from outside among some inputs. *)
Definition outside (ts : list TensorX) : list Z := omap (λ t, match x_op t with None => Some (x_idx t) | Some _ => None end) ts.
Lemma elem_of_outside ts k : k ∈ outside ts ↔ ∃ i t, ts !! i = Some t ∧ x_op t = None ∧ x_idx t = k.
Proof.
  unfold outside. rewrite list_elem_of_omap. split.
  - intros (t & [i Hi]%list_elem_of_lookup_1 & Ht). exists i, t. destruct (x_op t); naive_solver.
  - intros (i & t & Hi%list_elem_of_lookup_2 & Ht & <-). exists t. by rewrite Ht.
Qed.

Lemma elem_of_enum_from {A} (l : list A) : ∀ i j a, (j, a) ∈ enum_from i l ↔ i <= j ∧ l !! Z.to_nat (j - i) = Some a.
Proof.
  induction l as [|b l IH]; intros i j a; simpl; [split; [by intros ?%elem_of_nil|by intros []]|].
  rewrite elem_of_cons, IH. destruct (decide (j = i)) as [->|Hne].
  - rewrite Z.sub_diag. simpl. split; [intros [[= ->]|[??]]; [done|lia]|intros [_ [= ->]]; by left].
  - split.
    + intros [[= ? ?]|[? Ha]]; [done|]. split; [lia|]. by replace (Z.to_nat (j - i)) with (S (Z.to_nat (j - (i + 1)))) by lia.
    + intros [? Ha]. right. split; [lia|]. by replace (Z.to_nat (j - i)) with (S (Z.to_nat (j - (i + 1)))) in Ha by lia.
Qed.
Lemma elem_of_enumerate {A} (l : list A) j a : (j, a) ∈ enumerate l ↔ 0 <= j ∧ l !! Z.to_nat j = Some a.
Proof. unfold enumerate. rewrite elem_of_enum_from. by rewrite Z.sub_0_r. Qed.

(** The lists [match] enters. *)
Lemma append_sources k (l : list (Op * Z)) : ∀ (m : gmap Z (list (Op * Z))), l ≠ [] →
  foldl (λ m src, <[k := default [] (m !! k) ++ [src]]> m) m l = <[k := default [] (m !! k) ++ l]> m.
Proof.
  induction l as [|a l IH]; intros m Hne; [done|]. cbn [foldl]. destruct l as [|b l]; [done|].
  rewrite IH by done. rewrite lookup_insert_eq, insert_insert_eq. simpl. by rewrite <-app_assoc.
Qed.

Section Matching.
  Context (op : Op) (s : gset Edge).

(** Every tensor from outside is found. *)
Definition wired (its : list (Z * TensorX)) : Prop := ∀ i t, (i, t) ∈ its → x_op t = None → input_sources s i ≠ [].
(** What [match] adds to [mappedInputs]. *)
Definition add_inputs (its : list (Z * TensorX)) (m : gmap Z (list (Op * Z))) : gmap Z (list (Op * Z)) :=
  foldl (λ m it, match x_op it.2 with
    | Some _ => m | None => <[x_idx it.2 := default [] (m !! x_idx it.2) ++ input_sources s it.1]> m end) m its.

Lemma match_input_added i t g m : inEdges g !! op = Some s → (x_op t = None → input_sources s i ≠ []) →
  match_input op i t (g, m) = Ok (g, add_inputs [(i, t)] m).
Proof.
  intros Hs Hw. unfold match_input, add_inputs. csimpl. destruct (x_op t) as [r|]; [done|].
  rewrite (getitem_present _ _ s Hs). cbn [mbind res_bind]. rewrite set_in_same, append_sources by auto. done.
Qed.
Lemma match_inputs_added its : ∀ g m, inEdges g !! op = Some s → wired its →
  foldM (λ it, match_input op it.1 it.2) its (g, m) = Ok (g, add_inputs its m).
Proof.
  induction its as [|[i t] its IH]; intros g m Hs Hw; [done|]. cbn [foldM fst snd].
  rewrite match_input_added; [|done|apply (Hw i t); left]. cbn [mbind res_bind].
  apply IH; [done|]. intros j u Hu. apply (Hw j u). by right.
Qed.

Lemma add_inputs_other its k : ∀ m, k ∉ outside its.*2 → add_inputs its m !! k = m !! k.
Proof.
  induction its as [|[i t] its IH]; intros m Hk; [done|]. unfold add_inputs in *. csimpl in *. unfold outside in *. cbn [omap list_omap] in Hk.
  destruct (x_op t); [by apply IH|]. apply not_elem_of_cons in Hk as [??]. rewrite IH by done. by rewrite lookup_insert_ne.
Qed.
Lemma add_inputs_at its i t : ∀ m, NoDup (outside its.*2) → (i, t) ∈ its → x_op t = None →
  add_inputs its m !! x_idx t = Some (default [] (m !! x_idx t) ++ input_sources s i).
Proof.
  induction its as [|[j u] its IH]; intros m Hnd Hin Ht; [by apply elem_of_nil in Hin|].
  unfold add_inputs in *. csimpl in *. unfold outside in *. cbn [omap list_omap] in Hnd. apply elem_of_cons in Hin as [[= <- <-]|Hin].
  - rewrite Ht in *. apply NoDup_cons in Hnd as [Hn _]. pose proof (add_inputs_other its (x_idx t)) as Ho. unfold add_inputs in Ho.
    rewrite Ho by done. by rewrite lookup_insert_eq.
  - destruct (x_op u); [by apply IH|]. apply NoDup_cons in Hnd as [Hn Hnd]. rewrite IH by done. rewrite lookup_insert_ne; [done|].
    intros Heq. destruct Hn. rewrite Heq. apply list_elem_of_omap. exists t. rewrite Ht. split; [|done]. apply list_elem_of_fmap. by exists (i, t).
Qed.
End Matching.

Lemma enumerate_snd {A} (l : list A) : (enumerate l).*2 = l.
Proof. unfold enumerate. generalize 0. induction l as [|a l IH]; intros i; csimpl; [done|]. by rewrite IH. Qed.

Lemma outside_cons t ts : outside (t :: ts) = match x_op t with None => x_idx t :: outside ts | Some _ => outside ts end.
Proof. unfold outside. cbn [omap list_omap]. by destruct (x_op t). Qed.
Lemma del_inputs_cons t ts m : foldM del_input (t :: ts) m =
  match x_op t with
  | Some _ => foldM del_input ts m
  | None => match m !! x_idx t with Some _ => foldM del_input ts (delete (x_idx t) m) | None => Ereport KeyError end
  end.
Proof. cbn [foldM]. unfold del_input at 2, del. destruct (x_op t); [done|]. by destruct (m !! x_idx t). Qed.

Lemma del_inputs_inv ts : ∀ m m', foldM del_input ts m = Ok m' → ∀ k, m' !! k = if decide (k ∈ outside ts) then None else m !! k.
Proof.
  induction ts as [|t ts IH]; intros m m'; [intros [= <-] k; case_decide as Hk; [by apply elem_of_nil in Hk|done]|].
  rewrite del_inputs_cons, outside_cons. destruct (x_op t) as [r|]; [apply IH|]. destruct (m !! x_idx t) as [l|] eqn:Hl; [|done].
  intros Hrun k. rewrite (IH _ _ Hrun). destruct (decide (k = x_idx t)) as [->|Hne].
  - rewrite lookup_delete_eq, (decide_True _ _ (list_elem_of_here _ _)). by case_decide.
  - rewrite lookup_delete_ne by done. apply decide_ext. rewrite elem_of_cons. naive_solver.
Qed.
Lemma del_inputs_ok ts : ∀ m, NoDup (outside ts) → (∀ k, k ∈ outside ts → is_Some (m !! k)) → ∃ m', foldM del_input ts m = Ok m'.
Proof.
  induction ts as [|t ts IH]; intros m; [by exists m|]. rewrite del_inputs_cons, outside_cons. destruct (x_op t) as [r|]; [apply IH|].
  rewrite NoDup_cons. intros [Hn Hnd] Hin. destruct (Hin (x_idx t)) as [l ->]; [by left|]. apply IH; [done|].
  intros k Hk. rewrite lookup_delete_ne by set_solver. apply Hin. by right.
Qed.
(** What is gone cannot be deleted again. *)
Lemma del_inputs_missing ts k : ∀ m, k ∈ outside ts → m !! k = None → foldM del_input ts m = Ereport KeyError.
Proof.
  induction ts as [|t ts IH]; intros m; [by intros ?%elem_of_nil|]. rewrite del_inputs_cons, outside_cons. destruct (x_op t) as [r|]; [apply IH|].
  rewrite elem_of_cons. intros [<-|Hk] Hm; [by rewrite Hm|]. destruct (m !! x_idx t) as [l|] eqn:Hl; [|done].
  apply IH; [done|]. rewrite lookup_delete_ne; [done|]. intros <-. by rewrite Hl in Hm.
Qed.

Lemma opx_src_alter x i f so : opx x (XSrc i) = Ok so → opx (set_srcOps x (alter (fmap f) i (srcOps x))) (XSrc i) = Ok (f so).
Proof.
  unfold opx. simpl. rewrite list_lookup_alter_eq. destruct (srcOps x !! i) as [[o|]|]; [|done..]. by intros [= ->].
Qed.
Lemma alter_mapOp_back (l : list (option OpX)) (i : nat) op so : l !! i = Some (Some so) → mapOp so = INVALID_OP →
  alter (fmap (λ o, set_mapOp o INVALID_OP)) i (alter (fmap (λ o, set_mapOp o op)) i l) = l.
Proof.
  intros Hi Hso. apply list_eq. intros j. destruct (decide (i = j)) as [<-|Hne]; [|by rewrite !list_lookup_alter_ne].
  rewrite !list_lookup_alter_eq, Hi. simpl. do 2 f_equal. destruct so. simpl in *. by subst.
Qed.

Lemma opx_src_inv x i so : opx x (XSrc i) = Ok so ↔ srcOps x !! i = Some (Some so).
Proof. unfold opx. simpl. destruct (srcOps x !! i) as [[o|]|]; naive_solver. Qed.
Lemma forallb_comparable (X : gset Op) op : comparable_with X op → forallb (op_comparable op) (elements X) = true.
Proof.
  intros Hc. apply forallb_forall. intros k Hk%list_elem_of_In%elem_of_elements. unfold op_comparable.
  destruct (Z.eqb_spec (guid op) (guid k)) as [He|He]; [|done]. simpl. apply bool_decide_eq_true. by apply Hc.
Qed.

(** Taking back a match restores the matcher.  If an operator of the pattern reads
    tensors from outside that no operator matched before reads, each one once, [match]
    succeeds on an operator of the graph whose inputs are there, notes the operator and
    where its inputs come from, and [unmatch] leaves the rule exactly as it was. *)
Lemma match_then_unmatch x depth op g so :
  opx x (XSrc depth) = Ok so → mapOp so = INVALID_OP → NoDup (outside (x_inputs so)) →
  (∀ k, k ∈ outside (x_inputs so) → mappedInputs x !! k = None) →
  op ∉ dom (mappedOps x) → comparable_with (dom (mappedOps x)) op → op ∈ nodes g →
  (∀ (i : nat) t, x_inputs so !! i = Some t → x_op t = None → ∃ e, e ∈ ends (inEdges g) op ∧ dstIdx e = i) →
  ∃ x', match_op x depth op g = Ok (x', g) ∧ unmatch x' depth op = Ok x
    ∧ x' = set_mappedOps (set_src_mapOp (set_mappedInputs x (mappedInputs x')) depth op) (<[op := XSrc depth]> (mappedOps x))
    ∧ (∀ (i : nat) t, x_inputs so !! i = Some t → x_op t = None → mappedInputs x' !! x_idx t = Some (input_sources (ends (inEdges g) op) i))
    ∧ ∀ k, k ∉ outside (x_inputs so) → mappedInputs x' !! k = mappedInputs x !! k.
Proof.
  intros Hso Hmap Hnd Hnew Hop Hcmp Hn Hwired. unfold nodes in Hn. apply elem_of_dom in Hn as [s Hs]. unfold ends in *. rewrite Hs in *. cbn [default] in *.
  assert (wired s (enumerate (x_inputs so))) as Hw.
  { intros i t [Hi Ht]%elem_of_enumerate Hx. destruct (Hwired _ _ Ht Hx) as (e & He & Hd). intros Hnil.
    apply (not_elem_of_nil (srcOp e, srcIdx e)). rewrite <-Hnil. apply list_elem_of_fmap. exists e. split; [done|].
    apply list_elem_of_filter. rewrite elem_of_edges. split; [lia|done]. }
  set (inputs := add_inputs s (enumerate (x_inputs so)) (mappedInputs x)).
  set (x' := set_mappedOps (set_src_mapOp (set_mappedInputs x inputs) depth op) (<[op := XSrc depth]> (mappedOps x))).
  assert (∀ (i : nat) t, x_inputs so !! i = Some t → x_op t = None → inputs !! x_idx t = Some (input_sources s i)) as Hin.
  { intros i t Ht Hx. subst inputs. rewrite (add_inputs_at s _ (Z.of_nat i) t); [|by rewrite enumerate_snd| |done].
    - rewrite Hnew; [done|]. apply elem_of_outside. eauto.
    - apply elem_of_enumerate. split; [lia|]. by rewrite Nat2Z.id. }
  assert (∀ k, k ∉ outside (x_inputs so) → inputs !! k = mappedInputs x !! k) as Hout.
  { intros k Hk. apply add_inputs_other. by rewrite enumerate_snd. }
  exists x'. split_and!; [| |done|done|done].
  - unfold match_op. rewrite Hso. cbn [mbind res_bind]. rewrite (match_inputs_added op s) by done. cbn [mbind res_bind].
    change (mappedOps (set_src_mapOp _ _ _)) with (mappedOps x). by rewrite forallb_comparable.
  - assert (opx x' (XSrc depth) = Ok (set_mapOp so op)) as Hx' by exact (opx_src_alter x depth (λ o, set_mapOp o op) so Hso).
    unfold unmatch. rewrite Hx'. subst x'. cbn [mbind res_bind].
    destruct (del_inputs_ok (x_inputs so) inputs Hnd) as [m' Hm'].
    { intros k (i & t & Ht & Hx & <-)%elem_of_outside. rewrite (Hin i t) by done. eauto. }
    change (x_inputs (set_mapOp so op)) with (x_inputs so). unfold set_src_mapOp.
    cbn [mappedInputs mappedOps srcOps set_mappedOps set_srcOps set_mappedInputs]. rewrite Hm'.
    cbn [mbind res_bind]. unfold del. rewrite lookup_insert_eq. cbn [is_some]. rewrite check_true by done. cbn [mbind res_bind]. f_equal.
    assert (m' = mappedInputs x) as ->.
    { apply map_eq. intros k. rewrite (del_inputs_inv _ _ _ Hm'). case_decide as Hk; [symmetry; by apply Hnew|by apply Hout]. }
    rewrite delete_insert_id by (by apply not_elem_of_dom). unfold set_src_mapOp. simpl. rewrite (alter_mapOp_back _ _ _ so); [by destruct x|by apply opx_src_inv|done].
Qed.

(** Matching changes only [mapOp] of the operators of a pattern. *)
Definition same_op (a b : OpX) : Prop := set_mapOp a INVALID_OP = set_mapOp b INVALID_OP.
#[export] Instance same_op_equivalence : Equivalence same_op.
Proof. split; unfold same_op; congruence. Qed.
Lemma same_op_inputs a b : same_op a b → x_inputs a = x_inputs b.
Proof. by intros [=]. Qed.
Lemma opx_alter x l i op r so : (∀ o : OpX, same_op (set_mapOp o op) o) → opx x r = Ok so →
  l = alter (fmap (λ o, set_mapOp o op)) i (srcOps x) → ∃ so', opx (set_srcOps x l) r = Ok so' ∧ same_op so' so.
Proof.
  intros Hsame Hr ->. unfold opx in *. destruct r as [j|j]; simpl in *; [|by exists so].
  destruct (decide (j = i)) as [->|Hne]; [|rewrite list_lookup_alter_ne by done; by exists so].
  rewrite list_lookup_alter_eq. destruct (srcOps x !! i) as [[o|]|]; try done. injection Hr as ->. simpl. by exists (set_mapOp so op).
Qed.
Lemma opx_set_src x i op r so : opx x r = Ok so → ∃ so', opx (set_src_mapOp x i op) r = Ok so' ∧ same_op so' so.
Proof. intros Hr. by eapply opx_alter. Qed.

(** [unmatch] forgets a tensor that another operator of the pattern reads too, whatever it
    was matched with; taking back the match of that operator then fails. *)
Lemma unmatch_shared_input x d1 d2 op1 op2 so1 so2 k x' :
  opx x (XSrc d1) = Ok so1 → opx x (XSrc d2) = Ok so2 → k ∈ outside (x_inputs so1) → k ∈ outside (x_inputs so2) →
  unmatch x d2 op2 = Ok x' → unmatch x' d1 op1 = Ereport KeyError.
Proof.
  intros H1 H2 Hk1 Hk2. unfold unmatch at 1. rewrite H2. cbn [mbind res_bind].
  intros (m & Hm & (ops & _ & [= <-])%res_bind_Ok)%res_bind_Ok.
  destruct (opx_set_src (set_mappedOps (set_mappedInputs x m) ops) d2 INVALID_OP (XSrc d1) so1 H1) as (so' & Hso' & Hsame).
  unfold unmatch. rewrite Hso'. cbn [mbind res_bind]. rewrite (same_op_inputs _ _ Hsame), (del_inputs_missing _ k); [done..|].
  change (m !! k = None). rewrite (del_inputs_inv _ _ _ Hm). by rewrite decide_True.
Qed.
