(* ===== verification/DbRewrite.v ===== *)
(** * DbRewrite: what a substitution preserves

    [create_new_graph] replaces the matched operators of a graph by those of the target
    pattern.  Operators are given a meaning: a function from the values of the inputs to the
    values of the outputs.  A rule is valid if, whatever the values of the tensors from
    outside, the target pattern computes the outputs of the source pattern.  The theorem
    shows that after the substitution by a valid rule every operator that was not matched
    computes what it computed before, if the new graph passes [has_loop]. *)

From stdpp Require Import sorting relations.
From S2P Require Import Prelude PgArray DbTensor DbOp DbModel Kahn DbGraph DbEdges DbSubst.

Open Scope Z_scope.

(** ** The edges of the new graph *)

(** Where an input of a pattern comes from. *)
Definition comes_from (x : GraphXfer) (t : TensorX) (src : Op * Z) : Prop :=
  match x_op t with
  | None => ∃ l, mappedInputs x !! x_idx t = Some (src :: l)
  | Some r => ∃ o, opx x r = Ok o ∧ src = (mapOp o, x_idx t)
  end.
(** [e'] stands for the edge [e] of an operator that stays. *)
Definition replaced (x : GraphXfer) (e e' : Edge) : Prop :=
  match mappedOps x !! srcOp e with
  | None => e' = e
  | Some r => ∃ d r' o, mappedOutputs x !! mkTensorX (Some r) (srcIdx e) = Some d ∧ x_op d = Some r' ∧ opx x r' = Ok o
                ∧ e' = mkEdge (mapOp o) (dstOp e) (x_idx d) (dstIdx e)
  end.
Inductive new_edge (x : GraphXfer) (g : Graph) : Edge → Prop :=
  | edge_stays e e' : edge_of g e → dstOp e ∉ dom (mappedOps x) → replaced x e e' → new_edge x g e'
  | edge_enters j o i t src : dstOps x !! (j : nat) = Some (Some o) → x_inputs o !! i = Some t → comes_from x t src →
      new_edge x g (mkEdge src.1 (mapOp o) src.2 (Z.of_nat i)).

Lemma add_edge_one src dst si di g g' : woven g → add_edge g src dst si di = Ok g' →
  woven g' ∧ g_model g' = g_model g ∧ ∀ e, edge_of g' e ↔ edge_of g e ∨ e = mkEdge src dst si di.
Proof.
  intros Hw Hadd. split_and!; [by eapply add_edge_woven|by apply add_edge_inv in Hadd as (? & _)|]. intros e. by apply add_edge_edges.
Qed.
Lemma copy_edge_adds x e : adds (copy_edge x) (replaced x) e.
Proof.
  intros g g' Hw. unfold copy_edge, replaced. destruct (mappedOps x !! srcOp e) as [r|].
  - destruct (mappedOutputs x !! _) as [d|]; [|done]. intros (o & Ho & Hadd)%res_bind_Ok. destruct (x_op d) as [r'|] eqn:Hr; [|done].
    destruct (add_edge_one _ _ _ _ _ _ Hw Hadd) as (? & ? & He). split_and!; [done..|]. intros e'. rewrite He. split; (intros [?|Hx]; [by left|right]).
    + by exists d, r', o.
    + destruct Hx as (? & ? & o' & [= <-] & Hr' & Ho' & ->). rewrite Hr in Hr'. injection Hr' as <-. by assert (o' = o) as -> by congruence.
  - intros Hadd. destruct (add_edge_one _ _ _ _ _ _ Hw Hadd) as (? & ? & He). split_and!; [done..|]. intros e'. rewrite He. by destruct e.
Qed.
Lemma pget_head {A} (l : list A) a : pget l 0 = Ok a → ∃ l', l = a :: l'.
Proof. destruct l as [|b l]; [done|]. intros [= <-]. by exists l. Qed.
Lemma target_edge_adds x o it : adds (λ it, target_edge x o it.1 it.2)
  (λ it e', ∃ src, comes_from x it.2 src ∧ e' = mkEdge src.1 (mapOp o) src.2 it.1) it.
Proof.
  destruct it as [i t]. intros g g' Hw. unfold target_edge, comes_from. simpl. destruct (x_op t) as [r|].
  - intros (s & Hs & Hadd)%res_bind_Ok. destruct (add_edge_one _ _ _ _ _ _ Hw Hadd) as (? & ? & He). split_and!; [done..|].
    intros e'. rewrite He. split; (intros [?|Hx]; [by left|right]); [subst; exists (mapOp s, x_idx t); eauto|].
    destruct Hx as (src & (o' & Ho' & ->) & ->). simpl. by assert (o' = s) as -> by congruence.
  - destruct (mappedInputs x !! x_idx t) as [it|]; [|done]. intros (src & [l ->]%pget_head & Hadd)%res_bind_Ok.
    destruct (add_edge_one _ _ _ _ _ _ Hw Hadd) as (? & ? & He). split_and!; [done..|].
    intros e'. rewrite He. split; (intros [?|Hx]; [by left|right]); [subst; exists src; eauto|]. by destruct Hx as (src' & (l' & [= <- _]) & ->).
Qed.

(** Every step of a loop that returned returned. *)
Lemma foldM_each {A S} (f : A → S → res S) l : ∀ s s', foldM f l s = Ok s' → ∀ a, a ∈ l → ∃ s1 s2, f a s1 = Ok s2.
Proof.
  induction l as [|b l IH]; intros s s'; cbn [foldM]; [by intros _ a ?%elem_of_nil|].
  intros (s1 & Hb & Hl)%res_bind_Ok a [->|Ha]%elem_of_cons; [by exists s, s1|by eapply IH].
Qed.

Section Edges.
  Context (x : GraphXfer) (g : Graph) (Hwf : graph_wf g).

Lemma stay_adds kv : adds (λ kv new, if bool_decide (kv.1 ∈ dom (mappedOps x)) then Ok new else foldM (copy_edge x) (edges kv.2) new)
  (λ kv e', (kv.1 ∉ dom (mappedOps x)) ∧ ∃ e, e ∈ edges kv.2 ∧ replaced x e e') (kv : Op * gset Edge).
Proof.
  intros g0 g' Hw. case_bool_decide as Hin.
  - intros [= <-]. split_and!; [done..|]. intros e. split; [by left|]. by intros [?|[? _]].
  - intros Hrun. destruct (foldM_adds _ _ _ (λ e _, copy_edge_adds x e) g0 g' Hw Hrun) as (? & ? & He). split_and!; [done..|]. intros e. rewrite He. naive_solver.
Qed.
Lemma enter_adds o : adds (λ o new, match o with None => Ereport AttributeError | Some o => foldM (λ it, target_edge x o it.1 it.2) (enumerate (x_inputs o)) new end)
  (λ o e', ∃ o' it src, o = Some o' ∧ it ∈ enumerate (x_inputs o') ∧ comes_from x it.2 src ∧ e' = mkEdge src.1 (mapOp o') src.2 it.1) o.
Proof.
  destruct o as [o|]; [|done]. intros g0 g' Hw Hrun.
  destruct (foldM_adds _ _ _ (λ it _, target_edge_adds x o it) g0 g' Hw Hrun) as (? & ? & He). split_and!; [done..|]. intros e. rewrite He. naive_solver.
Qed.

Lemma create_new_graph_edges g' : create_new_graph x g = Ok g' → woven g' ∧ g_model g' = fresh_model (xf_model x) ∧ ∀ e, edge_of g' e ↔ new_edge x g e.
Proof.
  unfold create_new_graph. intros [_ (g1 & H1 & H2)%res_bind_Ok]%check_Ok.
  destruct (foldM_adds _ _ _ (λ kv _, stay_adds kv) _ _ (woven_new _) H1) as (Hw1 & Hm1 & He1).
  destruct (foldM_adds _ _ _ (λ o _, enter_adds o) _ _ Hw1 H2) as (Hw & Hm & He). split_and!; [done|by rewrite Hm, Hm1|]. intros e. rewrite He, He1. split.
  - intros [[Hnew|(kv & Hkv & Hno & e0 & [He0 Hd]%(row_edges g Hwf kv e0 Hkv) & Hr)]|(o & Ho & o' & [i t] & src & -> & Hit & Hc & ->)].
    + unfold edge_of, ends, new_Graph in Hnew. simpl in Hnew. set_solver.
    + apply (edge_stays x g e0); [done|by rewrite Hd|done].
    + apply list_elem_of_lookup_1 in Ho as [j Hj]. apply elem_of_enumerate in Hit as [Hi Ht]. simpl. rewrite <-(Z2Nat.id i) by done. by apply (edge_enters x g j o' _ t).
  - intros [e0 e' He0 Hd Hr|j o i t src Hj Ht Hc].
    + left. right. destruct (edge_row g e0 He0) as (kv & Hkv & Hk). exists kv. split_and!; [done|by rewrite Hk|]. exists e0. split; [|done].
      by apply (row_edges g Hwf kv e0 Hkv).
    + right. exists (Some o). split; [by apply list_elem_of_lookup_2 in Hj|]. exists o, (Z.of_nat i, t), src. split_and!; [done| |done..].
      apply elem_of_enumerate. rewrite Nat2Z.id. split; [lia|done].
Qed.
(** All steps succeeded. *)
Lemma create_new_graph_total g' : create_new_graph x g = Ok g' →
  (∀ e, edge_of g e → dstOp e ∉ dom (mappedOps x) → ∃ e', replaced x e e')
  ∧ ∀ (j : nat) o (i : nat) t, dstOps x !! j = Some (Some o) → x_inputs o !! i = Some t → ∃ src, comes_from x t src.
Proof.
  unfold create_new_graph. intros [_ (g1 & H1 & H2)%res_bind_Ok]%check_Ok. split.
  - intros e He Hd. destruct (edge_row g e He) as (kv & Hkv & Hk). destruct (foldM_each _ _ _ _ H1 kv Hkv) as (a & b & Hrow).
    rewrite bool_decide_eq_false_2 in Hrow by (by rewrite Hk). destruct (foldM_each _ _ _ _ Hrow e) as (c & d & Hc); [by apply (row_edges g Hwf kv e Hkv)|].
    unfold copy_edge in Hc. unfold replaced. destruct (mappedOps x !! srcOp e) as [r|]; [|by exists e].
    destruct (mappedOutputs x !! _) as [t|]; [|done]. apply res_bind_Ok in Hc as (o & Ho & _). destruct (x_op t) as [r'|] eqn:Hr; [|done].
    eexists _, t, r', o. done.
  - intros j o i t Ho Ht. destruct (foldM_each _ _ _ _ H2 (Some o)) as (a & b & Hrow); [by eapply list_elem_of_lookup_2|].
    destruct (foldM_each _ _ _ _ Hrow (Z.of_nat i, t)) as (c & d & Hc); [apply elem_of_enumerate; rewrite Nat2Z.id; split; [lia|done]|].
    unfold target_edge in Hc. simpl in Hc. unfold comes_from. destruct (x_op t) as [r|].
    + apply res_bind_Ok in Hc as (s & Hs & _). by exists (mapOp s, x_idx t), s.
    + destruct (mappedInputs x !! x_idx t) as [it|]; [|done]. apply res_bind_Ok in Hc as (src & [l ->]%pget_head & _). by exists src, l.
Qed.
End Edges.

(** ** What a graph computes *)

Lemma tc_flip {A} (R : relation A) a b : tc (flip R) a b → tc R b a.
Proof. induction 1 as [a b Hab|a b c Hab _ IH]; [by apply tc_once|]. eapply tc_r; done. Qed.
(** A graph without loops has a beginning. *)
Lemma loop_free_wf g op : graph_pre g → loop_free g → Acc (feeds g) op.
Proof.
  intros Hwf Hlf. assert (sn (flip (feeds g)) op) as Hsn; [|exact Hsn]. apply tc_finite_sn.
  - intros a Ha%tc_flip. by apply (Hlf a).
  - exists (elements (dom (outEdges g))). intros b Hb%tc_flip. apply elem_of_elements.
    assert (∃ c, feeds g b c) as (c & e & He & <- & _) by (inversion Hb; eauto). by apply (gw_mirror g Hwf), ends_dom in He.
Qed.

Section Meaning.
  Context {V : Type} (F : Op → (Z → V) → Z → V).

(** [ins] are the values at the inputs of [op]. *)
Definition reads (g : Graph) (val : Op → Z → V) (op : Op) (ins : Z → V) : Prop :=
  ∀ e, edge_of g e → dstOp e = op → ins (dstIdx e) = val (srcOp e) (srcIdx e).
(** [val op i] is output [i] of [op], which [F op] computes from its inputs. *)
Definition solves (g : Graph) (val : Op → Z → V) : Prop :=
  ∀ op ins, op ∈ nodes g → reads g val op ins → ∀ i, val op i = F op ins i.

Lemma reads_exists g val op : graph_pre g → slots g → ∃ ins, reads g val op ins.
Proof.
  intros Hwf Hs.
  exists (λ j, match list_find (λ e, dstIdx e = j) (edges (ends (inEdges g) op)) with Some (_, e) => val (srcOp e) (srcIdx e) | None => val op 0 end).
  intros e He <-. destruct (list_find _ _) as [[k e']|] eqn:Hf.
  - apply list_find_Some in Hf as (Hk%list_elem_of_lookup_2%elem_of_edges & HP & _). pose proof (gw_in g Hwf _ e' Hk) as Hd.
    assert (e' = e) as ->; [|done]. apply Hs; [unfold edge_of; by rewrite Hd|done..].
  - apply list_find_None in Hf. rewrite Forall_forall in Hf. destruct (Hf e); [by apply elem_of_edges|done].
Qed.

(** The sources determine all values. *)
Lemma solution_unique g val val' : graph_wf g → loop_free g → slots g → solves g val → solves g val' →
  (∀ op i, guid op <= GUID_PRESERVED → val op i = val' op i) → ∀ op i, op ∈ nodes g → val op i = val' op i.
Proof.
  intros Hwf Hlf Hs Hv Hv' Hsrc op. induction (loop_free_wf g op Hwf Hlf) as [op _ IH]. intros i Hop.
  destruct (reads_exists g val op Hwf Hs) as [ins Hins]. rewrite (Hv op ins Hop Hins), (Hv' op ins Hop); [done|].
  intros e He Hd. rewrite (Hins e He Hd). apply (gw_mirror g Hwf) in He as Ho. apply ends_dom, (gw_src g Hwf) in Ho as [Hn|Hg]; [|by apply Hsrc].
  apply IH; [|done]. by exists e.
Qed.

(** ** Valid rules *)

(** The value of an input of a pattern: [env] has the tensors from outside, [vals] the outputs
    of the operators of the pattern. *)
Definition tensor_value (env : Z → V) (vals : xref → Z → V) (t : TensorX) : V :=
  match x_op t with None => env (x_idx t) | Some r => vals r (x_idx t) end.
Definition pattern_solved (ops : list (option OpX)) (ref : nat → xref) (env : Z → V) (vals : xref → Z → V) : Prop :=
  ∀ (k : nat) o ins, ops !! k = Some (Some o) → (∀ (i : nat) t, x_inputs o !! i = Some t → ins (Z.of_nat i) = tensor_value env vals t) →
  ∀ i, vals (ref k) i = F (mapOp o) ins i.
(** The target pattern computes what the source pattern computes. *)
Definition valid (x : GraphXfer) : Prop :=
  ∀ env vals, pattern_solved (srcOps x) XSrc env vals →
  ∃ vals', pattern_solved (dstOps x) XDst env vals' ∧
    ∀ s d, mappedOutputs x !! s = Some d → tensor_value env vals s = tensor_value env vals' d.
End Meaning.

(** The source pattern is matched in [g]: every operator of the pattern stands for an operator
    of the graph whose edges come from where the inputs of the pattern come from. *)
Record matched (x : GraphXfer) (g : Graph) : Prop := {
  ma_ops : ∀ op r, mappedOps x !! op = Some r → ∃ k so, r = XSrc k ∧ srcOps x !! k = Some (Some so) ∧ mapOp so = op;
  ma_src : ∀ k so, srcOps x !! (k : nat) = Some (Some so) → mapOp so ∈ nodes g;
  ma_inputs : ∀ (k : nat) so e, srcOps x !! k = Some (Some so) → edge_of g e → dstOp e = mapOp so →
    ∃ (i : nat) t, dstIdx e = i ∧ x_inputs so !! i = Some t ∧ comes_from x t (srcOp e, srcIdx e);
  ma_refs : ∀ (k : nat) so (i : nat) t r, srcOps x !! k = Some (Some so) → x_inputs so !! i = Some t → x_op t = Some r → ∃ j, r = XSrc j
}.
(** The operators of the target pattern are new and distinct; they read tensors that the source
    pattern has mapped, or each other. *)
Record fresh_targets (x : GraphXfer) (g : Graph) : Prop := {
  ft_new : ∀ (j : nat) o, dstOps x !! j = Some (Some o) → ¬ of_graph g (mapOp o) ∧ GUID_PRESERVED < guid (mapOp o);
  ft_distinct : ∀ (j k : nat) o o', dstOps x !! j = Some (Some o) → dstOps x !! k = Some (Some o') → guid (mapOp o) = guid (mapOp o') → j = k;
  ft_numbered : ∀ (j : nat) o op, dstOps x !! j = Some (Some o) → of_graph g op → guid (mapOp o) ≠ guid op;
  ft_refs : ∀ (j : nat) o (i : nat) t r, dstOps x !! j = Some (Some o) → x_inputs o !! i = Some t → x_op t = Some r → ∃ k, r = XDst k;
  ft_outputs : ∀ s d, mappedOutputs x !! s = Some d → ∃ k, x_op d = Some (XDst k);
  ft_inputs : ∀ k src l, mappedInputs x !! k = Some (src :: l) → of_graph g src.1
}.

Lemma opx_dst_inv x j o : opx x (XDst j) = Ok o ↔ dstOps x !! j = Some (Some o).
Proof. unfold opx. simpl. destruct (dstOps x !! j) as [[?|]|]; naive_solver. Qed.

(** ** The new graph is in order *)

Section Order.
  Context (x : GraphXfer) (g g' : Graph) (Hwf : graph_wf g) (Hft : fresh_targets x g) (Hnew : create_new_graph x g = Ok g').

Definition taking_part (op : Op) : Prop := of_graph g op ∨ ∃ (j : nat) o, dstOps x !! j = Some (Some o) ∧ mapOp o = op.

Lemma taking_part_numbered : numbered taking_part.
Proof.
  intros a b [Ha|(j & o & Ho & <-)] [Hb|(k & o' & Ho' & <-)] Heq.
  - by apply (of_graph_numbered g Hwf).
  - by destruct (ft_numbered _ _ Hft k o' a Ho' Ha).
  - by destruct (ft_numbered _ _ Hft j o b Ho Hb).
  - assert (j = k) as -> by (by apply (ft_distinct _ _ Hft j k o o')). congruence.
Qed.
Lemma comes_from_part t src (j : nat) o (i : nat) : dstOps x !! j = Some (Some o) → x_inputs o !! i = Some t → comes_from x t src → taking_part src.1.
Proof.
  intros Ho Ht. unfold comes_from. destruct (x_op t) as [r|] eqn:Hr.
  - destruct (ft_refs _ _ Hft j o i t r Ho Ht Hr) as [k ->]. intros (o' & Ho'%opx_dst_inv & ->). right. by exists k, o'.
  - intros [l Hl]. left. by apply (ft_inputs _ _ Hft (x_idx t) src l).
Qed.
Lemma replaced_part e e' : edge_of g e → replaced x e e' → taking_part (srcOp e') ∧ dstOp e' = dstOp e ∧ dstIdx e' = dstIdx e.
Proof.
  intros He. unfold replaced. destruct (mappedOps x !! srcOp e) as [r|].
  - intros (d & r' & o & Hd & Hr & Ho & ->). simpl. split; [|done]. right. destruct (ft_outputs _ _ Hft _ d Hd) as [k Hk].
    assert (r' = XDst k) as -> by congruence. apply opx_dst_inv in Ho. by exists k, o.
  - intros ->. split; [|done]. left. by apply (of_graph_within g Hwf e He).
Qed.

Lemma new_graph_pre : graph_pre g'.
Proof.
  destruct (create_new_graph_edges x g Hwf g' Hnew) as (Hw & _ & He). apply (woven_pre taking_part g' Hw taking_part_numbered); intros e' Hx%He.
  - destruct Hx as [e e' Hg Hd Hr|j o i t src Ho Ht Hc]; [|split; [by eapply comes_from_part|right; by exists j, o]].
    destruct (replaced_part e e' Hg Hr) as (? & -> & _). split; [done|]. left. by apply (of_graph_within g Hwf e Hg).
  - destruct Hx as [e e' Hg Hd Hr|j o i t src Ho Ht Hc]; [|by apply (ft_new _ _ Hft j o)].
    destruct (replaced_part e e' Hg Hr) as (_ & -> & _). apply (gw_keys g Hwf). by apply ends_dom in Hg.
Qed.
Lemma new_graph_wf g'' : has_loop g' = Ok (g'', false) → graph_wf g' ∧ loop_free g'.
Proof.
  intros [Hlf Hsrc]%(has_loop_closed g' g'' new_graph_pre). split; [|done]. split; [apply new_graph_pre|].
  destruct (create_new_graph_edges x g Hwf g' Hnew) as (Hw & _ & _). intros op [?|(e & He & <-)]%(wo_outs g' Hw); [by left|by apply Hsrc].
Qed.
Lemma new_graph_slots : slots g → slots g'.
Proof.
  intros Hs. destruct (create_new_graph_edges x g Hwf g' Hnew) as (_ & _ & He). intros e1 e2 H1%He H2%He Hd Hi.
  destruct H1 as [a a' Ha _ Hra|j o i t src Ho Ht Hc], H2 as [b b' Hb _ Hrb|j' o' i' t' src' Ho' Ht' Hc']; simpl in *.
  - destruct (replaced_part a a' Ha Hra) as (_ & Hd1 & Hi1), (replaced_part b b' Hb Hrb) as (_ & Hd2 & Hi2).
    assert (a = b) as <- by (apply Hs; congruence). unfold replaced in *. destruct (mappedOps x !! srcOp a) as [r|]; [|congruence].
    destruct Hra as (? & ? & ? & Ha1 & Ha2 & Ha3 & ->), Hrb as (? & ? & ? & Hb1 & Hb2 & Hb3 & ->). congruence.
  - destruct (replaced_part a a' Ha Hra) as (_ & Hd1 & _). destruct (ft_new _ _ Hft j' o' Ho') as [[] _]. rewrite <-Hd, Hd1. by apply (of_graph_within g Hwf a Ha).
  - destruct (replaced_part b b' Hb Hrb) as (_ & Hd2 & _). destruct (ft_new _ _ Hft j o Ho) as [[] _]. rewrite Hd, Hd2. by apply (of_graph_within g Hwf b Hb).
  - assert (j = j') as <- by (apply (ft_distinct _ _ Hft j j' o o'); congruence). assert (o = o') as <- by congruence. assert (i = i') as <- by lia.
    assert (t = t') as <- by congruence. assert (src = src') as <-; [|done]. unfold comes_from in *. destruct (x_op t); [|destruct Hc, Hc'; congruence].
    destruct Hc as (? & ? & ->), Hc' as (? & ? & ->). congruence.
Qed.
End Order.

(** ** Soundness *)

Section Sound.
  Context {V : Type} (F : Op → (Z → V) → Z → V).
  Context (x : GraphXfer) (g g' : Graph) (val : Op → Z → V).
  Context (Hwf : graph_wf g) (Hma : matched x g) (Hft : fresh_targets x g) (Hval : solves F g val).

(** The values of the old graph, seen from the pattern. *)
Definition old_env (k : Z) : V := match mappedInputs x !! k with Some (src :: _) => val src.1 src.2 | _ => val INVALID_OP 0 end.
Definition old_vals (r : xref) (i : Z) : V := match opx x r with Ok o => val (mapOp o) i | _ => val INVALID_OP 0 end.

Lemma old_comes_from t src : comes_from x t src → tensor_value old_env old_vals t = val src.1 src.2.
Proof.
  unfold comes_from, tensor_value, old_env, old_vals. destruct (x_op t) as [r|]; [|by intros [l ->]]. by intros (o & -> & ->).
Qed.
Lemma old_solved : pattern_solved F (srcOps x) XSrc old_env old_vals.
Proof.
  intros k so ins Hso Hins i. assert (opx x (XSrc k) = Ok so) as Hopx by (unfold opx; simpl; by rewrite Hso).
  unfold old_vals at 1. rewrite Hopx. apply Hval; [by apply (ma_src _ _ Hma k)|]. intros e He Hd.
  destruct (ma_inputs _ _ Hma k so e Hso He Hd) as (j & t & -> & Ht & Hc). rewrite (Hins j t Ht). by apply (old_comes_from t (srcOp e, srcIdx e)).
Qed.

(** The target an operator belongs to. *)
Definition is_target (op : Op) (o : option OpX) : bool := match o with Some o => bool_decide (mapOp o = op) | None => false end.
Definition target_of (op : Op) : option nat := fst <$> list_find (is_target op) (dstOps x).
Lemma target_of_dst (j : nat) o : dstOps x !! j = Some (Some o) → target_of (mapOp o) = Some j.
Proof.
  intros Ho. unfold target_of. destruct (list_find _ _) as [[k o']|] eqn:Hf; simpl.
  - apply list_find_Some in Hf as (Hk & Ht & _). destruct o' as [o'|]; [|done]. apply bool_decide_unpack in Ht.
    f_equal. apply (ft_distinct _ _ Hft k j o' o); [done..|congruence].
  - apply list_find_None in Hf. rewrite Forall_forall in Hf. destruct (Hf (Some o)); [by eapply list_elem_of_lookup_2|]. simpl. by apply bool_decide_pack.
Qed.
Lemma target_of_old op : of_graph g op → target_of op = None.
Proof.
  intros Hop. unfold target_of. destruct (list_find _ _) as [[k o]|] eqn:Hf; [|done]. apply list_find_Some in Hf as (Hk & Ht & _).
  destruct o as [o|]; [|done]. apply bool_decide_unpack in Ht. subst op. by destruct (ft_new _ _ Hft k o Hk) as [[] _].
Qed.

(** The values of the new graph: the old ones, and those of the target pattern. *)
Definition new_val (vals : xref → Z → V) (op : Op) (i : Z) : V := match target_of op with Some j => vals (XDst j) i | None => val op i end.

Lemma new_val_old vals op i : of_graph g op → new_val vals op i = val op i.
Proof. intros Hop. unfold new_val. by rewrite (target_of_old _ Hop). Qed.
(** An edge that stands for another one carries the same value. *)
Lemma replaced_value vals e e' :
  (∀ s d, mappedOutputs x !! s = Some d → tensor_value old_env old_vals s = tensor_value old_env vals d) →
  edge_of g e → replaced x e e' → new_val vals (srcOp e') (srcIdx e') = val (srcOp e) (srcIdx e).
Proof.
  intros Hout He. unfold replaced. destruct (mappedOps x !! srcOp e) as [r|] eqn:Hr.
  - intros (d & r' & o & Hd & Hrd & Ho & ->). destruct (ma_ops _ _ Hma _ _ Hr) as (k & so & -> & Hso & Hsrc).
    destruct (ft_outputs _ _ Hft _ d Hd) as [k' Hk']. assert (r' = XDst k') as -> by congruence. apply opx_dst_inv in Ho.
    specialize (Hout _ _ Hd). unfold tensor_value in Hout. simpl in Hout. rewrite Hrd in Hout. unfold old_vals, opx in Hout. simpl in Hout. rewrite Hso, Hsrc in Hout.
    rewrite Hout. simpl. unfold new_val. by rewrite (target_of_dst k' o Ho).
  - intros ->. apply new_val_old. by apply (of_graph_within g Hwf e He).
Qed.
Lemma target_value vals (j : nat) o (i : nat) t src : dstOps x !! j = Some (Some o) → x_inputs o !! i = Some t → comes_from x t src →
  new_val vals src.1 src.2 = tensor_value old_env vals t.
Proof.
  intros Ho Ht Hc. destruct (x_op t) as [r|] eqn:Hr.
  - unfold comes_from in Hc. unfold tensor_value. rewrite Hr in *. destruct (ft_refs _ _ Hft j o i t r Ho Ht Hr) as [k ->].
    destruct Hc as (o' & Ho'%opx_dst_inv & ->). unfold new_val. simpl. by rewrite (target_of_dst k o' Ho').
  - rewrite new_val_old; [|unfold comes_from in Hc; rewrite Hr in Hc; destruct Hc as [l Hl]; by apply (ft_inputs _ _ Hft (x_idx t) src l)].
    rewrite <-(old_comes_from t src Hc). unfold tensor_value. by rewrite Hr.
Qed.

Lemma new_solves vals : create_new_graph x g = Ok g' → pattern_solved F (dstOps x) XDst old_env vals →
  (∀ s d, mappedOutputs x !! s = Some d → tensor_value old_env old_vals s = tensor_value old_env vals d) → solves F g' (new_val vals).
Proof.
  intros Hnew Hpat Hout. destruct (create_new_graph_edges x g Hwf g' Hnew) as (Hw & _ & He). destruct (create_new_graph_total x g Hwf g' Hnew) as [Hstay Henter].
  intros op ins (e' & He' & <-)%(wo_fed g' Hw) Hins i. apply He in He' as Hx. destruct Hx as [e e' Hg Hd Hr|j o k t src Ho Ht Hc].
  - destruct (replaced_part x g Hwf Hft e e' Hg Hr) as (_ & Hd1 & _). rewrite Hd1 in *. rewrite new_val_old by apply (of_graph_within g Hwf e Hg).
    apply Hval; [by apply ends_dom in Hg|]. intros a Ha Hda. destruct (Hstay a Ha) as [a' Hra]; [by rewrite Hda|].
    destruct (replaced_part x g Hwf Hft a a' Ha Hra) as (_ & Hd2 & Hi2). rewrite <-Hi2, (Hins a'); [by apply replaced_value| |congruence].
    apply He, (edge_stays x g a); [done|by rewrite Hda|done].
  - simpl in *. unfold new_val at 1. rewrite (target_of_dst j o Ho). apply (Hpat j o ins Ho). intros k' t' Ht'.
    destruct (Henter j o k' t' Ho Ht') as [src' Hc']. rewrite <-(target_value vals j o k' t' src' Ho Ht' Hc').
    apply (Hins (mkEdge src'.1 (mapOp o) src'.2 (Z.of_nat k'))); [|done]. by apply He, (edge_enters x g j o k' t').
Qed.
End Sound.

(** The operators that were not matched keep their values. *)
Lemma kept_values {V : Type} (F : Op → (Z → V) → Z → V) x g g' g'' val val' :
  graph_wf g → fed g → slots g → matched x g → fresh_targets x g → valid F x →
  create_new_graph x g = Ok g' → has_loop g' = Ok (g'', false) → solves F g val → solves F g' val' →
  (∀ op i, guid op <= GUID_PRESERVED → val' op i = val op i) →
  ∀ op i, op ∈ nodes g → op ∉ dom (mappedOps x) → val' op i = val op i.
Proof.
  intros Hwf Hfed Hs Hma Hft Hvalid Hnew Hloop Hval Hval' Hsrc op i Hop Hno.
  destruct (new_graph_wf x g g' Hwf Hft Hnew g'' Hloop) as [Hwf' Hlf]. pose proof (new_graph_slots x g g' Hwf Hft Hnew Hs) as Hs'.
  destruct (Hvalid _ _ (old_solved F x g val Hma Hval)) as (vals & Hpat & Hout).
  pose proof (new_solves F x g g' val Hwf Hma Hft Hval vals Hnew Hpat Hout) as Hsol.
  rewrite (solution_unique F g' val' (new_val x val vals) Hwf' Hlf Hs' Hval' Hsol).
  - apply (new_val_old x g val Hft). unfold of_graph. set_solver.
  - intros k j Hk. rewrite Hsrc by done. unfold new_val. destruct (target_of x k) as [n|] eqn:Ht; [|done].
    unfold target_of in Ht. destruct (list_find _ _) as [[m o]|] eqn:Hf; [|done]. apply list_find_Some in Hf as (Hm & Hb & _).
    destruct o as [o|]; [|done]. apply bool_decide_unpack in Hb. destruct (ft_new _ _ Hft m o Hm) as [_ Hg]. rewrite Hb in Hg. lia.
  - destruct (Hfed op Hop) as (e & He & <-). destruct (create_new_graph_total x g Hwf g' Hnew) as [Hstay _]. destruct (Hstay e He Hno) as [e' Hr].
    destruct (create_new_graph_edges x g Hwf g' Hnew) as (_ & _ & Hedge). destruct (replaced_part x g Hwf Hft e e' He Hr) as (_ & <- & _).
    apply (ends_dom _ _ e'), Hedge. by apply (edge_stays x g e).
Qed.

(** C5: a substitution by a valid rule keeps the meaning of a graph.  If the source pattern is
    matched in a well-formed graph and [create_new_graph] returns a graph that passes
    [has_loop], then in every assignment of values to the outputs of the new graph that obeys
    the meaning of its operators and gives the inputs and weights the same values, every
    operator that was not matched has the values it has in the old graph. *)
Theorem substitution_sound {V : Type} (F : Op → (Z → V) → Z → V) x g g' g'' val val' :
  graph_wf g → fed g → slots g → matched x g → fresh_targets x g → valid F x →
  create_new_graph x g = Ok g' → has_loop g' = Ok (g'', false) → solves F g val → solves F g' val' →
  (∀ op i, guid op <= GUID_PRESERVED → val' op i = val op i) →
  ∀ op i, op ∈ nodes g → op ∉ dom (mappedOps x) → val' op i = val op i.
Proof. apply kept_values. Qed.

(** ** An example *)

(** The rule for a convolution and a rectifier, matched in a small network: the operators 100
    (input), 101 (weight), 102 (convolution), 103 (rectifier) and 104, which reads it. *)
Definition ex_op (n : Z) : Op := mkOp n (Some (Z.to_pos n)).
Definition ex_edges : list Edge :=
  [mkEdge (mkOp GUID_INPUT None) (ex_op 100) 0 0; mkEdge (mkOp GUID_WEIGHT None) (ex_op 101) 0 0; mkEdge (ex_op 100) (ex_op 102) 0 0;
   mkEdge (ex_op 101) (ex_op 102) 0 1; mkEdge (ex_op 102) (ex_op 103) 0 0; mkEdge (ex_op 103) (ex_op 104) 0 0].
Definition ex_graph : res Graph :=
  foldM (λ e g, add_edge g (srcOp e) (dstOp e) (srcIdx e) (dstIdx e)) ex_edges (new_Graph (new_Model initial_heap)).
Definition ex_rule : GraphXfer :=
  let conv := mkOpX OP_CONV2D (ex_op 102) [mkTensorX None 10; mkTensorX None 11] [mkTensorX (Some (XSrc 0)) 0] [] [] in
  let relu := mkOpX OP_RELU (ex_op 103) [mkTensorX (Some (XSrc 0)) 0] [mkTensorX (Some (XSrc 1)) 0] [] [] in
  let fuse := mkOpX OP_CONV2D (ex_op 105) [mkTensorX None 10; mkTensorX None 11] [mkTensorX (Some (XDst 0)) 0] [] [] in
  mkXfer (new_Model initial_heap) 12 [Some conv; Some relu] [Some fuse] (<[ex_op 103 := XSrc 1]> {[ex_op 102 := XSrc 0]})
    (<[11 := [(ex_op 101, 0)]]> {[10 := [(ex_op 100, 0)]]}) {[mkTensorX (Some (XSrc 1)) 0 := mkTensorX (Some (XDst 0)) 0]}.
(** A toy meaning of the operators, on numbers. *)
Definition ex_meaning (op : Op) (ins : Z → Z) (i : Z) : Z :=
  match guid op with
  | 102 => ins 0 * ins 1 | 103 => Z.max 0 (ins 0) | 104 => ins 0 + 1 | 105 => Z.max 0 (ins 0 * ins 1) | _ => ins 0
  end.
Definition ex_val (op : Op) (i : Z) : Z :=
  match guid op with 10 | 100 => 3 | 11 | 101 => -2 | 102 => -6 | 103 => 0 | 104 => 1 | _ => 0 end.

Lemma put_edges l g0 g : woven g0 → foldM (λ e g, add_edge g (srcOp e) (dstOp e) (srcIdx e) (dstIdx e)) l g0 = Ok g →
  woven g ∧ ∀ e, edge_of g e ↔ edge_of g0 e ∨ e ∈ l.
Proof.
  intros Hw Hg. destruct (foldM_adds _ (λ e e', e' = e) l (λ e _, add_edge_adds e) _ _ Hw Hg) as (Hw' & _ & He). split; [done|].
  intros e. rewrite He. naive_solver.
Qed.
Lemma ex_graph_edges g : ex_graph = Ok g → woven g ∧ ∀ e, edge_of g e ↔ e ∈ ex_edges.
Proof.
  unfold ex_graph. generalize ex_edges. intros l [Hw He]%(put_edges l _ g (woven_new _)). split; [done|]. intros e. rewrite He.
  split; [intros [Hn|?]; [|done]|by right]. unfold edge_of, ends, new_Graph in Hn. simpl in Hn. set_solver.
Qed.
(** Goes through the edges, or the operators, of the example. *)
Ltac ex_cases H := unfold ex_edges in H; repeat (apply elem_of_cons in H as [->|H]); [..|by apply elem_of_nil in H].

Definition ex_ops : list Op := [mkOp GUID_INPUT None; mkOp GUID_WEIGHT None; ex_op 100; ex_op 101; ex_op 102; ex_op 103; ex_op 104].
Lemma ex_graph_wf g : ex_graph = Ok g → graph_wf g.
Proof.
  intros [Hw He]%ex_graph_edges. apply (woven_wf (.∈ ex_ops)); [done| | | |].
  - intros a b Ha Hb Hg. unfold ex_ops in *. ex_cases Ha; ex_cases Hb; done.
  - intros e Hx%He. ex_cases Hx; simpl; unfold ex_ops; split; set_solver.
  - intros e Hx%He. ex_cases Hx; done.
  - intros e Hx%He. ex_cases Hx; simpl; [by right..| | | |]; left.
    + apply (ends_dom _ _ (mkEdge (mkOp GUID_INPUT None) (ex_op 100) 0 0)), He. unfold ex_edges. set_solver.
    + apply (ends_dom _ _ (mkEdge (mkOp GUID_WEIGHT None) (ex_op 101) 0 0)), He. unfold ex_edges. set_solver.
    + apply (ends_dom _ _ (mkEdge (ex_op 100) (ex_op 102) 0 0)), He. unfold ex_edges. set_solver.
    + apply (ends_dom _ _ (mkEdge (ex_op 102) (ex_op 103) 0 0)), He. unfold ex_edges. set_solver.
Qed.
Lemma ex_graph_slots g : ex_graph = Ok g → slots g.
Proof. intros [_ He]%ex_graph_edges e e' Hx%He Hy%He. ex_cases Hx; ex_cases Hy; simpl; try done. Qed.
Lemma ex_graph_solves g : ex_graph = Ok g → solves ex_meaning g ex_val.
Proof.
  intros [Hw He]%ex_graph_edges op ins (e & Hx%He & <-)%(wo_fed g Hw) Hins i.
  assert (∀ e', e' ∈ ex_edges → dstOp e' = dstOp e → ins (dstIdx e') = ex_val (srcOp e') (srcIdx e')) as Hin by (intros e' Hy%He; by apply Hins).
  clear Hins. unfold ex_edges in Hin. rewrite <-Forall_forall in Hin. rewrite !Forall_cons in Hin.
  destruct Hin as (H1 & H2 & H3 & H4 & H5 & H6 & _). ex_cases Hx; simpl in *; unfold ex_val, ex_meaning in *; simpl in *.
  - by rewrite H1.
  - by rewrite H2.
  - by rewrite H3, H4.
  - by rewrite H3, H4.
  - by rewrite H5.
  - by rewrite H6.
Qed.
Lemma ex_valid : valid ex_meaning ex_rule.
Proof.
  intros env vals Hsrc. exists (λ _ _, Z.max 0 (env 10 * env 11)). split.
  - intros [|[|k]] o ins Ho Hins i; [|done|done]. injection Ho as <-. unfold ex_meaning. simpl.
    rewrite (Hins 0%nat _ eq_refl), (Hins 1%nat _ eq_refl) at 1. done.
  - intros s d Hd. unfold ex_rule in Hd. simpl in Hd. apply lookup_singleton_Some in Hd as [<- <-]. simpl. unfold tensor_value. simpl.
    rewrite (Hsrc 1%nat _ (λ _, vals (XSrc 0) 0) eq_refl); [|intros [|k] t Ht; [by injection Ht as <-|done]]. unfold ex_meaning. simpl. f_equal.
    rewrite (Hsrc 0%nat _ (λ j, if j =? 0 then env 10 else env 11) eq_refl); [done|].
    intros [|[|k]] t Ht; [by injection Ht as <-..|done].
Qed.
Lemma ex_matched g : ex_graph = Ok g → matched ex_rule g.
Proof.
  intros [Hw He]%ex_graph_edges. assert (∀ e, e ∈ ex_edges → dstOp e ∈ nodes g) as Hn by (intros e Hx%He; by apply ends_dom in Hx). split.
  - intros op r. unfold ex_rule. simpl. rewrite lookup_insert_Some, lookup_singleton_Some. intros [[<- <-]|(_ & <- & <-)]; [exists 1%nat|exists 0%nat]; eexists; by split_and!.
  - intros [|[|k]] so Hso; [injection Hso as <-..|done]; simpl.
    + apply (Hn (mkEdge (ex_op 100) (ex_op 102) 0 0)). unfold ex_edges. set_solver.
    + apply (Hn (mkEdge (ex_op 102) (ex_op 103) 0 0)). unfold ex_edges. set_solver.
  - intros [|[|k]] so e Hso Hx%He; [injection Hso as <-..|done]; ex_cases Hx; simpl; intros Hd; try done.
    + exists 0%nat. eexists. split_and!; [done..|]. by exists [].
    + exists 1%nat. eexists. split_and!; [done..|]. by exists [].
    + exists 0%nat. eexists. split_and!; [done..|]. unfold comes_from. simpl. eexists. by split.
  - intros [|[|k]] so i t r Hso; [injection Hso as <-..|done]; simpl.
    + destruct i as [|[|i]]; simpl; intros [= <-]; done.
    + destruct i as [|i]; simpl; intros [= <-]. intros [= <-]. eauto.
Qed.
Lemma ex_fresh_targets g : ex_graph = Ok g → fresh_targets ex_rule g.
Proof.
  intros [Hw He]%ex_graph_edges.
  assert (∀ op, of_graph g op → op ∈ ex_ops) as Hops.
  { intros op Hop. apply (woven_nodes (.∈ ex_ops) g op Hw); [|done]. intros e Hx%He. ex_cases Hx; simpl; unfold ex_ops; split; set_solver. }
  split.
  - intros [|j] o Ho; [injection Ho as <-|done]. simpl. split; [|done]. intros Hx%Hops. by apply (bool_decide_eq_false_1 (ex_op 105 ∈ ex_ops)).
  - intros [|j] [|k] o o' Ho Ho'; done.
  - intros [|j] o op Ho Hx%Hops; [injection Ho as <-|done]. unfold ex_ops in Hx. ex_cases Hx; done.
  - intros [|j] o [|[|i]] t r Ho; [injection Ho as <-..|done|done|done]; simpl; intros [= <-]; done.
  - intros s d Hd. unfold ex_rule in Hd. simpl in Hd. apply lookup_singleton_Some in Hd as [<- <-]. by exists 0%nat.
  - intros k src l. unfold ex_rule. simpl. rewrite lookup_insert_Some, lookup_singleton_Some. intros [[_ [= <- _]]|(_ & _ & [= <- _])]; unfold of_graph; apply elem_of_union; left; simpl.
    + apply (ends_dom _ _ (mkEdge (mkOp GUID_WEIGHT None) (ex_op 101) 0 0)), He. unfold ex_edges. set_solver.
    + apply (ends_dom _ _ (mkEdge (mkOp GUID_INPUT None) (ex_op 100) 0 0)), He. unfold ex_edges. set_solver.
Qed.

Lemma substitution_sound_witness : ∃ g g' g'' val', ex_graph = Ok g ∧ create_new_graph ex_rule g = Ok g' ∧ has_loop g' = Ok (g'', false)
  ∧ solves ex_meaning g' val' ∧ val' (ex_op 104) 0 = 1.
Proof.
  assert ((g ← ex_graph; g' ← create_new_graph ex_rule g; r ← has_loop g'; Ok r.2) = Ok false) as H by (vm_compute; reflexivity).
  apply res_bind_Ok in H as (g & Hg & H). apply res_bind_Ok in H as (g' & Hg' & H). apply res_bind_Ok in H as ([g'' b] & Hl & H). injection H as ->.
  pose proof (ex_graph_wf g Hg) as Hwf. pose proof (ex_matched g Hg) as Hma. pose proof (ex_fresh_targets g Hg) as Hft. pose proof (ex_graph_solves g Hg) as Hv.
  destruct (ex_valid _ _ (old_solved ex_meaning ex_rule g ex_val Hma Hv)) as (vals & Hpat & Hout).
  pose proof (new_solves ex_meaning ex_rule g g' ex_val Hwf Hma Hft Hv vals Hg' Hpat Hout) as Hv'.
  destruct (ex_graph_edges g Hg) as [Hw He]. set (val' := new_val ex_rule ex_val vals) in *.
  exists g, g', g'', val'. refine (conj Hg (conj Hg' (conj Hl (conj Hv' _)))).
  apply (substitution_sound ex_meaning ex_rule g g' g'' ex_val val' Hwf (wo_fed g Hw) (ex_graph_slots g Hg) Hma Hft ex_valid Hg' Hl Hv Hv').
  - intros op i Hop. unfold val', new_val. destruct (target_of ex_rule op) as [n|] eqn:Ht; [|reflexivity].
    unfold target_of in Ht. simpl in Ht. case_decide as Hd; [|discriminate Ht]. apply bool_decide_unpack in Hd. subst op. destruct (Hop eq_refl).
  - apply (ends_dom _ _ (mkEdge (ex_op 103) (ex_op 104) 0 0)), He. do 5 right. left.
  - apply not_elem_of_dom. reflexivity.
Defined.
