(* ===== verification/DbMatch.v ===== *)
(** * DbMatch: what matching establishes

    [can_match] compares an operator of the graph with one of the source pattern and [match]
    notes the pair; [create_new_operator] builds the operators of the target pattern.  For
    rules in which every tensor from outside is read once, these steps lead to a state in
    which the source pattern is matched ([matched]) and the operators of the target pattern
    are new ([fresh_targets]): the conditions under which a substitution keeps the meaning of
    a graph. *)

From stdpp Require Import sorting relations.
From S2P Require Import Prelude PgArray DbTensor DbOp DbModel Kahn DbGraph DbEdges DbSubst DbRewrite.

Open Scope Z_scope.

(** ** Rules *)

(** The numbers of all tensors from outside a pattern. *)
Definition outside_ids (ops : list (option OpX)) : list Z := ops ≫= λ o, match o with Some o => outside (x_inputs o) | None => [] end.

(** Operators read earlier operators of their pattern; outputs are replaced by outputs of the
    target pattern; the source pattern reads every tensor from outside once. *)
Record rule_ok (x : GraphXfer) : Prop := {
  ro_src : ∀ (k : nat) so (i : nat) t r, srcOps x !! k = Some (Some so) → x_inputs so !! i = Some t → x_op t = Some r → ∃ j, r = XSrc j ∧ (j < k)%nat;
  ro_dst : ∀ (k : nat) o (i : nat) t r, dstOps x !! k = Some (Some o) → x_inputs o !! i = Some t → x_op t = Some r → ∃ j, r = XDst j;
  ro_outputs : ∀ s d, mappedOutputs x !! s = Some d → ∃ k, x_op d = Some (XDst k);
  ro_linear : NoDup (outside_ids (srcOps x))
}.

(** Patterns without the operators they are matched with. *)
Definition bare (ops : list (option OpX)) : list (option OpX) :=
  fmap (M:=list) (fmap (M:=option) (λ o, set_mapOp o INVALID_OP)) ops.
Record same_rule (x y : GraphXfer) : Prop := {
  sr_src : bare (srcOps x) = bare (srcOps y);
  sr_dst : bare (dstOps x) = bare (dstOps y);
  sr_outputs : mappedOutputs x = mappedOutputs y
}.
#[export] Instance same_rule_equivalence : Equivalence same_rule.
Proof. split; [by intros x; split|by intros x y []; split|]. intros x y z [] []. split; congruence. Qed.

Lemma bare_lookup (ops ops' : list (option OpX)) (k : nat) o : bare ops = bare ops' → ops !! k = Some (Some o) → ∃ o', ops' !! k = Some (Some o') ∧ same_op o o'.
Proof.
  intros Hb Ho. assert (bare ops' !! k = Some (Some (set_mapOp o INVALID_OP))) as Hk by (rewrite <-Hb; unfold bare; by rewrite list_lookup_fmap, Ho).
  unfold bare in Hk. rewrite list_lookup_fmap in Hk. destruct (ops' !! k) as [[o'|]|]; try done. exists o'. split; [done|]. unfold same_op. cbn in Hk. congruence.
Qed.
Lemma bare_ids (ops ops' : list (option OpX)) : bare ops = bare ops' → outside_ids ops = outside_ids ops'.
Proof.
  revert ops'. induction ops as [|o ops IH]; intros [|o' ops'] Hb; try done. csimpl in Hb. injection Hb as Ho Hb. unfold outside_ids in *. csimpl.
  rewrite (IH ops' Hb). f_equal. destruct o as [o|], o' as [o'|]; try done. simpl in Ho. by injection Ho as _ -> _ _ _.
Qed.
Lemma bare_alter (ops : list (option OpX)) (i : nat) op : bare (alter (fmap (λ o, set_mapOp o op)) i ops) = bare ops.
Proof.
  apply list_eq. intros k. unfold bare. rewrite !list_lookup_fmap. destruct (decide (i = k)) as [<-|Hne]; [|by rewrite list_lookup_alter_ne].
  rewrite list_lookup_alter_eq. by destruct (ops !! i) as [[o|]|].
Qed.
Lemma same_rule_ok x y : same_rule x y → rule_ok x → rule_ok y.
Proof.
  intros [Hs Hd Ho] [Hsrc Hdst Hout Hlin]. split.
  - intros k so i t r Hso Ht. destruct (bare_lookup _ _ k so (eq_sym Hs) Hso) as (so' & Hso' & He%same_op_inputs). rewrite He in Ht. by apply (Hsrc k so' i).
  - intros k o i t r Hk Ht. destruct (bare_lookup _ _ k o (eq_sym Hd) Hk) as (o' & Hk' & He%same_op_inputs). rewrite He in Ht. by apply (Hdst k o' i).
  - rewrite <-Ho. apply Hout.
  - by rewrite <-(bare_ids _ _ Hs).
Qed.

Lemma elem_of_outside_ids (ops : list (option OpX)) k : k ∈ outside_ids ops ↔ ∃ (j : nat) o, ops !! j = Some (Some o) ∧ k ∈ outside (x_inputs o).
Proof.
  unfold outside_ids. rewrite list_elem_of_bind. split.
  - intros (o & Hk & [j Hj]%list_elem_of_lookup_1). destruct o as [o|]; [by exists j, o|by apply elem_of_nil in Hk].
  - intros (j & o & Hj%list_elem_of_lookup_2 & Hk). by exists (Some o).
Qed.
(** The inputs of two operators of the pattern. *)
Lemma linear_inputs (ops : list (option OpX)) (j k : nat) o o' n : NoDup (outside_ids ops) → ops !! j = Some (Some o) → ops !! k = Some (Some o') →
  n ∈ outside (x_inputs o) → n ∈ outside (x_inputs o') → j = k.
Proof.
  revert j k. unfold outside_ids. induction ops as [|a ops IH]; intros j k Hnd; [done|]. csimpl in Hnd. apply NoDup_app in Hnd as (Ha & Hdis & Hnd).
  assert (∀ i o0, ops !! i = Some (Some o0) → n ∈ outside (x_inputs o0) → n ∈ outside_ids ops) as Hin by (intros i o0 ??; apply elem_of_outside_ids; eauto).
  destruct j as [|j], k as [|k]; simpl; intros Hj Hk Hn Hn'.
  - done.
  - injection Hj as ->. destruct (Hdis n Hn). by apply (Hin k o').
  - injection Hk as ->. destruct (Hdis n Hn'). by apply (Hin j o).
  - f_equal. by apply IH.
Qed.
Lemma linear_op (ops : list (option OpX)) (k : nat) o : NoDup (outside_ids ops) → ops !! k = Some (Some o) → NoDup (outside (x_inputs o)).
Proof.
  revert k. unfold outside_ids. induction ops as [|a ops IH]; intros [|k] Hnd Hk; try done; csimpl in Hnd; apply NoDup_app in Hnd as (Ha & _ & Hnd).
  - by injection Hk as ->.
  - by apply (IH k).
Qed.

(** ** Matching *)

(** The first [d] operators of the source pattern are matched. *)
Record matched_to (d : nat) (x : GraphXfer) (g : Graph) : Prop := {
  mt_ops : ∀ op r, mappedOps x !! op = Some r ↔ ∃ (k : nat) so, r = XSrc k ∧ (k < d)%nat ∧ srcOps x !! k = Some (Some so) ∧ mapOp so = op;
  mt_src : ∀ (k : nat) so, (k < d)%nat → srcOps x !! k = Some (Some so) → mapOp so ∈ nodes g;
  mt_inputs : ∀ (k : nat) so e, (k < d)%nat → srcOps x !! k = Some (Some so) → edge_of g e → dstOp e = mapOp so →
    ∃ (i : nat) t, dstIdx e = i ∧ x_inputs so !! i = Some t ∧ comes_from x t (srcOp e, srcIdx e);
  mt_outside : ∀ n, is_Some (mappedInputs x !! n) → ∃ (k : nat) so, (k < d)%nat ∧ srcOps x !! k = Some (Some so) ∧ n ∈ outside (x_inputs so);
  mt_sources : ∀ n src l, mappedInputs x !! n = Some (src :: l) → of_graph g src.1;
  mt_unset : ∀ (k : nat) so, (d <= k)%nat → srcOps x !! k = Some (Some so) → mapOp so = INVALID_OP
}.

#[global] Instance edge_of_dec g e : Decision (edge_of g e) := decide (e ∈ _).
Lemma has_edge_present g src op si di : op ∈ nodes g → has_edge g src op si di = Ok (g, bool_decide (edge_of g (mkEdge src op si di))).
Proof.
  intros [s Hs]%elem_of_nodes. unfold has_edge. rewrite (getitem_present _ _ s Hs). cbn [mbind res_bind]. rewrite set_in_same. do 2 f_equal.
  apply bool_decide_ext. unfold edge_of, ends. simpl. by rewrite Hs.
Qed.
Lemma match_inputs_inv x op ts : ∀ i new g g1 b, op ∈ nodes g → match_inputs x op ts i new g = Ok (g1, b) →
  g1 = g ∧ (b = true → ∀ (j : nat) t r, ts !! j = Some t → x_op t = Some r → ∃ o, opx x r = Ok o ∧ edge_of g (mkEdge (mapOp o) op (x_idx t) (i + j))).
Proof.
  induction ts as [|t ts IH]; intros i new g g1 b Hop; cbn [match_inputs]; [by intros [= <- <-]|].
  assert (∀ src new', ('(g, b) ← has_edge g src.1 op src.2 i; if negb b then Ok (g, false) else match_inputs x op ts (i + 1) new' g) = Ok (g1, b) →
    g1 = g ∧ (b = true → edge_of g (mkEdge src.1 op src.2 i) ∧ ∀ (j : nat) u r, ts !! j = Some u → x_op u = Some r →
      ∃ o, opx x r = Ok o ∧ edge_of g (mkEdge (mapOp o) op (x_idx u) (i + S j)))) as Hgo.
  { intros src new'. rewrite has_edge_present by done. cbn [mbind res_bind]. case_bool_decide as He; simpl; [|by intros [= <- <-]].
    intros [-> Hall]%IH; [|done]. split; [done|]. intros Hb. split; [done|]. intros j u r Hu Hr. replace (i + S j) with (i + 1 + j) by lia. by apply Hall. }
  destruct (x_op t) as [r|] eqn:Hr.
  - intros (so & Hso & [_ Hrun]%assert_Ok)%res_bind_Ok. destruct (Hgo (mapOp so, x_idx t) new Hrun) as [-> Hall]. split; [done|]. intros Hb.
    destruct (Hall Hb) as [He Hrest]. intros [|j] u r' Hu Hru; simpl in Hu; [|by apply (Hrest j)]. injection Hu as <-. rewrite Hr in Hru. injection Hru as <-.
    exists so. split; [done|]. by rewrite Z.add_0_r.
  - assert (∀ (j : nat) u r, (t :: ts) !! j = Some u → x_op u = Some r → ∃ j' : nat, j = S j' ∧ ts !! j' = Some u) as Hskip.
    { intros [|j] u r Hu Hru; simpl in Hu; [|by exists j]. injection Hu as <-. by rewrite Hr in Hru. }
    destruct (mappedInputs x !! x_idx t) as [l|].
    { intros (src & _ & Hrun)%res_bind_Ok. destruct (Hgo src new Hrun) as [-> Hall]. split; [done|]. intros Hb. destruct (Hall Hb) as [_ Hrest].
      intros j u r Hu Hru. destruct (Hskip j u r Hu Hru) as (j' & -> & Hu'). by apply Hrest. }
    destruct (new !! x_idx t) as [src|].
    { intros Hrun. destruct (Hgo src new Hrun) as [-> Hall]. split; [done|]. intros Hb. destruct (Hall Hb) as [_ Hrest].
      intros j u r Hu Hru. destruct (Hskip j u r Hu Hru) as (j' & -> & Hu'). by apply Hrest. }
    apply elem_of_nodes in Hop as Hs. destruct Hs as [s Hs]. rewrite (getitem_present _ _ s Hs). cbn [mbind res_bind]. rewrite set_in_same.
    intros [-> Hall]%IH; [|done]. split; [done|]. intros Hb j u r Hu Hru. destruct (Hskip j u r Hu Hru) as (j' & -> & Hu').
    replace (i + S j') with (i + 1 + j') by lia. by apply Hall.
Qed.
Lemma can_match_inv x d op g g1 b : op ∈ nodes g → can_match x d op g = Ok (g1, b) →
  g1 = g ∧ (b = true → ∃ so o, opx x (XSrc d) = Ok so ∧ op_object (xf_model x) op = Ok o ∧ zlen (x_inputs so) = numInputs o
    ∧ ∀ (j : nat) t r, x_inputs so !! j = Some t → x_op t = Some r → ∃ o, opx x r = Ok o ∧ edge_of g (mkEdge (mapOp o) op (x_idx t) j)).
Proof.
  intros Hop. unfold can_match. intros (so & Hso & (o & Ho & Hr)%res_bind_Ok)%res_bind_Ok. destruct (negb _); [by injection Hr as <- <-|].
  destruct (Z.eqb_spec (zlen (x_inputs so)) (numInputs o)) as [Hlen|]; [|by injection Hr as <- <-]. simpl in Hr.
  apply res_bind_Ok in Hr as (b1 & _ & Hr). destruct (negb b1); [by injection Hr as <- <-|]. apply res_bind_Ok in Hr as ([g2 b2] & Hm & Hr).
  apply match_inputs_inv in Hm as [-> Hall]; [|done]. destruct b2; simpl in Hr; [|by injection Hr as <- <-]. apply res_bind_Ok in Hr as (b3 & _ & Hr).
  injection Hr as <- <-. split; [done|]. intros _. exists so, o. split_and!; [done..|]. intros j t r Ht Hx. by apply (Hall eq_refl j t r).
Qed.

(** ** The first operators of the pattern *)

Lemma set_src_lookup (ops : list (option OpX)) (d k : nat) op so' : alter (fmap (λ o, set_mapOp o op)) d ops !! k = Some (Some so') →
  ∃ so, ops !! k = Some (Some so) ∧ so' = (if decide (k = d) then set_mapOp so op else so).
Proof.
  case_decide as Hk; [subst k; rewrite list_lookup_alter_eq|rewrite list_lookup_alter_ne by done; by exists so'].
  destruct (ops !! d) as [[so|]|]; try done. exists so. split; [done|]. cbn in H. congruence.
Qed.
Lemma set_src_lookup_1 (ops : list (option OpX)) (d k : nat) op so : ops !! k = Some (Some so) →
  alter (fmap (λ o, set_mapOp o op)) d ops !! k = Some (Some (if decide (k = d) then set_mapOp so op else so)).
Proof.
  intros Hk. case_decide as Hd; [subst k; by rewrite list_lookup_alter_eq, Hk|by rewrite list_lookup_alter_ne].
Qed.

(** The source of an input with one edge. *)
Lemma input_sources_one g e : graph_pre g → slots g → edge_of g e →
  ∃ l, input_sources (ends (inEdges g) (dstOp e)) (dstIdx e) = (srcOp e, srcIdx e) :: l.
Proof.
  intros Hwf Hs He. unfold input_sources.
  assert (e ∈ filter (λ a, dstIdx a = dstIdx e) (edges (ends (inEdges g) (dstOp e)))) as Hin by (apply list_elem_of_filter; by rewrite elem_of_edges).
  destruct (filter _ _) as [|a l] eqn:Hf; [by apply elem_of_nil in Hin|]. csimpl. exists ((λ a, (srcOp a, srcIdx a)) <$> l).
  assert (a ∈ filter (λ a, dstIdx a = dstIdx e) (edges (ends (inEdges g) (dstOp e)))) as [Ha Hin']%list_elem_of_filter by (rewrite Hf; left).
  apply elem_of_edges in Hin'. pose proof (gw_in g Hwf _ a Hin') as Hd. assert (a = e) as ->; [|done]. apply Hs; [unfold edge_of; by rewrite Hd|done..].
Qed.

Section Extend.
  Context (x : GraphXfer) (g : Graph) (d : nat) (op : Op) (Hrule : rule_ok x) (Hwf : graph_wf g) (Hfull : full_slots (xf_model x) g)
          (Hmt : matched_to d x g) (Hop : op ∈ nodes g) (Hcan : can_match x d op g = Ok (g, true)) (Hnew : op ∉ dom (mappedOps x)).

Lemma mapped_nodes k : k ∈ dom (mappedOps x) → k ∈ nodes g.
Proof. intros [r (j & so & _ & Hj & Hso & <-)%(mt_ops _ _ _ Hmt)]%elem_of_dom. by apply (mt_src _ _ _ Hmt j). Qed.

(** What [match] adds. *)
Definition extended (so : OpX) (x' : GraphXfer) : Prop :=
  x' = set_mappedOps (set_src_mapOp (set_mappedInputs x (mappedInputs x')) d op) (<[op := XSrc d]> (mappedOps x))
  ∧ (∀ (i : nat) t, x_inputs so !! i = Some t → x_op t = None → mappedInputs x' !! x_idx t = Some (input_sources (ends (inEdges g) op) i))
  ∧ ∀ k, k ∉ outside (x_inputs so) → mappedInputs x' !! k = mappedInputs x !! k.

Lemma match_runs so : srcOps x !! d = Some (Some so) → ∃ x', match_op x d op g = Ok (x', g) ∧ unmatch x' d op = Ok x ∧ extended so x'.
Proof.
  intros Hso. destruct (can_match_inv x d op g g true Hop Hcan) as [_ Hinv]. destruct (Hinv eq_refl) as (so' & o & Hso' & Ho & Hlen & _).
  apply opx_src_inv in Hso'. assert (so' = so) as -> by congruence. apply match_then_unmatch.
  - by apply opx_src_inv.
  - by apply (mt_unset _ _ _ Hmt d).
  - by apply (linear_op (srcOps x) d), Hso; apply ro_linear.
  - intros k Hk. destruct (mappedInputs x !! k) eqn:Hin; [|done]. destruct (mt_outside _ _ _ Hmt k) as (j & so' & Hj & Hso1 & Hk'); [by rewrite Hin|].
    pose proof (linear_inputs _ j d so' so k (ro_linear x Hrule) Hso1 Hso Hk' Hk). lia.
  - done.
  - intros k' Hk'%mapped_nodes. apply (gw_unique g Hwf); set_solver.
  - done.
  - intros i t Ht _. destruct (fs_all _ _ Hfull op o i Hop Ho) as (e & He & <- & Hi).
    + apply lookup_lt_Some in Ht. unfold zlen in Hlen. lia.
    + by exists e.
Qed.

Context (so : OpX) (x' : GraphXfer) (Hso : srcOps x !! d = Some (Some so)) (Hext : extended so x').

Lemma extended_src : srcOps x' = alter (fmap (λ o, set_mapOp o op)) d (srcOps x) ∧ mappedOps x' = <[op := XSrc d]> (mappedOps x).
Proof. destruct Hext as (-> & _). done. Qed.
Lemma extended_earlier (j : nat) so0 : j ≠ d → srcOps x' !! j = Some (Some so0) ↔ srcOps x !! j = Some (Some so0).
Proof. intros Hj. destruct extended_src as [-> _]. by rewrite list_lookup_alter_ne. Qed.
Lemma extended_here so0 : srcOps x' !! d = Some (Some so0) → so0 = set_mapOp so op.
Proof. destruct extended_src as [-> _]. intros (so1 & Hso1 & ->)%set_src_lookup. rewrite decide_True by done. congruence. Qed.

(** The inputs of an operator matched before. *)
Lemma extended_comes (k i : nat) so0 t src : (k < d)%nat → srcOps x !! k = Some (Some so0) → x_inputs so0 !! i = Some t → comes_from x t src → comes_from x' t src.
Proof.
  intros Hk Hso0 Ht. unfold comes_from. destruct (x_op t) as [r|] eqn:Hr.
  - destruct (ro_src x Hrule k so0 i t r Hso0 Ht Hr) as (j & -> & Hj). intros (o & Ho & ->). exists o. split; [|done].
    apply opx_src_inv, extended_earlier; [lia|]. by apply opx_src_inv.
  - destruct Hext as (_ & _ & Hother). rewrite Hother; [done|]. intros Hd.
    assert (x_idx t ∈ outside (x_inputs so0)) as Hin by (apply elem_of_outside; eauto).
    pose proof (linear_inputs _ k d so0 so _ (ro_linear x Hrule) Hso0 Hso Hin Hd). lia.
Qed.
(** The inputs of the operator matched now. *)
Lemma extended_inputs e : edge_of g e → dstOp e = op → ∃ (i : nat) t, dstIdx e = i ∧ x_inputs so !! i = Some t ∧ comes_from x' t (srcOp e, srcIdx e).
Proof.
  intros He Hd. destruct (can_match_inv x d op g g true Hop Hcan) as [_ Hinv]. destruct (Hinv eq_refl) as (so' & o & Hso' & Ho & Hlen & Hinner).
  apply opx_src_inv in Hso'. assert (so' = so) as -> by congruence.
  destruct (fs_range _ _ Hfull e o He) as [Hi0 Hi1]; [by rewrite Hd|]. destruct (lookup_lt_is_Some_2 (x_inputs so) (Z.to_nat (dstIdx e))) as [t Ht].
  { unfold zlen in Hlen. lia. }
  exists (Z.to_nat (dstIdx e)), t. split_and!; [lia|done|]. unfold comes_from. destruct (x_op t) as [r|] eqn:Hr.
  - destruct (Hinner _ t r Ht Hr) as (o1 & Ho1 & He1). destruct (ro_src x Hrule d so _ t r Hso Ht Hr) as (j & -> & Hj).
    assert (e = mkEdge (mapOp o1) op (x_idx t) (Z.to_nat (dstIdx e))) as Heq.
    { apply (fs_unique _ _ Hfull); [done..|]. simpl. lia. }
    exists o1. split; [|by rewrite Heq]. apply opx_src_inv, extended_earlier; [lia|]. by apply opx_src_inv.
  - destruct Hext as (_ & Hhere & _). rewrite (Hhere _ t Ht Hr), Z2Nat.id, <-Hd by done. destruct (input_sources_one g e Hwf (fs_unique _ _ Hfull) He) as [l ->]. by exists l.
Qed.

(** One more operator is matched. *)
Lemma match_extends : matched_to (S d) x' g.
Proof.
  destruct extended_src as [Hsrc Hops]. split.
  - intros k r. rewrite Hops, lookup_insert_Some. split.
    + intros [[-> <-]|[Hne (j & so0 & -> & Hj & Hso0 & <-)%(mt_ops _ _ _ Hmt)]].
      * exists d, (set_mapOp so k). split_and!; [done|lia| |done]. rewrite Hsrc, (set_src_lookup_1 _ _ _ _ so Hso). by rewrite decide_True.
      * exists j, so0. split_and!; [done|lia| |done]. apply extended_earlier; [lia|done].
    + intros (j & so0 & -> & Hj & Hso0 & Hk). destruct (decide (j = d)) as [->|Hne].
      * left. apply extended_here in Hso0. by subst.
      * right. apply extended_earlier in Hso0; [|done]. assert (mappedOps x !! k = Some (XSrc j)) as Hm.
        { apply (mt_ops _ _ _ Hmt). exists j, so0. split_and!; [done|lia|done|done]. }
        split; [|done]. intros ->. apply Hnew. apply elem_of_dom. eauto.
  - intros k so0 Hk Hso0. destruct (decide (k = d)) as [->|Hne]; [by apply extended_here in Hso0 as ->|]. apply extended_earlier in Hso0; [|done].
    apply (mt_src _ _ _ Hmt k); [lia|done].
  - intros k so0 e Hk Hso0 He Hd. destruct (decide (k = d)) as [->|Hne].
    + apply extended_here in Hso0 as ->. by apply extended_inputs.
    + apply extended_earlier in Hso0; [|done]. destruct (mt_inputs _ _ _ Hmt k so0 e) as (i & t & Hi & Ht & Hc); [lia|done..|].
      exists i, t. split_and!; [done..|]. apply (extended_comes k i so0); [lia|done..].
  - intros n Hn. destruct Hext as (_ & _ & Hother). destruct (decide (n ∈ outside (x_inputs so))) as [Hin|Hout].
    + exists d, (set_mapOp so op). split_and!; [lia| |done]. rewrite Hsrc, (set_src_lookup_1 _ _ _ _ so Hso). by rewrite decide_True.
    + rewrite Hother in Hn by done. destruct (mt_outside _ _ _ Hmt n Hn) as (k & so0 & Hk & Hso0 & Hin). exists k, so0. split_and!; [lia| |done].
      apply extended_earlier; [lia|done].
  - intros n src l Hn. destruct Hext as (_ & Hhere & Hother). destruct (decide (n ∈ outside (x_inputs so))) as [Hin|Hout].
    + apply elem_of_outside in Hin as (i & t & Ht & Hx & <-). rewrite (Hhere i t Ht Hx) in Hn. injection Hn as Hl.
      assert (src ∈ input_sources (ends (inEdges g) op) i) as Hs by (rewrite Hl; left).
      apply list_elem_of_fmap in Hs as (e & -> & [_ He%elem_of_edges]%list_elem_of_filter). assert (edge_of g e) as He' by (unfold edge_of; by rewrite (gw_in g Hwf _ e He)).
      apply (gw_mirror g Hwf) in He'. apply ends_dom in He'. unfold of_graph. by apply elem_of_union_r.
    + rewrite Hother in Hn by done. by apply (mt_sources _ _ _ Hmt n src l).
  - intros k so0 Hk Hso0. apply extended_earlier in Hso0; [|lia]. apply (mt_unset _ _ _ Hmt k); [lia|done].
Qed.
End Extend.

(** ** The operators of the target pattern *)

(** [m'] is a later state of [m]. *)
Record kept (m m' : Model) : Prop := {
  ke_ok : model_ok m';
  ke_ops : m_ops m ⊆ m_ops m';
  ke_guid : global_unique_id m <= global_unique_id m'
}.
Lemma kept_refl m : model_ok m → kept m m.
Proof. by split. Qed.
#[export] Instance kept_trans : Transitive kept.
Proof. intros a b c [] []. split; [done|by etrans|lia]. Qed.
Lemma handed_kept n m m' op : handed n m m' op → kept m m'.
Proof. intros []. split; [done|done|lia]. Qed.

(** What [create_new_operator] asks the model for. *)
Lemma target_operator_fresh x o m' op : model_ok (xf_model x) → target_operator x o = Ok (m', op) →
  kept (xf_model x) m' ∧ (op = INVALID_OP ∨ (x_type o = OP_CONCAT ∧ op = mapOp o) ∨ (x_type o ≠ OP_CONCAT ∧ handed (zlen (x_inputs o)) (xf_model x) m' op)).
Proof.
  intros Hm. unfold target_operator. case_bool_decide as H1; [|destruct (_ || _) eqn:He; [|destruct (bool_decide (x_type o = OP_CONCAT)) eqn:H2; [|done]]]; intros Hr.
  - apply assert_Ok in Hr as [->%Z.eqb_eq Hr]. inv_run Hr. apply conv2d_handed in Hr as [[-> ->]|Hh]; [|by split; [eapply handed_kept|do 2 right; rewrite H1]|done].
    split; [by apply kept_refl|by left].
  - apply assert_Ok in Hr as [->%Z.eqb_eq Hr]. inv_run Hr. apply element_handed in Hr as [(-> & -> & _)|Hh]; [| |done].
    + split; [by apply kept_refl|by left].
    + split; [by eapply handed_kept|do 2 right]. split; [intros Hc; by rewrite Hc in He|done].
  - apply bool_decide_eq_true in H2. inv_run Hr. apply check_Ok in Hr as [_ Hr]. inv_run Hr. injection Hr as <- <-. split; [by apply kept_refl|right; by left].
Qed.

(** A concatenation of the target pattern is never built. *)
Definition idle (ops : list (option OpX)) : Prop := ∀ (j : nat) o, ops !! j = Some (Some o) → x_type o = OP_CONCAT → mapOp o = INVALID_OP.
(** [x] is [x0] with the operators of the target pattern from number [i] on to be built. *)
Record creating (x0 : GraphXfer) (i : nat) (x : GraphXfer) (passTag : bool) : Prop := {
  cr_same : x = set_dstOps (set_xf_model x0 (xf_model x)) (dstOps x);
  cr_bare : bare (dstOps x) = bare (dstOps x0);
  cr_kept : kept (xf_model x0) (xf_model x);
  cr_idle : idle (dstOps x);
  cr_new : passTag = true → ∀ (j : nat) o, (j < i)%nat → dstOps x !! j = Some (Some o) →
    global_unique_id (xf_model x0) <= guid (mapOp o) < global_unique_id (xf_model x);
  cr_increasing : passTag = true → ∀ (j k : nat) o o', (j < k < i)%nat → dstOps x !! j = Some (Some o) → dstOps x !! k = Some (Some o') → guid (mapOp o) < guid (mapOp o');
  cr_objects : passTag = true → ∀ (j : nat) o, (j < i)%nat → dstOps x !! j = Some (Some o) →
    ∃ ob, op_object (xf_model x) (mapOp o) = Ok ob ∧ numInputs ob = zlen (x_inputs o)
}.

Lemma create_new_operator_creating x0 i x x' tag : creating x0 i x true → create_new_operator x i = Ok (x', tag) → creating x0 (S i) x' tag.
Proof.
  intros [Hsame Hbare Hkept Hidle Hnew Hinc Hobj]. unfold create_new_operator. intros (o & Ho%opx_dst_inv & ([m op] & Ht & Hr)%res_bind_Ok)%res_bind_Ok.
  apply target_operator_fresh in Ht as [Hk Hop]; [|apply Hkept]. assert (kept (xf_model x0) m) as Hk' by (by etrans).
  assert (creating x0 (S i) (set_xf_model x m) false) as Hfail by (split; try done; simpl; by rewrite Hsame).
  case_bool_decide as Hinv; [by injection Hr as <- <-|]. apply res_bind_Ok in Hr as (b & _ & Hr). destruct b; simpl in Hr; [|by injection Hr as <- <-].
  injection Hr as <- <-. destruct Hop as [?|[[Hc ->]|(Hc & [Hg Hn Hob _ _])]]; [done|by destruct Hinv; apply (Hidle i)|].
  pose proof (ke_guid _ _ Hkept) as Hle.
  split; simpl; [by rewrite Hsame|by rewrite bare_alter|done| | | |].
  - intros j o1 (o2 & Ho2 & ->)%set_src_lookup. case_decide as Hj; [|by apply (Hidle j)]. subst j. assert (o2 = o) as -> by congruence. done.
  - intros _ j o1 Hj (o2 & Ho2 & ->)%set_src_lookup. case_decide as Hji; simpl; [lia|]. pose proof (Hnew eq_refl j o2 ltac:(lia) Ho2). lia.
  - intros _ j k o1 o2 Hjk (o3 & Ho3 & ->)%set_src_lookup (o4 & Ho4 & ->)%set_src_lookup. rewrite (decide_False (P := j = i)) by lia.
    case_decide as Hki; simpl; [pose proof (Hnew eq_refl j o3 ltac:(lia) Ho3); lia|]. apply (Hinc eq_refl j k o3 o4); [lia|done..].
  - intros _ j o1 Hj (o2 & Ho2 & ->)%set_src_lookup. case_decide as Hji; simpl; [assert (o2 = o) as -> by congruence; exact Hob|].
    destruct (Hobj eq_refl j o2) as (ob & Hx & ?); [lia|done|]. exists ob. split; [|done]. exact (object_kept _ _ _ _ (ke_ops _ _ Hk) Hx).
Qed.

(** ** A full match *)

(** [g] can be searched, with the objects of [m]. *)
Record searchable (m : Model) (g : Graph) : Prop := {
  se_wf : graph_wf g;
  se_fed : fed g;
  se_model : model_ok m;
  se_guids : ∀ op, of_graph g op → guid op < global_unique_id m;
  se_objects : ∀ op, op ∈ nodes g → ∃ o, op_object m op = Ok o;
  se_slots : full_slots m g
}.
Lemma edge_node g e : edge_of g e → dstOp e ∈ nodes g.
Proof. apply ends_dom. Qed.
Lemma searchable_kept m m' g : kept m m' → searchable m g → searchable m' g.
Proof.
  intros [Hok Hops Hle] [Hwf Hfed Hm Hg Ho Hs]. split; [done|done|done| | |by eapply full_slots_model].
  - intros op Hop%Hg. lia.
  - intros op [o Hop]%Ho. exists o. by eapply object_kept.
Qed.
(** A graph that the builders made can be searched. *)
Lemma built_searchable g ts : built g ts → searchable (g_model g) g.
Proof.
  intros [[Hwf Hm Hn Hs Hf Hfed _] Hsl]. split; [done|done|done| |by intros op (_ & ?)%Hn|done].
  intros op [Hop|Hop]%elem_of_union; [apply Hn in Hop; lia|]. apply Hs in Hop as [Hop|[->|[->| ->]]]; [apply Hn in Hop; lia|..];
    pose proof (mo_guid _ Hm); unfold INVALID_OP, GUID_INPUT, GUID_WEIGHT, GUID_INVALID; cbn [guid]; lia.
Qed.

Section Full.
  Context (x x1 : GraphXfer) (g : Graph) (Hrule : rule_ok x) (Hse : searchable (xf_model x) g) (Hmt : matched_to (length (srcOps x)) x g)
          (Hcr : creating x (length (dstOps x)) x1 true).

Lemma created_same : srcOps x1 = srcOps x ∧ mappedOps x1 = mappedOps x ∧ mappedInputs x1 = mappedInputs x ∧ mappedOutputs x1 = mappedOutputs x.
Proof. by rewrite (cr_same _ _ _ _ Hcr). Qed.
Lemma created_rule : same_rule x x1.
Proof. destruct created_same as (Hs & _ & _ & Ho). split; [by rewrite Hs|by rewrite (cr_bare _ _ _ _ Hcr)|done]. Qed.
Lemma full_match : matched x1 g.
Proof.
  destruct created_same as (Hs & Ho & Hi & _). split; rewrite ?Hs, ?Ho.
  - intros op r (k & so & ? & _ & ? & ?)%(mt_ops _ _ _ Hmt). by exists k, so.
  - intros k so Hk. apply (mt_src _ _ _ Hmt k so); [by apply lookup_lt_Some in Hk|done].
  - intros k so e Hk He Hd. destruct (mt_inputs _ _ _ Hmt k so e) as (i & t & ? & Ht & Hc); [by apply lookup_lt_Some in Hk|done..|].
    exists i, t. split_and!; [done..|]. unfold comes_from in *. rewrite Hi. destruct (x_op t) as [r|] eqn:Hr; [|done].
    destruct (ro_src x Hrule k so i t r Hk Ht Hr) as (j & -> & _). destruct Hc as (o & Hoj & ?). exists o. split; [|done].
    apply opx_src_inv. rewrite Hs. by apply opx_src_inv.
  - intros k so i t r Hk Ht Hr. destruct (ro_src x Hrule k so i t r Hk Ht Hr) as (j & -> & _). by exists j.
Qed.
Lemma created_index (j : nat) o : dstOps x1 !! j = Some (Some o) → (j < length (dstOps x))%nat.
Proof. intros Hj%lookup_lt_Some. pose proof (f_equal length (cr_bare _ _ _ _ Hcr)) as Hl. unfold bare in Hl. rewrite !length_fmap in Hl. lia. Qed.
Lemma created_new (j : nat) o : dstOps x1 !! j = Some (Some o) → global_unique_id (xf_model x) <= guid (mapOp o).
Proof. intros Hj. by apply (cr_new _ _ _ _ Hcr eq_refl j o); [by eapply created_index|]. Qed.
Lemma full_targets : fresh_targets x1 g.
Proof.
  pose proof (same_rule_ok _ _ created_rule Hrule) as Hrule1. pose proof (mo_guid _ (se_model _ _ Hse)) as H100. destruct created_same as (_ & _ & Hi & _).
  assert (∀ (j : nat) o op, dstOps x1 !! j = Some (Some o) → of_graph g op → guid (mapOp o) ≠ guid op) as Hnum.
  { intros j o op Hj%created_new Hop%(se_guids _ _ Hse). lia. }
  split.
  - intros j o Hj. split; [intros Hg; by apply (Hnum j o _ Hj Hg)|]. pose proof (created_new j o Hj). unfold GUID_PRESERVED. lia.
  - intros j k o o' Hj Hk Hg. destruct (lt_eq_lt_dec j k) as [[Hjk|?]|Hkj]; [|done|].
    + pose proof (cr_increasing _ _ _ _ Hcr eq_refl j k o o' ltac:(split; [done|by eapply created_index]) Hj Hk). lia.
    + pose proof (cr_increasing _ _ _ _ Hcr eq_refl k j o' o ltac:(split; [done|by eapply created_index]) Hk Hj). lia.
  - done.
  - intros j o i t r. apply (ro_dst x1 Hrule1).
  - apply (ro_outputs x1 Hrule1).
  - intros k src l. rewrite Hi. apply (mt_sources _ _ _ Hmt).
Qed.

Context (new walked : Graph) (Hnew : create_new_graph x1 g = Ok new) (Hloop : has_loop new = Ok (walked, false)).

(** The operators of the new graph were in the old one, or are new. *)
Lemma new_node op : op ∈ nodes new → (op ∈ nodes g ∧ op ∉ dom (mappedOps x1)) ∨ ∃ (j : nat) o, dstOps x1 !! j = Some (Some o) ∧ mapOp o = op.
Proof.
  destruct (create_new_graph_edges x1 g (se_wf _ _ Hse) new Hnew) as (Hw & _ & He). intros (e & Hx%He & <-)%(wo_fed new Hw).
  destruct Hx as [a a' Ha Hd Hr|j o i t src Ho Ht Hc]; [left|right; by exists j, o].
  destruct (replaced_part x1 g (se_wf _ _ Hse) full_targets a a' Ha Hr) as (_ & -> & _). split; [by apply edge_node|done].
Qed.
Lemma target_object (j : nat) o : dstOps x1 !! j = Some (Some o) →
  guid (mapOp o) < global_unique_id (xf_model x1) ∧ ∃ ob, op_object (xf_model x1) (mapOp o) = Ok ob ∧ numInputs ob = zlen (x_inputs o).
Proof.
  intros Hj. pose proof (created_index j o Hj).
  split; [by apply (cr_new _ _ _ _ Hcr eq_refl j o)|by apply (cr_objects _ _ _ _ Hcr eq_refl j o)].
Qed.
Lemma new_slots : full_slots (xf_model x1) new.
Proof.
  pose proof (searchable_kept _ _ _ (cr_kept _ _ _ _ Hcr) Hse) as [Hwf _ _ _ _ [Hu Hrange Hall]]. pose proof full_targets as Hft.
  destruct (create_new_graph_edges x1 g Hwf new Hnew) as (Hw & _ & He). destruct (create_new_graph_total x1 g Hwf new Hnew) as [Hstay Henter]. split.
  - by apply (new_graph_slots x1 g new Hwf Hft Hnew).
  - intros e ob Hx%He Hob. destruct Hx as [a a' Ha Hd Hr|j o i t src Ho Ht Hc].
    + destruct (replaced_part x1 g Hwf Hft a a' Ha Hr) as (_ & Hd' & ->). rewrite Hd' in Hob. by apply Hrange.
    + simpl in *. destruct (target_object j o Ho) as (_ & ob' & Hob' & Hn). assert (ob' = ob) as -> by congruence.
      apply lookup_lt_Some in Ht. unfold zlen in Hn. lia.
  - intros op ob i [[Hop Hno]|(j & o & Ho & <-)]%new_node Hob Hi.
    + destruct (Hall op ob i Hop Hob Hi) as (a & Ha & Hda & Hia). destruct (Hstay a Ha) as [a' Hr]; [by rewrite Hda|].
      destruct (replaced_part x1 g Hwf Hft a a' Ha Hr) as (_ & Hd' & Hi'). exists a'. split_and!; [|congruence..]. apply He, (edge_stays x1 g a); [done|by rewrite Hda|done].
    + destruct (target_object j o Ho) as (_ & ob' & Hob' & Hn). assert (ob' = ob) as -> by congruence.
      destruct (lookup_lt_is_Some_2 (x_inputs o) (Z.to_nat i)) as [t Ht]; [unfold zlen in Hn; lia|]. destruct (Henter j o _ t Ho Ht) as [src Hc].
      exists (mkEdge src.1 (mapOp o) src.2 (Z.of_nat (Z.to_nat i))). split_and!; [|done|simpl; lia]. apply He. by apply (edge_enters x1 g j o _ t).
Qed.
(** The new graph can be searched again. *)
Lemma new_searchable : searchable (xf_model x1) new ∧ loop_free new.
Proof.
  pose proof (searchable_kept _ _ _ (cr_kept _ _ _ _ Hcr) Hse) as [Hwf _ Hm Hg Ho _]. pose proof full_targets as Hft.
  destruct (new_graph_wf x1 g new Hwf Hft Hnew walked Hloop) as [Hwf' Hlf]. destruct (create_new_graph_edges x1 g Hwf new Hnew) as (Hw & _ & He).
  split; [|done]. split; [done|apply Hw|done| | |apply new_slots].
  - intros op Hop. assert (taking_part x1 g op) as [?%Hg|(j & o & Hj & <-)]; [|lia|by apply target_object in Hj as [? _]].
    assert (∀ op, op ∈ nodes new → taking_part x1 g op) as Hnodes.
    { intros op' [[Hx _]|?]%new_node; [left; by apply elem_of_union_l|by right]. }
    apply elem_of_union in Hop as [?|Hop]; [by apply Hnodes|]. apply (wo_outs new Hw) in Hop as [?|(e & Hx%He & <-)]; [by apply Hnodes|].
    destruct Hx as [a a' Ha Hd Hr|j o i t src Hj Ht Hc]; [by apply (replaced_part x1 g Hwf Hft a a' Ha Hr)|by eapply comes_from_part].
  - intros op [[Hop _]|(j & o & Hj & <-)]%new_node; [by apply Ho|]. destruct (target_object j o Hj) as (_ & ob & ? & _). by exists ob.
Qed.
End Full.
