(* ===== verification/DbRules.v ===== *)
(** * DbRules: rules read from a file are in order

    [load_graph_xfer_from_pb_file] builds the patterns of a rule one operator after the other.
    An operator can only refer to the operators before it, and the outputs that are replaced
    are replaced by outputs of the target pattern.  All that a rule read from a file may lack
    for the search to be sound is that its source pattern reads every tensor from outside
    once. *)

From S2P Require Import Prelude PgArray DbTensor DbOp DbModel Kahn DbGraph DbEdges DbLoad DbSubst DbRewrite DbMatch.

Open Scope Z_scope.

(** The object [self], new, with inputs from [ins]. *)
Record shaped (self : xref) (ins : list TensorX) (o : OpX) : Prop := {
  sh_ins : ∀ t, t ∈ x_inputs o → t ∈ ins;
  sh_map : mapOp o = INVALID_OP;
  sh_outs : ∀ t, t ∈ x_outputs o → x_op t = Some self
}.
Lemma OpX_init_shaped self ty ins n o : OpX_init self ty ins n = Ok o → shaped self ins o.
Proof.
  unfold OpX_init. case_bool_decide; [intros [= <-]; split; [done|done|]; by intros t ->%list_elem_of_singleton|].
  intros Hr. inv_run Hr. injection Hr as <-. split; [done|done|]. by intros t (i & -> & _)%list_elem_of_fmap.
Qed.
Lemma shaped_sub self ins ins' o : (∀ t, t ∈ ins → t ∈ ins') → shaped self ins o → shaped self ins' o.
Proof. intros Hsub [Hi ??]. split; [|done|done]. intros t Ht. by apply Hsub, Hi. Qed.
Lemma add_pm_shaped self ins o c p v : shaped self ins o → shaped self ins (add_pm_constraint o c p v).
Proof. by intros []. Qed.
Lemma add_input_shaped self ins o c p d p2 d2 v o' : shaped self ins o → add_input_constraint o c p d p2 d2 v = Ok o' → shaped self ins o'.
Proof.
  intros [] Hr. assert (∃ tnc, o' = add_tn o tnc) as [tnc ->]; [|done]. unfold add_input_constraint in Hr.
  destruct p2, d2, v; try (apply check_Ok in Hr as [_ Hr]); try done; injection Hr as <-; eauto.
Qed.
Lemma create_concat_shaped self axis nd n ins o : create_concat self axis nd n ins = Ok o → shaped self ins o.
Proof.
  unfold create_concat. intros (o0 & H0%OpX_init_shaped & (o1 & H1 & Hr)%res_bind_Ok)%res_bind_Ok. eapply add_input_shaped in H1; [|by apply add_pm_shaped].
  revert Hr. apply (foldM_list_inv (shaped self ins)); [done|]. intros i a a' _ Ha Hr. apply res_bind_Ok in Hr as (p & _ & (b & Hb & Hr)%res_bind_Ok).
  eapply add_input_shaped in Hb; [|done]. revert Hr. apply (foldM_list_inv (shaped self ins)); [done|]. intros j e e' _ He Hr. apply res_bind_Ok in Hr as (q & _ & Hr).
  destruct (negb _); [by eapply add_input_shaped|by injection Hr as <-].
Qed.
Lemma create_conv2d_shaped self t w sh sw p a o : create_conv2d self t w sh sw p a = Ok o → shaped self [t; w] o.
Proof. unfold create_conv2d. intros Hr. inv_run Hr. injection Hr as <-. do 4 apply add_pm_shaped. by eapply OpX_init_shaped. Qed.
Lemma create_split_shaped self t axis n o : create_split self t axis n = Ok o → shaped self [t] o.
Proof. unfold create_split. intros Hr. inv_run Hr. injection Hr as <-. apply add_pm_shaped. by eapply OpX_init_shaped. Qed.
Lemma create_matmul_shaped self t w a o : create_matmul self t w a = Ok o → shaped self [t; w] o.
Proof. unfold create_matmul. intros Hr. inv_run Hr. eapply add_input_shaped, Hr. apply add_pm_shaped. by eapply OpX_init_shaped. Qed.
Lemma pget_sub1 {A} (l : list A) i a : pget l i = Ok a → ∀ t, t ∈ [a] → t ∈ l.
Proof. intros Hi t ->%list_elem_of_singleton. by eapply pget_elem. Qed.
Lemma pget_sub2 {A} (l : list A) i j a b : pget l i = Ok a → pget l j = Ok b → ∀ t, t ∈ [a; b] → t ∈ l.
Proof. intros Hi Hj t [->| ->%list_elem_of_singleton]%elem_of_cons; by eapply pget_elem. Qed.

(** Every operator that a file can describe. *)
Lemma pb_opx_shaped self op ty ins o : pb_opx self op ty ins = Ok (Some o) → shaped self ins o.
Proof.
  unfold pb_opx. repeat (match goal with |- (if ?b then _ else _) = _ → _ => destruct b end); intros Hr; inv_run Hr; try (injection Hr as ->); try done.
  - eapply shaped_sub; [|by eapply create_conv2d_shaped]. by eapply pget_sub2.
  - by eapply create_concat_shaped.
  - eapply shaped_sub; [|by eapply OpX_init_shaped]. by eapply pget_sub2.
  - eapply shaped_sub; [|by eapply create_split_shaped]. by eapply pget_sub1.
  - eapply shaped_sub; [|by eapply OpX_init_shaped]. by eapply pget_sub1.
  - eapply shaped_sub; [|by eapply create_matmul_shaped]. by eapply pget_sub2.
Qed.

(** ** Patterns *)

(** The operators of a pattern, the [k]-th of which is the object [mk k]. *)
Definition pattern_ok (mk : nat → xref) (ops : list (option OpX)) : Prop := ∀ (k : nat) o, ops !! k = Some (Some o) →
  mapOp o = INVALID_OP ∧ (∀ t, t ∈ x_outputs o → x_op t = Some (mk k)) ∧ ∀ t r, t ∈ x_inputs o → x_op t = Some r → ∃ j, r = mk j ∧ (j < k)%nat.
Lemma pattern_ok_snoc mk ops a ins : pattern_ok mk ops → (∀ o, a = Some o → shaped (mk (length ops)) ins o) →
  (∀ t r, t ∈ ins → x_op t = Some r → ∃ j, r = mk j ∧ (j < length ops)%nat) → pattern_ok mk (ops ++ [a]).
Proof.
  intros Hops Ha Hins k o [Hk|[Hlen Hk]]%lookup_app_Some; [by apply Hops|]. apply list_lookup_singleton_Some in Hk as [Hk ->].
  assert (k = length ops) as -> by lia. destruct (Ha o eq_refl) as [Hi Hm Ho]. split_and!; [done|done|]. intros t r Ht. by apply Hins, Hi.
Qed.

(** A rule that is being read, with the tensors from outside by their numbers in the file. *)
Record reading_rule (x : GraphXfer) (mapped : gmap Z TensorX) : Prop := {
  rr_src : pattern_ok XSrc (srcOps x);
  rr_dst : pattern_ok XDst (dstOps x);
  rr_outputs : ∀ s d, mappedOutputs x !! s = Some d → ∃ k, x_op d = Some (XDst k);
  rr_outside : ∀ k t, mapped !! k = Some t → x_op t = None;
  rr_ops : mappedOps x = ∅;
  rr_inputs : mappedInputs x = ∅
}.
Definition mk_ref (isSrcOp : bool) (k : nat) : xref := if isSrcOp then XSrc k else XDst k.
Definition ops_of (isSrcOp : bool) (x : GraphXfer) : list (option OpX) := if isSrcOp then srcOps x else dstOps x.

Lemma pb_operand_ok b t x mapped x' mapped' u : reading_rule x mapped → pb_operand b t (x, mapped) = Ok (x', mapped', u) →
  reading_rule x' mapped' ∧ ops_of b x' = ops_of b x ∧ ∀ r, x_op u = Some r → ∃ j, r = mk_ref b j ∧ (j < length (ops_of b x))%nat.
Proof.
  intros Hx. unfold pb_operand. destruct (Z.ltb_spec (opId t) 0).
  - destruct (mapped !! opId t) as [v|] eqn:Hm; [intros [= <- <- <-]; split_and!; [done|done|]; intros r; by rewrite (rr_outside _ _ Hx _ _ Hm)|].
    cbn [new_tensor]. intros [-> [= <- <- <-]]%assert_Ok. split_and!; [|done|done]. destruct Hx as [H1 H2 H3 H4 H5 H6]. split; try done.
    intros k v. rewrite lookup_insert_Some. intros [[_ <-]|[_ Hk]]; [done|by apply (H4 k)].
  - change (if b then srcOps x else dstOps x) with (ops_of b x). intros (o & Ho & Hr)%res_bind_Ok. apply pget_lookup in Ho; [|done].
    destruct o as [o|]; [|done]. apply res_bind_Ok in Hr as (v & Hv%pget_elem & [= <- <- <-]). split_and!; [done|done|]. intros r Hr.
    exists (Z.to_nat (opId t)). split; [|by apply lookup_lt_Some in Ho]. unfold ops_of in Ho.
    destruct b; [apply (rr_src _ _ Hx) in Ho|apply (rr_dst _ _ Hx) in Ho]; destruct Ho as (_ & Houts & _); rewrite (Houts v Hv) in Hr; by injection Hr as <-.
Qed.
Lemma create_operator_ok b op st st' : reading_rule st.1 st.2 → create_operator_from_pb op b st = Ok st' → reading_rule st'.1 st'.2.
Proof.
  destruct st as [x mapped]. simpl. intros Hx. unfold create_operator_from_pb. intros [_ Hr]%assert_Ok. apply res_bind_Ok in Hr as ([[x1 mapped1] ins] & Hin & Hr).
  assert (reading_rule x1 mapped1 ∧ ∀ t r, t ∈ ins → x_op t = Some r → ∃ j, r = mk_ref b j ∧ (j < length (ops_of b x1))%nat) as [Hx1 Hins].
  { revert Hin. apply (foldM_list_inv (λ '(x1, mapped1, ins), reading_rule x1 mapped1
      ∧ ∀ t r, t ∈ ins → x_op t = Some r → ∃ j, r = mk_ref b j ∧ (j < length (ops_of b x1))%nat) _ _ (x, mapped, []) (x1, mapped1, ins)).
    - split; [done|]. by intros t r ?%elem_of_nil.
    - intros t [[x2 m2] l] [[x3 m3] l'] _ [Hx2 Hl] Hr'. apply res_bind_Ok in Hr' as ([[x4 m4] u] & Hu & [= <- <- <-]).
      destruct (pb_operand_ok b t x2 m2 x4 m4 u Hx2 Hu) as (Hx4 & Hops & Hnew). split; [done|]. rewrite Hops.
      intros t' r [Ht| ->%list_elem_of_singleton]%elem_of_app; [by apply Hl|apply Hnew]. }
  apply res_bind_Ok in Hr as (ty & _ & Hr). apply res_bind_Ok in Hr as (o & Ho & [= <-]).
  assert (∀ a, o = Some a → shaped (mk_ref b (length (ops_of b x1))) ins a) as Hsh by (intros a ->; destruct b; by eapply pb_opx_shaped).
  destruct Hx1 as [H1 H2 H3 H4 H5 H6]. destruct b; split; simpl; try done; by eapply pattern_ok_snoc.
Qed.
Lemma read_mapped_output_ok m x mapped x' : reading_rule x mapped → read_mapped_output m x = Ok x' → reading_rule x' mapped.
Proof.
  intros Hx. unfold read_mapped_output. intros [_ [_ (souts & _ & [_ (douts & Ho & [_ Hr]%assert_Ok)%res_bind_Ok]%assert_Ok)%res_bind_Ok]%assert_Ok]%assert_Ok.
  apply res_bind_Ok in Hr as (s0 & _ & (d0 & Hd0%pget_elem & [= <-])%res_bind_Ok). assert (∃ k, x_op d0 = Some (XDst k)) as Hd.
  { unfold outputs_at in Ho. apply res_bind_Ok in Ho as (o & Hk%pget_elem & Ho). destruct o as [o|]; [|done]. injection Ho as <-.
    apply list_elem_of_lookup_1 in Hk as [k Hk]. exists k. by apply (rr_dst _ _ Hx k o Hk). }
  destruct Hx as [H1 H2 H3 H4 H5 H6]. split; try done. intros s d. simpl. rewrite lookup_insert_Some. intros [[_ <-]|[_ Hs]]; [done|by apply (H3 s)].
Qed.

(** Rules of which the source pattern reads every tensor from outside once. *)
Definition linear (x : GraphXfer) : Prop := NoDup (outside_ids (srcOps x)).

(** All that a rule needs but that its tensors are read once. *)
Record rule_ready (x : GraphXfer) : Prop := {
  ru_ok : linear x → rule_ok x;
  ru_idle : idle (dstOps x);
  ru_match : ∀ g, matched_to 0 x g
}.
Lemma reading_rule_ready x mapped : reading_rule x mapped → rule_ready x.
Proof.
  intros [Hsrc Hdst Hout _ Hops Hins]. split.
  - intros Hlin. split; [| |done|done].
    + intros k so i t r Hk Ht Hr. destruct (Hsrc k so Hk) as (_ & _ & Hin). apply (Hin t r); [by eapply list_elem_of_lookup_2|done].
    + intros k o i t r Hk Ht Hr. destruct (Hdst k o Hk) as (_ & _ & Hin). destruct (Hin t r) as (j & -> & _); [by eapply list_elem_of_lookup_2|done|by exists j].
  - intros j o Hj _. by apply (Hdst j).
  - intros g. split; rewrite ?Hops, ?Hins; [|intros k so Hk; lia|intros k so e Hk; lia| |done|].
    + intros op r. rewrite lookup_empty. split; [done|]. intros (k & so & _ & Hk & _). lia.
    + intros n. rewrite lookup_empty. by intros [? ?].
    + intros k so _ Hk. by apply (Hsrc k).
Qed.
(** A rule that was read. *)
Lemma read_rule_ready m rule x : read_rule m rule = Ok x → rule_ready x.
Proof.
  unfold read_rule. intros (st1 & H1 & (st2 & H2 & H3)%res_bind_Ok)%res_bind_Ok.
  assert (∀ b ops st st', reading_rule st.1 st.2 → foldM (λ op, create_operator_from_pb op b) ops st = Ok st' → reading_rule st'.1 st'.2) as Hloop.
  { intros b ops st st' Hst. apply (foldM_list_inv (λ st, reading_rule st.1 st.2)); [done|]. intros op s s' _. apply create_operator_ok. }
  apply Hloop in H1; [|by split]. apply Hloop in H2; [|done]. apply (reading_rule_ready x st2.2).
  revert H3. apply (foldM_list_inv (λ x, reading_rule x st2.2)); [done|]. intros mo y y' _. apply read_mapped_output_ok.
Qed.
(** All rules of a file. *)
Lemma load_graph_xfer_ready m rules xfers : load_graph_xfer_from_pb_file m rules = Ok xfers → ∀ x, x ∈ xfers → rule_ready x.
Proof.
  unfold load_graph_xfer_from_pb_file. apply (foldM_list_inv (λ xfers, ∀ x, x ∈ xfers → rule_ready x)); [by intros x ?%elem_of_nil|].
  intros i l l' _ Hl (rule & _ & (x & Hx%read_rule_ready & [= <-])%res_bind_Ok)%res_bind_Ok. intros y [?| ->%list_elem_of_singleton]%elem_of_app; [by apply Hl|done].
Qed.
(** The rule built into the program. *)
Lemma create_conv_relu_ready m sh sw p x : create_conv_relu m sh sw p = Ok x → xf_model x = m ∧ rule_ready x.
Proof.
  unfold create_conv_relu. cbn [new_tensor]. intros (conv & Hc%create_conv2d_shaped & (t & Ht%pget_elem & (relu & Hr%OpX_init_shaped & H)%res_bind_Ok)%res_bind_Ok)%res_bind_Ok.
  apply res_bind_Ok in H as (fuse & Hf%create_conv2d_shaped & (t1 & _ & (t2 & Ht2%pget_elem & [= <-])%res_bind_Ok)%res_bind_Ok).
  split; [done|]. assert (∀ t', t' ∈ [mkTensorX None 10; mkTensorX None 11] → x_op t' = None) as Hout.
  { by intros t' [->| ->%list_elem_of_singleton]%elem_of_cons. }
  apply (reading_rule_ready _ ∅). split; simpl; [| | |done|done|done].
  - apply (pattern_ok_snoc XSrc [Some conv] (Some relu) [t]); [|by intros o [= <-]|].
    + eapply (pattern_ok_snoc XSrc [] (Some conv)); [done|intros o [= <-]; exact Hc|]. intros t' r Hin. by rewrite (Hout t' Hin).
    + intros t' r ->%list_elem_of_singleton Hx. rewrite (sh_outs _ _ _ Hc t Ht) in Hx. injection Hx as <-. exists 0%nat. split; [done|simpl; lia].
  - eapply (pattern_ok_snoc XDst [] (Some fuse)); [done|intros o [= <-]; exact Hf|]. intros t' r Hin. by rewrite (Hout t' Hin).
  - intros s d. rewrite lookup_insert_Some. intros [[_ <-]|[_ ?]]; [|done]. exists 0%nat. apply (sh_outs _ _ _ Hf t2 Ht2).
Qed.
