(* ===== verification/DbSearch.v ===== *)
(** * DbSearch: the search for a better graph

    [GraphXfer.run] ([substitution.py]) tries all ways to match a rule in a graph and pushes
    the graphs it makes onto a heap; [Graph.optimize] ([graph.py]) takes the cheapest graph
    from the heap, applies all rules to it and in the end returns the cheapest graph seen,
    without its unused weights.

    [heapq] is modelled on lists as the Python library defines it.  [id] and the [hash] of an
    object are addresses, given by the class [PyObjects]; the hash of a graph only keeps
    graphs from being tried twice. *)

From Stdlib Require Import SpecFloat.
From stdpp Require Import sorting.
From S2P Require Import Prelude Float4 PgArray DbTensor DbOp DbModel Kahn DbGraph DbEdges DbSubst DbRewrite DbMatch DbRules.

Open Scope Z_scope.

(** ** heapq *)

Section Heap.
  Context {A : Type} (lt : A → A → bool).

(** [heapq._siftdown(heap, startpos, pos)], with the item to place. *)
Fixpoint siftdown (fuel : nat) (heap : list A) (startpos pos : nat) (newitem : A) : list A :=
  match fuel with
  | O => <[pos := newitem]> heap
  | S fuel =>
      if (startpos <? pos)%nat then
        let parentpos := ((pos - 1) / 2)%nat in
        match heap !! parentpos with
        | Some parent =>
            if lt newitem parent then siftdown fuel (<[pos := parent]> heap) startpos parentpos newitem
            else <[pos := newitem]> heap
        | None => <[pos := newitem]> heap
        end
      else <[pos := newitem]> heap
  end.
(** [heapq._siftup(heap, pos)]: down to a leaf, then up again. *)
Fixpoint siftup (fuel : nat) (heap : list A) (startpos pos : nat) (newitem : A) : list A :=
  match fuel with
  | O => siftdown (length heap) heap startpos pos newitem
  | S fuel =>
      let childpos := (2 * pos + 1)%nat in
      match heap !! childpos, heap !! S childpos with
      | Some c, Some r =>
          if lt c r then siftup fuel (<[pos := c]> heap) startpos childpos newitem
          else siftup fuel (<[pos := r]> heap) startpos (S childpos) newitem
      | Some c, None => siftup fuel (<[pos := c]> heap) startpos childpos newitem
      | None, _ => siftdown (length heap) heap startpos pos newitem
      end
  end.
Definition heappush (heap : list A) (item : A) : list A :=
  siftdown (length heap) (heap ++ [item]) 0 (length heap) item.
(** [None] if the heap is empty. *)
Definition heappop (heap : list A) : option (A * list A) :=
  match last heap with
  | None => None
  | Some lastelt =>
      match take (length heap - 1) heap with
      | [] => Some (lastelt, [])
      | returnitem :: rest => Some (returnitem, siftup (length heap) (returnitem :: rest) 0 0 lastelt)
      end
  end.
End Heap.

(** ** Costs and hashes *)

(** Every operator costs 0.1. *)
Definition opCost : float8 := f8_lit 1 10.
Definition total_cost (g : Graph) : res float8 :=
  foldM (λ op total, _ ← op_object (g_model g) op; Ok (f8_add total opCost)) (keys (inEdges g)) (f8_of_Z 0).

Class PyObjects := {
  py_id : option loc → Z;
  py_hash : option loc → Z
}.
(** [hash] of an [int]. *)
Definition hash_int (z : Z) : Z := let r := Z.rem z 2305843009213693951 in if r =? -1 then -2 else r.
Definition hash {P : PyObjects} (g : Graph) : Z :=
  foldl (λ (total : Z) (kv : Op * gset Edge),
    let my := foldl (λ (my : Z) (e : Edge),
      let my := my * 31 + py_hash (ptr (srcOp e)) in
      let my := my * 31 + hash_int (srcIdx e) in
      let my := my * 31 + hash_int (dstIdx e) in
      Z.land my 18446744073709551615) (17 * 31 + py_id (ptr kv.1)) (edges kv.2) in
    Z.land (total + my) 18446744073709551615) 0 (map_items (inEdges g)).

(** ** run *)

(** A graph that waits, with its [totalCost]. *)
Abbreviation candidate := (float8 * Graph)%type.
Definition cheaper (a b : candidate) : bool := SFltb a.1 b.1.

Record search := mkSearch { s_xfer : GraphXfer; s_graph : Graph; candidates : list candidate; hashmap : gset Z }.

Section Run.
  Context {P : PyObjects} (threshold : float8) (maxNumOps : Z).

Definition create_new_operators (x : GraphXfer) : res (GraphXfer * bool) :=
  foldM (λ (i : nat) '((x, passTag) : GraphXfer * bool), if passTag then create_new_operator x i else Ok (x, false)) (seq 0 (length (dstOps x))) (x, true).

(** Whether the outputs of the matched operators that others read are mapped. *)
Fixpoint edges_mapped (x : GraphXfer) (r : xref) (es : list Edge) : bool :=
  match es with
  | [] => true
  | e :: es =>
      (bool_decide (dstOp e ∈ dom (mappedOps x)) || is_some (mappedOutputs x !! mkTensorX (Some r) (srcIdx e)))
      && edges_mapped x r es
  end.
Fixpoint outputs_mapped (x : GraphXfer) (ops : list (Op * xref)) (g : Graph) : res (Graph * bool) :=
  match ops with
  | [] => Ok (g, true)
  | (op, r) :: ops =>
      '(outs, s) ← getitem (outEdges g) op;
      if edges_mapped x r (edges s) then outputs_mapped x ops (set_out g outs) else Ok (set_out g outs, false)
  end.
Definition mapped_le (a b : Op * xref) : Prop := guid a.1 <= guid b.1.
#[export] Instance mapped_le_dec a b : Decision (mapped_le a b).
Proof. unfold mapped_le. apply _. Defined.
Definition mapped_items (x : GraphXfer) : list (Op * xref) := merge_sort mapped_le (map_to_list (mappedOps x)).

(** All of the source pattern is matched. *)
Definition run_leaf (st : search) : res search :=
  '(x, passTag) ← create_new_operators (s_xfer st);
  if negb passTag then Ok (mkSearch x (s_graph st) (candidates st) (hashmap st))
  else
    '(g, b) ← outputs_mapped x (mapped_items x) (s_graph st);
    let st := mkSearch x g (candidates st) (hashmap st) in
    if negb b then Ok st
    else
      new_graph ← create_new_graph x g;
      '(new_graph, loop) ← has_loop new_graph;
      if (loop : bool) then Ok st
      else
        '(new_graph, ok) ← check_correctness new_graph;
        py_assert ok
        (cost ← total_cost new_graph;
         let h := hash new_graph in
         if SFltb cost threshold && (size (inEdges new_graph) <? maxNumOps) && bool_decide (h ∉ hashmap st) then
           Ok (mkSearch x g (heappush cheaper (candidates st) (cost, new_graph)) ({[h]} ∪ hashmap st))
         else Ok st).

(** [run] when [n] operators of the source pattern are left to match. *)
Fixpoint run (n : nat) (st : search) : res search :=
  match n with
  | O => run_leaf st
  | S n =>
      let depth := (length (srcOps (s_xfer st)) - S n)%nat in
      foldM (λ op st,
        '(g, b) ← can_match (s_xfer st) depth op (s_graph st);
        let st := mkSearch (s_xfer st) g (candidates st) (hashmap st) in
        if b && negb (bool_decide (op ∈ dom (mappedOps (s_xfer st)))) then
          '(x, g) ← match_op (s_xfer st) depth op (s_graph st);
          st ← run n (mkSearch x g (candidates st) (hashmap st));
          x ← unmatch (s_xfer st) depth op;
          Ok (mkSearch x (s_graph st) (candidates st) (hashmap st))
        else Ok st) (keys (inEdges (s_graph st))) st
  end.
End Run.

(** ** optimize *)

Section Optimize.
  Context {P : PyObjects} (alpha : float8).

(** One pass over the rules, which share the model [m]. *)
Definition apply_rules (bestCost : float8) (maxNumOps : Z) (g : Graph) (st : Model * list GraphXfer * list candidate * gset Z)
    : res (Model * list GraphXfer * list candidate * gset Z) :=
  let '(m, xfers, cs, hs) := st in
  '(m, done, g, cs, hs) ← foldM (λ x '(m, done, g, cs, hs),
      s ← run (f8_mul bestCost alpha) (2 * maxNumOps) (length (srcOps x)) (mkSearch (set_xf_model x m) g cs hs);
      Ok (xf_model (s_xfer s), done ++ [s_xfer s], s_graph s, candidates s, hashmap s)) xfers (m, [], g, cs, hs);
  Ok (m, done, cs, hs).

(** The loop, with [rounds] rounds before the budget is used up. *)
Fixpoint optimize_loop (rounds : nat) (maxNumOps : Z) (best : candidate) (st : Model * list GraphXfer * list candidate * gset Z) : res candidate :=
  let '(m, xfers, cs, hs) := st in
  match heappop cheaper cs with
  | None => Ok best
  | Some (sub, cs) =>
      let best := if cheaper sub best then sub else best in
      match rounds with
      | O => Ok best
      | S rounds =>
          st ← apply_rules best.1 maxNumOps sub.2 (m, xfers, cs, hs);
          optimize_loop rounds maxNumOps best st
      end
  end.
Definition optimize (rules : list pb_Rule) (budget : Z) (g : Graph) : res Graph :=
  xfers ← load_graph_xfer_from_pb_file (g_model g) rules;
  let xfers := drop 131 xfers in
  cost ← total_cost g;
  best ← optimize_loop (Z.to_nat (budget + 1)) (size (inEdges g)) (cost, g) (g_model g, xfers, [(cost, g)], {[hash g]});
  preprocess_weights best.2.
End Optimize.

(** ** The heap keeps its items *)

Section HeapItems.
  Context {A : Type} (lt : A → A → bool).

Lemma insert_Permutation (l : list A) (i : nat) a : (i < length l)%nat → <[i := a]> l ≡ₚ a :: delete i l.
Proof. revert i. induction l as [|b l IH]; intros [|i] Hi; simpl in *; [lia..|done|]. rewrite (IH i) by lia. apply Permutation_swap. Qed.
(** An item moves from [j] to [i], where another one is placed at [j]. *)
Lemma move_Permutation (l : list A) (i j : nat) a b : l !! j = Some b → i ≠ j → (i < length l)%nat → <[j := a]> (<[i := b]> l) ≡ₚ <[i := a]> l.
Proof.
  revert i j. induction l as [|c l IH]; intros [|i] [|j] Hj Hne Hi; simpl in *; try lia; try done.
  - apply lookup_lt_Some in Hj as Hl. rewrite (insert_Permutation l j a Hl). etrans; [apply Permutation_swap|]. apply Permutation_skip. symmetry. by apply delete_Permutation.
  - injection Hj as ->. rewrite !insert_Permutation by lia. apply Permutation_swap.
  - rewrite IH; [done..|lia|lia].
Qed.
Lemma siftdown_Permutation fuel : ∀ heap startpos pos item, (pos < length heap)%nat → siftdown lt fuel heap startpos pos item ≡ₚ <[pos := item]> heap.
Proof.
  induction fuel as [|fuel IH]; intros heap startpos pos item Hpos; cbn [siftdown]; [done|]. destruct (Nat.ltb_spec startpos pos); [|done].
  destruct (heap !! ((pos - 1) / 2)%nat) as [parent|] eqn:Hp; [|done]. destruct (lt item parent); [|done].
  assert ((pos - 1) / 2 < pos)%nat by (apply Nat.Div0.div_lt_upper_bound; lia). rewrite IH by (rewrite length_insert; lia). apply move_Permutation; [done|lia..].
Qed.
Lemma siftup_Permutation fuel : ∀ heap startpos pos item, (pos < length heap)%nat → siftup lt fuel heap startpos pos item ≡ₚ <[pos := item]> heap.
Proof.
  induction fuel as [|fuel IH]; intros heap startpos pos item Hpos; cbn [siftup]; [by apply siftdown_Permutation|].
  assert (∀ j c, heap !! j = Some c → pos ≠ j → siftup lt fuel (<[pos := c]> heap) startpos j item ≡ₚ <[pos := item]> heap) as Hdown.
  { intros j c Hj Hne. apply lookup_lt_Some in Hj as Hl. rewrite IH by (by rewrite length_insert). by apply move_Permutation. }
  destruct (heap !! (2 * pos + 1)%nat) as [c|] eqn:Hc; [|by apply siftdown_Permutation].
  destruct (heap !! S (2 * pos + 1)) as [r|] eqn:Hr; [destruct (lt c r)|]; (apply Hdown; [done|lia]).
Qed.
(** [heappush] adds one item; [heappop] takes one. *)
Lemma heappush_Permutation heap item : heappush lt heap item ≡ₚ item :: heap.
Proof.
  unfold heappush. rewrite siftdown_Permutation by (rewrite length_app; simpl; lia). rewrite <-(Nat.add_0_r (length heap)), insert_app_r. simpl.
  symmetry. apply Permutation_cons_append.
Qed.
Lemma heappop_Permutation heap item rest : heappop lt heap = Some (item, rest) → heap ≡ₚ item :: rest.
Proof.
  unfold heappop. destruct heap as [|a heap _] using rev_ind; [done|]. rewrite last_snoc. assert (length (heap ++ [a]) - 1 = length heap)%nat as ->.
  { rewrite length_app. simpl. lia. }
  rewrite take_app_length. destruct heap as [|b heap]; [by intros [= <- <-]|]. generalize (length ((b :: heap) ++ [a])). intros fuel [= <- <-].
  rewrite siftup_Permutation by (simpl; lia). simpl. symmetry. apply Permutation_skip, Permutation_cons_append.
Qed.
End HeapItems.

(** ** What [run] adds to the heap *)

(** [g'] is [g] with edges looked up. *)
Definition looked_up (g g' : Graph) : Prop := ∃ outs, g' = set_out g outs ∧ touched g outs.
(** The match that [x] records in [g] gives the graph [g'], with operators numbered from [n]
    on; [gs] is [g] with edges looked up. *)
Inductive substitution (n : Z) (x : GraphXfer) (g g' : Graph) : Prop :=
  | substitution_by gs new walked :
      inEdges gs = inEdges g → graph_wf gs → fed gs → slots gs → matched x gs → fresh_targets x gs →
      (∀ (j : nat) o, dstOps x !! j = Some (Some o) → n <= guid (mapOp o)) →
      create_new_graph x gs = Ok new → has_loop new = Ok (walked, false) → inEdges g' = inEdges new → substitution n x g g'.
(** [g'] comes from [g] by the rule [x], and can be searched. *)
Record substituted (n : Z) (m : Model) (x : GraphXfer) (g g' : Graph) : Prop := {
  su_by : ∃ x', same_rule x x' ∧ substitution n x' g g';
  su_search : searchable m g';
  su_loop : loop_free g'
}.
(** The search went from [st] to [st']: the rule keeps its match, and the new graphs are
    substitutions. *)
Record stepped (st st' : search) : Prop := {
  sp_xfer : creating (s_xfer st) 0 (s_xfer st') false;
  sp_graph : looked_up (s_graph st) (s_graph st');
  sp_new : ∀ c, c ∈ candidates st' → c ∈ candidates st
    ∨ substituted (global_unique_id (xf_model (s_xfer st))) (xf_model (s_xfer st')) (s_xfer st) (s_graph st) c.2
}.
(** [d] operators of the rule are matched in the graph. *)
Record ready (d : nat) (st : search) : Prop := {
  re_rule : rule_ok (s_xfer st);
  re_idle : idle (dstOps (s_xfer st));
  re_search : searchable (xf_model (s_xfer st)) (s_graph st);
  re_match : matched_to d (s_xfer st) (s_graph st)
}.

Lemma looked_up_refl g : graph_wf g → looked_up g g.
Proof. intros Hwf. exists (outEdges g). split; [by destruct g|exact (touched_refl g Hwf)]. Qed.
Lemma looked_up_trans g1 g2 g3 : looked_up g1 g2 → looked_up g2 g3 → looked_up g1 g3.
Proof.
  intros (o2 & -> & [He Hd Hn]) (o3 & -> & [He' Hd' Hn']). exists o3. split; [done|]. unfold nodes in *. simpl in *. split; [|set_solver|].
  - intros k. by rewrite He'.
  - unfold nodes. set_solver.
Qed.
Lemma looked_up_in g g' : looked_up g g' → inEdges g' = inEdges g.
Proof. by intros (outs & -> & _). Qed.
Lemma looked_up_of g g' op : looked_up g g' → of_graph g' op ↔ of_graph g op.
Proof. intros (outs & -> & [_ Hd Hn]). unfold of_graph, nodes in *. simpl. set_solver. Qed.
Lemma looked_up_wf g g' : graph_wf g → looked_up g g' → graph_wf g'.
Proof. intros Hwf (outs & -> & Ht). exact (touched_wf g outs Hwf Ht). Qed.
Lemma looked_up_searchable m g g' : searchable m g → looked_up g g' → searchable m g'.
Proof.
  intros [Hwf Hfed Hm Hg Ho [Hu Hr Hall]] Hl. pose proof (looked_up_wf g g' Hwf Hl) as Hwf'. pose proof (λ op, looked_up_of g g' op Hl) as Hof.
  destruct Hl as (outs & -> & _). split; try done. intros op Hop. by apply Hg, Hof.
Qed.
Lemma looked_up_loops g g' : loop_free g → looked_up g g' → loop_free g'.
Proof. by intros Hl (outs & -> & _). Qed.
Lemma looked_up_matched d x g g' : matched_to d x g → looked_up g g' → matched_to d x g'.
Proof.
  intros [] Hl. pose proof (λ op, looked_up_of g g' op Hl) as Hof. destruct Hl as (outs & -> & _). split; try done. intros n src l Hn. apply Hof. eauto.
Qed.

(** ** Steps of the search *)

Lemma creating_weaken x0 i x b : creating x0 i x b → creating x0 0 x false.
Proof. by intros []; split. Qed.
Lemma creating_refl x : model_ok (xf_model x) → idle (dstOps x) → ∀ b, creating x 0 x b.
Proof. intros Hm Hi b. split; [by destruct x|done|by apply kept_refl|done|lia..]. Qed.
Lemma creating_trans x y z : creating x 0 y false → creating y 0 z false → creating x 0 z false.
Proof.
  intros [Hy Hby Hky _ _ _ _] [Hz Hbz Hkz Hi _ _ _]. split; try done; [|by rewrite Hbz|by etrans]. rewrite Hz, Hy. by destruct x.
Qed.
Lemma creating_rule x y : creating x 0 y false → same_rule x y.
Proof. intros [Hy Hb _ _ _ _ _]. split; [by rewrite Hy|done|by rewrite Hy]. Qed.
Lemma creating_matched d x y g : rule_ok x → creating x 0 y false → matched_to d x g → matched_to d y g.
Proof.
  intros Hrule [-> _ _ _ _ _ _] [Ho Hs Hin Hout Hsrc Hun]. split; try done. intros k so e Hk Hso He Hd.
  destruct (Hin k so e Hk Hso He Hd) as (i & t & Hi & Ht & Hc). exists i, t. split_and!; [done..|]. unfold comes_from in *. simpl in Hso.
  destruct (x_op t) as [r|] eqn:Hr; [|done]. by destruct (ro_src x Hrule k so i t r Hso Ht Hr) as (j & -> & _).
Qed.
Lemma substitution_in n n' x g1 g2 g' : n' <= n → inEdges g1 = inEdges g2 → substitution n x g1 g' → substitution n' x g2 g'.
Proof.
  intros Hn He [gs new walked Hgs ? ? ? ? ? Hnum]. exists gs new walked; try done; [by rewrite Hgs|]. intros j o Ho. pose proof (Hnum j o Ho). lia.
Qed.
Lemma substituted_in n n' m m' x x' g1 g2 g' : n' <= n → kept m m' → same_rule x' x → inEdges g1 = inEdges g2 → substituted n m x g1 g' → substituted n' m' x' g2 g'.
Proof.
  intros Hn Hk Hr He [(y & Hy & Hsub) Hse Hl]. split; [|by eapply searchable_kept|done]. exists y. split; [by rewrite Hr|]. by eapply substitution_in.
Qed.

Lemma stepped_refl d st : ready d st → stepped st st.
Proof. intros [Hr Hi [Hwf _ Hm _ _ _] _]. split; [by apply creating_refl|by apply looked_up_refl|by left]. Qed.
Lemma stepped_trans a b c : stepped a b → stepped b c → stepped a c.
Proof.
  intros [Hx Hg Hn] [Hx' Hg' Hn']. split; [by eapply creating_trans|by eapply looked_up_trans|]. pose proof (cr_kept _ _ _ _ Hx) as Hk. pose proof (cr_kept _ _ _ _ Hx') as Hk'.
  assert (kept (xf_model (s_xfer c)) (xf_model (s_xfer c))) as Hc by (apply kept_refl, Hk'). intros e He. destruct (Hn' e He) as [He'|Hs].
  - destruct (Hn e He') as [?|Hs]; [by left|right]. by eapply substituted_in, Hs.
  - right. eapply substituted_in, Hs; [apply Hk|done|by apply creating_rule|by apply looked_up_in].
Qed.
Lemma stepped_ready d st st' : ready d st → stepped st st' → ready d st'.
Proof.
  intros [Hr Hi Hse Hm] [Hx Hg _]. split.
  - by eapply same_rule_ok, Hr; apply creating_rule.
  - apply Hx.
  - eapply looked_up_searchable, Hg. eapply searchable_kept, Hse. apply Hx.
  - eapply looked_up_matched, Hg. by eapply creating_matched.
Qed.

Lemma create_new_operators_creating x x' tag : model_ok (xf_model x) → idle (dstOps x) → create_new_operators x = Ok (x', tag) →
  creating x 0 x' false ∧ (tag = true → creating x (length (dstOps x)) x' true).
Proof.
  intros Hm Hi. unfold create_new_operators. generalize (length (dstOps x)) as n.
  assert (∀ n i y t, creating x i y t →
    foldM (λ (i : nat) '((x, passTag) : GraphXfer * bool), if passTag then create_new_operator x i else Ok (x, false)) (seq i n) (y, t) = Ok (x', tag) →
    creating x (i + n) x' tag) as Hloop.
  { induction n as [|n IH]; intros i y t Hy; cbn [seq foldM]; [intros [= <- <-]; by rewrite Nat.add_0_r|]. intros ([y' t'] & Hstep & Hr)%res_bind_Ok.
    rewrite Nat.add_succ_r, <-Nat.add_succ_l. apply (IH (S i) y' t'); [|done]. destruct t; [by eapply create_new_operator_creating|].
    injection Hstep as <- <-. apply creating_weaken in Hy as []. by split. }
  intros n Hr. apply (Hloop n 0%nat) in Hr; [|by apply creating_refl]. split; [by eapply creating_weaken|]. by intros ->.
Qed.

Lemma outputs_mapped_looks x ops : ∀ g g' b, graph_wf g → (∀ kv, kv ∈ ops → kv.1 ∈ nodes g) → outputs_mapped x ops g = Ok (g', b) → looked_up g g'.
Proof.
  induction ops as [|[op r] ops IH]; intros g g' b Hwf Hops; cbn [outputs_mapped]; [intros [= <- <-]; by apply looked_up_refl|].
  assert (op ∈ nodes g) as Hop by (apply (Hops (op, r)); left).
  destruct (getitem_ok (outEdges g) op) as (outs & -> & He & Hd & _).
  { intros k Hk. apply (gw_unique g Hwf); set_solver. }
  cbn [mbind res_bind]. assert (looked_up g (set_out g outs)) as Hl.
  { exists outs. split; [done|]. split; [done|set_solver|]. unfold nodes in *. set_solver. }
  destruct (edges_mapped _ _ _); [|by intros [= <- <-]]. intros Hr%IH; [by eapply looked_up_trans|by eapply looked_up_wf|].
  intros kv Hkv. apply (Hops kv). by right.
Qed.
Lemma check_correctness_same g g' b : check_correctness g = Ok (g', b) → g' = g.
Proof.
  unfold check_correctness. intros (g1 & Hr & [= <- <-])%res_bind_Ok. assert (∀ e a a', check_edge e a = Ok a' → a' = a) as Hedge.
  { intros e a a'. unfold check_edge, has_edge. intros ([a1 ok] & ([ins s] & Hget & [= <- <-])%res_bind_Ok & [He%bool_decide_eq_true H2]%assert_Ok)%res_bind_Ok.
    assert (ins = inEdges a) as ->.
    { unfold getitem in Hget. destruct (inEdges a !! dstOp e); [by injection Hget as <- <-|]. apply res_bind_Ok in Hget as (m & _ & [= <- <-]). by apply elem_of_empty in He. }
    rewrite set_in_same in H2. destruct (ptr (srcOp e)); [|by injection H2 as <-]. inv_run H2. by injection H2 as <-. }
  revert Hr. apply (foldM_list_inv (λ a, a = g)); [done|]. intros kv a a' _ Ha. apply (foldM_list_inv (λ a, a = g)); [done|].
  intros e c c' _ Hc He. by rewrite (Hedge e c c' He).
Qed.

Section RunSteps.
  Context {P : PyObjects} (threshold : float8) (maxNumOps : Z).

Lemma run_leaf_steps st st' : ready (length (srcOps (s_xfer st))) st → run_leaf threshold maxNumOps st = Ok st' → stepped st st'.
Proof.
  intros Hready. pose proof Hready as [Hrule Hidle Hse Hmt]. pose proof Hse as [Hwf Hfed Hm _ _ Hslots]. unfold run_leaf. intros ([x tag] & Hx & Hr)%res_bind_Ok.
  apply create_new_operators_creating in Hx as [Hcr Hfull]; [|done..]. destruct tag; simpl in Hr.
  2:{ injection Hr as <-. split; simpl; [done|by apply looked_up_refl|by left]. }
  specialize (Hfull eq_refl). apply res_bind_Ok in Hr as ([g b] & Ho & Hr).
  assert (looked_up (s_graph st) g) as Hl.
  { eapply outputs_mapped_looks, Ho; [done|]. intros [op r] Hin. simpl. apply (mapped_nodes (s_xfer st) _ _ Hmt op). unfold mapped_items in Hin.
    rewrite merge_sort_Permutation in Hin. apply elem_of_map_to_list in Hin. rewrite (cr_same _ _ _ _ Hcr) in Hin. by apply elem_of_dom_2 in Hin. }
  assert (∀ cs hs, (∀ c, c ∈ cs → c ∈ candidates st ∨ substituted (global_unique_id (xf_model (s_xfer st))) (xf_model x) (s_xfer st) (s_graph st) c.2) →
    stepped st (mkSearch x g cs hs)) as Hstep by (by split).
  destruct b; simpl in Hr; [|injection Hr as <-; apply Hstep; by left].
  apply res_bind_Ok in Hr as (new & Hnew & ([new1 loop] & Hloop & Hr)%res_bind_Ok). destruct loop; [injection Hr as <-; apply Hstep; by left|].
  apply res_bind_Ok in Hr as ([new2 ok] & Hcheck & [_ Hr]%assert_Ok). apply res_bind_Ok in Hr as (cost & _ & Hr).
  destruct (_ && _ && _) in Hr; injection Hr as <-; apply Hstep; [|by left]. intros c. rewrite heappush_Permutation, elem_of_cons. intros [->|?]; [right|by left].
  pose proof (looked_up_searchable _ _ _ Hse Hl) as Hse'. pose proof (looked_up_matched _ _ _ _ Hmt Hl) as Hmt'. apply check_correctness_same in Hcheck as ->.
  destruct (new_searchable (s_xfer st) x g Hrule Hse' Hmt' Hfull new new1 Hnew Hloop) as [Hsn Hlf].
  assert (looked_up new new1) as Hl1.
  { destruct (has_loop_run new (se_wf _ _ Hsn)) as (outs & l & Hrun & Ht & _). rewrite Hrun in Hloop. injection Hloop as <- _. by exists outs. }
  split; simpl; [|by eapply looked_up_searchable|by eapply looked_up_loops].
  exists x. split; [by apply creating_rule|]. apply (substitution_by _ x _ _ g new new1); [by apply looked_up_in|apply Hse'|apply Hse'|apply Hse'| | | |done|done|by apply looked_up_in].
  - by apply (full_match (s_xfer st)).
  - by apply (full_targets (s_xfer st)).
  - intros j o Hj. by apply (created_new (s_xfer st) x Hfull j o).
Qed.

(** [unmatch] looks neither at the model nor at the target pattern. *)
Lemma unmatch_frame x m ds d op y : unmatch x d op = Ok y → unmatch (set_dstOps (set_xf_model x m) ds) d op = Ok (set_dstOps (set_xf_model y m) ds).
Proof.
  unfold unmatch. intros (so & Hso & (ins & Hins & (ops & Hops & [= <-])%res_bind_Ok)%res_bind_Ok)%res_bind_Ok.
  change (opx (set_dstOps (set_xf_model x m) ds) (XSrc d)) with (opx x (XSrc d)). rewrite Hso. cbn [mbind res_bind mappedInputs mappedOps set_dstOps set_xf_model].
  rewrite Hins. cbn [mbind res_bind]. by rewrite Hops.
Qed.
Lemma extended_rule st d op so x' : extended (s_xfer st) (s_graph st) d op so x' → same_rule (s_xfer st) x'.
Proof. intros (-> & _ & _). split; simpl; [by rewrite bare_alter|done|done]. Qed.
Lemma match_ready d st so op x' : ready d st → srcOps (s_xfer st) !! d = Some (Some so) → op ∈ nodes (s_graph st) →
  can_match (s_xfer st) d op (s_graph st) = Ok (s_graph st, true) → op ∉ dom (mappedOps (s_xfer st)) → extended (s_xfer st) (s_graph st) d op so x' →
  ready (S d) (mkSearch x' (s_graph st) (candidates st) (hashmap st)).
Proof.
  intros [Hrule Hidle Hse Hmt] Hso Hop Hcan Hnew Hext. split; simpl.
  - eapply same_rule_ok, Hrule. by eapply extended_rule.
  - by destruct Hext as (-> & _).
  - by destruct Hext as (-> & _).
  - by apply (match_extends (s_xfer st) (s_graph st) d op Hrule (se_wf _ _ Hse) (se_slots _ _ Hse) Hmt Hop Hcan Hnew so).
Qed.
(** The search below one match, after which the match is undone. *)
Lemma match_steps d st so op x' st1 y : ready d st → srcOps (s_xfer st) !! d = Some (Some so) → extended (s_xfer st) (s_graph st) d op so x' →
  unmatch x' d op = Ok (s_xfer st) → stepped (mkSearch x' (s_graph st) (candidates st) (hashmap st)) st1 → unmatch (s_xfer st1) d op = Ok y →
  stepped st (mkSearch y (s_graph st1) (candidates st1) (hashmap st1)).
Proof.
  intros Hready Hso Hext Hback [Hcr Hg Hn] Hun. simpl in *. pose proof (cr_same _ _ _ _ Hcr) as Hsame. rewrite Hsame in Hun.
  rewrite (unmatch_frame x' _ _ d op _ Hback) in Hun. injection Hun as <-.
  pose proof (extended_rule _ _ _ _ _ Hext) as Hrule. destruct Hext as (Hx' & _ & _).
  assert (xf_model x' = xf_model (s_xfer st) ∧ dstOps x' = dstOps (s_xfer st)) as [Hm Hd] by (by rewrite Hx').
  split; simpl; [|done|].
  - destruct Hcr as [_ Hb Hk Hi _ _ _]. rewrite Hd in Hb. rewrite Hm in Hk. by split.
  - intros c Hc. destruct (Hn c Hc) as [?|Hs]; [by left|right]. rewrite Hm in Hs. by eapply substituted_in, Hs; [| |done|]; [|apply kept_refl, Hcr|].
Qed.
Lemma run_steps n : ∀ st st', (n <= length (srcOps (s_xfer st)))%nat → ready (length (srcOps (s_xfer st)) - n) st →
  run threshold maxNumOps n st = Ok st' → stepped st st'.
Proof.
  induction n as [|n IH]; intros st st' Hn Hready; cbn [run]; [apply run_leaf_steps; by rewrite Nat.sub_0_r in Hready|].
  set (d := (length (srcOps (s_xfer st)) - S n)%nat) in *. apply (foldM_list_inv (stepped st)); [by eapply stepped_refl|].
  intros op s s' Hop Hs Hr. apply (stepped_trans _ s); [done|]. pose proof (stepped_ready _ _ _ Hready Hs) as Hrs. pose proof Hrs as [Hrule Hidle Hse Hmt].
  assert (op ∈ nodes (s_graph s)) as Hnode.
  { unfold nodes. rewrite (looked_up_in _ _ (sp_graph _ _ Hs)). by apply elem_of_keys. }
  apply res_bind_Ok in Hr as ([g b] & Hcan & Hr). pose proof (can_match_inv _ _ _ _ _ _ Hnode Hcan) as [-> Hinv].
  replace (mkSearch (s_xfer s) (s_graph s) (candidates s) (hashmap s)) with s in Hr by (by destruct s).
  destruct b; simpl in Hr; [|injection Hr as <-; by eapply stepped_refl]. case_bool_decide as Hmapped; simpl in Hr; [injection Hr as <-; by eapply stepped_refl|].
  destruct (Hinv eq_refl) as (so & _ & Hso%opx_src_inv & _).
  destruct (match_runs _ _ _ _ Hrule (se_wf _ _ Hse) (se_slots _ _ Hse) Hmt Hnode Hcan Hmapped so Hso) as (x' & Hm & Hback & Hext).
  rewrite Hm in Hr. cbn [mbind res_bind] in Hr. apply res_bind_Ok in Hr as (st1 & Hrun & Hr). apply res_bind_Ok in Hr as (y & Hun & [= <-]).
  apply (match_steps d s so op x' st1 y Hrs Hso Hext Hback); [|done].
  assert (length (srcOps x') = length (srcOps (s_xfer st))) as Hlen.
  { destruct (extended_src _ _ _ _ _ _ Hext) as [-> _]. rewrite length_alter. by rewrite (cr_same _ _ _ _ (sp_xfer _ _ Hs)). }
  apply IH; [simpl; lia| |done]. cbn [s_xfer]. rewrite Hlen. replace (length (srcOps (s_xfer st)) - n)%nat with (S d) by lia.
  by apply (match_ready d s so op).
Qed.
End RunSteps.

(** ** Soundness *)

Lemma same_edges_matched x g g' : inEdges g = inEdges g' → matched x g → matched x g'.
Proof. intros He [Ho Hs Hi Hr]. unfold edge_of, nodes in *. split; unfold edge_of, nodes; rewrite <-?He; [done|done|done|done]. Qed.
Lemma same_edges_solves {V : Type} (F : Op → (Z → V) → Z → V) g g' val : inEdges g = inEdges g' → solves F g val → solves F g' val.
Proof. intros He. unfold solves, reads, edge_of, nodes. by rewrite He. Qed.

(** C4: whatever [run] puts on the heap computes what the graph computes.  A rule whose source
    pattern reads every tensor from outside once and that is not matched yet is run on a
    graph in which every input of every operator has one edge.  When [run] returns, the edges
    of the graph are what they were and the rule is not matched again, and every graph that
    it put on the heap comes from a real match: under every meaning of the operators for
    which the rule, so matched, is valid, all operators that were not matched have in the
    new graph the values they have in the old one. *)
Theorem run_sound `{PyObjects} threshold maxNumOps x g cs hs st :
  rule_ok x → idle (dstOps x) → searchable (xf_model x) g → matched_to 0 x g →
  run threshold maxNumOps (length (srcOps x)) (mkSearch x g cs hs) = Ok st →
  inEdges (s_graph st) = inEdges g ∧ same_rule x (s_xfer st) ∧ matched_to 0 (s_xfer st) (s_graph st) ∧
  ∀ c, c ∈ candidates st → c ∈ cs ∨ ∃ x', same_rule x x' ∧ matched x' g ∧
    ∀ (V : Type) (F : Op → (Z → V) → Z → V) val val', valid F x' → solves F g val → solves F c.2 val' →
      (∀ op i, guid op <= GUID_PRESERVED → val' op i = val op i) →
      ∀ op i, op ∈ nodes g → op ∉ dom (mappedOps x') → val' op i = val op i.
Proof.
  intros Hrule Hidle Hse Hmt Hrun. assert (ready 0 (mkSearch x g cs hs)) as Hready by done.
  assert (stepped (mkSearch x g cs hs) st) as Hst by (eapply run_steps, Hrun; [done|by rewrite Nat.sub_diag]).
  pose proof (stepped_ready _ _ _ Hready Hst) as Hready'. destruct Hst as [Hx Hg Hn]. simpl in *. split_and!; [by apply looked_up_in|by apply creating_rule|apply Hready'|].
  intros c Hc. destruct (Hn c Hc) as [?|[(x' & Hr & [gs new walked Hgs Hwf Hfed Hsl Hma Hft _ Hnew Hloop Hres]) _ _]]; [by left|right].
  exists x'. split_and!; [done|by eapply same_edges_matched|]. intros V F val val' Hvalid Hval Hval' Hsrc op i Hop Hno.
  eapply (kept_values F x' gs new walked val val'); try done; [by eapply same_edges_solves, Hval|by eapply same_edges_solves, Hval'|].
  unfold nodes in *. by rewrite Hgs.
Qed.

(** A convolution and a rectifier, the tensor of which a pooling reads, are fused. *)
#[local] Instance number_objects : PyObjects := {| py_id := λ o, match o with Some l => Zpos l | None => 0 end; py_hash := λ o, match o with Some l => Zpos l | None => 0 end |}.
Definition fuse_small_net : res (Graph * GraphXfer * search) :=
  st ← run_builds (take 5 small_net); x ← create_conv_relu (g_model st.1) 1 1 PD_MODE_SAME;
  s ← run (f8_of_Z 100) 100 (length (srcOps x)) (mkSearch x st.1 [] ∅); Ok (st.1, x, s).
Definition edge_numbers (g : Graph) : list (Z * Z * Z) := (λ e, (guid (srcOp e), guid (dstOp e), dstIdx e)) <$> (map_items (inEdges g) ≫= λ kv, edges kv.2).
Lemma run_sound_witness : ∃ g x s c x', fuse_small_net = Ok (g, x, s) ∧ c ∈ candidates s
  ∧ edge_numbers c.2 = [(10, 100, 0); (11, 101, 0); (11, 104, 0); (104, 105, 1); (106, 105, 0); (100, 106, 0); (101, 106, 1)]
  ∧ same_rule x x' ∧ matched x' g.
Proof.
  assert (('(g, x, s) ← fuse_small_net; Ok (bool_decide (NoDup (outside_ids (srcOps x))), (λ c, edge_numbers c.2) <$> candidates s))
    = Ok (true, [[(10, 100, 0); (11, 101, 0); (11, 104, 0); (104, 105, 1); (106, 105, 0); (100, 106, 0); (101, 106, 1)]])) as H by (vm_compute; reflexivity).
  apply res_bind_Ok in H as ([[g x] s] & Hs & H). injection H as Hlin Hcs. apply bool_decide_eq_true in Hlin.
  destruct (candidates s) as [|c [|]] eqn:Hcand; try discriminate Hcs. injection Hcs as Hedges.
  pose proof Hs as Hrun. unfold fuse_small_net in Hrun. apply res_bind_Ok in Hrun as ([g' ts] & Hb & Hrun). apply res_bind_Ok in Hrun as (x0 & Hx & Hrun).
  apply res_bind_Ok in Hrun as (s0 & Hrun & Heq). injection Heq as -> -> ->. cbn [fst] in Hrun, Hx.
  destruct (create_conv_relu_ready _ _ _ _ _ Hx) as [Hm [Hok Hidle Hmt]].
  destruct (run_sound (f8_of_Z 100) 100 x g [] ∅ s) as (_ & _ & _ & Hsound); [exact (Hok Hlin)|exact Hidle| |exact (Hmt g)|exact Hrun|].
  { rewrite Hm. exact (built_searchable g ts (run_builds_built _ _ _ Hb)). }
  destruct (Hsound c) as [Hnil|(x' & Hr & Hma & _)]; [rewrite Hcand; apply list_elem_of_here|destruct (not_elem_of_nil _ Hnil)|].
  exists g, x, s, c, x'. rewrite Hcand. exact (conj Hs (conj (list_elem_of_here _ _) (conj Hedges (conj Hr Hma)))).
Defined.
