(* ===== verification/DbOptimize.v ===== *)
(** * DbOptimize: the optimiser keeps what a graph computes

    [Graph.optimize] ([graph.py]) applies all rules to the cheapest graph on its heap, again
    and again, and returns the best graph it has seen, without its unused weights.  Every
    graph on the heap is reached from the first one by substitutions; the operators that all
    of them have left in place compute in the result what they computed before. *)

From S2P Require Import Prelude Float4 PgArray DbTensor DbOp DbModel Kahn DbGraph DbEdges DbLoad DbSubst DbRewrite DbMatch DbRules DbSearch.

Open Scope Z_scope.

(** ** Graphs that substitutions reach *)

Inductive derived (n : Z) (rules : list GraphXfer) (g : Graph) : list GraphXfer → Graph → Prop :=
  | derived_start g' : inEdges g' = inEdges g → derived n rules g [] g'
  | derived_step xs g1 x x' g2 : derived n rules g xs g1 → x ∈ rules → same_rule x x' → substitution n x' g1 g2 → derived n rules g (x' :: xs) g2.

Lemma derived_in n rules g xs g1 g2 : inEdges g2 = inEdges g1 → derived n rules g xs g1 → derived n rules g xs g2.
Proof.
  intros He. destruct 1 as [g1 Hg|xs g0 x x' g1 Hd Hx Hr [gs new walked ? ? ? ? ? ? ? ? ? Hres]]; [constructor; by rewrite He|].
  eapply derived_step; [done..|]. eapply (substitution_by n x' g0 g2 gs new walked); try done. by rewrite He.
Qed.
Lemma derived_rules n rules g xs g' : derived n rules g xs g' → ∀ x', x' ∈ xs → ∃ x, x ∈ rules ∧ same_rule x x'.
Proof. induction 1 as [|xs g1 x x' g2 _ IH Hx Hr _]; intros y Hy; [by apply elem_of_nil in Hy|]. apply elem_of_cons in Hy as [->|Hy]; [by exists x|by apply IH]. Qed.

Section Forward.
  Context {V : Type} (F : Op → (Z → V) → Z → V).

(** The values of the old graph give values of the new one, which differ only at new
    operators. *)
Lemma substitution_forward n x g g' val : substitution n x g g' → valid F x → solves F g val →
  ∃ val', solves F g' val' ∧ ∀ op i, guid op < n → val' op i = val op i.
Proof.
  intros [gs new walked Hgs Hwf Hfed Hsl Hma Hft Hnum Hnew Hloop Hres] Hvalid Hval. apply (same_edges_solves F g gs val (eq_sym Hgs)) in Hval.
  destruct (Hvalid _ _ (old_solved F x gs val Hma Hval)) as (vals & Hpat & Hout).
  exists (new_val x val vals). split.
  - apply (same_edges_solves F new g' _ (eq_sym Hres)). by apply (new_solves F x gs new val Hwf Hma Hft Hval vals).
  - intros op i Hop. unfold new_val. destruct (target_of x op) as [j|] eqn:Ht; [|done]. unfold target_of in Ht.
    destruct (list_find _ _) as [[k o]|] eqn:Hf; [|done]. apply list_find_Some in Hf as (Hk & Hb & _). destruct o as [o|]; [|done].
    apply bool_decide_unpack in Hb. pose proof (Hnum k o Hk). subst op. lia.
Qed.
Lemma derived_forward n rules g xs g' val : derived n rules g xs g' → Forall (valid F) xs → solves F g val →
  ∃ val', solves F g' val' ∧ ∀ op i, guid op < n → val' op i = val op i.
Proof.
  intros Hd Hv Hval. induction Hd as [g' He|xs g1 x x' g2 _ IH _ _ Hsub]; [exists val; split; [by eapply same_edges_solves, Hval|done]|].
  apply Forall_cons in Hv as [Hx Hv]. destruct (IH Hv) as (val1 & Hval1 & Heq). destruct (substitution_forward n x' g1 g2 val1 Hsub Hx Hval1) as (val2 & Hval2 & Heq2).
  exists val2. split; [done|]. intros op i Hop. by rewrite Heq2, Heq.
Qed.

(** What the operators kept compute does not depend on the weights removed. *)
Lemma removed_solves g g' val : weights_removed g g' → solves F g val → solves F g' val.
Proof.
  intros [_ Hn He _ _] Hval op ins Hop Hins. apply Hval; [by apply Hn|]. intros e Hx Hd. apply Hins; [|done]. apply He. by rewrite Hd.
Qed.
Lemma removed_slots g g' : weights_removed g g' → slots g → slots g'.
Proof. intros [_ _ He _ _] Hs e e' [? _]%He [? _]%He. by apply Hs. Qed.
Lemma removed_loops g g' : weights_removed g g' → loop_free g → loop_free g'.
Proof.
  intros [_ _ He _ _] Hl op Hop. apply (Hl op). revert Hop. generalize op at 1 3. intros a Hab.
  induction Hab as [a b (e & [Hx _]%He & ? & ?)|a b c (e & [Hx _]%He & ? & ?) _ IH]; [apply tc_once|eapply tc_l, IH]; by exists e.
Qed.
End Forward.

(** ** The rounds of the search *)

(** A rule between two runs. *)
Record at_rest (r x : GraphXfer) : Prop := {
  ar_rule : same_rule r x;
  ar_ok : rule_ok x;
  ar_idle : idle (dstOps x);
  ar_match : ∀ g, matched_to 0 x g
}.
Lemma unmatched_anywhere x g : matched_to 0 x g → ∀ g', matched_to 0 x g'.
Proof.
  intros [Ho Hs Hi Hout Hsrc Hun] g'. split; [done|intros k so Hk; lia|intros k so e Hk; lia|done| |done].
  intros n src l Hn. destruct (Hout n) as (k & so & Hk & _); [by rewrite Hn|lia].
Qed.
Lemma unmatched_model x m g : matched_to 0 x g → matched_to 0 (set_xf_model x m) g.
Proof. intros []. by split. Qed.

Section Rounds.
  Context `{PyObjects} (n : Z) (rules : list GraphXfer) (g0 : Graph).

(** A graph that the search may keep, when [m] is the state of the model. *)
Record good (m : Model) (g : Graph) : Prop := {
  gd_search : searchable m g;
  gd_loops : loop_free g;
  gd_derived : ∃ xs, derived n rules g0 xs g
}.
Lemma good_kept m m' g : kept m m' → good m g → good m' g.
Proof. intros Hk []. split; [by eapply searchable_kept|done|done]. Qed.
Lemma good_looked_up m g g' : looked_up g g' → good m g → good m g'.
Proof.
  intros Hl [Hs Hlf [xs Hd]]. split; [by eapply looked_up_searchable|by eapply looked_up_loops|]. exists xs. eapply derived_in, Hd. by apply looked_up_in.
Qed.

(** One rule. *)
Lemma run_rule threshold maxNumOps r x m g cs hs s : n <= global_unique_id m → r ∈ rules → at_rest r x → good m g → (∀ c, c ∈ cs → good m c.2) →
  run threshold maxNumOps (length (srcOps x)) (mkSearch (set_xf_model x m) g cs hs) = Ok s →
  kept m (xf_model (s_xfer s)) ∧ at_rest r (s_xfer s) ∧ good (xf_model (s_xfer s)) (s_graph s) ∧ ∀ c, c ∈ candidates s → good (xf_model (s_xfer s)) c.2.
Proof.
  intros Hn Hr [Hrule Hok Hidle Hmt] Hg Hcs Hrun. assert (same_rule x (set_xf_model x m)) as Hsame by done.
  assert (ready 0 (mkSearch (set_xf_model x m) g cs hs)) as Hready.
  { split; simpl; [by eapply same_rule_ok|done|apply Hg|by apply unmatched_model]. }
  assert (stepped (mkSearch (set_xf_model x m) g cs hs) s) as Hst by (eapply run_steps, Hrun; [done|by rewrite Nat.sub_diag]).
  pose proof (stepped_ready _ _ _ Hready Hst) as [Hok' Hidle' _ Hmt']. destruct Hst as [Hx Hl Hnew]. simpl in *. pose proof (cr_kept _ _ _ _ Hx) as Hk.
  split_and!; [done| |by eapply good_looked_up, good_kept|].
  - split; [|done|done|by eapply unmatched_anywhere]. rewrite Hrule, Hsame. by apply creating_rule.
  - intros c Hc. destruct (Hnew c Hc) as [?%Hcs|[(x' & Hx' & Hsub) Hse Hlf]]; [by eapply good_kept|]. split; [done|done|].
    destruct (gd_derived _ _ Hg) as [xs Hd]. exists (x' :: xs). eapply derived_step; [exact Hd|exact Hr|by rewrite Hrule, Hsame|].
    by eapply substitution_in, Hsub.
Qed.

(** What the search has between two rounds. *)
Record round_ok (st : Model * list GraphXfer * list candidate * gset Z) : Prop := {
  ro_guids : n <= global_unique_id st.1.1.1;
  ro_rules : Forall2 at_rest rules st.1.1.2;
  ro_heap : ∀ c, c ∈ st.1.2 → good st.1.1.1 c.2
}.

Lemma apply_rules_ok alpha bestCost maxNumOps g st st' : round_ok st → good st.1.1.1 g → apply_rules alpha bestCost maxNumOps g st = Ok st' →
  round_ok st' ∧ kept st.1.1.1 st'.1.1.1.
Proof.
  destruct st as [[[m xfers] cs] hs]. intros [Hn Hrules Hcs] Hg. simpl in *. unfold apply_rules. intros ([[[[m' rest'] g'] cs'] hs'] & Hloop & [= <-])%res_bind_Ok.
  assert (∀ xs rs rd rest m g cs hs, Forall2 at_rest rs xs → Forall2 at_rest rd rest → (∀ r, r ∈ rs → r ∈ rules) → n <= global_unique_id m →
    model_ok m → good m g → (∀ c, c ∈ cs → good m c.2) →
    foldM (λ x '(m, rest, g, cs, hs), s ← run (f8_mul bestCost alpha) (2 * maxNumOps) (length (srcOps x)) (mkSearch (set_xf_model x m) g cs hs);
      Ok (xf_model (s_xfer s), rest ++ [s_xfer s], s_graph s, candidates s, hashmap s)) xs (m, rest, g, cs, hs) = Ok (m', rest', g', cs', hs') →
    kept m m' ∧ Forall2 at_rest (rd ++ rs) rest' ∧ ∀ c, c ∈ cs' → good m' c.2) as Hall.
  { clear m cs hs g Hn Hrules Hcs Hg Hloop xfers. induction xs as [|x xs IH]; intros rs rd rest m g cs hs Hrs Hrd Hin Hn Hm Hg Hcs; cbn [foldM].
    - apply Forall2_nil_inv_r in Hrs as ->. intros [= <- <- <- <- <-]. rewrite app_nil_r. split; [by apply kept_refl|done].
    - apply Forall2_cons_inv_r in Hrs as (r & rs' & Hr & Hrs & ->). intros (st & (s & Hrun & [= <-])%res_bind_Ok & Hloop)%res_bind_Ok.
      destruct (run_rule _ _ r x m g cs hs s Hn (Hin r ltac:(left)) Hr Hg Hcs Hrun) as (Hk & Har & Hg' & Hcs').
      rewrite (cons_middle r rd rs'), app_assoc. apply (IH rs' (rd ++ [r])) in Hloop as (Hk' & ? & ?); [|done| | | |apply Hk|done|done].
      + split; [by etrans|done].
      + apply Forall2_app; [done|]. by constructor.
      + intros r' Hr'. apply Hin. by right.
      + pose proof (ke_guid _ _ Hk). lia. }
  apply (Hall xfers rules [] [] m g cs hs) in Hloop as (Hk & Hr & Hgood); [|done|done|done|done|apply Hg|done|done].
  split; [|done]. split; simpl; [pose proof (ke_guid _ _ Hk); lia|done|done].
Qed.

Lemma round_pop m xfers cs hs sub rest best : round_ok (m, xfers, cs, hs) → good m best.2 → heappop cheaper cs = Some (sub, rest) →
  good m sub.2 ∧ good m (if cheaper sub best then sub else best).2 ∧ round_ok (m, xfers, rest, hs).
Proof.
  intros [Hn Hrules Hcs] Hbest Hpop%heappop_Permutation. simpl in *. assert (good m sub.2) as Hsub by (apply Hcs; rewrite Hpop; left).
  split_and!; [done|by destruct (cheaper sub best)|]. split; simpl; [done|done|]. intros c Hc. apply Hcs. rewrite Hpop. by right.
Qed.
Lemma optimize_loop_ok alpha maxNumOps rounds : ∀ best st best', round_ok st → good st.1.1.1 best.2 → optimize_loop alpha rounds maxNumOps best st = Ok best' →
  ∃ m, good m best'.2.
Proof.
  induction rounds as [|rounds IH]; intros best [[[m xfers] cs] hs] best' Hst Hbest; cbn [optimize_loop];
    (destruct (heappop cheaper cs) as [[sub rest]|] eqn:Hpop; [|intros [= <-]; by exists m]);
    destruct (round_pop m xfers cs hs sub rest best Hst Hbest Hpop) as (Hsub & Hbest' & Hrest); [intros [= <-]; by exists m|].
  intros (st' & Hap & Hrun)%res_bind_Ok. apply apply_rules_ok in Hap as [Hst' Hk]; [|done|done].
  eapply IH, Hrun; [done|]. by eapply good_kept.
Qed.
End Rounds.

(** What the result of [optimize] has in common with the graph it started from. *)
Definition same_meaning (rules : list GraphXfer) (g g' : Graph) : Prop :=
  ∃ xs, (∀ x', x' ∈ xs → ∃ x, x ∈ rules ∧ same_rule x x') ∧
    ∀ (V : Type) (F : Op → (Z → V) → Z → V) val val', Forall (valid F) xs → solves F g val → solves F g' val' →
      (∀ op i, guid op <= GUID_PRESERVED → val' op i = val op i) →
      ∀ op i, op ∈ nodes g → op ∈ nodes g' → val' op i = val op i.
Lemma optimize_keeps `{PyObjects} alpha file budget g xfers g' :
  searchable (g_model g) g → loop_free g →
  load_graph_xfer_from_pb_file (g_model g) file = Ok xfers → (∀ x, x ∈ drop 131 xfers → linear x) →
  optimize alpha file budget g = Ok g' → graph_wf g' ∧ loop_free g' ∧ same_meaning (drop 131 xfers) g g'.
Proof.
  intros Hse Hlf Hload Hcheck. unfold optimize. rewrite Hload. cbn [mbind res_bind]. intros (cost & _ & (best & Hrun & Hpre)%res_bind_Ok)%res_bind_Ok.
  set (n := global_unique_id (g_model g)) in *. set (rules := drop 131 xfers) in *.
  assert (good n rules g (g_model g) g) as Hg by (split; [done|done|exists []; by constructor]).
  apply (optimize_loop_ok n rules g) in Hrun as [m [[Hwf Hfed _ _ _ Hslots] Hloops [xs Hd]]]; simpl; [|split; simpl; [done| |]|done].
  - destruct (preprocess_weights_removes best.2 Hwf Hfed) as (g1 & Hg1 & Hrem); [by eapply preprocess_weights_types|].
    assert (g1 = g') as -> by congruence. pose proof (removed_loops _ _ Hrem Hloops) as Hloops'. split_and!; [apply Hrem|done|].
    exists xs. split; [by eapply derived_rules|]. intros V F val val' Hv Hval Hval' Hsrc op i Hop Hop'.
    destruct (derived_forward F n rules g xs best.2 val Hd Hv Hval) as (val1 & Hval1 & Heq).
    rewrite <-Heq by (apply (se_guids _ _ Hse); by apply elem_of_union_l). assert (GUID_PRESERVED < n) as Hn.
    { pose proof (mo_guid _ (se_model _ _ Hse)). unfold GUID_PRESERVED. lia. }
    apply (solution_unique F g' val' val1); [apply Hrem|done|by eapply removed_slots, Hslots|done|by eapply removed_solves| |done].
    intros k j Hk. rewrite Hsrc, Heq by lia. done.
  - apply Forall2_same_length_lookup_2; [done|]. intros k r x Hr Hx. assert (r = x) as -> by congruence. apply list_elem_of_lookup_2 in Hx.
    assert (rule_ready x) as [Hok Hidle Hmt]. { eapply load_graph_xfer_ready; [done|]. by eapply (subseteq_drop 131 xfers). }
    split; [done|by apply Hok, Hcheck|done|done].
  - intros c ->%list_elem_of_singleton. done.
Qed.

(** C3: the optimiser keeps what a network computes.  It is given the graph of any model that
    [load_onnx] has read, and a file of which the rules it uses read every tensor from outside
    once.  If [optimize] returns a graph, that graph is well-formed and has no loops, and
    there is a list of matches of the rules such that, under every meaning of the operators
    for which the rules, so matched, are valid, every operator that is both in the old graph
    and in the new one has the same values in both. *)
Theorem optimize_sound `{PyObjects} array_values pool_data model g ts alpha file budget xfers g' :
  load_onnx array_values pool_data model = Ok (g, ts) →
  load_graph_xfer_from_pb_file (g_model g) file = Ok xfers → (∀ x, x ∈ drop 131 xfers → linear x) →
  optimize alpha file budget g = Ok g' → graph_wf g' ∧ loop_free g' ∧ same_meaning (drop 131 xfers) g g'.
Proof. intros (l & Hb & _)%load_onnx_loaded. apply optimize_keeps; [by eapply built_searchable|by eapply built_loop_free]. Qed.

(** A file of which the last two rules fuse a convolution with a rectifier and exchange the
    arguments of an addition. *)
#[local] Instance number_addresses : PyObjects := {| py_id := λ o, match o with Some l => Zpos l | None => 0 end; py_hash := λ o, match o with Some l => Zpos l | None => 0 end |}.
Definition outside_tensor (k : Z) : pb_Tensor := mkPbTensor (- k) 0.
Definition conv_para (acti : Z) : list pb_Parameter := [mkPara 6 1; mkPara 7 1; mkPara 8 0; mkPara 9 acti].
Definition rules_file : list pb_Rule :=
  replicate 131 (mkRule [] [] []) ++
  [mkRule [mkPbOperator 3 [outside_tensor 1; outside_tensor 2] (conv_para 0); mkPbOperator 8 [mkPbTensor 0 0] []]
     [mkPbOperator 3 [outside_tensor 1; outside_tensor 2] (conv_para 2)] [mkMapOutput 1 0 0 0];
   mkRule [mkPbOperator 16 [outside_tensor 1; outside_tensor 2] []] [mkPbOperator 16 [outside_tensor 2; outside_tensor 1] []] [mkMapOutput 0 0 0 0]].
(** A convolution and two rectifiers. *)
Definition fusible_model : ModelProto :=
  mkModelProto [("x", [1; 4; 8; 8])] [mkTensorProto "w" [4; 4; 3; 3] 1%positive]
    [mkNode "conv" "Conv" ["x"; "w"] ["c"] [("kernel_shape", AInts [3; 3]); ("strides", AInts [1; 1]); ("pads", AInts [1; 1; 1; 1])];
     mkNode "relu" "Relu" ["c"] ["r"] []; mkNode "last" "Relu" ["r"] ["y"] []].
Definition optimized : res (Graph * tensors * list GraphXfer * Graph) :=
  st ← load_onnx no_values 9%positive fusible_model; xfers ← load_graph_xfer_from_pb_file (g_model st.1) rules_file;
  g' ← optimize (f8_lit 105 100) rules_file 2 st.1; Ok (st, xfers, g').
Lemma optimize_sound_witness : ∃ g ts g' xfers, optimized = Ok (g, ts, xfers, g') ∧ (guid <$> keys (inEdges g)) = [100; 101; 102; 103; 104]
  ∧ (guid <$> keys (inEdges g')) = [100; 101; 104; 105] ∧ graph_wf g' ∧ loop_free g'.
Proof.
  assert (('(st, xfers, g') ← optimized;
      Ok (forallb (λ x, bool_decide (NoDup (outside_ids (srcOps x)))) (drop 131 xfers), guid <$> keys (inEdges st.1), guid <$> keys (inEdges g')))
    = Ok (true, [100; 101; 102; 103; 104], [100; 101; 104; 105])) as H by (vm_compute; reflexivity).
  apply res_bind_Ok in H as ([[[g ts] xfers] g'] & Hs & H). injection H as Hlin H1 H2.
  pose proof Hs as Hrun. unfold optimized in Hrun. apply res_bind_Ok in Hrun as ([g1 ts1] & Hb & Hrun). apply res_bind_Ok in Hrun as (xs & Hx & Hrun).
  apply res_bind_Ok in Hrun as (g2 & Hrun & Heq). injection Heq as -> -> -> ->. cbn [fst] in Hrun, Hx.
  destruct (optimize_sound no_values 9%positive fusible_model g ts (f8_lit 105 100) rules_file 2 xfers g') as (Hwf & Hlf & _); [exact Hb|exact Hx| |exact Hrun|].
  { intros x Hin. rewrite forallb_forall in Hlin. apply (bool_decide_eq_true_1 (NoDup _)). apply Hlin, list_elem_of_In. exact Hin. }
  exists g, ts, g', xfers. exact (conj Hs (conj H1 (conj H2 (conj Hwf Hlf)))).
Defined.
